(* ===== verification/_CoqProject ===== *)
-Q . S2P
Prelude.v
GoStrings.v
KubeTypes.v
ApiTypes.v
Effects.v
RelyGuarantee.v
Conditions.v
FlagSet.v
Naming.v
Constants.v
Merge.v
Requeue.v
Workload.v
LogDevice.v
Services.v
Admin.v
HMeta.v
AdminServer.v
HStore.v
HServer.v
Gateway.v
Console.v
Totality.v
DeepCopy.v
Fixtures.v
Bootstrap.v
Server.v
Status.v
Controller.v
Bounds.v
Passes.v
Footprint.v
Wellformed.v
Operator.v
Queue.v
Ideal.v
Desired.v
Settle.v
Convergence.v
Faults.v
Connector.v
Main.v
Fleet.v
Claims.v
Access.v
Pipeline.v
Schedule.v
Rollout.v
Witnesses.v
Scenarios.v
Runs.v
