(* ===== verification/Prelude.v ===== *)
(** * The HStream operator: a verification development (root file)

    The operator is a Kubernetes controller manager written in Go. It watches [HStreamDB] objects
    and brings a cluster (HMeta, the admin server, HStore, HServer, and optionally a gateway and a
    console) into the state they describe, and it deploys the streams of [Connector] objects. This
    library models the Go code under [src/internal], [src/api], [src/pkg] and [src/cmd] as executable
    definitions and proves what a reconciliation does to the API server, in every environment, and
    what the operator achieves over many reconciliations.

    ** How the program is put together

    [HStreamDBReconciler.Reconcile] (internal/controller/hstreamdb_controller.go) reads the object
    and runs twelve sub-reconcilers in a fixed order: the LogDevice configuration, the services,
    the HMeta stateful set, the status of HMeta, the admin server, the HStore stateful set, the
    bootstrap of HStore, the HServer stateful set, the bootstrap of HServer, the gateway, the
    console, and the overall status. A sub-reconciler works on the object in memory, which it may
    change, and on the API server; it returns nil, or a request that ends the pass or asks for a
    retry afterwards. The only state kept between two passes is in the API server: the stored
    objects, the annotation with the hash of the spec applied last, the config maps, and the
    conditions of the status. Three sub-reconcilers also run commands inside the cluster through
    the admin client. [ConnectorReconciler] and [ConnectorTemplateReconciler] meet only in the config
    map of a template, which one writes and the other reads. [main] starts the three controllers.

    ** Files

    Foundations
    - [Prelude]: panics ([go]), slices and maps with nil, iteration order of maps, 32-bit
      integers; the tactics and the hint databases [hop] and [hop_rw].
    - [GoStrings]: the functions of Go's strings and strconv packages in use.
    - [KubeTypes], [ApiTypes]: the Kubernetes structs, and the custom resources of src/api.
    - [Effects]: programs as trees of calls to the environment ([prog]); [exec p tr o], the runs
      of a program with their trace of calls and answers; [wp], every run; [run], evaluation
      against a concrete environment. [written] and [writes] are the objects a trace stores.

    Building blocks
    - [Conditions]: api/v1alpha2/condition_type.go.
    - [FlagSet]: internal/flagset.go and pkg/args/parse.go.
    - [Naming]: the helper files of src/internal. [Constants]: pkg/constants.
    - [Merge]: internal/controller/utils.go.
    - [Admin]: internal/admin, pkg/executor, pkg/selector.

    The HStreamDB controller (internal/controller)
    - [Requeue]: requeue.go and the loop [subReconcile].
    - [Workload]: the read, create, compare, update pattern of the add_*.go files, once.
    - [LogDevice]: logdevice_config.go, and src/internal/utils. [Services]: add_services.go.
    - [HMeta], [AdminServer], [HStore], [HServer], [Gateway], [Console]: the add_*.go files.
    - [Bootstrap]: update_hmeta_status.go, bootstrap_hstore.go, bootstrap_hserver.go.
    - [Status]: update_status.go. [Controller]: the list of sub-reconcilers and [Reconcile].

    Connectors and the process
    - [Connector]: connector_controller.go, connectortemplate_controller.go, pkg/connectorgen.
    - [Main]: cmd/main.go and the registrations of the controllers.
    - [Access]: the API groups and the scheme (groupversion_info.go, the [init] functions), the rbac
      markers, and the two roles deployed from them (config/rbac/role.yaml, the Helm chart).
    - [Fixtures]: the sample objects and the event recorder of src/mock.
    - [DeepCopy]: zz_generated.deepcopy.go of both API packages, over a heap of Go values.

    The environment, which is not in the repository
    - [RelyGuarantee]: [rg R G p Q], what a program guarantees of its calls as long as the answers
      meet a rely condition; a property of every prefix of every run.
    - [Server]: the [store], the answers a call may get from it ([serves]), and what users, other
      clients and the controllers of Kubernetes may do to it between two calls ([env_step]).
    - [Ideal]: one server among those, as a function: it does what it is told, and rolls out every
      workload at once. [Ideal.ideal_serves] says that it is one.

    Whole runs
    - [Totality]: for which input the builders neither panic nor fail.
    - [Bounds]: what a pass costs, and how long it puts the next one off.
    - [Passes]: the part of a rely-guarantee argument about a pass that does not depend on what is
      guaranteed. [Footprint] (what a pass may touch), [Claims], [Faults] and [Access] are instances.
    - [Wellformed]: the shape of the workloads.
    - [Operator]: passes for any clusters, interleaved with each other and with the environment,
      as a step relation; its reachable worlds and their invariants.
    - [Queue]: the same with the work queue that starts the passes, the event filter of the
      controller, and a process that dies and restarts. It refines [Operator].
    - [Fleet]: passes of all three controllers in one world. [Claims]: what they may update there,
      the volume claims of the stateful sets included.
    - [Desired]: the objects a cluster asks for, and what it means that a stored one is [current]:
      it carries the hash of the desired object, and its content is the desired one unless it
      carried that hash from the start. [Settle], [Convergence]: passes on the ideal server, sub-reconciler by sub-reconciler and
      as a whole. [Pipeline]: the same for templates and connectors.
    - [Faults]: any faulty history followed by a quiet phase.
    - [Schedule]: the same for everything that is installed. The one worker of each controller (the
      default of SetupWithManager) serves its keys in turn; [footprint] is what a pass may write,
      and no two passes for different keys share an object. [Rollout]: the connectors there.

    [Witnesses], [Scenarios], [Runs]: concrete clusters and environments, on which every theorem
    with hypotheses is applied.

    ** How operations correspond to the code

    A definition has the name of the Go function. Methods of the sub-reconcilers are in a module
    named after the receiver ([addHStore.getContainer]); where two functions share a name the
    package is the module ([v1alpha2.mergeMap], [admin.HMetaStatus]). A pure function is a Coq
    function, in [go] when it can panic, with a sum or an option for its error. A function that
    talks to the outside is a [prog]; [reconcile(ctx, r, hdb)] becomes a function from the object
    to a [prog] of the request and of the object it leaves. The inner blocks of long functions are
    definitions of their own, composed in the order of the code.

    ** Interfaces

    Code outside the repository is a parameter, as a class: [KubeLib] (intstr, hashstructure,
    resource quantities), [Gabs] and [ConnectorJson] (JSON), [AdminJson] (decoding of the list of
    nodes). [SortSlice] is Go's sort.Slice with its documented contract, implemented by
    [insertion_sort]. [AdminClientProvider] is the interface of the repository through which the
    controllers reach a cluster; [adminClientProvider] and [mockAdminClientProvider] implement it,
    and a theorem on the controllers holds for every implementation unless it names one.
    [WorkQueue] is the documented contract of the queue of the controller library. [Managed]
    states what the shared pattern needs of a kind of object, and [Stored] what it needs of the
    ideal server.

    ** What the theorems show

    - Reconciliation: the loop is a state machine ([pass]) and the two have the same runs; no pass
      that leaves the cluster not ready is lost ([Reconcile_never_lost]), and with the queue no
      change of a user is: a cluster is waited for, worked on, or ready for its present spec
      ([no_lost_wakeup]); the workload of the servers is not touched before the nodes of the metadata
      cluster were seen to be reachable and the storage was bootstrapped.
    - Status: what the stored conditions mean (which reads and which command preceded them), one
      condition per type, the times and the order of the conditions.
    - Stored objects: the contract and the idempotence of the create-or-update pattern, which
      fields an update of a stateful set may change, that the configuration and the number of
      shards are written once.
    - Derived pods: the command line of the servers and its agreement with the service, the mounts
      of the shards, the URL of the gateway, the port of the console.
    - User input: the parsers (termination, panics, round trip, agreement of the two), and the
      merging of environment, arguments, ports, labels and annotations with the defaults,
      independent of the iteration order of maps.
    - Connectors: precedence of the configurations, what is written and when, names, and the
      composition of the two controllers from a template to running streams.
    - Totality, bounds and shape: the builders never panic on readable input; one pass writes at
      most twelve objects and four times the status, and asks to come back within ten seconds;
      every workload mounts and names only what it declares.
    - Safety against the environment: a pass touches nothing but its own cluster; in every
      reachable world, with concurrent passes of all three controllers, with changes by others
      between any two calls and after a death at any point, no pending write is one that the server
      must reject, as long as the stateful set to be updated is not deleted meanwhile
      ([fleet_writes_acceptable]), and the number of shards of a cluster never changes. This needs
      that no stream of a connector is named like a component; [stream_takes_component] shows what happens
      otherwise.
    - Liveness: from any healthy store, on the ideal server, two passes make every object of a valid
      cluster current, objects that were stored with an older spec included, and record it as
      ready; further passes create and update no object, they only store the status again
      ([passes_converge]); and the stores that faulty runs leave behind, with failed calls, killed
      passes and pods that are not up, are healthy once the pods come up ([self_stabilises]); then
      every valid cluster converges on its own turns, whatever turns of other clusters, also of
      clusters whose passes panic, of connectors and of templates come in between
      ([every_cluster_converges]); and every connector is deployed once its template and then it
      has had a turn ([every_connector_deploys]). The two need that no stream is named like an
      object of a cluster or a template ([private_stream]).
    - The process: the order of the start and the exit codes; the role in config/rbac grants what
      the markers say, the one of the chart how much less; every call of every controller is
      granted by its markers and by the chart.
    - Deep copies: each generated function copies every reference of its declared type; the copy
      is the same object in memory of its own, and its slices are full.

    Several theorems state what the code does where it seems not to be meant: a panic on the
    argument ["-"], a service without annotations, an empty list of pods, the two addresses of
    HMeta, the ports of a connector with two streams, a deployment that is never retried, a stream
    that takes the place of a component ([stream_takes_component]) or of the number of shards
    ([stream_takes_shards]).

    ** Bounds, fuel and order

    [Parse] loops while arguments remain: its fuel is one more than their number, and any larger
    fuel gives the same result ([FlagSet.v]). All other recursions are structural. The order in
    which a range loop visits a map is part of the run: [CRange] answers with a list of numbers
    that [permute] turns into a permutation, and every permutation is the result of some list. The
    pure functions with a range loop take the order as an argument, or their result is shown not
    to depend on it. The fields of type int32 are integers of [Z]; the conversions from int wrap
    ([wrap32]), and where a bound is needed the theorem states it.

    ** Abstractions

    - An environment may answer anything: the answers of two calls need not be consistent. The
      theorems therefore hold for stale caches, concurrent writers and failing networks; those on
      idempotence and stability say which answer they assume.
    - [Get] replaces the object it is given, as with objects of the cache. [SetControllerReference]
      only changes the owner references.
    - A field the operator copies but never reads has type [opaque]; groups of fields it never
      looks at are one field.
    - Pointers into the cluster object, such as the number of replicas of a stateful set, are
      copied: nothing writes through them. The one pointer through which a loop changes what later
      rounds read, the connector, is threaded through the loop.
    - Slices are values: an append never writes into the spare capacity of another slice. This is
      what [DeepCopy.append_to_copy] shows of the objects of the cache; that it also holds after a
      status update, which decodes the answer into the object, is assumed.
    - A step of the operator is one call: what a pass computes between two calls is not observable.
      A call that fails may have been applied ([serves]), and a pass may end anywhere, which covers
      a crash of the operator and the loss of its leadership.
    - The ideal server has no delay: a workload it stores is rolled out. Convergence is therefore
      stated for a store that is left alone and whose workloads come up. [self_stabilises] also
      assumes that users ask for at least one replica of each stateful set, and that others leave
      the replicas, labels and annotations of the cluster's objects in place ([sound]).
    - A read sees the store as it is at that moment, and an event of the watch arrives some time
      after the change; a cache that lags behind the watch is not modelled in [Queue].
    - Which requests a call of the client library makes is its documented behaviour ([requests]).

    ** Not modelled

    Log lines; the parsing of the command line and the logger of the process; leader election and
    the length of the back-off; the Helm chart and the manifests but for the roles, which are
    templates without behaviour of their own; and the network protocol of the remote executor, of
    which only the answers count. *)
From stdpp Require Export base list gmap strings sorting.
From Stdlib Require Export ZArith Lia.

(** ** Hint databases and tactics of the development *)

Create HintDb hop discriminated.

(** Destructs the scrutinee of some [match]/[if] of the goal, keeping the equation. *)
Ltac case_goal :=
  match goal with
  | |- context [match ?x with _ => _ end] => destruct x eqn:?; simplify_eq/=
  end.

(** The same in the hypotheses. *)
Ltac case_hyp :=
  match goal with
  | H : context [match ?x with _ => _ end] |- _ => destruct x eqn:?; simplify_eq/=
  end.

(** ** Outcome of Go code that may panic *)

Inductive go (A : Type) : Type :=
| Done (a : A)
| Panic (msg : string).
Arguments Done {A} _.
Arguments Panic {A} _.

#[export] Instance go_ret : MRet go := @Done.
#[export] Instance go_bind : MBind go := fun A B f m =>
  match m with Done a => f a | Panic msg => Panic msg end.
#[export] Instance go_fmap : FMap go := fun A B f m =>
  match m with Done a => Done (f a) | Panic msg => Panic msg end.

(** The value of a computation that did not panic. *)
Definition done {A} (m : go A) : option A :=
  match m with Done a => Some a | Panic _ => None end.

(** ** Slices: [None] is the nil slice, which Go distinguishes from an empty one *)

Abbreviation slice A := (option (list A)).

Definition elems {A} (s : slice A) : list A := default [] s.

(** [append(s, xs...)]: appending nothing returns the slice itself, nil included. *)
Definition append {A} (s : slice A) (xs : list A) : slice A :=
  match xs with [] => s | _ => Some (elems s ++ xs) end.

(** ** Maps from strings: [None] is the nil map *)

Abbreviation gomap V := (option (gmap string V)).

Definition entries {V} (m : gomap V) : gmap string V := default ∅ m.

(** [v, ok := m[k]]: a nil map reads as empty. *)
Definition mget {V} (m : gomap V) (k : string) : option V := entries m !! k.

(** [m[k] = v]: panics on a nil map. *)
Definition mset {V} (m : gomap V) (k : string) (v : V) : go (gomap V) :=
  match m with
  | Some m' => Done (Some (<[k := v]> m'))
  | None => Panic "assignment to entry in nil map"
  end.

(** [m[k]] on a [map[string]string]: the empty string when the key is absent. *)
Definition mstr (m : gomap string) (k : string) : string := default EmptyString (mget m k).

(** ** Iteration order of maps

    Go leaves the order of [range] over a map unspecified. A run of the program takes it from a
    list of numbers: at each position the number picks, modulo the length, which of the entries
    not yet visited comes next. Every list of numbers gives a permutation and every permutation
    is given by some list ([permute_Permutation], [permute_complete]). *)
Fixpoint permute {A} (code : list nat) (l : list A) : list A :=
  match code, l with
  | [], _ => l
  | _, [] => []
  | i :: code', x :: _ =>
      let j := i mod length l in
      default x (l !! j) :: permute code' (delete j l)
  end.

(** ** 32-bit integers: a Go [int32] is a [Z] in range; conversions wrap *)

Definition int32_ok (z : Z) : Prop := (- 2 ^ 31 <= z < 2 ^ 31)%Z.
Definition int64_ok (z : Z) : Prop := (- 2 ^ 63 <= z < 2 ^ 63)%Z.
#[export] Instance int32_ok_dec z : Decision (int32_ok z).
Proof. unfold int32_ok. apply _. Defined.
#[export] Instance int64_ok_dec z : Decision (int64_ok z).
Proof. unfold int64_ok. apply _. Defined.

(** [int32(z)] *)
Definition wrap32 (z : Z) : Z := ((z + 2 ^ 31) mod 2 ^ 32 - 2 ^ 31)%Z.

(** ** Lemmas *)

Lemma wrap32_id z : int32_ok z -> wrap32 z = z.
Proof. unfold int32_ok, wrap32. intros ?. rewrite Z.mod_small; lia. Qed.

Lemma wrap32_ok z : int32_ok (wrap32 z).
Proof. unfold int32_ok, wrap32. pose proof (Z.mod_pos_bound (z + 2 ^ 31) (2 ^ 32)). lia. Qed.

Lemma Done_inj {A} (a b : A) : Done a = Done b -> a = b.
Proof. by intros [= ->]. Qed.

Lemma go_bind_done {A B} (m : go A) (f : A -> go B) b :
  m ≫= f = Done b <-> exists a, m = Done a /\ f a = Done b.
Proof. split; [destruct m; simpl; eauto; done | by intros (? & -> & ?)]. Qed.

Lemma go_bind_panic {A B} (m : go A) (f : A -> go B) msg :
  m ≫= f = Panic msg <-> m = Panic msg \/ exists a, m = Done a /\ f a = Panic msg.
Proof.
  split; [|intros [-> | (? & -> & ?)]; done].
  destruct m; simpl; intros H; simplify_eq; eauto.
Qed.

Lemma elems_append {A} (s : slice A) xs : elems (append s xs) = elems s ++ xs.
Proof. destruct xs; simpl; [by rewrite app_nil_r | done]. Qed.

Lemma append_app {A} (s : slice A) xs ys : append (append s xs) ys = append s (xs ++ ys).
Proof.
  destruct xs as [|x xs], ys as [|y ys]; simpl; rewrite ?app_nil_r; try done.
  by rewrite <-app_assoc.
Qed.

Lemma append_nil {A} (s : slice A) : append s [] = s.
Proof. done. Qed.

Create Rewrite HintDb hop_rw.
#[export] Hint Rewrite @elems_append @append_app : hop_rw.

Lemma permute_Permutation {A} code (l : list A) : permute code l ≡ₚ l.
Proof.
  revert l. induction code as [|i code IH]; intros [|x l]; cbn [permute]; try done.
  destruct (lookup_lt_is_Some_2 (x :: l) (i mod length (x :: l))) as [y Hy].
  { apply Nat.mod_upper_bound. done. }
  rewrite Hy, IH. symmetry. by apply delete_Permutation.
Qed.

Lemma permute_complete {A} (l l' : list A) : l' ≡ₚ l -> exists code, permute code l = l'.
Proof.
  revert l. induction l' as [|y l' IH]; intros l Hp.
  - apply Permutation_nil_l in Hp as ->. by exists [].
  - assert (y ∈ l) as Hin by (rewrite <-Hp; left).
    apply list_elem_of_lookup in Hin as [j Hj].
    destruct (IH (delete j l)) as [code Hc].
    { apply (Permutation_cons_inv (a := y)). rewrite Hp. by apply delete_Permutation. }
    exists (j :: code). destruct l as [|x l]; [done|].
    assert (j < length (x :: l)) by by eapply lookup_lt_Some.
    cbn [permute]. rewrite Nat.mod_small by done. rewrite Hj. simpl. by f_equal.
Qed.

#[export] Hint Resolve permute_Permutation : hop.

Lemma filter_all {A} (P : A -> Prop) `{forall x, Decision (P x)} (l : list A) :
  (forall x, x ∈ l -> P x) -> filter P l = l.
Proof.
  induction l as [|x l IH]; intros Hl; [done|].
  rewrite filter_cons_True by (apply Hl; left). f_equal. apply IH. intros y Hy. apply Hl. by right.
Qed.

Lemma filter_none {A} (P : A -> Prop) `{forall x, Decision (P x)} (l : list A) :
  (forall x, x ∈ l -> ~ P x) -> filter P l = [].
Proof.
  induction l as [|x l IH]; intros Hl; [done|].
  rewrite filter_cons_False by (apply Hl; left). apply IH. intros y Hy. apply Hl. by right.
Qed.

Lemma Sorted_weaken {A} (R R' : relation A) l :
  (forall x y, R x y -> R' x y) -> Sorted R l -> Sorted R' l.
Proof.
  intros HR. induction 1 as [|x l Hs IH Hd]; [constructor|].
  constructor; [done|]. destruct Hd; constructor; auto.
Qed.

Lemma forallb_Permutation {A} (f : A -> bool) l l' : l ≡ₚ l' -> forallb f l = forallb f l'.
Proof.
  induction 1 as [|x l l' _ IH|x y l|l1 l2 l3 _ IH1 _ IH2]; simpl;
    [done|by rewrite IH|by destruct (f x), (f y)|by rewrite IH1].
Qed.

Lemma forallb_elem {A} (f : A -> bool) l x : forallb f l = true -> x ∈ l -> f x = true.
Proof. rewrite forallb_forall. intros H Hx. by apply H, list_elem_of_In. Qed.

Lemma Permutation_refl' {A} (l l' : list A) : l = l' -> l ≡ₚ l'.
Proof. by intros ->. Qed.

Lemma mstr_Some (m : gmap string string) k : mstr (Some m) k = default "" (m !! k).
Proof. done. Qed.

Lemma mstr_None k : mstr None k = "".
Proof. done. Qed.

Lemma mget_Some {V} (m : gmap string V) k : mget (Some m) k = m !! k.
Proof. done. Qed.
