(* ===== verification/GoStrings.v ===== *)
(** * The functions of Go's [strings] and [strconv] packages the operator uses

    Strings are byte strings, as in Go. [Itoa] goes through the standard library's decimal
    numbers, whose printer and parser are proved inverse there. *)
From Stdlib Require Import Ascii.
From Stdlib Require Import DecimalString DecimalZ DecimalPos.
From S2P Require Import Prelude.

#[global] Arguments String.append !s1 s2 / : simpl nomatch.

#[local] Open Scope string_scope.

Definition dash : Ascii.ascii := "-"%char.
Definition eqsign : Ascii.ascii := "="%char.
Definition plus : Ascii.ascii := "+"%char.
Definition colon : Ascii.ascii := ":"%char.
Definition underscore : Ascii.ascii := "_"%char.

(** ** [strings] *)

(** [strings.HasPrefix(s, p)] *)
Definition HasPrefix (s p : string) : bool := String.prefix p s.

(** [strings.TrimLeft(s, "-")] *)
Fixpoint TrimLeftDash (s : string) : string :=
  match s with
  | String c s' => if Ascii.eqb c dash then TrimLeftDash s' else s
  | EmptyString => EmptyString
  end.

(** [strings.Split(s, sep)] for a separator of one byte: the fields, one more than the number
    of separators. *)
Fixpoint Split (s : string) (sep : Ascii.ascii) : list string :=
  match s with
  | EmptyString => [EmptyString]
  | String c s' =>
      if Ascii.eqb c sep then EmptyString :: Split s' sep
      else match Split s' sep with
           | f :: fs => String c f :: fs
           | [] => [String c EmptyString]
           end
  end.

(** [strings.Join(l, sep)] *)
Fixpoint Join (l : list string) (sep : string) : string :=
  match l with
  | [] => EmptyString
  | [s] => s
  | s :: l' => s +:+ sep +:+ Join l' sep
  end.

(** [strings.Replace(s, old, new, -1)] for strings of one byte *)
Fixpoint Replace (s : string) (old new : Ascii.ascii) : string :=
  match s with
  | EmptyString => EmptyString
  | String c s' => String (if Ascii.eqb c old then new else c) (Replace s' old new)
  end.

(** The first position of [c] in [s]: what is before it and what is after it. *)
Fixpoint cut (s : string) (c : Ascii.ascii) : option (string * string) :=
  match s with
  | EmptyString => None
  | String d s' =>
      if Ascii.eqb d c then Some (EmptyString, s')
      else '(l, r) ← cut s' c; Some (String d l, r)
  end.

(** ** [strconv] *)

(** [strconv.Itoa(n)], also [fmt.Sprintf("%d", n)] *)
Definition Itoa (n : Z) : string := NilZero.string_of_int (Z.to_int n).

(** [strconv.Atoi(s)]: an optional sign, then at least one digit, and a value that fits an
    [int]; anything else is an error. *)
Definition Atoi (s : string) : option Z :=
  let '(neg, body) :=
    match s with
    | String c s' =>
        if Ascii.eqb c dash then (true, s')
        else if Ascii.eqb c plus then (false, s') else (false, s)
    | EmptyString => (false, s)
    end in
  u ← NilZero.uint_of_string body;
  let n := if neg : bool then (- Z.of_uint u)%Z else Z.of_uint u in
  if decide (int64_ok n) then Some n else None.

(** ** Lemmas *)

Lemma Ascii_eqb_refl c : Ascii.eqb c c = true.
Proof. apply Ascii.eqb_refl. Qed.

Lemma Ascii_eqb_neq c d : c <> d -> Ascii.eqb c d = false.
Proof. apply Ascii.eqb_neq. Qed.

#[export] Hint Rewrite Ascii_eqb_refl : hop_rw.

Lemma string_app_assoc (s1 s2 s3 : string) : (s1 +:+ s2) +:+ s3 = s1 +:+ (s2 +:+ s3).
Proof. induction s1; simpl; congruence. Qed.

Lemma string_app_nil_r (s : string) : s +:+ "" = s.
Proof. induction s; simpl; congruence. Qed.

Lemma string_app_inj_r (s1 s2 t : string) : s1 +:+ t = s2 +:+ t -> s1 = s2.
Proof.
  assert (forall a b : string, String.length (a +:+ b) = String.length a + String.length b)
    as Hlen by (induction a; simpl; auto).
  revert s2. induction s1 as [|c s1 IH]; intros [|d s2] H; simpl in *; try done.
  - apply (f_equal String.length) in H. simpl in H. rewrite Hlen in H. lia.
  - apply (f_equal String.length) in H. simpl in H. rewrite Hlen in H. lia.
  - simplify_eq. f_equal. eauto.
Qed.

Lemma HasPrefix_app p s : HasPrefix (p +:+ s) p = true.
Proof.
  unfold HasPrefix. induction p as [|c p IH]; simpl; [by destruct s|].
  by destruct (Ascii.ascii_dec c c).
Qed.

Lemma HasPrefix_spec s p : HasPrefix s p = true <-> exists t, s = p +:+ t.
Proof.
  split; [|intros [t ->]; apply HasPrefix_app].
  unfold HasPrefix. revert s. induction p as [|c p IH]; intros s; simpl; [eauto|].
  destruct s as [|d s]; simpl; [done|].
  destruct (Ascii.ascii_dec c d) as [->|]; [|done].
  intros [t ->]%IH. eauto.
Qed.

Lemma Split_cons s sep : exists f fs, Split s sep = f :: fs.
Proof.
  destruct s as [|c s]; simpl; [by eauto|].
  destruct (Ascii.eqb c sep); [by eauto|]. destruct (Split s sep); eauto.
Qed.

Lemma Split_no_sep s sep : cut s sep = None -> Split s sep = [s].
Proof.
  induction s as [|c s IH]; simpl; [done|].
  destruct (Ascii.eqb c sep); [done|].
  destruct (cut s sep) as [[l r]|]; simpl; [done|]. intros _. by rewrite IH.
Qed.

Lemma cut_Some s c l r : cut s c = Some (l, r) -> s = l +:+ String c r /\ cut l c = None.
Proof.
  revert l. induction s as [|d s IH]; intros l; simpl; [done|].
  destruct (Ascii.eqb_spec d c) as [->|Hne]; [by intros [= <- <-]|].
  destruct (cut s c) as [[l' r']|]; simpl; [|done]. intros [= <- <-].
  destruct (IH l' eq_refl) as [-> Hl]. simpl. split; [done|].
  apply Ascii.eqb_neq in Hne. by rewrite Hne, Hl.
Qed.

Lemma cut_app s c t : cut s c = None -> cut (s +:+ String c t) c = Some (s, t).
Proof.
  induction s as [|d s IH]; simpl; [by rewrite Ascii_eqb_refl|].
  destruct (Ascii.eqb d c); [done|]. destruct (cut s c) as [[]|]; simpl; [done|].
  intros _. by rewrite IH.
Qed.

(** [Split] recovers the two sides of a string with one separator. *)
Lemma Split_app s sep t :
  cut s sep = None -> cut t sep = None -> Split (s +:+ String sep t) sep = [s; t].
Proof.
  intros Hs Ht. induction s as [|c s IH]; simpl.
  - rewrite Ascii_eqb_refl. by rewrite Split_no_sep.
  - simpl in Hs. destruct (Ascii.eqb c sep); [done|].
    destruct (cut s sep) as [[]|]; simpl in Hs; [done|]. by rewrite IH.
Qed.

Lemma Replace_id s old new : cut s old = None -> Replace s old new = s.
Proof.
  induction s as [|c s IH]; simpl; [done|].
  destruct (Ascii.eqb c old); [done|].
  destruct (cut s old) as [[]|]; simpl; [done|]. intros _. by rewrite IH.
Qed.

Lemma Replace_no_old s old new : old <> new -> cut (Replace s old new) old = None.
Proof.
  intros Hne. induction s as [|c s IH]; simpl; [done|].
  destruct (Ascii.eqb_spec c old) as [->|Hc].
  - rewrite Ascii_eqb_neq by done. by rewrite IH.
  - rewrite Ascii_eqb_neq by done. by rewrite IH.
Qed.

Lemma TrimLeftDash_no_dash s c s' : TrimLeftDash s = String c s' -> c <> dash.
Proof.
  induction s as [|d s IH]; simpl; [done|].
  destruct (Ascii.eqb_spec d dash); [done|]. by intros [= -> ->].
Qed.

(** *** Decimal printing *)

Definition is_digit (c : Ascii.ascii) : bool :=
  (48 <=? Ascii.nat_of_ascii c)%nat && (Ascii.nat_of_ascii c <=? 57)%nat.

Lemma string_of_uint_cut u c : is_digit c = false -> cut (NilZero.string_of_uint u) c = None.
Proof.
  intros Hc.
  assert (cut (NilEmpty.string_of_uint u) c = None) as Hu.
  { induction u; cbn [NilEmpty.string_of_uint cut]; [done|..];
      (rewrite Ascii_eqb_neq by (by intros <-)); by rewrite IHu. }
  destruct u; try exact Hu.
  cbn [NilZero.string_of_uint cut]. by rewrite Ascii_eqb_neq by (by intros <-).
Qed.

Lemma string_of_uint_head u : exists c s, NilZero.string_of_uint u = String c s /\ is_digit c = true.
Proof. destruct u; simpl; eauto. Qed.

Lemma string_of_uint_of_string u : u <> Decimal.Nil -> NilZero.uint_of_string (NilZero.string_of_uint u) = Some u.
Proof. apply NilZero.usu. Qed.

(** The decimal form of a number contains digits, and a leading minus sign, only. *)
Lemma Itoa_cut n c : is_digit c = false -> c <> dash -> cut (Itoa n) c = None.
Proof.
  intros Hc Hd. unfold Itoa. destruct n; cbn [Z.to_int NilZero.string_of_int].
  1-2: by apply string_of_uint_cut.
  cbn [cut]. rewrite Ascii_eqb_neq by (intros <-; by apply Hd). by rewrite string_of_uint_cut.
Qed.

Lemma Atoi_digits u :
  u <> Decimal.Nil ->
  Atoi (NilZero.string_of_uint u) =
    if decide (int64_ok (Z.of_uint u)) then Some (Z.of_uint u) else None.
Proof.
  intros Hu. unfold Atoi. pose proof (string_of_uint_of_string u Hu) as Hp.
  destruct (string_of_uint_head u) as (c & s & Hs & Hc). rewrite Hs in *.
  rewrite !Ascii_eqb_neq by (by intros ->). by rewrite Hp.
Qed.

(** Parsing back what [Itoa] prints gives the number, for every Go [int]. *)
Lemma Atoi_Itoa n : int64_ok n -> Atoi (Itoa n) = Some n.
Proof.
  intros Hn. unfold Itoa. pose proof (DecimalZ.of_to n) as Hz.
  destruct n as [|p|p]; cbn [Z.to_int NilZero.string_of_int Z.of_int] in *; [done|..].
  - rewrite Atoi_digits by apply Unsigned.to_uint_nonnil.
    by rewrite Hz, decide_True.
  - unfold Atoi. cbn [Ascii.eqb dash Bool.eqb].
    rewrite string_of_uint_of_string by apply Unsigned.to_uint_nonnil. simpl.
    rewrite Hz. by rewrite decide_True.
Qed.

Lemma to_int_nonnil n : Z.to_int n <> Decimal.Pos Decimal.Nil /\ Z.to_int n <> Decimal.Neg Decimal.Nil.
Proof.
  destruct n as [|p|p]; simpl; split; try done; intros [= H];
    by apply Unsigned.to_uint_nonnil in H.
Qed.

Lemma Itoa_inj n m : Itoa n = Itoa m -> n = m.
Proof.
  unfold Itoa. intros H%(f_equal NilZero.int_of_string).
  destruct (to_int_nonnil n), (to_int_nonnil m).
  rewrite !NilZero.isi in H by done. injection H as H. by apply DecimalZ.to_int_inj.
Qed.

Lemma Itoa_nonempty n : Itoa n <> EmptyString.
Proof.
  unfold Itoa. destruct n as [|p|p]; cbn [Z.to_int NilZero.string_of_int]; [done| |done].
  destruct (string_of_uint_head (Pos.to_uint p)) as (? & ? & -> & _). done.
Qed.

Lemma Itoa_not_dash n : Itoa n <> String dash "".
Proof.
  unfold Itoa. destruct n as [|p|p]; cbn [Z.to_int NilZero.string_of_int]; [done| |].
  - destruct (string_of_uint_head (Pos.to_uint p)) as (c & s & -> & Hc). by intros [= ->].
  - destruct (string_of_uint_head (Pos.to_uint p)) as (c & s & -> & Hc). done.
Qed.

#[export] Hint Resolve HasPrefix_app Itoa_nonempty : hop.
