(* ===== verification/KubeTypes.v ===== *)
(** * The Kubernetes API objects the operator reads and builds

    The structs of [k8s.io/api] and [k8s.io/apimachinery] are outside the repository; their
    fields are those of the schemas in [src/config/crd/bases]. A field the operator only copies
    has type [opaque]; a group of fields it never looks at is one [..._rest] field. A pointer is
    an [option], a slice an [option (list _)] (nil is [None]), a [map[string]string] a
    [gomap string]; [int32] and [int64] fields are integers of type [Z]. *)
From S2P Require Import Prelude GoStrings.

(** A value that is only copied; [None] is its zero value where the type is [option opaque]. *)
Inductive opaque := Opaque (repr : string).

(** ** Metadata *)

Record NamespacedName := { nn_Namespace : string; nn_Name : string }.

Record OwnerReference := { owner_Kind : string; owner_Name : string; owner_Controller : bool }.

Record ObjectMeta := {
  meta_Name : string;
  meta_Namespace : string;
  meta_Labels : gomap string;
  meta_Annotations : gomap string;
  meta_OwnerReferences : slice OwnerReference;
  meta_Generation : Z;
  meta_Deleted : bool; (* DeletionTimestamp is set *)
  meta_rest : option opaque
}.

Definition meta_zero : ObjectMeta := {|
  meta_Name := ""; meta_Namespace := ""; meta_Labels := None; meta_Annotations := None;
  meta_OwnerReferences := None; meta_Generation := 0; meta_Deleted := false; meta_rest := None |}.

Definition meta_set_Name (v : string) (m : ObjectMeta) : ObjectMeta := {|
  meta_Name := v; meta_Namespace := meta_Namespace m; meta_Labels := meta_Labels m;
  meta_Annotations := meta_Annotations m; meta_OwnerReferences := meta_OwnerReferences m;
  meta_Generation := meta_Generation m; meta_Deleted := meta_Deleted m; meta_rest := meta_rest m |}.

Definition meta_set_Namespace (v : string) (m : ObjectMeta) : ObjectMeta := {|
  meta_Name := meta_Name m; meta_Namespace := v; meta_Labels := meta_Labels m;
  meta_Annotations := meta_Annotations m; meta_OwnerReferences := meta_OwnerReferences m;
  meta_Generation := meta_Generation m; meta_Deleted := meta_Deleted m; meta_rest := meta_rest m |}.

Definition meta_set_Labels (v : gomap string) (m : ObjectMeta) : ObjectMeta := {|
  meta_Name := meta_Name m; meta_Namespace := meta_Namespace m; meta_Labels := v;
  meta_Annotations := meta_Annotations m; meta_OwnerReferences := meta_OwnerReferences m;
  meta_Generation := meta_Generation m; meta_Deleted := meta_Deleted m; meta_rest := meta_rest m |}.

Definition meta_set_Annotations (v : gomap string) (m : ObjectMeta) : ObjectMeta := {|
  meta_Name := meta_Name m; meta_Namespace := meta_Namespace m; meta_Labels := meta_Labels m;
  meta_Annotations := v; meta_OwnerReferences := meta_OwnerReferences m;
  meta_Generation := meta_Generation m; meta_Deleted := meta_Deleted m; meta_rest := meta_rest m |}.

Definition meta_set_OwnerReferences (v : slice OwnerReference) (m : ObjectMeta) : ObjectMeta := {|
  meta_Name := meta_Name m; meta_Namespace := meta_Namespace m; meta_Labels := meta_Labels m;
  meta_Annotations := meta_Annotations m; meta_OwnerReferences := v;
  meta_Generation := meta_Generation m; meta_Deleted := meta_Deleted m; meta_rest := meta_rest m |}.

(** [client.ObjectKeyFromObject] *)
Definition ObjectKey (m : ObjectMeta) : NamespacedName :=
  {| nn_Namespace := meta_Namespace m; nn_Name := meta_Name m |}.

(** ** Containers *)

Inductive IntOrString := FromInt (n : Z) | FromString (s : string).

Record ContainerPort := {
  port_Name : string;
  port_HostPort : Z;
  port_ContainerPort : Z;
  port_Protocol : string;
  port_HostIP : string
}.

Definition port_set_Name (v : string) (p : ContainerPort) : ContainerPort := {|
  port_Name := v; port_HostPort := port_HostPort p; port_ContainerPort := port_ContainerPort p;
  port_Protocol := port_Protocol p; port_HostIP := port_HostIP p |}.

Definition port_set_ContainerPort (v : Z) (p : ContainerPort) : ContainerPort := {|
  port_Name := port_Name p; port_HostPort := port_HostPort p; port_ContainerPort := v;
  port_Protocol := port_Protocol p; port_HostIP := port_HostIP p |}.

(** A [ContainerPort] literal with the three fields the operator sets. *)
Definition mkPort (name : string) (n : Z) (protocol : string) : ContainerPort := {|
  port_Name := name; port_HostPort := 0; port_ContainerPort := n; port_Protocol := protocol;
  port_HostIP := "" |}.

Definition ProtocolTCP : string := "TCP".

(** [ValueFrom] with a [FieldRef], or another source. *)
Inductive EnvVarSource := FieldRef (fieldPath : string) | OtherSource (o : opaque).

Record EnvVar := { env_Name : string; env_Value : string; env_ValueFrom : option EnvVarSource }.

Definition mkEnv (name value : string) : EnvVar :=
  {| env_Name := name; env_Value := value; env_ValueFrom := None |}.

Record VolumeMount := {
  vm_Name : string;
  vm_ReadOnly : bool;
  vm_MountPath : string;
  vm_SubPath : string;
  vm_rest : option opaque
}.

Inductive ProbeHandler :=
| TCPSocket (port : IntOrString)
| HTTPGet (path : string) (port : IntOrString) (scheme : string)
| OtherHandler (o : opaque).

Record Probe := {
  probe_Handler : ProbeHandler;
  probe_InitialDelaySeconds : Z;
  probe_TimeoutSeconds : Z;
  probe_PeriodSeconds : Z;
  probe_FailureThreshold : Z;
  probe_rest : option opaque
}.

Record Container := {
  ctr_Name : string;
  ctr_Image : string;
  ctr_Command : slice string;
  ctr_Args : slice string;
  ctr_WorkingDir : string;
  ctr_Ports : slice ContainerPort;
  ctr_EnvFrom : slice opaque;
  ctr_Env : slice EnvVar;
  ctr_Resources : option opaque; (* None: the zero ResourceRequirements *)
  ctr_VolumeMounts : slice VolumeMount;
  ctr_VolumeDevices : slice opaque;
  ctr_LivenessProbe : option Probe;
  ctr_ReadinessProbe : option Probe;
  ctr_StartupProbe : option Probe;
  ctr_Lifecycle : option opaque;
  ctr_TerminationMessagePath : string;
  ctr_TerminationMessagePolicy : string;
  ctr_ImagePullPolicy : string;
  ctr_SecurityContext : option opaque;
  ctr_Stdin : bool;
  ctr_StdinOnce : bool;
  ctr_TTY : bool
}.

Definition ctr_zero : Container := {|
  ctr_Name := ""; ctr_Image := ""; ctr_Command := None; ctr_Args := None; ctr_WorkingDir := "";
  ctr_Ports := None; ctr_EnvFrom := None; ctr_Env := None; ctr_Resources := None;
  ctr_VolumeMounts := None; ctr_VolumeDevices := None; ctr_LivenessProbe := None;
  ctr_ReadinessProbe := None; ctr_StartupProbe := None; ctr_Lifecycle := None;
  ctr_TerminationMessagePath := ""; ctr_TerminationMessagePolicy := "";
  ctr_ImagePullPolicy := ""; ctr_SecurityContext := None; ctr_Stdin := false;
  ctr_StdinOnce := false; ctr_TTY := false |}.

(** The container with new values for the fields the operator assigns. *)
Definition ctr_with (name image pull : string) (command args : slice string)
    (ports : slice ContainerPort) (env : slice EnvVar) (mounts : slice VolumeMount)
    (liveness readiness : option Probe) (c : Container) : Container := {|
  ctr_Name := name; ctr_Image := image; ctr_Command := command; ctr_Args := args;
  ctr_WorkingDir := ctr_WorkingDir c; ctr_Ports := ports; ctr_EnvFrom := ctr_EnvFrom c;
  ctr_Env := env; ctr_Resources := ctr_Resources c; ctr_VolumeMounts := mounts;
  ctr_VolumeDevices := ctr_VolumeDevices c; ctr_LivenessProbe := liveness;
  ctr_ReadinessProbe := readiness; ctr_StartupProbe := ctr_StartupProbe c;
  ctr_Lifecycle := ctr_Lifecycle c; ctr_TerminationMessagePath := ctr_TerminationMessagePath c;
  ctr_TerminationMessagePolicy := ctr_TerminationMessagePolicy c;
  ctr_ImagePullPolicy := pull; ctr_SecurityContext := ctr_SecurityContext c;
  ctr_Stdin := ctr_Stdin c; ctr_StdinOnce := ctr_StdinOnce c; ctr_TTY := ctr_TTY c |}.

Definition ctr_set_Name (v : string) (c : Container) : Container :=
  ctr_with v (ctr_Image c) (ctr_ImagePullPolicy c) (ctr_Command c) (ctr_Args c) (ctr_Ports c)
    (ctr_Env c) (ctr_VolumeMounts c) (ctr_LivenessProbe c) (ctr_ReadinessProbe c) c.
Definition ctr_set_Command (v : slice string) (c : Container) : Container :=
  ctr_with (ctr_Name c) (ctr_Image c) (ctr_ImagePullPolicy c) v (ctr_Args c) (ctr_Ports c)
    (ctr_Env c) (ctr_VolumeMounts c) (ctr_LivenessProbe c) (ctr_ReadinessProbe c) c.
Definition ctr_set_Args (v : slice string) (c : Container) : Container :=
  ctr_with (ctr_Name c) (ctr_Image c) (ctr_ImagePullPolicy c) (ctr_Command c) v (ctr_Ports c)
    (ctr_Env c) (ctr_VolumeMounts c) (ctr_LivenessProbe c) (ctr_ReadinessProbe c) c.
Definition ctr_set_Ports (v : slice ContainerPort) (c : Container) : Container :=
  ctr_with (ctr_Name c) (ctr_Image c) (ctr_ImagePullPolicy c) (ctr_Command c) (ctr_Args c) v
    (ctr_Env c) (ctr_VolumeMounts c) (ctr_LivenessProbe c) (ctr_ReadinessProbe c) c.
Definition ctr_set_Env (v : slice EnvVar) (c : Container) : Container :=
  ctr_with (ctr_Name c) (ctr_Image c) (ctr_ImagePullPolicy c) (ctr_Command c) (ctr_Args c)
    (ctr_Ports c) v (ctr_VolumeMounts c) (ctr_LivenessProbe c) (ctr_ReadinessProbe c) c.
Definition ctr_set_VolumeMounts (v : slice VolumeMount) (c : Container) : Container :=
  ctr_with (ctr_Name c) (ctr_Image c) (ctr_ImagePullPolicy c) (ctr_Command c) (ctr_Args c)
    (ctr_Ports c) (ctr_Env c) v (ctr_LivenessProbe c) (ctr_ReadinessProbe c) c.

(** ** Pods *)

Inductive VolumeSource :=
| EmptyDir
| ConfigMapSource (name : string) (items : list (string * string))
| SecretSource (secretName : string)
| OtherVolume (o : opaque).

Record Volume := { vol_Name : string; vol_Source : VolumeSource }.

Record PodSpec := {
  pod_TerminationGracePeriodSeconds : option Z;
  pod_Affinity : option opaque;
  pod_Tolerations : slice opaque;
  pod_NodeName : string;
  pod_NodeSelector : gomap string;
  pod_SecurityContext : option opaque;
  pod_InitContainers : slice Container;
  pod_Containers : slice Container;
  pod_Volumes : slice Volume;
  pod_rest : option opaque
}.

Record PodTemplateSpec := { tpl_Meta : ObjectMeta; tpl_Spec : PodSpec }.

(** ** Persistent volume claims *)

(** A [resource.Quantity] is represented by its value, an integer. *)
Record PVCSpec := {
  pvcs_AccessModes : slice string;
  pvcs_Requests : option (gmap string Z);
  pvcs_rest : option opaque
}.

Record PersistentVolumeClaim := { pvc_Meta : ObjectMeta; pvc_Spec : PVCSpec }.

(** A [PersistentVolumeClaimTemplate] has the same two fields. *)
Record PVCTemplate := { pvct_Meta : ObjectMeta; pvct_Spec : PVCSpec }.

(** ** Workloads *)

Record StatefulSetSpec := {
  sts_Replicas : option Z;
  sts_ServiceName : string;
  sts_Selector : gomap string;
  sts_PodManagementPolicy : string;
  sts_Template : PodTemplateSpec;
  sts_VolumeClaimTemplates : slice PersistentVolumeClaim;
  sts_UpdateStrategy : option opaque;
  sts_MinReadySeconds : Z;
  sts_rest : option opaque
}.

(** [sts_readyReplicas] is [Status.ReadyReplicas], which JSON omits when it is zero. *)
Record StatefulSet := {
  sts_Meta : ObjectMeta;
  sts_Spec : StatefulSetSpec;
  sts_readyReplicas : Z
}.

Definition sts_set_Meta (v : ObjectMeta) (s : StatefulSet) : StatefulSet :=
  {| sts_Meta := v; sts_Spec := sts_Spec s; sts_readyReplicas := sts_readyReplicas s |}.
Definition sts_set_Spec (v : StatefulSetSpec) (s : StatefulSet) : StatefulSet :=
  {| sts_Meta := sts_Meta s; sts_Spec := v; sts_readyReplicas := sts_readyReplicas s |}.
Definition sts_set_VolumeClaimTemplates (v : slice PersistentVolumeClaim) (s : StatefulSetSpec)
    : StatefulSetSpec := {|
  sts_Replicas := sts_Replicas s; sts_ServiceName := sts_ServiceName s;
  sts_Selector := sts_Selector s; sts_PodManagementPolicy := sts_PodManagementPolicy s;
  sts_Template := sts_Template s; sts_VolumeClaimTemplates := v;
  sts_UpdateStrategy := sts_UpdateStrategy s; sts_MinReadySeconds := sts_MinReadySeconds s;
  sts_rest := sts_rest s |}.

Record DeploymentSpec := {
  dep_Replicas : option Z;
  dep_Selector : gomap string;
  dep_Template : PodTemplateSpec;
  dep_rest : option opaque
}.

Record Deployment := {
  dep_Meta : ObjectMeta;
  dep_Spec : DeploymentSpec;
  dep_readyReplicas : Z
}.

Definition dep_set_Meta (v : ObjectMeta) (d : Deployment) : Deployment :=
  {| dep_Meta := v; dep_Spec := dep_Spec d; dep_readyReplicas := dep_readyReplicas d |}.
Definition dep_set_Spec (v : DeploymentSpec) (d : Deployment) : Deployment :=
  {| dep_Meta := dep_Meta d; dep_Spec := v; dep_readyReplicas := dep_readyReplicas d |}.

(** ** Services and config maps *)

Record ServicePort := {
  sport_Name : string;
  sport_Protocol : string;
  sport_Port : Z;
  sport_rest : option opaque
}.

Record ServiceSpec := {
  svc_Ports : slice ServicePort;
  svc_Selector : gomap string;
  svc_ClusterIP : string;
  svc_PublishNotReadyAddresses : bool;
  svc_rest : option opaque
}.

Record Service := { svc_Meta : ObjectMeta; svc_Spec : ServiceSpec }.

Definition svc_set_Meta (v : ObjectMeta) (s : Service) : Service :=
  {| svc_Meta := v; svc_Spec := svc_Spec s |}.
Definition svc_set_Spec (v : ServiceSpec) (s : Service) : Service :=
  {| svc_Meta := svc_Meta s; svc_Spec := v |}.

Definition ClusterIPNone : string := "None".

Record ConfigMap := { cm_Meta : ObjectMeta; cm_Data : gomap string }.

(** ** Conditions *)

Definition ConditionTrue : string := "True".
Definition ConditionFalse : string := "False".

(** [cond_LastTransitionTime] counts nanoseconds from the zero time, which is [0]. *)
Record Condition := {
  cond_Type : string;
  cond_Status : string;
  cond_ObservedGeneration : Z;
  cond_LastTransitionTime : Z;
  cond_Reason : string;
  cond_Message : string
}.

Definition mkCondition (type status reason message : string) : Condition := {|
  cond_Type := type; cond_Status := status; cond_ObservedGeneration := 0;
  cond_LastTransitionTime := 0; cond_Reason := reason; cond_Message := message |}.

(** ** Decidable equality *)

#[export] Instance opaque_eq_dec : EqDecision opaque.
Proof. solve_decision. Defined.
#[export] Instance NamespacedName_eq_dec : EqDecision NamespacedName.
Proof. solve_decision. Defined.
#[export] Instance OwnerReference_eq_dec : EqDecision OwnerReference.
Proof. solve_decision. Defined.
#[export] Instance ContainerPort_eq_dec : EqDecision ContainerPort.
Proof. solve_decision. Defined.
#[export] Instance EnvVarSource_eq_dec : EqDecision EnvVarSource.
Proof. solve_decision. Defined.
#[export] Instance EnvVar_eq_dec : EqDecision EnvVar.
Proof. solve_decision. Defined.
#[export] Instance Condition_eq_dec : EqDecision Condition.
Proof. solve_decision. Defined.

(** ** Lemmas *)

Lemma ObjectKey_set_Annotations v m : ObjectKey (meta_set_Annotations v m) = ObjectKey m.
Proof. done. Qed.
Lemma ObjectKey_set_Owners v m : ObjectKey (meta_set_OwnerReferences v m) = ObjectKey m.
Proof. done. Qed.

#[export] Hint Rewrite ObjectKey_set_Annotations ObjectKey_set_Owners : hop_rw.
