(* ===== verification/ApiTypes.v ===== *)
(** * The custom resources: [src/api/v1alpha2] and [src/api/v1beta1]

    The records of the [HStreamDB], [Connector] and [ConnectorTemplate] resources, the
    constants and the naming helpers of the two API packages. *)
From S2P Require Import Prelude GoStrings KubeTypes.

(** ** [v1alpha2] labels and condition types *)

Definition LastSpecKey : string := "hstream.io/last-applied-spec".
Definition ComponentKey : string := "hstream.io/component".
Definition InstanceKey : string := "hstream.io/instance".

Definition HMetaReady : string := "HMetaReady".
Definition HStoreReady : string := "HStoreReady".
Definition HServerReady : string := "HServerReady".
Definition GatewayReady : string := "GatewayReady".
Definition ConsoleReady : string := "ConsoleReady".
Definition Ready : string := "Ready".

(** ** [v1alpha2] types *)

Record Component := {
  comp_Image : string;
  comp_ImagePullPolicy : string;
  comp_Replicas : Z;
  comp_Volumes : slice Volume;
  comp_InitContainers : slice Container;
  comp_SidecarContainers : slice Container;
  comp_Container : Container;
  comp_NodeSelector : gomap string;
  comp_NodeName : string;
  comp_PodSecurityContext : option opaque;
  comp_Affinity : option opaque;
  comp_Tolerations : slice opaque;
  comp_VolumeClaimTemplate : option PVCTemplate
}.

Record Gateway := {
  gw_Component : Component;
  gw_Endpoint : string;
  gw_Port : Z;
  gw_SecretRef : option string (* the name in the LocalObjectReference *)
}.

Record ExternalHMeta := { ext_Host : string; ext_Port : Z; ext_Namespace : string }.

Record Config := {
  cfg_MetadataReplicateAcross : option Z;
  cfg_NShards : Z;
  cfg_LogDeviceConfig : string (* the raw bytes *)
}.

Record HStreamDBSpec := {
  spec_ExternalHMeta : option ExternalHMeta;
  spec_Config : Config;
  spec_Gateway : option Gateway;
  spec_Console : option Component;
  spec_AdminServer : Component;
  spec_HServer : Component;
  spec_HStore : Component;
  spec_HMeta : Component
}.

Record HMetaNode := {
  node_NodeId : string;
  node_Reachable : bool;
  node_Leader : bool;
  node_Error : string
}.

Record HMetaStatus := { hms_Nodes : slice HMetaNode; hms_Version : string }.

Record HStreamDBStatus := { status_Conditions : slice Condition; status_HMeta : HMetaStatus }.

Record HStreamDB := {
  hdb_Meta : ObjectMeta;
  hdb_Spec : HStreamDBSpec;
  hdb_Status : HStreamDBStatus
}.

Definition hdb_Name (hdb : HStreamDB) : string := meta_Name (hdb_Meta hdb).
Definition hdb_Namespace (hdb : HStreamDB) : string := meta_Namespace (hdb_Meta hdb).

Definition hdb_set_Conditions (v : slice Condition) (hdb : HStreamDB) : HStreamDB := {|
  hdb_Meta := hdb_Meta hdb; hdb_Spec := hdb_Spec hdb;
  hdb_Status := {| status_Conditions := v; status_HMeta := status_HMeta (hdb_Status hdb) |} |}.

Definition hdb_set_Nodes (v : slice HMetaNode) (hdb : HStreamDB) : HStreamDB := {|
  hdb_Meta := hdb_Meta hdb; hdb_Spec := hdb_Spec hdb;
  hdb_Status := {|
    status_Conditions := status_Conditions (hdb_Status hdb);
    status_HMeta := {| hms_Nodes := v; hms_Version := hms_Version (status_HMeta (hdb_Status hdb)) |}
  |} |}.

(** [ExternalHMeta.GetAddr] *)
Definition GetAddr (er : ExternalHMeta) : string :=
  let addr := ext_Host er in
  let addr := if decide (ext_Namespace er <> "") then addr +:+ "." +:+ ext_Namespace er else addr in
  addr +:+ ":" +:+ Itoa (ext_Port er).

(** ** [v1alpha2] component types *)

Inductive ComponentType :=
| ComponentTypeGateway
| ComponentTypeAdminServer
| ComponentTypeConsole
| ComponentTypeHServer
| ComponentTypeHStore
| ComponentTypeHMeta.

#[export] Instance ComponentType_eq_dec : EqDecision ComponentType.
Proof. solve_decision. Defined.

(** The underlying string of the Go constant. *)
Definition ct_string (ct : ComponentType) : string :=
  match ct with
  | ComponentTypeGateway => "gateway"
  | ComponentTypeAdminServer => "admin-server"
  | ComponentTypeConsole => "console"
  | ComponentTypeHServer => "hserver"
  | ComponentTypeHStore => "hstore"
  | ComponentTypeHMeta => "hmeta"
  end.

Definition GetResName (ct : ComponentType) (hdb : HStreamDB) : string :=
  hdb_Name hdb +:+ "-" +:+ ct_string ct.

Definition GetInternalResName (ct : ComponentType) (hdb : HStreamDB) : string :=
  hdb_Name hdb +:+ "-internal-" +:+ ct_string ct.

Module v1alpha2.

(** [mergeMap(existing, newMap)] builds a fresh map; the new map wins. *)
Definition mergeMap (existing newMap : gomap string) : gomap string :=
  Some (entries newMap ∪ entries existing).

Definition GetObjectMeta (ct : ComponentType) (hdb : HStreamDB) (meta : option ObjectMeta)
    : ObjectMeta :=
  let name :=
    match meta with
    | Some m => if decide (meta_Name m <> "") then meta_Name m else GetResName ct hdb
    | None => GetResName ct hdb
    end in
  let fixedMeta := {|
    meta_Name := name;
    meta_Namespace := hdb_Namespace hdb;
    meta_Labels := Some (<[InstanceKey := hdb_Name hdb]> {[ComponentKey := ct_string ct]});
    meta_Annotations := Some ∅;
    meta_OwnerReferences := None; meta_Generation := 0; meta_Deleted := false; meta_rest := None
  |} in
  match meta with
  | Some m =>
      meta_set_Annotations (mergeMap (meta_Annotations fixedMeta) (meta_Annotations m))
        (meta_set_Labels (mergeMap (meta_Labels fixedMeta) (meta_Labels m)) fixedMeta)
  | None => fixedMeta
  end.

Definition GetService (ct : ComponentType) (hdb : HStreamDB) (ports : slice ServicePort) : Service := {|
  svc_Meta := GetObjectMeta ct hdb None;
  svc_Spec := {|
    svc_Ports := ports;
    svc_Selector := Some {[ComponentKey := ct_string ct]};
    svc_ClusterIP := ""; svc_PublishNotReadyAddresses := false; svc_rest := None |} |}.

Definition GetHeadlessService (ct : ComponentType) (hdb : HStreamDB) (ports : slice ServicePort)
    : Service := {|
  svc_Meta := GetObjectMeta ct hdb (Some (meta_set_Name (GetInternalResName ct hdb) meta_zero));
  svc_Spec := {|
    svc_Ports := ports;
    svc_Selector := Some {[ComponentKey := ct_string ct]};
    svc_ClusterIP := ClusterIPNone; svc_PublishNotReadyAddresses := true; svc_rest := None |} |}.

End v1alpha2.

(** ** [v1beta1] *)

Definition ComponentTypeConnector : string := "connector".

Definition SinkElaticsearch : string := "sink-elasticsearch".

(** Indexing a map with an unknown connector type gives the zero value. *)
Definition ConnectorImageMap : gmap string string :=
  {[SinkElaticsearch := "hstreamdb/sink-elasticsearch:standalone"]}.

Definition ConnectorContainerPortMap : gmap string Z := {[SinkElaticsearch := 9200%Z]}.

Record ConnectorSpec := {
  con_Type : string;
  con_TemplateName : string;
  con_Streams : slice string;
  con_Patches : option string; (* json.RawMessage, nil or bytes *)
  con_HServerEndpoint : string;
  con_ImageRegistry : option string;
  con_ContainerPorts : slice ContainerPort;
  con_Container : Container;
  con_Containers : slice Container
}.

Record Connector := { con_Meta : ObjectMeta; con_Spec : ConnectorSpec }.

Definition con_set_Container (v : Container) (c : Connector) : Connector := {|
  con_Meta := con_Meta c;
  con_Spec := {|
    con_Type := con_Type (con_Spec c); con_TemplateName := con_TemplateName (con_Spec c);
    con_Streams := con_Streams (con_Spec c); con_Patches := con_Patches (con_Spec c);
    con_HServerEndpoint := con_HServerEndpoint (con_Spec c);
    con_ImageRegistry := con_ImageRegistry (con_Spec c);
    con_ContainerPorts := con_ContainerPorts (con_Spec c); con_Container := v;
    con_Containers := con_Containers (con_Spec c) |} |}.

Record ConnectorTemplateSpec := { ctpl_Type : string; ctpl_Config : string }.

Record ConnectorTemplate := { ctpl_Meta : ObjectMeta; ctpl_Spec : ConnectorTemplateSpec }.

Definition GenConnectorConfigMapName (name : string) (isTemplate : bool) : string :=
  name +:+ "-h" +:+ (if isTemplate then "ct" else "c").

Definition GenConnectorConfigMapNameForStream (connectorName stream : string) : string :=
  GenConnectorConfigMapName connectorName false +:+ "-" +:+ Replace stream underscore dash.

Definition GenConnectorDeploymentName (connectorName stream : string) : string :=
  connectorName +:+ "-hc-" +:+ Replace stream underscore dash.

(** ** Lemmas *)

Lemma ct_string_inj ct ct' : ct_string ct = ct_string ct' -> ct = ct'.
Proof. by destruct ct, ct'. Qed.

Lemma string_app_cancel (s t u : string) : s +:+ t = s +:+ u -> t = u.
Proof. induction s; simpl; [done|]. intros [=]. eauto. Qed.

(** Two components of one cluster never share a resource name. *)
Lemma GetResName_inj ct ct' hdb : GetResName ct hdb = GetResName ct' hdb -> ct = ct'.
Proof.
  unfold GetResName. intros H%string_app_cancel. simpl in H. injection H as H.
  by apply ct_string_inj.
Qed.

(** The headless services have names of their own, different from every component's. *)
Lemma GetResName_internal ct ct' hdb : GetResName ct hdb <> GetInternalResName ct' hdb.
Proof. unfold GetResName, GetInternalResName. intros H%string_app_cancel. by destruct ct. Qed.
