(* ===== verification/Effects.v ===== *)
(** * Programs over the operator's environment

    A reconciler is a sequential program that calls the API server through the controller
    client, the clock, the event recorder and the remote executor. Those are outside the
    repository: a program is a tree of calls ([prog]), and what a call answers is chosen by the
    environment. [exec p tr o] says that [p] can run with the calls and answers [tr] and end
    with [o]; [wp p Q] that every such run satisfies [Q]. [run] executes a program against a
    concrete environment. *)
From S2P Require Import Prelude GoStrings KubeTypes ApiTypes.

(** ** Errors

    What the operator observes of an error: its message and the reason [k8sErrors.IsNotFound]
    and [k8sErrors.IsConflict] find in it, which wrapping with [%w] preserves. *)
Inductive StatusReason := ReasonNotFound | ReasonConflict | ReasonOther.

#[export] Instance StatusReason_eq_dec : EqDecision StatusReason.
Proof. solve_decision. Defined.

Record go_error := { err_reason : StatusReason; err_msg : string }.

Definition new_error (msg : string) : go_error := {| err_reason := ReasonOther; err_msg := msg |}.

(** [fmt.Errorf("<prefix>%w", e)] *)
Definition wrap_error (prefix : string) (e : go_error) : go_error :=
  {| err_reason := err_reason e; err_msg := prefix +:+ err_msg e |}.

Definition IsNotFound (e : go_error) : bool := bool_decide (err_reason e = ReasonNotFound).
Definition IsConflict (e : go_error) : bool := bool_decide (err_reason e = ReasonConflict).

(** ** Objects of the API server *)

Inductive Kind :=
| KHStreamDB | KConnector | KConnectorTemplate | KStatefulSet | KDeployment | KService | KConfigMap.

#[export] Instance Kind_eq_dec : EqDecision Kind.
Proof. solve_decision. Defined.

Definition obj_of (k : Kind) : Type :=
  match k with
  | KHStreamDB => HStreamDB
  | KConnector => Connector
  | KConnectorTemplate => ConnectorTemplate
  | KStatefulSet => StatefulSet
  | KDeployment => Deployment
  | KService => Service
  | KConfigMap => ConfigMap
  end.

(** The objects the operator creates and updates. *)
Inductive kobj :=
| OStatefulSet (s : StatefulSet)
| ODeployment (d : Deployment)
| OService (s : Service)
| OConfigMap (c : ConfigMap).

Definition kobj_kind (o : kobj) : Kind :=
  match o with
  | OStatefulSet _ => KStatefulSet
  | ODeployment _ => KDeployment
  | OService _ => KService
  | OConfigMap _ => KConfigMap
  end.

Definition kobj_meta (o : kobj) : ObjectMeta :=
  match o with
  | OStatefulSet s => sts_Meta s
  | ODeployment d => dep_Meta d
  | OService s => svc_Meta s
  | OConfigMap c => cm_Meta c
  end.

(** ** Calls and their answers *)

Inductive call :=
| CGet (k : Kind) (nn : NamespacedName)
| CCreate (o : kobj)
| CUpdate (o : kobj)
| CStatusUpdate (hdb : HStreamDB)
| CSetOwner (owner : ObjectMeta) (m : ObjectMeta)
| CEvent (reason message : string)
| CNow
| CRange (n : nat)
| CNewClientset
| CListPods (namespace : string) (labels : gmap string string)
| CNewExecutor (namespace pod : string)
| CStream (namespace pod : string) (command : list string)
| CServiceProxy (namespace service path : string).

(** [CSetOwner] is [SetControllerReference]: it may fail, and otherwise gives the owner
    references the object has afterwards. [CStatusUpdate] answers the object as the server
    stored it. [CRange n] gives the order in which [n] map entries are visited. [CStream] gives
    the error, the standard output and the standard error of a remote command. *)
Definition resp (c : call) : Type :=
  match c with
  | CGet k _ => go_error + obj_of k
  | CCreate _ => option go_error
  | CUpdate _ => option go_error
  | CStatusUpdate _ => go_error + HStreamDB
  | CSetOwner _ _ => go_error + slice OwnerReference
  | CEvent _ _ => unit
  | CNow => Z
  | CRange _ => list nat
  | CNewClientset => option go_error
  | CListPods _ _ => go_error + list string
  | CNewExecutor _ _ => option go_error
  | CStream _ _ _ => option go_error * string * string
  | CServiceProxy _ _ _ => go_error + string
  end.

(** ** Programs *)

Inductive prog (A : Type) : Type :=
| Ret (a : A)
| Crash (msg : string)
| Do (c : call) (k : resp c -> prog A).
Arguments Ret {A} _.
Arguments Crash {A} _.
Arguments Do {A} _ _.

Fixpoint prog_bind {A B} (p : prog A) (f : A -> prog B) : prog B :=
  match p with
  | Ret a => f a
  | Crash msg => Crash msg
  | Do c k => Do c (fun r => prog_bind (k r) f)
  end.

Declare Scope prog_scope.
Delimit Scope prog_scope with prog.
Open Scope prog_scope.

(** [let* x := p in k]: run [p], then [k] with its result. *)
Notation "'let*' x := p 'in' k" := (prog_bind p (fun x => k))
  (at level 10, x pattern, p at level 100, k at level 200,
   format "'[v' 'let*'  x  :=  p  'in' '/' k ']'") : prog_scope.

(** The calls, as programs. *)
Definition kube_Get (k : Kind) (nn : NamespacedName) : prog (go_error + obj_of k) := Do (CGet k nn) Ret.
Definition kube_Create (o : kobj) : prog (option go_error) := Do (CCreate o) Ret.
Definition kube_Update (o : kobj) : prog (option go_error) := Do (CUpdate o) Ret.
Definition kube_StatusUpdate (hdb : HStreamDB) : prog (go_error + HStreamDB) := Do (CStatusUpdate hdb) Ret.
Definition SetControllerReference (owner m : ObjectMeta) : prog (go_error + slice OwnerReference) :=
  Do (CSetOwner owner m) Ret.
Definition record_Event (reason message : string) : prog unit := Do (CEvent reason message) Ret.
Definition clock_Now : prog Z := Do CNow Ret.
Definition range_order (n : nat) : prog (list nat) := Do (CRange n) Ret.

Definition new_clientset : prog (option go_error) := Do CNewClientset Ret.
Definition list_pods (namespace : string) (labels : gmap string string) : prog (go_error + list string) :=
  Do (CListPods namespace labels) Ret.
Definition new_executor (namespace pod : string) : prog (option go_error) := Do (CNewExecutor namespace pod) Ret.
Definition stream (namespace pod : string) (command : list string) : prog (option go_error * string * string) :=
  Do (CStream namespace pod command) Ret.
Definition service_proxy (namespace service path : string) : prog (go_error + string) :=
  Do (CServiceProxy namespace service path) Ret.

(** Go code that may panic, inside a program. *)
Definition lift {A} (m : go A) : prog A :=
  match m with Done a => Ret a | Panic msg => Crash msg end.

(** [for k, v := range m]: the entries in the order of this run. *)
Definition range_map {V} (m : gmap string V) : prog (list (string * V)) :=
  let* code := range_order (size m) in
  Ret (permute code (map_to_list m)).

(** ** Runs *)

Record event := Ev { ev_call : call; ev_resp : resp ev_call }.

Fixpoint exec {A} (p : prog A) (tr : list event) (o : go A) : Prop :=
  match p with
  | Ret a => tr = [] /\ o = Done a
  | Crash msg => tr = [] /\ o = Panic msg
  | Do c k => exists r tr', tr = Ev c r :: tr' /\ exec (k r) tr' o
  end.

Fixpoint wp {A} (p : prog A) (Q : list event -> go A -> Prop) : Prop :=
  match p with
  | Ret a => Q [] (Done a)
  | Crash msg => Q [] (Panic msg)
  | Do c k => forall r, wp (k r) (fun tr o => Q (Ev c r :: tr) o)
  end.

Definition handler (W : Type) := forall c : call, W -> resp c * W.

Fixpoint run {A W} (h : handler W) (p : prog A) (w : W) : go A * list event * W :=
  match p with
  | Ret a => (Done a, [], w)
  | Crash msg => (Panic msg, [], w)
  | Do c k =>
      let '(r, w1) := h c w in
      let '(o, tr, w2) := run h (k r) w1 in
      (o, Ev c r :: tr, w2)
  end.

(** The object a call creates or updates. Storing the status of a cluster does not count as one: it
    touches no object but the [HStreamDB] itself, and every complete pass does it ([CStatusUpdate]). *)
Definition written (e : event) : option kobj :=
  match ev_call e with CCreate o | CUpdate o => Some o | _ => None end.

Definition writes (tr : list event) : list kobj := omap written tr.

(** The same with the answer: the writes the server accepted. *)
Definition accepted (e : event) : option kobj :=
  match e with
  | Ev (CCreate o) None => Some o
  | Ev (CUpdate o) None => Some o
  | _ => None
  end.

(** ** Laws of [prog], [exec] and [wp] *)

Lemma prog_bind_ret_l {A B} (a : A) (f : A -> prog B) : prog_bind (Ret a) f = f a.
Proof. done. Qed.

(** [wp] quantifies over exactly the runs of [exec]. *)
Lemma wp_exec {A} (p : prog A) Q : wp p Q <-> forall tr o, exec p tr o -> Q tr o.
Proof.
  revert Q. induction p as [a|msg|c k IH]; intros Q; cbn [wp exec].
  - split; [by intros ? ? ? [-> ->] | eauto].
  - split; [by intros ? ? ? [-> ->] | eauto].
  - split.
    + intros H tr o (r & tr' & -> & Hr). by apply (IH r (fun tr o => Q (Ev c r :: tr) o)).
    + intros H r. apply IH. eauto.
Qed.

Lemma wp_mono {A} (p : prog A) (Q Q' : list event -> go A -> Prop) :
  wp p Q -> (forall tr o, Q tr o -> Q' tr o) -> wp p Q'.
Proof. rewrite !wp_exec. eauto. Qed.

Lemma wp_mono_exec {A} (p : prog A) (Q Q' : list event -> go A -> Prop) :
  wp p Q -> (forall tr o, exec p tr o -> Q tr o -> Q' tr o) -> wp p Q'.
Proof. rewrite !wp_exec. eauto. Qed.

Lemma wp_conj {A} (p : prog A) (Q Q' : list event -> go A -> Prop) :
  wp p Q -> wp p Q' -> wp p (fun tr o => Q tr o /\ Q' tr o).
Proof. rewrite !wp_exec. eauto. Qed.

(** Sequencing: the second program runs when the first did not panic. *)
Lemma wp_bind {A B} (p : prog A) (f : A -> prog B) Q :
  wp (prog_bind p f) Q <->
  wp p (fun tr o =>
    match o with
    | Done a => wp (f a) (fun tr' o' => Q (tr ++ tr') o')
    | Panic msg => Q tr (Panic msg)
    end).
Proof.
  revert Q. induction p as [a|msg|c k IH]; intros Q; cbn [prog_bind wp app]; [done|done|].
  split; intros H r; specialize (H r); by apply (IH r (fun tr o => Q (Ev c r :: tr) o)).
Qed.

Lemma wp_lift {A} (m : go A) Q : wp (lift m) Q <-> Q [] m.
Proof. by destruct m. Qed.

Lemma wp_True {A} (p : prog A) (Q : list event -> go A -> Prop) :
  (forall tr o, Q tr o) -> wp p Q.
Proof. rewrite wp_exec. eauto. Qed.

#[export] Instance wp_proper {A} (p : prog A) :
  Proper (pointwise_relation _ (pointwise_relation _ impl) ==> impl) (wp p).
Proof. intros Q Q' HQ H. eapply wp_mono; [done|]. intros tr o. apply HQ. Qed.

#[export] Instance wp_proper_iff {A} (p : prog A) :
  Proper (pointwise_relation _ (pointwise_relation _ iff) ==> iff) (wp p).
Proof.
  intros Q Q' HQ. split; intros H; (eapply wp_mono; [done|]); intros tr o; apply HQ.
Qed.

(** The runs of a sequence: a run of the first program, then one of the second. *)
Lemma exec_bind {A B} (p : prog A) (f : A -> prog B) tr o :
  exec (prog_bind p f) tr o <->
  (exists a tr1 tr2, tr = tr1 ++ tr2 /\ exec p tr1 (Done a) /\ exec (f a) tr2 o) \/
  (exists msg, exec p tr (Panic msg) /\ o = Panic msg).
Proof.
  revert tr.
  induction p as [a|msg|c k IH]; intros tr; cbn [prog_bind exec].
  - split; [intros Hf; left; by exists a, [], tr|].
    intros [(a' & tr1 & tr2 & -> & [-> [= ->]] & Hf)|(msg & [_ ?] & _)]; done.
  - split; [intros [-> ->]; right; by exists msg|].
    intros [(a' & tr1 & tr2 & -> & [_ ?] & Hf)|(msg' & [-> [= ->]] & ->)]; done.
  - split.
    + intros (r & tr' & -> & Hr). apply IH in Hr as [(a & t1 & t2 & -> & H1 & H2)|(msg & H1 & ->)].
      * left. exists a, (Ev c r :: t1), t2. split; [done|]. split; [by exists r, t1|done].
      * right. exists msg. split; [by exists r, tr'|done].
    + intros [(a & tr1 & tr2 & -> & (r & t1 & -> & H1) & H2)|(msg & (r & tr' & -> & H1) & ->)].
      * exists r, (t1 ++ tr2). split; [done|]. apply IH. left. by exists a, t1, tr2.
      * exists r, tr'. split; [done|]. apply IH. right. by exists msg.
Qed.

(** A run against a concrete environment is one of the runs [exec] and [wp] speak of. *)
Lemma run_exec {A W} (h : handler W) (p : prog A) w o tr w' :
  run h p w = (o, tr, w') -> exec p tr o.
Proof.
  revert w o tr w'. induction p as [a|msg|c k IH]; intros w o tr w'; cbn [run exec].
  - by intros [= <- <- _].
  - by intros [= <- <- _].
  - destruct (h c w) as [r w1]. destruct (run h (k r) w1) as [[o1 tr1] w2] eqn:E.
    intros [= <- <- <-]. eauto.
Qed.

(** Every program has a run, whatever the environment answers: reconciliation terminates. *)
Lemma exec_total {A} (p : prog A) : exists tr o, exec p tr o.
Proof.
  induction p as [a|msg|c k IH]; cbn [exec]; [by eauto|by eauto|].
  assert (inhabited (resp c)) as [r].
  { destruct c; simpl; repeat constructor; exact (new_error ""). }
  destruct (IH r) as (tr & o & H). exists (Ev c r :: tr), o, r, tr. done.
Qed.

(** The answer of a read, of a given kind. *)
Definition get_answer (k : Kind) (e : event) : option (go_error + obj_of k) :=
  match e with
  | Ev (CGet k' _) r =>
      match decide (k' = k) with
      | left H => Some (eq_rect k' (fun k => (go_error + obj_of k)%type) r k H)
      | right _ => None
      end
  | _ => None
  end.

Lemma get_answer_eq k nn r : get_answer k (Ev (CGet k nn) r) = Some r.
Proof.
  simpl. destruct (decide (k = k)) as [H|]; [|done].
  by rewrite (Eqdep_dec.UIP_dec Kind_eq_dec H eq_refl).
Qed.

Lemma Ev_get_inj k nn nn' (r : resp (CGet k nn)) (r' : resp (CGet k nn')) :
  Ev (CGet k nn) r = Ev (CGet k nn') r' -> nn = nn' /\ r = r'.
Proof.
  intros H. split; [by injection H|]. apply (f_equal (get_answer k)) in H.
  rewrite !get_answer_eq in H. congruence.
Qed.

(** The answers of the two calls behind an admin command. *)
Definition stream_answer (e : event) : option (option go_error * string * string) :=
  match e with Ev (CStream _ _ _) r => Some r | _ => None end.
Definition pods_answer (e : event) : option (go_error + list string) :=
  match e with Ev (CListPods _ _) r => Some r | _ => None end.

(** A call that changes the state of the API server. *)
Definition mutates (c : call) : bool :=
  match c with CCreate _ | CUpdate _ | CStatusUpdate _ => true | _ => false end.

(** Runs and programs that change nothing on the API server. *)
Definition quiet (tr : list event) : Prop := Forall (fun e => mutates (ev_call e) = false) tr.

Definition reads_only {A} (p : prog A) : Prop := wp p (fun tr _ => quiet tr).

Lemma range_map_wp {V} (m : gmap string V) Q :
  (forall code, Q [Ev (CRange (size m)) code] (Done (permute code (map_to_list m)))) ->
  wp (range_map m) Q.
Proof. intros H code. apply H. Qed.

Lemma writes_app tr1 tr2 : writes (tr1 ++ tr2) = writes tr1 ++ writes tr2.
Proof. apply omap_app. Qed.

#[export] Hint Rewrite writes_app @prog_bind_ret_l : hop_rw.

Lemma wp_weaken_bind {A B} (p : prog A) (f : A -> prog B) (P : list event -> go A -> Prop) Q :
  wp p P ->
  (forall tr a, P tr (Done a) -> wp (f a) (fun tr' o => Q (tr ++ tr') o)) ->
  (forall tr msg, P tr (Panic msg) -> Q tr (Panic msg)) ->
  wp (prog_bind p f) Q.
Proof.
  intros Hp Hf Hm. apply wp_bind. eapply wp_mono; [done|].
  intros tr [a|msg]; [apply Hf|apply Hm].
Qed.

(** Sequencing for properties that hold whatever the first program does. *)
Lemma wp_bind_any {A B} (p : prog A) (f : A -> prog B) (Q : go B -> Prop) :
  (forall a, wp (f a) (fun _ o => Q o)) -> (forall msg, Q (Panic msg)) ->
  wp (prog_bind p f) (fun _ o => Q o).
Proof.
  intros Hf Hm. eapply (wp_weaken_bind p f (fun _ _ => True)); [by apply wp_True| |by intros].
  intros tr a _. apply Hf.
Qed.

Lemma reads_only_bind {A B} (p : prog A) (f : A -> prog B) :
  reads_only p -> (forall a, reads_only (f a)) -> reads_only (prog_bind p f).
Proof.
  intros Hp Hf. eapply wp_weaken_bind; [exact Hp| |by intros].
  intros tr a Htr. eapply wp_mono; [apply Hf|]. intros tr' o Htr'. by apply Forall_app_2.
Qed.

Lemma quiet_elem tr e : quiet tr -> e ∈ tr -> mutates (ev_call e) = false.
Proof. unfold quiet. rewrite Forall_forall. eauto. Qed.

Lemma quiet_status tr hdb r : quiet tr -> Ev (CStatusUpdate hdb) r ∈ tr -> False.
Proof. intros H Hin. by specialize (quiet_elem _ _ H Hin). Qed.

Lemma quiet_writes tr : quiet tr -> writes tr = [].
Proof.
  induction 1 as [|[c r] tr Hc Htr IH]; [done|]. unfold writes in *. simpl. by destruct c; simpl in *.
Qed.

Lemma reads_only_ret {A} (a : A) : reads_only (Ret a).
Proof. constructor. Qed.

Lemma reads_only_crash {A} msg : reads_only (@Crash A msg).
Proof. constructor. Qed.

Lemma reads_only_lift {A} (m : go A) : reads_only (lift m).
Proof. destruct m; constructor. Qed.

#[export] Hint Resolve reads_only_bind reads_only_ret reads_only_crash reads_only_lift : hop.

(** The first branching of the program at hand. *)
Ltac wp_case :=
  match goal with
  | |- wp (match ?x with _ => _ end) _ => destruct x eqn:?
  | |- wp (prog_bind (match ?x with _ => _ end) _) _ => destruct x eqn:?
  | |- wp (prog_bind (prog_bind (match ?x with _ => _ end) _) _) _ => destruct x eqn:?
  | |- wp (prog_bind (prog_bind (prog_bind (match ?x with _ => _ end) _) _) _) _ => destruct x eqn:?
  end.

(** Runs a program symbolically: every answer of the environment, every branch. *)
Ltac wp_run :=
  repeat first
    [ progress cbn [prog_bind wp lift kube_Get kube_Create kube_Update kube_StatusUpdate
        SetControllerReference record_Event clock_Now range_order new_clientset list_pods new_executor
        stream service_proxy app]
    | match goal with |- forall _ : resp _, _ => intro end
    | wp_case ].

(** Cleans up after [wp_run]: options that were mapped over are split. *)
Ltac wp_post :=
  simpl in *; simplify_eq/=;
  repeat match goal with
  | H : context [fmap _ ?o] |- _ => is_var o; destruct o; simplify_eq/=
  | |- context [fmap _ ?o] => is_var o; destruct o; simplify_eq/=
  end; auto with hop.

(** The result and the trace of a program in a concrete environment. *)
Definition run_result {A W} (h : handler W) (p : prog A) (w : W) : go A := fst (fst (run h p w)).
Definition run_trace {A W} (h : handler W) (p : prog A) (w : W) : list event := snd (fst (run h p w)).

Lemma run_self {A W} (h : handler W) (p : prog A) w : exec p (run_trace h p w) (run_result h p w).
Proof.
  unfold run_trace, run_result. destruct (run h p w) as [[o tr] w'] eqn:E. by eapply run_exec.
Qed.
