(* ===== verification/RelyGuarantee.v ===== *)
(** * Rely and guarantee for programs

    The operator shares the API server with users, the controllers of Kubernetes and other
    operators, so what its calls are answered is only partly under its control. [rg R G p Q] says:
    as long as every answer meets the rely condition [R], every call of [p] meets the guarantee
    [G], and the result, if there is one, meets [Q]. It is a property of every prefix of every
    run, which makes it preserved when the answers come from a store that others change between
    any two calls. *)
From S2P Require Import Prelude GoStrings KubeTypes ApiTypes Effects.

Fixpoint rg {A} (R : event -> Prop) (G : call -> Prop) (p : prog A) (Q : A -> Prop) : Prop :=
  match p with
  | Ret a => Q a
  | Crash _ => True
  | Do c k => G c /\ forall r, R (Ev c r) -> rg R G (k r) Q
  end.

(** A program and its continuations take part in a rely-guarantee argument whatever they return. *)
Abbreviation guarantees R G p := (rg R G p (fun _ => True)).

Section Rules.
Context (R : event -> Prop) (G : call -> Prop).

Lemma rg_bind {A B} (p : prog A) (f : A -> prog B) (P : A -> Prop) Q :
  rg R G p P -> (forall a, P a -> rg R G (f a) Q) -> rg R G (prog_bind p f) Q.
Proof.
  intros Hp Hf. revert Hp. induction p as [a|msg|c k IH]; cbn [rg prog_bind]; [auto|done|].
  intros [Hc Hk]. split; [done|]. intros r Hr. by apply IH, Hk.
Qed.

Lemma rg_any {A B} (p : prog A) (f : A -> prog B) Q :
  guarantees R G p -> (forall a, rg R G (f a) Q) -> rg R G (prog_bind p f) Q.
Proof. intros Hp Hf. eapply rg_bind; [exact Hp|]. auto. Qed.

Lemma rg_lift {A} (m : go A) (Q : A -> Prop) : (forall a, m = Done a -> Q a) -> rg R G (lift m) Q.
Proof. intros H. destruct m; simpl; auto. Qed.

Lemma rg_lift_bind {A B} (m : go A) (f : A -> prog B) Q :
  (forall a, m = Done a -> rg R G (f a) Q) -> rg R G (prog_bind (lift m) f) Q.
Proof. intros H. eapply rg_bind; [apply (rg_lift m (fun a => m = Done a)); auto|]. auto. Qed.

Lemma rg_ret {A} (a : A) (Q : A -> Prop) : Q a -> rg R G (Ret a) Q.
Proof. done. Qed.

Lemma rg_crash {A} msg (Q : A -> Prop) : rg R G (Crash msg) Q.
Proof. done. Qed.

(** What every prefix of a run of the program has done. *)
Lemma rg_exec {A} (p : prog A) Q tr o :
  rg R G p Q -> exec p tr o -> Forall R tr ->
  Forall (fun e => G (ev_call e)) tr /\ forall a, o = Done a -> Q a.
Proof.
  revert tr. induction p as [a|msg|c k IH]; cbn [rg exec]; intros tr.
  - intros HQ [-> ->] _. split; [constructor|by intros ? [= <-]].
  - intros _ [-> ->] _. split; [constructor|done].
  - intros [Hc Hk] (r & tr' & -> & He) HR. apply Forall_cons in HR as [Hr HR].
    destruct (IH r tr') as [Htr Ho]; [auto..|]. split; [by constructor|done].
Qed.

End Rules.

(** Stronger rely, weaker guarantee, weaker postcondition. *)
Lemma rg_mono {A} (R R' : event -> Prop) (G G' : call -> Prop) (p : prog A) (Q Q' : A -> Prop) :
  rg R G p Q -> (forall e, R' e -> R e) -> (forall c, G c -> G' c) -> (forall a, Q a -> Q' a) ->
  rg R' G' p Q'.
Proof.
  intros Hp HR HG HQ. revert Hp. induction p as [a|msg|c k IH]; cbn [rg]; [auto|done|].
  intros [Hc Hk]. split; [auto|]. intros r Hr. apply IH. auto.
Qed.

(** Two arguments about one program. *)
Lemma rg_conj {A} (R R' : event -> Prop) (G G' : call -> Prop) (p : prog A) (Q Q' : A -> Prop) :
  rg R G p Q -> rg R' G' p Q' ->
  rg (fun e => R e /\ R' e) (fun c => G c /\ G' c) p (fun a => Q a /\ Q' a).
Proof.
  induction p as [a|msg|c k IH]; cbn [rg]; [done|done|].
  intros [Hc Hk] [Hc' Hk']. split; [done|]. intros r [Hr Hr']. apply IH; auto.
Qed.

(** With no assumption on the answers, the guarantee speaks of every run. *)
Lemma rg_wp {A} (G : call -> Prop) (p : prog A) Q :
  rg (fun _ => True) G p Q -> wp p (fun tr o => Forall (fun e => G (ev_call e)) tr /\ forall a, o = Done a -> Q a).
Proof. intros H. apply wp_exec. intros tr o He. eapply rg_exec; [done|done|]. by apply Forall_true. Qed.

Create HintDb rg discriminated.
#[export] Hint Resolve rg_any rg_lift_bind rg_ret rg_crash : rg.

(** Unfolds the calls and splits on every answer and every branch. *)
Ltac rg_case :=
  match goal with
  | |- rg _ _ (match ?x with _ => _ end) _ => destruct x eqn:?
  | |- rg _ _ (prog_bind (match ?x with _ => _ end) _) _ => destruct x eqn:?
  end.

Ltac rg_run :=
  repeat first
    [ progress cbn [prog_bind rg lift kube_Get kube_Create kube_Update kube_StatusUpdate
        SetControllerReference record_Event clock_Now range_order new_clientset list_pods new_executor
        stream service_proxy]
    | match goal with |- _ /\ _ => split | |- forall _ : resp _, _ => intro end
    | match goal with |- _ -> rg _ _ _ _ => intro end
    | rg_case ].
