(* ===== verification/Conditions.v ===== *)
(** * Status conditions: [src/api/v1alpha2/condition_type.go]

    [GetCondition], [IsConditionTrue] and [SetCondition] on the condition list of an [HStreamDB].
    [SetCondition] reads the clock and ends with [sort.Slice], whose order among equal elements
    Go does not specify: the sort is an interface ([SortSlice]) with the documented contract,
    and every theorem holds for every sort that meets it. [insertion_sort] is the one Go runs on
    slices of up to twelve elements. *)
From S2P Require Import Prelude GoStrings KubeTypes ApiTypes Effects.

(** ** [sort.Slice] *)

(** The contract: the result is a permutation, in order when [less] orders by some integer
    key. *)
Class SortSlice := {
  sort_slice {A} : (A -> A -> bool) -> list A -> list A;
  sort_slice_Permutation {A} (less : A -> A -> bool) l : sort_slice less l ≡ₚ l;
  sort_slice_sorted {A} (less : A -> A -> bool) (key : A -> Z) l :
    (forall a b, less a b = (key a <? key b)%Z) ->
    Sorted (fun a b => (key a <= key b)%Z) (sort_slice less l)
}.

Fixpoint insert_by {A} (less : A -> A -> bool) (x : A) (l : list A) : list A :=
  match l with
  | [] => [x]
  | y :: l' => if less x y then x :: l else y :: insert_by less x l'
  end.

(** [insertionSort_func] of the Go library: element after element, each moved left past the
    elements it is less than. *)
Definition insertion_sort {A} (less : A -> A -> bool) (l : list A) : list A :=
  foldl (fun acc x => insert_by less x acc) [] l.

(** ** The conditions of an [HStreamDB] *)

Definition conds (hdb : HStreamDB) : list Condition := elems (status_Conditions (hdb_Status hdb)).

(** The loop of [GetCondition], from index [i]. *)
Fixpoint GetCondition_from (i : Z) (l : list Condition) (conditionType : string) : Z * option Condition :=
  match l with
  | [] => ((-1)%Z, None)
  | c :: l' =>
      if decide (cond_Type c = conditionType) then (i, Some c)
      else GetCondition_from (i + 1) l' conditionType
  end.

Definition GetCondition (hdb : HStreamDB) (conditionType : string) : Z * option Condition :=
  GetCondition_from 0 (conds hdb) conditionType.

Definition IsConditionTrue (hdb : HStreamDB) (conditionType : string) : bool :=
  match snd (GetCondition hdb conditionType) with
  | None => false
  | Some condition => bool_decide (cond_Status condition = ConditionTrue)
  end.

Definition cond_stamp (now generation : Z) (c : Condition) : Condition := {|
  cond_Type := cond_Type c; cond_Status := cond_Status c; cond_ObservedGeneration := generation;
  cond_LastTransitionTime := now; cond_Reason := cond_Reason c; cond_Message := cond_Message c |}.

Section SetCondition.
Context {SS : SortSlice}.

(** The part of [SetCondition] after the clock has been read. *)
Definition SetCondition_at (now : Z) (hdb : HStreamDB) (condition : Condition) : HStreamDB :=
  let condition := cond_stamp now (meta_Generation (hdb_Meta hdb)) condition in
  let '(index, storeCondition) := GetCondition hdb (cond_Type condition) in
  let conditions :=
    if decide (index <> (-1)%Z) then
      let condition :=
        match storeCondition with
        | Some s =>
            if decide (cond_Status s = cond_Status condition /\ cond_LastTransitionTime s <> 0%Z)
            then cond_stamp (cond_LastTransitionTime s) (cond_ObservedGeneration condition) condition
            else condition
        | None => condition
        end in
      <[Z.to_nat index := condition]> (conds hdb)
    else conds hdb ++ [condition] in
  hdb_set_Conditions
    (Some (sort_slice
      (fun a b => (cond_LastTransitionTime b <? cond_LastTransitionTime a)%Z) conditions))
    hdb.

Definition SetCondition (hdb : HStreamDB) (condition : Condition) : prog HStreamDB :=
  let* now := clock_Now in
  Ret (SetCondition_at now hdb condition).

End SetCondition.

(** At most one condition of each type. *)
Definition conditions_ok (hdb : HStreamDB) : Prop := NoDup (cond_Type <$> conds hdb).

(** ** The sort *)

Lemma insert_by_Permutation {A} less (x : A) l : insert_by less x l ≡ₚ x :: l.
Proof.
  induction l as [|y l IH]; simpl; [done|].
  destruct (less x y); [done|]. rewrite IH. constructor.
Qed.

Lemma insert_by_sorted {A} (less : A -> A -> bool) (key : A -> Z) x l :
  (forall a b, less a b = (key a <? key b)%Z) ->
  Sorted (fun a b => (key a <= key b)%Z) l ->
  Sorted (fun a b => (key a <= key b)%Z) (insert_by less x l).
Proof.
  intros Hless. induction 1 as [|y l Hs IH Hd]; simpl; [by repeat constructor|].
  rewrite Hless. destruct (Z.ltb_spec (key x) (key y)).
  - repeat (constructor; [done || by constructor|]). constructor. lia.
  - constructor; [done|]. destruct l as [|z l]; simpl; [constructor; lia|].
    apply HdRel_inv in Hd. destruct (less x z); constructor; lia.
Qed.

Lemma insertion_sort_acc {A} (less : A -> A -> bool) l acc :
  foldl (fun acc x => insert_by less x acc) acc l ≡ₚ acc ++ l.
Proof.
  revert acc. induction l as [|x l IH]; intros acc; simpl; [by rewrite app_nil_r|].
  rewrite IH, insert_by_Permutation. simpl. apply Permutation_middle.
Qed.

Lemma insertion_sort_sorted {A} (less : A -> A -> bool) (key : A -> Z) l :
  (forall a b, less a b = (key a <? key b)%Z) ->
  Sorted (fun a b => (key a <= key b)%Z) (insertion_sort less l).
Proof.
  intros Hless. unfold insertion_sort.
  assert (Sorted (fun a b => (key a <= key b)%Z) (@nil A)) as H by constructor.
  revert H. generalize (@nil A). induction l as [|x l IH]; intros acc H; simpl; [done|].
  apply IH. by apply insert_by_sorted.
Qed.

#[export, refine] Instance insertion_SortSlice : SortSlice :=
  {| sort_slice := @insertion_sort |}.
Proof.
  - intros. apply insertion_sort_acc.
  - intros. by apply insertion_sort_sorted.
Defined.

(** ** Looking conditions up *)

Lemma GetCondition_from_spec i l t :
  (0 <= i)%Z ->
  match GetCondition_from i l t with
  | (j, Some c) => exists n, j = (i + Z.of_nat n)%Z /\ l !! n = Some c /\ cond_Type c = t
  | (j, None) => j = (-1)%Z /\ t ∉ (cond_Type <$> l)
  end.
Proof.
  revert i. induction l as [|c l IH]; intros i Hi; simpl.
  - split; [done|]. apply not_elem_of_nil.
  - destruct (decide (cond_Type c = t)) as [<-|Hne].
    { exists 0. split; [lia|done]. }
    specialize (IH (i + 1)%Z ltac:(lia)).
    destruct (GetCondition_from (i + 1) l t) as [j [c'|]].
    + destruct IH as (n & -> & Hn & Ht). exists (S n). split; [lia|done].
    + destruct IH as [-> Hn]. split; [done|]. rewrite not_elem_of_cons. split; [congruence|done].
Qed.

(** The search either finds the first condition of the type, with its index, or there is none. *)
Lemma GetCondition_spec hdb t :
  match GetCondition hdb t with
  | (j, Some c) => exists n, j = Z.of_nat n /\ conds hdb !! n = Some c /\ cond_Type c = t
  | (j, None) => j = (-1)%Z /\ t ∉ (cond_Type <$> conds hdb)
  end.
Proof.
  pose proof (GetCondition_from_spec 0 (conds hdb) t ltac:(lia)) as H. unfold GetCondition.
  destruct (GetCondition_from 0 (conds hdb) t) as [j [c|]]; [|done].
  destruct H as (n & -> & ? & ?). by exists n.
Qed.

Lemma cond_type_unique l c c' :
  NoDup (cond_Type <$> l) -> c ∈ l -> c' ∈ l -> cond_Type c = cond_Type c' -> c = c'.
Proof.
  intros Hnd [i Hi]%list_elem_of_lookup [j Hj]%list_elem_of_lookup Ht.
  assert (i = j) as ->; [|congruence].
  eapply (NoDup_lookup _ i j (cond_Type c) Hnd); rewrite list_lookup_fmap.
  - by rewrite Hi.
  - by rewrite Hj, Ht.
Qed.

(** With unique types, looking up is membership: the order of the list does not matter. *)
Lemma GetCondition_elem hdb t c :
  conditions_ok hdb -> snd (GetCondition hdb t) = Some c <-> c ∈ conds hdb /\ cond_Type c = t.
Proof.
  intros Hok. pose proof (GetCondition_spec hdb t) as H.
  destruct (GetCondition hdb t) as [j [c'|]]; simpl.
  - destruct H as (n & -> & Hn & Ht). apply list_elem_of_lookup_2 in Hn. split.
    + by intros [= ->].
    + intros [Hc Hct]. f_equal. eapply cond_type_unique; eauto. congruence.
  - destruct H as [_ H]. split; [done|]. intros [Hc <-]. destruct H.
    apply list_elem_of_fmap. eauto.
Qed.

(** ** [SetCondition] *)

Section SetConditionFacts.
Context {SS : SortSlice}.

(** The condition as [SetCondition] stores it: the time of the last transition is kept when the
    status does not change. *)
Definition stored_condition (now : Z) (hdb : HStreamDB) (c : Condition) : Condition :=
  cond_stamp
    match snd (GetCondition hdb (cond_Type c)) with
    | Some s =>
        if decide (cond_Status s = cond_Status c /\ cond_LastTransitionTime s <> 0%Z)
        then cond_LastTransitionTime s else now
    | None => now
    end (meta_Generation (hdb_Meta hdb)) c.

Lemma list_insert_filter (l : list Condition) n s x t :
  NoDup (cond_Type <$> l) -> l !! n = Some s -> cond_Type s = t ->
  <[n := x]> l ≡ₚ x :: filter (fun c => cond_Type c <> t) l.
Proof.
  intros Hnd Hn <-. apply list_elem_of_split_length in Hn as (l1 & l2 & -> & ->).
  rewrite insert_app_r_alt, Nat.sub_diag by lia. simpl.
  rewrite fmap_app, fmap_cons in Hnd. apply NoDup_app in Hnd as (_ & H1 & H2).
  apply NoDup_cons in H2 as [H2 _].
  rewrite filter_app, filter_cons_False by naive_solver. rewrite !filter_all.
  - symmetry. apply Permutation_middle.
  - intros c Hc Heq. apply H2. rewrite <-Heq. by apply list_elem_of_fmap_2.
  - intros c Hc Heq. eapply (H1 (cond_Type c)); [by apply list_elem_of_fmap_2|].
    rewrite Heq. left.
Qed.

(** The result, up to order: the new condition, and the old ones of the other types. *)
Lemma conds_SetCondition_at now hdb c :
  conditions_ok hdb ->
  conds (SetCondition_at now hdb c) ≡ₚ
    stored_condition now hdb c :: filter (fun x => cond_Type x <> cond_Type c) (conds hdb).
Proof.
  intros Hok. unfold SetCondition_at, stored_condition. simpl.
  pose proof (GetCondition_spec hdb (cond_Type c)) as Hs.
  destruct (GetCondition hdb (cond_Type c)) as [j [s|]]; simpl in *.
  - destruct Hs as (n & -> & Hn & Ht). rewrite decide_True by lia.
    unfold conds at 1. simpl. rewrite sort_slice_Permutation, Nat2Z.id.
    rewrite (list_insert_filter _ _ s _ (cond_Type c)) by done.
    by destruct (decide (cond_Status s = _ /\ _)).
  - destruct Hs as [-> Hs]. rewrite decide_False by auto.
    unfold conds at 1. simpl. rewrite sort_slice_Permutation.
    rewrite filter_all.
    + symmetry. apply Permutation_cons_append.
    + intros x Hx Ht. apply Hs. rewrite <-Ht. by apply list_elem_of_fmap_2.
Qed.

Lemma SetCondition_at_ok now hdb c :
  conditions_ok hdb -> conditions_ok (SetCondition_at now hdb c).
Proof.
  intros Hok. unfold conditions_ok. rewrite (conds_SetCondition_at now hdb c Hok). simpl.
  apply NoDup_cons. split.
  - intros (x & Hx & Hin)%list_elem_of_fmap. apply list_elem_of_filter in Hin as [Hne _]. by apply Hne.
  - eapply sublist_NoDup; [apply Hok|]. apply fmap_sublist. apply sublist_filter.
Qed.

(** What is read back after [SetCondition]. *)
Lemma GetCondition_SetCondition_at now hdb c t :
  conditions_ok hdb ->
  snd (GetCondition (SetCondition_at now hdb c) t) =
    if decide (t = cond_Type c) then Some (stored_condition now hdb c)
    else snd (GetCondition hdb t).
Proof.
  intros Hok. pose proof (SetCondition_at_ok now hdb c Hok) as Hok'.
  apply option_eq. intros x. rewrite (GetCondition_elem _ _ _ Hok').
  rewrite (conds_SetCondition_at now hdb c Hok), elem_of_cons, list_elem_of_filter.
  destruct (decide (t = cond_Type c)) as [->|Hne].
  - split; [|by intros [= <-]; auto]. intros [[-> | [Ht _]] Heq]; [done|by destruct Ht].
  - rewrite (GetCondition_elem _ _ _ Hok). split; [|intros [? <-]; auto].
    intros [[-> | [_ ?]] <-]; [by destruct Hne | done].
Qed.

Lemma SetCondition_at_meta now hdb c : hdb_Meta (SetCondition_at now hdb c) = hdb_Meta hdb.
Proof. unfold SetCondition_at. by destruct (GetCondition _ _). Qed.
Lemma SetCondition_at_spec now hdb c : hdb_Spec (SetCondition_at now hdb c) = hdb_Spec hdb.
Proof. unfold SetCondition_at. by destruct (GetCondition _ _). Qed.

Lemma wp_SetCondition hdb c Q :
  (forall now, Q [Ev CNow now] (Done (SetCondition_at now hdb c))) -> wp (SetCondition hdb c) Q.
Proof. intros H now. apply H. Qed.

(** *** Properties *)

(** [SetCondition] keeps at most one condition per type, on every list that has at most one. *)
Theorem SetCondition_unique now hdb c :
  NoDup (cond_Type <$> conds hdb) -> NoDup (cond_Type <$> conds (SetCondition_at now hdb c)).
Proof. apply SetCondition_at_ok. Qed.

(** C28: after [SetCondition c], the truth of the conditions is as before except for the type of
    [c], which is true exactly when the status of [c] is ["True"]. *)
Theorem IsConditionTrue_SetCondition now hdb c t :
  conditions_ok hdb ->
  IsConditionTrue (SetCondition_at now hdb c) t =
    if decide (t = cond_Type c) then bool_decide (cond_Status c = ConditionTrue)
    else IsConditionTrue hdb t.
Proof.
  intros Hok. unfold IsConditionTrue. rewrite GetCondition_SetCondition_at by done.
  by case_decide.
Qed.

(** [SetCondition] orders the conditions newest transition first; repeating a status that is
    already recorded keeps the time of its last transition, and any other write of a condition
    records the time of the clock. *)
Theorem SetCondition_times now hdb c :
  conditions_ok hdb ->
  Sorted (fun a b => (cond_LastTransitionTime b <= cond_LastTransitionTime a)%Z)
    (conds (SetCondition_at now hdb c)) /\
  exists c', snd (GetCondition (SetCondition_at now hdb c) (cond_Type c)) = Some c' /\
    cond_LastTransitionTime c' =
      (match snd (GetCondition hdb (cond_Type c)) with
       | Some s =>
           if decide (cond_Status s = cond_Status c /\ cond_LastTransitionTime s <> 0%Z)
           then cond_LastTransitionTime s else now
       | None => now
       end).
Proof.
  intros Hok. split.
  - unfold SetCondition_at. destruct (GetCondition _ _) as [j o]. unfold conds at 1. simpl.
    eapply Sorted_weaken; [|apply (sort_slice_sorted _ (fun a => - cond_LastTransitionTime a)%Z)].
    + simpl. lia.
    + intros a b. simpl. lia.
  - rewrite GetCondition_SetCondition_at, decide_True by done. by eexists.
Qed.

End SetConditionFacts.
