(* ===== verification/FlagSet.v ===== *)
(** * Command-line flags: [src/internal/flagset.go] and [src/pkg/args/parse.go]

    The two parsers the operator runs over the arguments of a user's container, with their
    failure modes: [FlagSet.Parse] stops at the first bad argument and keeps what it has parsed
    so far, and panics on the argument ["-"], whose second byte it reads. *)
From S2P Require Import Prelude GoStrings.

(** ** [FlagSet] *)

Record FlagSet := {
  fs_actual : gomap string;
  fs_args : list string; (* arguments after flags *)
  fs_lastName : string
}.

Definition FlagSet_zero : FlagSet := {| fs_actual := None; fs_args := []; fs_lastName := "" |}.

Definition bad_flag (s : string) : string := "bad flag syntax: " +:+ s.

(** The split of a flag at its first ["="], looked for from index 1 on. *)
Definition split_value (name : string) : string * option string :=
  match name with
  | EmptyString => (name, None)
  | String c rest =>
      match cut rest eqsign with
      | Some (l, value) => (String c l, Some value)
      | None => (name, None)
      end
  end.

Arguments split_value : simpl never.

(** [parseOne]: the new state, whether a flag was seen, and the error. *)
Definition parseOne (f : FlagSet) : go (FlagSet * bool * option string) :=
  match fs_args f with
  | [] => Done (f, false, None)
  | s :: rest =>
      let next actual lastName :=
        Done ({| fs_actual := actual; fs_args := rest; fs_lastName := lastName |}, true, None) in
      let bad := Done (f, false, Some (bad_flag s)) in
      match s with
      | EmptyString => next (fs_actual f) "" (* reset lastName, next arg is a flag *)
      | String c s1 =>
          if Ascii.eqb c dash then
            if decide (fs_lastName f <> "") then bad
            else
              match s1 with
              | EmptyString => Panic "runtime error: index out of range [1] with length 1"
              | String c2 s2 =>
                  if Ascii.eqb c2 dash && bool_decide (s2 = "") then
                    (* "--" terminates the flags *)
                    Done ({| fs_actual := fs_actual f; fs_args := rest;
                             fs_lastName := fs_lastName f |}, false, None)
                  else
                    let minuses := if Ascii.eqb c2 dash then "--" else "-" in
                    let name := if Ascii.eqb c2 dash then s2 else s1 in
                    match name with
                    | EmptyString => bad
                    | String n0 _ =>
                        if Ascii.eqb n0 dash || Ascii.eqb n0 eqsign then bad
                        else
                          let '(name, value) := split_value name in
                          match value with
                          | Some v =>
                              actual ← mset (fs_actual f) (minuses +:+ name) v;
                              next actual (fs_lastName f)
                          | None =>
                              (* value is the next arg *)
                              actual ← mset (fs_actual f) (minuses +:+ name) "";
                              next actual (minuses +:+ name)
                          end
                    end
              end
          else if decide (fs_lastName f = "") then bad
          else if Ascii.eqb c eqsign then bad
          else
            actual ← mset (fs_actual f) (fs_lastName f) s;
            next actual ""
      end
  end.

(** The [for] loop of [Parse]; [None] when the fuel runs out. *)
Fixpoint parse_loop (fuel : nat) (f : FlagSet) : option (go (FlagSet * option string)) :=
  match fuel with
  | O => None
  | S fuel' =>
      match parseOne f with
      | Panic msg => Some (Panic msg)
      | Done (f', seen, err) =>
          if seen : bool then parse_loop fuel' f' else Some (Done (f', err))
      end
  end.

(** [Parse(arguments)]: every round of the loop that goes on consumes an argument, so one more
    round than there are arguments is enough. *)
Definition Parse (f : FlagSet) (arguments : list string) : go (FlagSet * option string) :=
  let f := {|
    fs_actual := match fs_actual f with None => Some ∅ | m => m end;
    fs_args := arguments;
    fs_lastName := fs_lastName f |} in
  default (Panic "out of fuel") (parse_loop (S (length arguments)) f).

(** [Flags()] *)
Definition Flags (f : FlagSet) : gomap string := fs_actual f.

(** [sortFlags]: the names in byte order. *)
Definition sortFlags (flags : gomap string) : list string :=
  merge_sort String.le (map_to_list (entries flags)).*1.

(** [Visit(fn)], as the sequence of the calls of [fn]. *)
Definition Visit (f : FlagSet) : list (string * string) :=
  (fun flag => (flag, mstr (fs_actual f) flag)) <$> sortFlags (fs_actual f).

(** The flags of [flags := FlagSet{}; _ = flags.Parse(args)]: what was parsed before an error. *)
Definition parsed_flags (args : list string) : go (gomap string) :=
  Flags ∘ fst <$> Parse FlagSet_zero args.

(** ** [args.ParseArgs] *)

Definition ParseArgs_step (st : gmap string string * string) (arg : string) : gmap string string * string :=
  let '(argsMap, currentKey) := st in
  if HasPrefix arg "--" || HasPrefix arg "-" then (<[arg := ""]> argsMap, arg)
  else if decide (currentKey <> "") then (<[currentKey := arg]> argsMap, "")
  else (argsMap, currentKey).

Definition ParseArgs (args : list string) : gmap string string :=
  fst (foldl ParseArgs_step (∅, "") args).

(** ** A recursive description of the parser

    [scan] reads the argument list from left to right with the flag that waits for a value. *)

(** How one non-empty argument that starts with ["-"] reads. *)
Inductive flag_arg :=
| FlagTerminator
| FlagBad
| FlagPanic
| FlagName (name : string)
| FlagNameValue (name value : string).

Definition read_name (minuses name : string) : flag_arg :=
  match name with
  | EmptyString => FlagBad
  | String n0 _ =>
      if Ascii.eqb n0 dash || Ascii.eqb n0 eqsign then FlagBad
      else match split_value name with
           | (name, Some v) => FlagNameValue (minuses +:+ name) v
           | (name, None) => FlagName (minuses +:+ name)
           end
  end.

Definition read_flag (s : string) : flag_arg :=
  match s with
  | String _ EmptyString => FlagPanic
  | String _ (String c2 s2 as s1) =>
      if Ascii.eqb c2 dash then
        if bool_decide (s2 = "") then FlagTerminator else read_name "--" s2
      else read_name "-" s1
  | EmptyString => FlagBad
  end.

Inductive scan_end := ScanEnd | ScanTerminator | ScanBad (s : string) | ScanPanic.

Fixpoint scan (args : list string) (last : string) (m : gmap string string)
    : gmap string string * scan_end :=
  match args with
  | [] => (m, ScanEnd)
  | EmptyString :: rest => scan rest "" m
  | (String c _ as s) :: rest =>
      if Ascii.eqb c dash then
        if decide (last <> "") then (m, ScanBad s)
        else match read_flag s with
             | FlagTerminator => (m, ScanTerminator)
             | FlagBad => (m, ScanBad s)
             | FlagPanic => (m, ScanPanic)
             | FlagName n => scan rest n (<[n := ""]> m)
             | FlagNameValue n v => scan rest last (<[n := v]> m)
             end
      else if decide (last = "") then (m, ScanBad s)
      else if Ascii.eqb c eqsign then (m, ScanBad s)
      else scan rest "" (<[last := s]> m)
  end.

(** What [Parse] leaves in the map and reports, read off a scan. *)
Definition scan_result (r : gmap string string * scan_end) : go (gomap string * option string) :=
  match r with
  | (m, ScanEnd) | (m, ScanTerminator) => Done (Some m, None)
  | (m, ScanBad s) => Done (Some m, Some (bad_flag s))
  | (_, ScanPanic) => Panic "runtime error: index out of range [1] with length 1"
  end.

(** ** The loop is the scan *)

Lemma parse_loop_scan fuel m args last :
  length args < fuel ->
  exists args' last', parse_loop fuel {| fs_actual := Some m; fs_args := args; fs_lastName := last |} =
    Some ('(m', err) ← scan_result (scan args last m);
          Done ({| fs_actual := m'; fs_args := args'; fs_lastName := last' |}, err)).
Proof.
  revert m args last. induction fuel as [|fuel IH]; intros m args last Hf; [lia|].
  destruct args as [|s rest]; cbn [parse_loop parseOne fs_args scan]; [by do 2 eexists|].
  simpl in Hf.
  destruct s as [|c s1]; cbn [fs_actual fs_args fs_lastName]; [apply IH; lia|].
  destruct (Ascii.eqb c dash) eqn:Hc.
  - destruct (decide (last <> "")) as [Hl|Hl]; [by do 2 eexists|].
    destruct s1 as [|c2 s2]; cbn [read_flag]; [by exists [], ""|].
    destruct (Ascii.eqb c2 dash); simpl; [destruct (bool_decide (s2 = "")); [by do 2 eexists|]|].
    + destruct s2 as [|n0 nm]; cbn [read_name]; [by do 2 eexists|].
      destruct (Ascii.eqb n0 dash || Ascii.eqb n0 eqsign); [by do 2 eexists|].
      destruct (split_value (String n0 nm)) as [name [v|]]; simpl; apply IH; lia.
    + unfold read_name. destruct (Ascii.eqb c2 dash || Ascii.eqb c2 eqsign); [by do 2 eexists|].
      destruct (split_value (String c2 s2)) as [name [v|]]; simpl; apply IH; lia.
  - destruct (decide (last = "")) as [Hl|Hl]; [by do 2 eexists|].
    destruct (Ascii.eqb c eqsign); [by do 2 eexists|]. simpl. apply IH. lia.
Qed.

(** The map, the error or the panic of [Parse] on a fresh [FlagSet]. *)
Lemma Parse_scan args :
  exists args' last', Parse FlagSet_zero args =
    ('(m', err) ← scan_result (scan args "" ∅);
     Done ({| fs_actual := m'; fs_args := args'; fs_lastName := last' |}, err)).
Proof.
  unfold Parse. simpl fs_actual. simpl fs_lastName.
  destruct (parse_loop_scan (S (length args)) ∅ args "" ltac:(lia)) as (args' & last' & ->).
  simpl. eauto.
Qed.

Lemma parsed_flags_scan args :
  parsed_flags args =
    match scan args "" ∅ with
    | (_, ScanPanic) => Panic "runtime error: index out of range [1] with length 1"
    | (m, _) => Done (Some m)
    end.
Proof.
  unfold parsed_flags. destruct (Parse_scan args) as (? & ? & ->).
  by destruct (scan args "" ∅) as [m []].
Qed.

(** ** Facts on single flags *)

#[export] Instance flag_arg_eq_dec : EqDecision flag_arg.
Proof. solve_decision. Defined.

(** [s] reads as a flag whose value, if any, is the next argument. *)
Definition plain_flag (s : string) : Prop := read_flag s = FlagName s.
#[export] Instance plain_flag_dec s : Decision (plain_flag s).
Proof. unfold plain_flag. apply _. Defined.

(** A value the parser accepts after a flag: empty, or not starting with ["-"] or ["="]. *)
Definition plain_value (s : string) : bool :=
  match s with
  | EmptyString => true
  | String c _ => negb (Ascii.eqb c dash) && negb (Ascii.eqb c eqsign)
  end.

(** The flags a scan stores are plain flags: read alone, they name themselves. *)
Definition plain_keys (m : gmap string string) : Prop := map_Forall (fun k _ => plain_flag k) m.

Lemma split_value_cons c rest :
  split_value (String c rest) =
    match cut rest eqsign with
    | Some (l, v) => (String c l, Some v)
    | None => (String c rest, None)
    end.
Proof. done. Qed.

Lemma read_name_plain minuses name n :
  (read_name minuses name = FlagName n \/ exists v, read_name minuses name = FlagNameValue n v) ->
  exists n0 nm, n = minuses +:+ String n0 nm /\ n0 <> dash /\
    read_name minuses (String n0 nm) = FlagName n.
Proof.
  unfold read_name. destruct name as [|n0 nm]; [by intros [?|[? ?]]|].
  destruct (Ascii.eqb_spec n0 dash) as [->|Hd]; [by intros [?|[? ?]]|]. simpl.
  destruct (Ascii.eqb n0 eqsign) eqn:He; [by intros [?|[? ?]]|]. rewrite split_value_cons.
  destruct (cut nm eqsign) as [[l r]|] eqn:Hc; intros [[=]|[v [=]]]; subst.
  - exists n0, l. split_and!; [done..|]. apply cut_Some in Hc as [_ Hc].
    rewrite Ascii_eqb_neq by done. simpl. by rewrite He, split_value_cons, Hc.
  - exists n0, nm. split_and!; [done..|].
    rewrite Ascii_eqb_neq by done. simpl. by rewrite He, split_value_cons, Hc.
Qed.

(** A flag with or without a value is stored under a plain name. *)
Lemma read_flag_plain s n :
  (read_flag s = FlagName n \/ exists v, read_flag s = FlagNameValue n v) -> plain_flag n.
Proof.
  unfold plain_flag.
  destruct s as [|c [|c2 s2]]; cbn [read_flag]; [by intros [?|[? ?]]..|].
  destruct (Ascii.eqb c2 dash); [destruct (bool_decide _); [by intros [?|[? ?]]|]|].
  - intros (n0 & nm & -> & Hd & H)%read_name_plain. cbn [String.append read_flag].
    rewrite Ascii_eqb_refl. by rewrite bool_decide_false.
  - intros (n0 & nm & -> & Hd & H)%read_name_plain. cbn [String.append read_flag].
    by rewrite Ascii_eqb_neq.
Qed.

Lemma plain_flag_dash k : plain_flag k -> exists c s, k = String dash (String c s).
Proof.
  unfold plain_flag. destruct k as [|c [|c2 s2]]; cbn [read_flag]; [done..|].
  destruct (Ascii.eqb c2 dash); [destruct (bool_decide _); [done|]|];
    intros Hr; eapply or_introl, read_name_plain in Hr as (? & ? & Heq & _);
    injection Heq as -> _; eauto.
Qed.

Lemma read_flag_panic s : read_flag s = FlagPanic -> exists c, s = String c "".
Proof.
  assert (forall m n, read_name m n <> FlagPanic) as Hn.
  { intros m n. unfold read_name. by repeat case_match. }
  destruct s as [|c [|c2 s2]]; cbn [read_flag]; [done|eauto|].
  destruct (Ascii.eqb c2 dash); [destruct (bool_decide _); [done|]|]; by intros ?%Hn.
Qed.

(** ** The scan *)

Lemma scan_plain_keys args last m :
  plain_keys m -> last = "" \/ plain_flag last -> plain_keys (fst (scan args last m)).
Proof.
  revert last m. induction args as [|s rest IH]; intros last m Hm Hl; [done|].
  destruct s as [|c s1]; cbn [scan]; [by apply IH; auto|].
  destruct (Ascii.eqb c dash).
  - case_decide; [done|]. destruct (read_flag (String c s1)) as [| | |n|n v] eqn:E; try done.
    + assert (plain_flag n) by (eapply read_flag_plain; eauto).
      apply IH; [|by auto]. by apply map_Forall_insert_2.
    + assert (plain_flag n) by (eapply read_flag_plain; eauto).
      apply IH; [|by auto]. by apply map_Forall_insert_2.
  - case_decide; [done|]. case_match; [done|].
    apply IH; [|by auto]. apply map_Forall_insert_2; [by destruct Hl|done].
Qed.

Lemma scan_panic args last m : snd (scan args last m) = ScanPanic -> "-" ∈ args.
Proof.
  revert last m. induction args as [|s rest IH]; intros last m; [done|].
  destruct s as [|c s1]; cbn [scan]; [by intros ?%IH; right|].
  destruct (Ascii.eqb_spec c dash) as [->|].
  - case_decide; [done|]. destruct (read_flag (String dash s1)) eqn:E; try done.
    + intros _. apply read_flag_panic in E as [c [= <- ->]]. left.
    + intros ?%IH. by right.
    + intros ?%IH. by right.
  - case_decide; [done|]. case_match; [done|]. intros ?%IH. by right.
Qed.

(** A list of flags with their values, as arguments. *)
Definition render (kvs : list (string * string)) : list string := kvs ≫= (fun '(k, v) => [k; v]).

Definition plain_pair (kv : string * string) : Prop := plain_flag kv.1 /\ plain_value kv.2 = true.

Definition insert_pairs (kvs : list (string * string)) (m : gmap string string) : gmap string string :=
  foldl (fun m '(k, v) => <[k := v]> m) m kvs.

Lemma scan_render kvs rest m :
  Forall plain_pair kvs -> scan (render kvs ++ rest) "" m = scan rest "" (insert_pairs kvs m).
Proof.
  intros H. revert m. induction H as [|[k v] kvs [Hk Hv] H IH]; intros m; [done|].
  change (render ((k, v) :: kvs) ++ rest) with (k :: v :: render kvs ++ rest). cbn [fst snd] in *.
  destruct (plain_flag_dash k Hk) as (c & s & ->).
  cbn [scan]. rewrite Ascii_eqb_refl, decide_False by auto. rewrite Hk.
  destruct v as [|d v]; cbn [scan].
  - by rewrite IH.
  - cbn [plain_value] in Hv. apply andb_true_iff in Hv as [H1%negb_true_iff H2%negb_true_iff].
    rewrite H1, H2, decide_False by done. rewrite IH. by rewrite insert_insert_eq.
Qed.

Lemma insert_pairs_union kvs m : insert_pairs kvs m = list_to_map (reverse kvs) ∪ m.
Proof.
  unfold insert_pairs. revert m. induction kvs as [|[k v] kvs IH]; intros m; simpl.
  - by rewrite map_empty_union.
  - rewrite IH, reverse_cons, list_to_map_app. simpl.
    by rewrite insert_empty, <-map_union_assoc, <-insert_union_singleton_l.
Qed.

Lemma insert_pairs_perm kvs (m : gmap string string) :
  kvs ≡ₚ map_to_list m -> insert_pairs kvs ∅ = m.
Proof.
  intros Hp. rewrite insert_pairs_union, map_union_empty, <-(list_to_map_to_list m).
  apply list_to_map_proper.
  - rewrite fmap_reverse, reverse_Permutation, Hp. apply NoDup_fst_map_to_list.
  - by rewrite reverse_Permutation.
Qed.

(** ** [Visit] *)

Lemma sortFlags_Permutation m : sortFlags m ≡ₚ (map_to_list (entries m)).*1.
Proof. apply merge_sort_Permutation. Qed.

Lemma Visit_Permutation f : Visit f ≡ₚ map_to_list (entries (fs_actual f)).
Proof.
  unfold Visit. rewrite sortFlags_Permutation, <-list_fmap_compose.
  rewrite <-(list_fmap_id (map_to_list _)) at 2. apply Permutation_refl', list_fmap_ext.
  intros i [k v] Hkv. simpl. unfold mstr, mget.
  apply list_elem_of_lookup_2, elem_of_map_to_list in Hkv. by rewrite Hkv.
Qed.

(** ** Termination of the loop *)

Lemma parseOne_consumes f f' err :
  parseOne f = Done (f', true, err) -> length (fs_args f) = S (length (fs_args f')).
Proof.
  unfold parseOne. destruct (fs_args f) as [|s rest]; [done|].
  intros H. repeat (case_hyp; try done); by apply go_bind_done in H as (? & _ & ?); simplify_eq/=.
Qed.

Lemma parse_loop_fuel f fuel fuel' :
  length (fs_args f) < fuel -> fuel <= fuel' -> parse_loop fuel f = parse_loop fuel' f.
Proof.
  revert f fuel'. induction fuel as [|fuel IH]; intros f fuel' Hf Hle; [lia|].
  destruct fuel' as [|fuel']; [lia|]. cbn [parse_loop].
  destruct (parseOne f) as [[[f' []] err]|] eqn:E; [|done..].
  apply parseOne_consumes in E. apply IH; lia.
Qed.

Lemma parse_loop_some f fuel : length (fs_args f) < fuel -> is_Some (parse_loop fuel f).
Proof.
  revert f. induction fuel as [|fuel IH]; intros f Hf; [lia|]. cbn [parse_loop].
  destruct (parseOne f) as [[[f' []] err]|] eqn:E; [|by eexists..].
  apply parseOne_consumes in E. apply IH. lia.
Qed.

(** ** Agreement of the two parsers *)

(** An argument that is neither a flag with an ["="] value nor the terminator ["--"]. *)
Definition separate_arg (s : string) : bool :=
  match s with
  | EmptyString => true
  | String c _ =>
      if Ascii.eqb c dash then
        match read_flag s with FlagNameValue _ _ | FlagTerminator => false | _ => true end
      else true
  end.

Lemma read_flag_name c s n : c = dash -> read_flag (String c s) = FlagName n -> n = String c s.
Proof.
  assert (forall m k, read_name m k = FlagName n -> n = m +:+ k) as Hn.
  { intros m k. unfold read_name. destruct k as [|n0 nm]; [done|].
    destruct (_ || _); [done|]. rewrite split_value_cons.
    destruct (cut nm eqsign) as [[]|]; [done|]. by intros [= <-]. }
  intros ->. destruct s as [|c2 s2]; cbn [read_flag]; [done|].
  destruct (Ascii.eqb_spec c2 dash) as [->|]; [destruct (bool_decide _); [done|]|]; by intros ->%Hn.
Qed.

Lemma HasPrefix_dash c s : HasPrefix (String c s) "-" = Ascii.eqb c dash.
Proof.
  destruct (Ascii.eqb_spec c dash) as [->|Hne].
  - apply (HasPrefix_app "-" s).
  - apply not_true_is_false. by intros [t [= -> _]]%HasPrefix_spec.
Qed.

Lemma HasPrefix_dash_dash s : HasPrefix s "--" || HasPrefix s "-" = HasPrefix s "-".
Proof.
  destruct (HasPrefix s "--") eqn:E; [|done]. apply HasPrefix_spec in E as [t ->].
  symmetry. apply (HasPrefix_app "-" ("-" +:+ t)).
Qed.

Lemma scan_separate args last m :
  forallb separate_arg args = true -> snd (scan args last m) <> ScanTerminator.
Proof.
  revert last m. induction args as [|s rest IH]; [done|]. intros last m Hs.
  cbn [forallb] in Hs. apply andb_true_iff in Hs as [H1 H2].
  destruct s as [|c s1]; cbn [scan separate_arg] in *; [by apply IH|].
  destruct (Ascii.eqb c dash).
  - case_decide; [done|]. destruct (read_flag (String c s1)); by auto.
  - case_decide; [done|]. case_match; [done|]. by auto.
Qed.

Lemma ParseArgs_scan args last m m' :
  forallb separate_arg args = true -> scan args last m = (m', ScanEnd) ->
  (last <> "" -> m !! last = Some "") ->
  fst (foldl ParseArgs_step (m, last) args) = m'.
Proof.
  revert last m. induction args as [|s rest IH]; intros last m Hs Hscan Hl; [by simplify_eq/=|].
  cbn [forallb] in Hs. apply andb_true_iff in Hs as [H1 H2].
  cbn [foldl ParseArgs_step]. rewrite HasPrefix_dash_dash.
  destruct s as [|c s1]; cbn [scan separate_arg] in *.
  - replace (HasPrefix "" "-") with false by done.
    destruct (decide (last <> "")) as [Hne|Heq].
    + rewrite insert_id by auto. by apply (IH "").
    + apply dec_stable in Heq as ->. by apply (IH "").
  - rewrite HasPrefix_dash. destruct (Ascii.eqb_spec c dash) as [Hc|Hc].
    + case_decide; [done|]. destruct (read_flag (String c s1)) as [| | |n|] eqn:E; try done.
      apply read_flag_name in E as ->; [|done].
      apply IH; [done..|]. intros _. apply lookup_insert_eq.
    + case_decide; [done|]. case_match; [done|]. rewrite decide_True by done. by apply IH.
Qed.

(** *** Properties *)

(** [Visit] calls its function once for every parsed flag, with its value, in increasing
    byte order of the names. *)
Theorem Visit_sorted_complete f :
  StronglySorted String.le (Visit f).*1 /\ Visit f ≡ₚ map_to_list (entries (fs_actual f)).
Proof.
  split; [|apply Visit_Permutation].
  unfold Visit. rewrite <-list_fmap_compose. rewrite (list_fmap_ext _ id), list_fmap_id by done.
  apply (StronglySorted_merge_sort _).
Qed.

(** C24: the loop of [Parse] terminates: each round that goes on consumes one argument, so any
    number of rounds above the number of arguments gives the same, complete result. *)
Theorem Parse_terminates f arguments fuel :
  length arguments < fuel ->
  parse_loop fuel {| fs_actual := Some (default ∅ (fs_actual f)); fs_args := arguments;
                     fs_lastName := fs_lastName f |}
    = Some (Parse f arguments).
Proof.
  intros Hf. unfold Parse.
  replace (match fs_actual f with None => Some ∅ | m => m end) with (Some (default ∅ (fs_actual f)))
    by by destruct (fs_actual f).
  rewrite (parse_loop_fuel _ (S (length arguments)) fuel) by (simpl; lia).
  set (f' := {| fs_actual := _ |}).
  destruct (parse_loop_some f' fuel ltac:(simpl; lia)) as [r ->]. done.
Qed.

(** Parsing never panics on arguments without a lone ["-"]; a lone ["-"] where a flag is
    expected always panics. *)
Theorem Parse_panics_on_dash args :
  ("-" ∉ args -> exists f err, Parse FlagSet_zero args = Done (f, err)) /\
  (forall kvs rest, Forall plain_pair kvs -> args = render kvs ++ "-" :: rest ->
    exists msg, Parse FlagSet_zero args = Panic msg).
Proof.
  destruct (Parse_scan args) as (args' & last' & ->). split.
  - intros Hd. pose proof (scan_panic args "" ∅) as Hp.
    destruct (scan args "" ∅) as [m []]; simpl; [eauto..|]. by destruct Hd; apply Hp.
  - intros kvs rest Hk ->. rewrite scan_render by done. simpl. eauto.
Qed.

(** C22: printing the flags of a map in the order of [Visit] and parsing the result gives the map
    back, when its keys are flag names and its values are not mistaken for flags. *)
Theorem Parse_render_Visit f m :
  fs_actual f = Some m -> map_Forall (fun k v => plain_pair (k, v)) m ->
  exists f', Parse FlagSet_zero (render (Visit f)) = Done (f', None) /\ Flags f' = Some m.
Proof.
  intros Hf Hm. pose proof (Visit_Permutation f) as Hp. rewrite Hf in Hp. simpl in Hp.
  destruct (Parse_scan (render (Visit f))) as (args' & last' & ->).
  rewrite <-(app_nil_r (render (Visit f))), scan_render.
  - simpl. eexists. split; [done|]. simpl. by rewrite (insert_pairs_perm _ m).
  - rewrite Hp. apply map_Forall_to_list in Hm. by eapply Forall_impl; [|intros [??]].
Qed.

(** The names [Parse] stores are flag names: parsed again, alone, they read as themselves. *)
Theorem Parse_keys_plain args f err :
  Parse FlagSet_zero args = Done (f, err) -> plain_keys (entries (Flags f)).
Proof.
  destruct (Parse_scan args) as (args' & last' & ->). intros H.
  pose proof (scan_plain_keys args "" ∅ (map_Forall_empty _) (or_introl eq_refl)) as Hk.
  destruct (scan args "" ∅) as [m []]; by simplify_eq/=.
Qed.

(** The two parsers, on an argument list both read. *)
Lemma ParseArgs_Parse args f :
  Parse FlagSet_zero args = Done (f, None) -> forallb separate_arg args = true ->
  Flags f = Some (ParseArgs args).
Proof.
  destruct (Parse_scan args) as (args' & last' & ->). intros H Hs. unfold ParseArgs.
  destruct (scan args "" ∅) as [m e] eqn:E.
  pose proof (scan_separate args "" ∅ Hs) as He. rewrite E in He. simpl in *.
  assert (e = ScanEnd) as -> by (destruct e; naive_solver).
  injection H as <-. simpl. f_equal. symmetry. by eapply ParseArgs_scan.
Qed.

