(* ===== verification/Naming.v ===== *)
(** * Building blocks shared by the components: [src/internal/*_helper.go], [res_name_mgr.go]

    Metadata, services, claims, deployments and stateful sets of a component of a cluster. The
    third-party functions on values that these files call are the fields of [KubeLib]. *)
From S2P Require Import Prelude GoStrings KubeTypes ApiTypes Effects.

(** [intstr_IntVal s] is [intstr.Parse(s).IntVal]; [hashstructure_Hash o] the 64-bit hash of an
    object, 0 when hashing fails; [resource_MustParse s] the value of a quantity. *)
Class KubeLib := {
  intstr_IntVal : string -> Z;
  hashstructure_Hash : kobj -> Z;
  resource_MustParse : string -> Z
}.

(** ** [config_map_helper.go] *)

Definition HStoreDataPath : string := "/data/logdevice".
Definition HMetaDataPath : string := "/rqlite/file".

(** ** [res_name_mgr.go] *)

Definition GetResNameWithDefault (hdb : HStreamDB) (shortName defaultName : string) : string :=
  hdb_Name hdb +:+ "-" +:+ (if decide (shortName = "") then defaultName else shortName).

Definition GetResNameOnPanic (hdb : HStreamDB) (shortName : string) : go string :=
  if decide (shortName = "") then Panic "short name is empty"
  else Done (GetResNameWithDefault hdb shortName "").

(** ** [pod_helper.go] *)

Definition GetObjectMetadata (hdb : HStreamDB) (base : option ObjectMeta) (compType : ComponentType)
    : ObjectMeta :=
  let metadata := default meta_zero base in
  let metadata := meta_set_Name (GetResName compType hdb) metadata in
  let metadata := meta_set_Namespace (hdb_Namespace hdb) metadata in
  let labels := entries (meta_Labels metadata) in
  let labels := <[InstanceKey := hdb_Name hdb]> labels in
  let labels := <[ComponentKey := ct_string compType]> labels in
  let metadata := meta_set_Labels (Some labels) metadata in
  meta_set_Annotations (Some (entries (meta_Annotations metadata))) metadata.

(** ** [service_helper.go] *)

Definition GetService (hdb : HStreamDB) (compType : ComponentType) (ports : list ServicePort) : Service := {|
  svc_Meta := GetObjectMetadata hdb None compType;
  svc_Spec := {|
    svc_Ports := Some ports;
    svc_Selector := Some {[ComponentKey := ct_string compType]};
    svc_ClusterIP := ""; svc_PublishNotReadyAddresses := false; svc_rest := None |} |}.

Definition GetHeadlessService (hdb : HStreamDB) (compType : ComponentType) (ports : list ServicePort)
    : go Service :=
  let service := GetService hdb compType ports in
  name ← GetResNameOnPanic hdb ("internal-" +:+ ct_string compType);
  let spec := svc_Spec service in
  Done {|
    svc_Meta := meta_set_Name name (svc_Meta service);
    svc_Spec := {|
      svc_Ports := svc_Ports spec; svc_Selector := svc_Selector spec;
      svc_ClusterIP := ClusterIPNone; svc_PublishNotReadyAddresses := true;
      svc_rest := svc_rest spec |} |}.

Definition svc_set_PublishNotReadyAddresses (v : bool) (s : Service) : Service := {|
  svc_Meta := svc_Meta s;
  svc_Spec := {|
    svc_Ports := svc_Ports (svc_Spec s); svc_Selector := svc_Selector (svc_Spec s);
    svc_ClusterIP := svc_ClusterIP (svc_Spec s); svc_PublishNotReadyAddresses := v;
    svc_rest := svc_rest (svc_Spec s) |} |}.

(** ** [pvc_helper.go] *)

Definition GetPvcName (hdb : HStreamDB) (pvc : option PVCTemplate) : string :=
  let shortName :=
    match pvc with
    | Some p => if decide (meta_Name (pvct_Meta p) <> "") then meta_Name (pvct_Meta p) else ""
    | None => ""
    end in
  GetResNameWithDefault hdb shortName "data".

Definition ReadWriteOnce : string := "ReadWriteOnce".
Definition ResourceStorage : string := "storage".

Section KubeLib.
Context {KL : KubeLib}.

Definition GetPvc (hdb : HStreamDB) (template : option PVCTemplate) (compType : ComponentType)
    : PersistentVolumeClaim :=
  let spec :=
    match template with
    | Some t => pvct_Spec t
    | None => {| pvcs_AccessModes := None; pvcs_Requests := None; pvcs_rest := None |}
    end in
  let meta := GetObjectMetadata hdb (pvct_Meta <$> template) compType in
  let meta := meta_set_Name (GetPvcName hdb template) meta in
  let modes := match pvcs_AccessModes spec with None => Some [ReadWriteOnce] | m => m end in
  let requests := default ∅ (pvcs_Requests spec) in
  let storage := default 0%Z (requests !! ResourceStorage) in
  let requests :=
    if decide (storage = 0%Z) then <[ResourceStorage := resource_MustParse "128Gi"]> requests
    else requests in
  {| pvc_Meta := meta;
     pvc_Spec := {| pvcs_AccessModes := modes; pvcs_Requests := Some requests;
                    pvcs_rest := pvcs_rest spec |} |}.

(** ** [pod_set_helper.go] *)

Definition GetObjectHash (obj : kobj) : string := Itoa (hashstructure_Hash obj).

(** [m.Annotations[LastSpecKey] = hash] on a metadata whose annotation map is not nil. *)
Definition annotate_hash (hash : string) (m : ObjectMeta) : go ObjectMeta :=
  annotations ← mset (meta_Annotations m) LastSpecKey hash;
  Done (meta_set_Annotations annotations m).

Definition GetDeployment (hdb : HStreamDB) (comp : Component) (podSpec : PodTemplateSpec)
    (compType : ComponentType) : go Deployment :=
  let deploy := {|
    dep_Meta := GetObjectMetadata hdb None compType;
    dep_Spec := {|
      dep_Replicas := Some (comp_Replicas comp);
      dep_Selector := meta_Labels (tpl_Meta podSpec);
      dep_Template := podSpec;
      dep_rest := None |};
    dep_readyReplicas := 0 |} in
  meta ← annotate_hash (GetObjectHash (ODeployment deploy)) (dep_Meta deploy);
  Done (dep_set_Meta meta deploy).

Definition ParallelPodManagement : string := "Parallel".

Definition GetStatefulSet (hdb : HStreamDB) (comp : Component) (podSpec : PodTemplateSpec)
    (compType : ComponentType) : go StatefulSet :=
  service ← GetHeadlessService hdb compType [];
  let sts := {|
    sts_Meta := GetObjectMetadata hdb None compType;
    sts_Spec := {|
      sts_Replicas := Some (comp_Replicas comp);
      sts_ServiceName := meta_Name (svc_Meta service);
      sts_Selector := meta_Labels (tpl_Meta podSpec);
      sts_PodManagementPolicy := ParallelPodManagement;
      sts_Template := podSpec;
      sts_VolumeClaimTemplates := None;
      sts_UpdateStrategy := None; sts_MinReadySeconds := 0; sts_rest := None |};
    sts_readyReplicas := 0 |} in
  meta ← annotate_hash (GetObjectHash (OStatefulSet sts)) (sts_Meta sts);
  Done (sts_set_Meta meta sts).

End KubeLib.

(** The spec hash an object carries. *)
Definition last_spec (m : ObjectMeta) : string := mstr (meta_Annotations m) LastSpecKey.

(** A label selector selects an object when the object has all its labels. *)
Definition selects (selector labels : gomap string) : Prop := entries selector ⊆ entries labels.

(** ** Lemmas *)

Lemma GetResNameOnPanic_done hdb ct :
  GetResNameOnPanic hdb ("internal-" +:+ ct_string ct) = Done (GetInternalResName ct hdb).
Proof.
  unfold GetResNameOnPanic, GetResNameWithDefault, GetInternalResName.
  rewrite !decide_False by done. by destruct ct.
Qed.

(** The headless service, which the code always obtains: the short name is never empty. *)
Definition headless (hdb : HStreamDB) (ct : ComponentType) (ports : list ServicePort) : Service := {|
  svc_Meta := meta_set_Name (GetInternalResName ct hdb) (GetObjectMetadata hdb None ct);
  svc_Spec := {|
    svc_Ports := Some ports; svc_Selector := Some {[ComponentKey := ct_string ct]};
    svc_ClusterIP := ClusterIPNone; svc_PublishNotReadyAddresses := true; svc_rest := None |} |}.

Lemma GetHeadlessService_done hdb ct ports :
  GetHeadlessService hdb ct ports = Done (headless hdb ct ports).
Proof. unfold GetHeadlessService. by rewrite GetResNameOnPanic_done. Qed.

#[export] Hint Rewrite GetHeadlessService_done GetResNameOnPanic_done : hop_rw.

Lemma headless_name ct hdb ports :
  meta_Name (svc_Meta (v1alpha2.GetHeadlessService ct hdb ports)) = GetInternalResName ct hdb.
Proof. simpl. apply decide_True. unfold GetInternalResName. by destruct (hdb_Name hdb). Qed.

Lemma GetObjectMetadata_labels hdb ct :
  meta_Labels (GetObjectMetadata hdb None ct) =
    Some (<[ComponentKey := ct_string ct]> {[InstanceKey := hdb_Name hdb]}).
Proof. done. Qed.

Section Facts.
Context {KL : KubeLib}.

Lemma GetDeployment_done hdb comp podSpec ct :
  exists d, GetDeployment hdb comp podSpec ct = Done d /\
    ObjectKey (dep_Meta d) = {| nn_Namespace := hdb_Namespace hdb; nn_Name := GetResName ct hdb |} /\
    dep_Spec d = {| dep_Replicas := Some (comp_Replicas comp);
                    dep_Selector := meta_Labels (tpl_Meta podSpec);
                    dep_Template := podSpec; dep_rest := None |}.
Proof. by eexists. Qed.

Lemma GetStatefulSet_done hdb comp podSpec ct :
  exists s, GetStatefulSet hdb comp podSpec ct = Done s /\
    ObjectKey (sts_Meta s) = {| nn_Namespace := hdb_Namespace hdb; nn_Name := GetResName ct hdb |} /\
    sts_Spec s = {| sts_Replicas := Some (comp_Replicas comp);
      sts_ServiceName := GetInternalResName ct hdb; sts_Selector := meta_Labels (tpl_Meta podSpec);
      sts_PodManagementPolicy := ParallelPodManagement; sts_Template := podSpec;
      sts_VolumeClaimTemplates := None; sts_UpdateStrategy := None; sts_MinReadySeconds := 0;
      sts_rest := None |}.
Proof. unfold GetStatefulSet. rewrite GetHeadlessService_done. by eexists. Qed.

(** The selector of a service names the component alone. *)
Lemma component_selected hdb ct ct' :
  selects (Some {[ComponentKey := ct_string ct]}) (meta_Labels (GetObjectMetadata hdb None ct')) <-> ct = ct'.
Proof.
  unfold selects. rewrite GetObjectMetadata_labels. simpl. split.
  - intros H%map_singleton_subseteq_l. rewrite lookup_insert_eq in H.
    injection H as H. symmetry. by apply ct_string_inj.
  - intros ->. apply insert_mono, map_empty_subseteq.
Qed.

(** The selector of a stateful set or deployment is the label set of its pod template, and
    separates the components and the instances. *)
Lemma component_labels_distinct hdb hdb' ct ct' :
  selects (meta_Labels (GetObjectMetadata hdb None ct)) (meta_Labels (GetObjectMetadata hdb' None ct')) <->
  hdb_Name hdb = hdb_Name hdb' /\ ct = ct'.
Proof.
  unfold selects. rewrite !GetObjectMetadata_labels. simpl. split; [|by intros [-> ->]].
  intros H. rewrite map_subseteq_spec in H. split.
  - specialize (H InstanceKey (hdb_Name hdb)).
    rewrite !lookup_insert_ne, !lookup_singleton_eq in H by done. specialize (H eq_refl). congruence.
  - specialize (H ComponentKey (ct_string ct)). rewrite !lookup_insert_eq in H.
    specialize (H eq_refl). injection H as H. by apply ct_string_inj.
Qed.

(** *** Properties *)

(** The two implementations of the headless service, in [internal] and in [v1alpha2], build
    the same object, and neither panics. *)
Theorem GetHeadlessService_equiv hdb ct ports :
  GetHeadlessService hdb ct ports = Done (v1alpha2.GetHeadlessService ct hdb (Some ports)).
Proof.
  rewrite GetHeadlessService_done. unfold headless, v1alpha2.GetHeadlessService.
  do 2 f_equal. unfold v1alpha2.GetObjectMeta, GetObjectMetadata, v1alpha2.mergeMap. simpl.
  rewrite decide_True by (unfold GetInternalResName; by destruct (hdb_Name hdb)).
  unfold meta_set_Name, meta_set_Namespace, meta_set_Labels, meta_set_Annotations. simpl.
  rewrite !(left_id_L ∅ (∪)). do 2 f_equal.
Qed.

(** A stored claim always asks for storage and has an access mode, except when the user gives
    an empty, non-nil list of modes; the user's storage request is kept when it is not zero. *)
Theorem GetPvc_defaults hdb template ct :
  resource_MustParse "128Gi" <> 0%Z ->
  exists requests q,
    pvcs_Requests (pvc_Spec (GetPvc hdb template ct)) = Some requests /\
    requests !! ResourceStorage = Some q /\ q <> 0%Z /\
    (forall t r v, template = Some t -> pvcs_Requests (pvct_Spec t) = Some r ->
       r !! ResourceStorage = Some v -> v <> 0%Z -> q = v) /\
    (pvcs_AccessModes (pvc_Spec (GetPvc hdb template ct)) = Some [] <->
       exists t, template = Some t /\ pvcs_AccessModes (pvct_Spec t) = Some []) /\
    pvcs_AccessModes (pvc_Spec (GetPvc hdb template ct)) <> None.
Proof.
  intros Hq. unfold GetPvc. cbn [pvc_Spec pvcs_Requests pvcs_AccessModes].
  set (spec := match template with Some t => pvct_Spec t | None => _ end).
  set (requests := default ∅ (pvcs_Requests spec)).
  case_decide as Hz.
  - eexists _, _. split; [done|]. split; [apply lookup_insert_eq|]. split; [done|].
    split; [|split].
    + intros t r v -> Hr Hv Hnz. subst spec requests. by rewrite Hr in Hz; simpl in Hz; rewrite Hv in Hz.
    + subst spec. destruct template as [t|]; [|naive_solver]. destruct (pvcs_AccessModes (pvct_Spec t)) eqn:E; naive_solver.
    + by destruct (pvcs_AccessModes spec).
  - destruct (requests !! ResourceStorage) as [q|] eqn:Eq; simpl in Hz; [|done].
    eexists _, _. split; [done|]. split; [done|]. split; [done|]. split; [|split].
    + intros t r v -> Hr Hv Hnz. subst spec requests. rewrite Hr in Eq. simpl in Eq. congruence.
    + subst spec. destruct template as [t|]; [|naive_solver]. destruct (pvcs_AccessModes (pvct_Spec t)) eqn:E; naive_solver.
    + by destruct (pvcs_AccessModes spec).
Qed.

(** C40: the services of a component, the one with an address and the headless one, select
    exactly the pods of that component, but of every cluster: the selector does not name the
    instance. Two clusters in one namespace therefore share their services, although their
    stateful sets, whose selector is the whole label set, are kept apart. *)
Theorem service_selects_other_instances hdb hdb' ct ct' ports :
  let pod := meta_Labels (GetObjectMetadata hdb' None ct') in
  (selects (svc_Selector (svc_Spec (GetService hdb ct ports))) pod <-> ct = ct') /\
  (exists svc, GetHeadlessService hdb ct ports = Done svc /\
     (selects (svc_Selector (svc_Spec svc)) pod <-> ct = ct')) /\
  (selects (meta_Labels (GetObjectMetadata hdb None ct)) pod <-> hdb_Name hdb = hdb_Name hdb' /\ ct = ct').
Proof.
  split_and!; [apply component_selected| |apply component_labels_distinct].
  rewrite GetHeadlessService_done. eexists. split; [done|]. apply component_selected.
Qed.

End Facts.
