(* ===== verification/Constants.v ===== *)
(** * Default ports, arguments and environment: [src/pkg/constants] *)
From S2P Require Import Prelude GoStrings KubeTypes.

Definition AdminServerPortName : string := "admin-port".
Definition DefaultAdminServerPort : ContainerPort := mkPort AdminServerPortName 6440 "".

Definition DefaultHMetaArgs : list string :=
  ["--disco-mode"; "dns"; "--join-interval"; "1s"; "--join-attempts"; "120"].
Definition DefaultHMetaPort : ContainerPort := mkPort "rqlite" 4001 ProtocolTCP.

Definition DefaultHServerPort : ContainerPort := mkPort "port" 6570 ProtocolTCP.
Definition DefaultHServerInternalPort : ContainerPort := mkPort "internal-port" 6571 ProtocolTCP.
Definition DefaultHServerEnv : list EnvVar :=
  [{| env_Name := "POD_NAME"; env_Value := ""; env_ValueFrom := Some (FieldRef "metadata.name") |}].

Definition DefaultHStoreConfigPath : string := "/etc/logdevice".
Definition DefaultHStoreDataPath : string := "/data/logdevice".
Definition DefaultHStoreArgs : list string :=
  ["--config-path"; DefaultHStoreConfigPath +:+ "/config.json";
   "--address"; "$(POD_IP)";
   "--name"; "$(POD_NAME)";
   "--local-log-store-path"; DefaultHStoreDataPath].
Definition DefaultHStoreEnv : list EnvVar :=
  [{| env_Name := "POD_NAME"; env_Value := ""; env_ValueFrom := Some (FieldRef "metadata.name") |};
   {| env_Name := "POD_IP"; env_Value := ""; env_ValueFrom := Some (FieldRef "status.podIP") |}].
Definition DefaultHStorePorts : list ContainerPort :=
  [mkPort "port" 4440 ProtocolTCP; mkPort "gossip-port" 4441 ProtocolTCP;
   mkPort "admin-port" 6440 ProtocolTCP].
