(* ===== verification/Merge.v ===== *)
(** * Merging defaults into user input: [src/internal/controller/utils.go]

    How a container of the user is completed: fields, environment, arguments and ports. The loops
    that range over a Go map are folds over the entries in some order; the results do not depend
    on it. *)
From S2P Require Import Prelude GoStrings KubeTypes ApiTypes Effects FlagSet Constants Naming.

(** ** [structAssign] on containers

    Reflection copies every field of the source that is not its type's zero value. A slice is
    zero when it is nil: an empty slice overwrites. *)
Definition assign_string (dist src : string) : string := if decide (src = "") then dist else src.
Definition assign_opt {A} (dist src : option A) : option A :=
  match src with None => dist | _ => src end.
Definition assign_bool (dist src : bool) : bool := if src then src else dist.

Definition structAssign (dist src : Container) : Container := {|
  ctr_Name := assign_string (ctr_Name dist) (ctr_Name src);
  ctr_Image := assign_string (ctr_Image dist) (ctr_Image src);
  ctr_Command := assign_opt (ctr_Command dist) (ctr_Command src);
  ctr_Args := assign_opt (ctr_Args dist) (ctr_Args src);
  ctr_WorkingDir := assign_string (ctr_WorkingDir dist) (ctr_WorkingDir src);
  ctr_Ports := assign_opt (ctr_Ports dist) (ctr_Ports src);
  ctr_EnvFrom := assign_opt (ctr_EnvFrom dist) (ctr_EnvFrom src);
  ctr_Env := assign_opt (ctr_Env dist) (ctr_Env src);
  ctr_Resources := assign_opt (ctr_Resources dist) (ctr_Resources src);
  ctr_VolumeMounts := assign_opt (ctr_VolumeMounts dist) (ctr_VolumeMounts src);
  ctr_VolumeDevices := assign_opt (ctr_VolumeDevices dist) (ctr_VolumeDevices src);
  ctr_LivenessProbe := assign_opt (ctr_LivenessProbe dist) (ctr_LivenessProbe src);
  ctr_ReadinessProbe := assign_opt (ctr_ReadinessProbe dist) (ctr_ReadinessProbe src);
  ctr_StartupProbe := assign_opt (ctr_StartupProbe dist) (ctr_StartupProbe src);
  ctr_Lifecycle := assign_opt (ctr_Lifecycle dist) (ctr_Lifecycle src);
  ctr_TerminationMessagePath :=
    assign_string (ctr_TerminationMessagePath dist) (ctr_TerminationMessagePath src);
  ctr_TerminationMessagePolicy :=
    assign_string (ctr_TerminationMessagePolicy dist) (ctr_TerminationMessagePolicy src);
  ctr_ImagePullPolicy := assign_string (ctr_ImagePullPolicy dist) (ctr_ImagePullPolicy src);
  ctr_SecurityContext := assign_opt (ctr_SecurityContext dist) (ctr_SecurityContext src);
  ctr_Stdin := assign_bool (ctr_Stdin dist) (ctr_Stdin src);
  ctr_StdinOnce := assign_bool (ctr_StdinOnce dist) (ctr_StdinOnce src);
  ctr_TTY := assign_bool (ctr_TTY dist) (ctr_TTY src) |}.

(** ** Maps *)

(** One round of the loop of [mergeMap]: the target after it, and whether it changed. *)
Definition mergeMap_step (acc : go (gomap string * bool)) (entry : string * string)
    : go (gomap string * bool) :=
  let '(key, value) := entry in
  '(target, changed) ← acc;
  if decide (mstr target key <> value) then
    target' ← mset target key value;
    Done (target', true)
  else Done (target, changed).

(** The loop over the entries of [desired] in the order [order]. *)
Definition mergeMap_over (target : gomap string) (order : list (string * string))
    : go (gomap string * bool) :=
  foldl mergeMap_step (Done (target, false)) order.

Definition mergeMap (target desired : gomap string) : go (gomap string * bool) :=
  mergeMap_over target (map_to_list (entries desired)).

Definition mergeLabelsInMetadata (target desired : ObjectMeta) : go (ObjectMeta * bool) :=
  '(labels, changed) ← mergeMap (meta_Labels target) (meta_Labels desired);
  Done (meta_set_Labels labels target, changed).

Definition mergeAnnotations (target desired : ObjectMeta) : go (ObjectMeta * bool) :=
  '(annotations, changed) ← mergeMap (meta_Annotations target) (meta_Annotations desired);
  Done (meta_set_Annotations annotations target, changed).

Definition isHashChanged (obj1 obj2 : ObjectMeta) : bool :=
  bool_decide (last_spec obj1 <> last_spec obj2).

(** ** Environment and arguments *)

Definition extendEnvs (envs : slice EnvVar) (externalEnvs : list EnvVar) : slice EnvVar :=
  let existingVars := env_Name <$> elems envs in
  foldl (fun envs envVar =>
    if decide (env_Name envVar ∈ existingVars) then envs else append envs [envVar])
    envs externalEnvs.

(** The key under which a flag of the user counts as given. *)
Definition exist_key (flag : string) : string :=
  if decide (flag = "-p") then "port" else TrimLeftDash flag.

(** The second loop of [extendArgs] over the external flags in the order [order]. *)
Definition addMissingFlags (existKeys : list string) (order : list (string * string))
    (flags : gomap string) : go (gomap string) :=
  foldl (fun acc '(flag, value) =>
    flags ← acc;
    if decide (TrimLeftDash flag ∈ existKeys) then Done flags else mset flags flag value)
    (Done flags) order.

(** [extendArgs(args, externalArgs...)]: the merged arguments, or the parse error. *)
Definition extendArgs (args externalArgs : list string) : go (string + list string) :=
  '(containerArgFlags, err) ← Parse FlagSet_zero args;
  match err with
  | Some e => Done (inl e)
  | None =>
      let flags := Flags containerArgFlags in
      let existKeys := exist_key <$> (map_to_list (entries flags)).*1 in
      externalFlags ← parsed_flags externalArgs;
      flags' ← addMissingFlags existKeys (map_to_list (entries externalFlags)) flags;
      Done (inr (render (Visit {| fs_actual := flags'; fs_args := fs_args containerArgFlags;
                                  fs_lastName := fs_lastName containerArgFlags |})))
  end.

(** [container.Args, _ = extendArgs(...)]: an error leaves a nil slice. *)
Definition args_or_nil (r : string + list string) : slice string :=
  match r with inl _ => None | inr args => Some args end.

(** ** Ports *)

Definition unset_name (p : ContainerPort) : ContainerPort :=
  if decide (port_Name p = "") then port_set_Name ("unset-" +:+ Itoa (port_ContainerPort p)) p else p.

Definition has_port (name : string) (ports : list ContainerPort) : bool :=
  existsb (fun p => bool_decide (port_Name p = name)) ports.

Definition extendPorts (ports : slice ContainerPort) (externalPorts : list ContainerPort)
    : slice ContainerPort :=
  foldl (fun ports p => if has_port (port_Name p) (elems ports) then ports else append ports [unset_name p])
    ports externalPorts.

(** The Go code also writes the new names into the slice of the caller; the only callers are tests. *)
Definition mergePorts (required userDefined : list ContainerPort) : list ContainerPort :=
  foldl (fun ports p => if has_port (port_Name p) ports then ports else ports ++ [unset_name p])
    required userDefined.

Section KubeLib.
Context {KL : KubeLib}.

Definition coverPort (parsedArgs : gomap string) (p : ContainerPort) : ContainerPort :=
  match mget parsedArgs ("--" +:+ port_Name p) with
  | Some port => port_set_ContainerPort (intstr_IntVal port) p
  | None => p
  end.

Definition coverPortsFromArgs (args : list string) (ports : list ContainerPort)
    : go (list ContainerPort) :=
  parsedArgs ← parsed_flags args;
  Done (coverPort parsedArgs <$> ports).

(** ** The address of HMeta *)

(** The port and the error of [flags.Parse]. *)
Definition parseHMetaPort (args : list string) : go (ContainerPort * option string) :=
  '(flags, err) ← Parse FlagSet_zero args;
  match err with
  | Some e => Done (DefaultHMetaPort, Some e)
  | None =>
      match mget (Flags flags) "--http-addr" with
      | Some addr =>
          match Split addr colon with
          | [_; port] => Done (mkPort "port" (intstr_IntVal port) ProtocolTCP, None)
          | _ => Done (DefaultHMetaPort, None)
          end
      | None => Done (DefaultHMetaPort, None)
      end
  end.

Definition getHMetaAddr (hdb : HStreamDB) : go (string * option string) :=
  match spec_ExternalHMeta (hdb_Spec hdb) with
  | Some ext => Done (GetAddr ext, None)
  | None =>
      svc ← GetHeadlessService hdb ComponentTypeHMeta [];
      '(port, err) ← parseHMetaPort (elems (ctr_Args (comp_Container (spec_HMeta (hdb_Spec hdb)))));
      match err with
      | Some e => Done ("", Some e)
      | None =>
          Done (meta_Name (svc_Meta svc) +:+ "." +:+ meta_Namespace (svc_Meta svc) +:+ ":" +:+
                Itoa (port_ContainerPort port), None)
      end
  end.

End KubeLib.

(** ** [mergeMap] *)

(** What [m[k]] is after the entry of [desired] for [k], if any, has been merged. *)
Definition merged_value (t desired : gmap string string) (k : string) : option string :=
  match desired !! k with
  | Some v => if decide (default "" (t !! k) = v) then t !! k else Some v
  | None => t !! k
  end.

Lemma mergeMap_fold_some order t changed :
  NoDup order.*1 ->
  exists t' changed', foldl mergeMap_step (Done (Some t, changed)) order = Done (Some t', changed') /\
    (forall k, t' !! k = merged_value t (list_to_map order) k) /\
    (changed' = true <-> changed = true \/ t' <> t).
Proof.
  unfold merged_value. revert t changed. induction order as [|[k v] order IH]; intros t changed Hnd.
  { exists t, changed. split; [done|]. split; [done|]. naive_solver. }
  rewrite fmap_cons in Hnd. apply NoDup_cons in Hnd as [Hk Hnd]. cbn [fst] in Hk.
  assert ((list_to_map order : gmap string string) !! k = None) as Hkn by by apply not_elem_of_list_to_map.
  cbn [foldl mergeMap_step mbind go_bind]. rewrite mstr_Some.
  destruct (decide (default "" (t !! k) <> v)) as [Hne|Heq].
  - destruct (IH (<[k := v]> t) true Hnd) as (t' & c' & Hf & Ht & Hc).
    cbn [mset mbind go_bind]. rewrite Hf. exists t', c'. split; [done|].
    assert (forall k', t' !! k' = match (<[k := v]> (list_to_map order : gmap string string)) !! k' with
      | Some v' => if decide (default "" (t !! k') = v') then t !! k' else Some v'
      | None => t !! k' end) as Ht'.
    { intros k'. rewrite Ht. destruct (decide (k = k')) as [<-|Hkk].
      - rewrite Hkn, !lookup_insert_eq. by rewrite decide_False.
      - by rewrite !lookup_insert_ne. }
    split; [done|]. split; [|by rewrite Hc; auto]. intros _. right. intros ->.
    specialize (Ht k). rewrite Hkn, lookup_insert_eq in Ht. by rewrite Ht in Hne.
  - apply dec_stable in Heq. destruct (IH t changed Hnd) as (t' & c' & Hf & Ht & Hc).
    rewrite Hf. exists t', c'. split; [done|]. split; [|done].
    intros k'. rewrite Ht. cbn [list_to_map foldr uncurry]. destruct (decide (k = k')) as [<-|Hkk].
    + rewrite Hkn, lookup_insert_eq. by rewrite decide_True.
    + by rewrite lookup_insert_ne.
Qed.

Lemma mergeMap_fold_panic msg order : foldl mergeMap_step (Panic msg) order = Panic msg.
Proof. induction order as [|[k v] order IH]; done. Qed.

Lemma mergeMap_fold_nil order changed :
  (exists msg, foldl mergeMap_step (Done (None, changed)) order = Panic msg) <->
  Exists (fun kv => kv.2 <> "") order.
Proof.
  induction order as [|[k v] order IH]; cbn [foldl mergeMap_step mbind go_bind].
  { rewrite Exists_nil. naive_solver. }
  rewrite Exists_cons, mstr_None. cbn [snd].
  destruct (decide ("" <> v)) as [Hne|Heq].
  - cbn [mset mbind go_bind]. rewrite mergeMap_fold_panic. naive_solver.
  - apply dec_stable in Heq as <-. rewrite IH. naive_solver.
Qed.

Lemma mergeMap_some t d :
  exists t' changed, mergeMap (Some t) (Some d) = Done (Some t', changed) /\
    forall k, mstr (Some t') k = default (mstr (Some t) k) (d !! k).
Proof.
  destruct (mergeMap_fold_some (map_to_list d) t false) as (t' & c & Hf & Ht & _).
  { apply NoDup_fst_map_to_list. }
  exists t', c. split; [done|]. intros k. rewrite !mstr_Some, Ht. unfold merged_value.
  rewrite list_to_map_to_list. destruct (d !! k) as [v|]; [|done]. by case_decide.
Qed.

Lemma mergeMap_nil_panics d k v :
  d !! k = Some v -> v <> "" -> exists msg, mergeMap None (Some d) = Panic msg.
Proof.
  intros Hk Hv. apply (mergeMap_fold_nil (map_to_list d) false). apply Exists_exists.
  exists (k, v). split; [by apply elem_of_map_to_list|done].
Qed.

(** *** Properties *)

(** [mergeMap] does not depend on the order in which Go visits the desired map. On a map that
    is not nil it never panics, every desired value is read back from it afterwards and the other
    keys are untouched, and it reports a change exactly when the map differs. On a nil map it
    panics exactly when some desired value is not empty. *)
Theorem mergeMap_order target desired order :
  order ≡ₚ map_to_list (entries desired) ->
  match target with
  | Some t =>
      exists t' changed, mergeMap_over target order = Done (Some t', changed) /\
        (forall k, t' !! k = merged_value t (entries desired) k) /\
        (changed = true <-> t' <> t)
  | None =>
      (exists msg, mergeMap_over target order = Panic msg) <->
      (exists k v, entries desired !! k = Some v /\ v <> "")
  end.
Proof.
  intros Hp. destruct target as [t|]; unfold mergeMap_over.
  - assert (NoDup order.*1) as Hnd by (rewrite Hp; apply NoDup_fst_map_to_list).
    destruct (mergeMap_fold_some order t false Hnd) as (t' & c' & -> & Ht & Hc).
    exists t', c'. split; [done|]. split; [|rewrite Hc; naive_solver].
    intros k. rewrite Ht. by rewrite (list_to_map_proper _ _ Hnd Hp), list_to_map_to_list.
  - rewrite mergeMap_fold_nil, Hp, Exists_exists. split.
    + intros ([k v] & Hin%elem_of_map_to_list & Hv). by exists k, v.
    + intros (k & v & Hin%elem_of_map_to_list & Hv). by exists (k, v).
Qed.

(** ** Environment *)

Lemma extendEnvs_filter envs ext :
  extendEnvs envs ext = append envs (filter (fun e => env_Name e ∉ env_Name <$> elems envs) ext).
Proof.
  unfold extendEnvs. set (names := env_Name <$> elems envs). clearbody names.
  revert envs. induction ext as [|e ext IH]; intros envs; [done|]. cbn [foldl].
  case_decide as He.
  - rewrite filter_cons_False by naive_solver. apply IH.
  - rewrite filter_cons_True by done. rewrite IH, append_app. done.
Qed.

(** The variables of the user are kept in place and unchanged, a default is appended exactly
    when the user does not define its name, and so every default name ends up defined. *)
Theorem extendEnvs_spec envs ext :
  elems (extendEnvs envs ext) =
    elems envs ++ filter (fun e => env_Name e ∉ env_Name <$> elems envs) ext /\
  (forall e, e ∈ ext -> env_Name e ∈ env_Name <$> elems (extendEnvs envs ext)).
Proof.
  rewrite extendEnvs_filter, elems_append. split; [done|].
  intros e He. rewrite fmap_app, elem_of_app.
  destruct (decide (env_Name e ∈ env_Name <$> elems envs)) as [|Hn]; [by left|right].
  apply list_elem_of_fmap_2. by apply list_elem_of_filter.
Qed.

(** ** Arguments *)

Lemma addMissingFlags_spec keys order mu :
  NoDup order.*1 ->
  exists M, addMissingFlags keys order (Some mu) = Done (Some M) /\
    forall k, M !! k =
      match (list_to_map order : gmap string string) !! k with
      | Some v => if decide (TrimLeftDash k ∈ keys) then mu !! k else Some v
      | None => mu !! k
      end.
Proof.
  unfold addMissingFlags. revert mu. induction order as [|[k v] order IH]; intros mu Hnd.
  { by exists mu. }
  rewrite fmap_cons in Hnd. apply NoDup_cons in Hnd as [Hk Hnd]. cbn [fst] in Hk.
  assert ((list_to_map order : gmap string string) !! k = None) as Hkn by by apply not_elem_of_list_to_map.
  cbn [foldl mbind go_bind]. case_decide as Hd.
  - destruct (IH mu Hnd) as (M & -> & HM). exists M. split; [done|]. intros k'. rewrite HM.
    cbn [list_to_map foldr uncurry]. destruct (decide (k = k')) as [<-|].
    + rewrite Hkn, lookup_insert_eq. by rewrite decide_True.
    + by rewrite lookup_insert_ne.
  - cbn [mset]. destruct (IH (<[k := v]> mu) Hnd) as (M & -> & HM). exists M. split; [done|].
    intros k'. rewrite HM. cbn [list_to_map foldr uncurry]. destruct (decide (k = k')) as [<-|].
    + rewrite Hkn, !lookup_insert_eq. by rewrite decide_False.
    + by rewrite !lookup_insert_ne.
Qed.

(** The flags of the merged arguments: those of the user, and each default whose name, up to
    dashes, the user has not given. *)
Definition merged_flag (mu me : gmap string string) (k : string) : option string :=
  match me !! k with
  | Some v => if decide (TrimLeftDash k ∈ exist_key <$> (map_to_list mu).*1) then mu !! k else Some v
  | None => mu !! k
  end.

(** A map of flags printed in the order of [Visit]. *)
Definition sorted_args (M : gmap string string) : list string :=
  render (Visit {| fs_actual := Some M; fs_args := []; fs_lastName := "" |}).

Lemma extendArgs_done args ext f me :
  Parse FlagSet_zero args = Done (f, None) -> parsed_flags ext = Done (Some me) ->
  exists M, extendArgs args ext = Done (inr (sorted_args M)) /\
    forall k, M !! k = merged_flag (entries (Flags f)) me k.
Proof.
  intros Hf He. unfold extendArgs. rewrite Hf. cbn [mbind go_bind]. rewrite He. cbn [mbind go_bind].
  destruct (Parse_scan args) as (a & l & Hs). rewrite Hf in Hs.
  destruct (scan args "" ∅) as [mu []]; cbn in Hs; simplify_eq; cbn [Flags fs_actual entries default].
  all: destruct (addMissingFlags_spec (exist_key <$> (map_to_list mu).*1) (map_to_list me) mu)
    as (M & HM & Hk); [apply NoDup_fst_map_to_list|].
  all: cbn in HM |- *; rewrite HM; exists M; split; [done|].
  all: intros k; rewrite Hk; unfold merged_flag; by rewrite list_to_map_to_list.
Qed.

(** C26: on arguments that parse, [extendArgs] prints, sorted, the flags of the user with their
    values and the default flags that the user does not give under the same name up to leading
    dashes (["-p"] counting as ["port"]). The two range loops may visit the maps in any order. *)
Theorem extendArgs_spec args ext f me keys order :
  Parse FlagSet_zero args = Done (f, None) -> parsed_flags ext = Done (Some me) ->
  keys ≡ₚ (map_to_list (entries (Flags f))).*1 -> order ≡ₚ map_to_list me ->
  exists M,
    extendArgs args ext = Done (inr (sorted_args M)) /\
    addMissingFlags (exist_key <$> keys) order (Flags f) = Done (Some M) /\
    forall k, M !! k = merged_flag (entries (Flags f)) me k.
Proof.
  intros Hf He Hkeys Horder. destruct (extendArgs_done args ext f me Hf He) as (M & HM & Hk).
  exists M. split; [done|]. split; [|done].
  destruct (Parse_scan args) as (a & l & Hs). rewrite Hf in Hs.
  assert (exists mu, Flags f = Some mu) as [mu Hmu].
  { destruct (scan args "" ∅) as [mu []]; cbn in Hs; simplify_eq; by eexists. }
  rewrite Hmu in *. cbn [entries default] in *.
  assert (NoDup order.*1) as Hnd by (rewrite Horder; apply NoDup_fst_map_to_list).
  destruct (addMissingFlags_spec (exist_key <$> keys) order mu Hnd) as (M' & -> & HM').
  do 2 f_equal. apply map_eq. intros k. rewrite HM', Hk. unfold merged_flag.
  rewrite (list_to_map_proper _ _ Hnd Horder), list_to_map_to_list.
  destruct (me !! k); [|done]. apply decide_ext. by rewrite Hkeys.
Qed.

(** Arguments of the user that do not parse are dropped together with the defaults: the
    container gets no arguments at all, and nothing reports the error. *)
Theorem extendArgs_error_drops args ext :
  (exists f e, Parse FlagSet_zero args = Done (f, Some e)) <->
  (exists r, extendArgs args ext = Done r /\ args_or_nil r = None).
Proof.
  unfold extendArgs. split.
  - intros (f & e & ->). by eexists.
  - intros (r & H & Hr). destruct (Parse FlagSet_zero args) as [[f [e|]]|]; cbn [mbind go_bind] in H; [by eauto| |done].
    repeat apply go_bind_done in H as (? & _ & H). by simplify_eq.
Qed.

(** ** Ports *)

Lemma has_port_true name ports : has_port name ports = true <-> name ∈ port_Name <$> ports.
Proof.
  unfold has_port. rewrite existsb_exists, list_elem_of_fmap. split.
  - intros (p & Hin%list_elem_of_In & Hp%bool_decide_eq_true). eauto.
  - intros (p & -> & Hin%list_elem_of_In). exists p. by rewrite bool_decide_true.
Qed.

Lemma has_port_false name ports : has_port name ports = false <-> name ∉ port_Name <$> ports.
Proof. rewrite <-has_port_true. by destruct (has_port name ports). Qed.

Lemma unset_name_id p : port_Name p <> "" -> unset_name p = p.
Proof. intros. unfold unset_name. by rewrite decide_False. Qed.

Lemma mergePorts_cons required p ext :
  mergePorts required (p :: ext) =
    mergePorts (if has_port (port_Name p) required then required else required ++ [unset_name p]) ext.
Proof. done. Qed.

Lemma mergePorts_prefix required ext : required `prefix_of` mergePorts required ext.
Proof.
  revert required. induction ext as [|p ext IH]; intros required; [by exists []; rewrite app_nil_r|].
  rewrite mergePorts_cons. destruct (has_port _ _); [apply IH|].
  etrans; [|apply IH]. by apply prefix_app_r.
Qed.

Lemma mergePorts_names required ext n :
  Forall (fun p => port_Name p <> "") ext ->
  n ∈ port_Name <$> mergePorts required ext <-> n ∈ port_Name <$> required \/ n ∈ port_Name <$> ext.
Proof.
  intros H. revert required. induction H as [|p ext Hp H IH]; intros required; [set_solver|].
  rewrite mergePorts_cons, IH, fmap_cons, elem_of_cons. destruct (has_port _ _) eqn:E.
  - apply has_port_true in E. naive_solver.
  - rewrite unset_name_id, fmap_app, elem_of_app by done. set_solver.
Qed.

Lemma mergePorts_NoDup required ext :
  Forall (fun p => port_Name p <> "") ext ->
  NoDup (port_Name <$> required) -> NoDup (port_Name <$> mergePorts required ext).
Proof.
  intros H. revert required. induction H as [|p ext Hp H IH]; intros required Hnd; [done|].
  rewrite mergePorts_cons. apply IH. destruct (has_port _ _) eqn:E; [done|].
  apply has_port_false in E. rewrite unset_name_id, fmap_app by done. apply NoDup_app.
  split; [done|]. split; [set_solver|]. apply NoDup_singleton.
Qed.

Lemma extendPorts_mergePorts ports ext :
  elems (extendPorts ports ext) = mergePorts (elems ports) ext.
Proof.
  revert ports. induction ext as [|p ext IH]; intros ports; [done|]. rewrite mergePorts_cons.
  change (extendPorts ports (p :: ext)) with
    (extendPorts (if has_port (port_Name p) (elems ports) then ports else append ports [unset_name p]) ext).
  rewrite IH. by destruct (has_port _ _).
Qed.

#[export] Hint Rewrite extendPorts_mergePorts : hop_rw.

(** C27: completing the ports of a container with named defaults keeps the ports of the user, in
    place and unchanged, makes every default name available, invents no other name, and keeps
    the names distinct. The helper [mergePorts] computes the same. *)
Theorem extendPorts_spec ports ext :
  Forall (fun p => port_Name p <> "") ext ->
  elems ports `prefix_of` elems (extendPorts ports ext) /\
  (forall n, n ∈ port_Name <$> elems (extendPorts ports ext) <->
     n ∈ port_Name <$> elems ports \/ n ∈ port_Name <$> ext) /\
  (NoDup (port_Name <$> elems ports) -> NoDup (port_Name <$> elems (extendPorts ports ext))) /\
  elems (extendPorts ports ext) = mergePorts (elems ports) ext.
Proof.
  intros H. rewrite extendPorts_mergePorts. split_and!; [apply mergePorts_prefix| |by apply mergePorts_NoDup|done].
  intros n. by apply mergePorts_names.
Qed.

Section Ports.
Context {KL : KubeLib}.

Lemma coverPort_name flags p : port_Name (coverPort flags p) = port_Name p.
Proof. unfold coverPort. by destruct (mget _ _). Qed.

Lemma coverPort_nil p : coverPort (Some ∅) p = p.
Proof. done. Qed.

(** A command line that starts with a word that is no flag covers nothing: the parser stops at
    its first argument. *)
Lemma parsed_flags_command c s rest :
  Ascii.eqb c dash = false -> parsed_flags (String c s :: rest) = Done (Some ∅).
Proof. intros Hc. rewrite parsed_flags_scan. cbn [scan]. rewrite Hc. by rewrite decide_True. Qed.

Lemma coverPortsFromArgs_command c s rest ports :
  Ascii.eqb c dash = false -> coverPortsFromArgs (String c s :: rest) ports = Done ports.
Proof.
  intros Hc. unfold coverPortsFromArgs. rewrite parsed_flags_command by done. cbn [mbind go_bind].
  f_equal. induction ports as [|p ports IH]; [done|]. rewrite fmap_cons, coverPort_nil. by f_equal.
Qed.

(** Covering ports from arguments changes only numbers: the names and the order stay, and a
    port keeps its number exactly when no flag of its name was parsed. *)
Theorem coverPortsFromArgs_spec args ports ports' flags :
  parsed_flags args = Done flags -> coverPortsFromArgs args ports = Done ports' ->
  Forall2 (fun p p' =>
    match mget flags ("--" +:+ port_Name p) with
    | Some port => p' = port_set_ContainerPort (intstr_IntVal port) p
    | None => p' = p
    end) ports ports' /\
  port_Name <$> ports' = port_Name <$> ports.
Proof.
  intros Hf H. unfold coverPortsFromArgs in H. rewrite Hf in H. cbn [mbind go_bind] in H. simplify_eq.
  split.
  - apply Forall2_fmap_r, Forall_Forall2_diag, Forall_true. intros p.
    unfold compose, coverPort. by destruct (mget flags ("--" +:+ port_Name p)).
  - rewrite <-list_fmap_compose. apply list_fmap_ext. intros i p _. apply coverPort_name.
Qed.

End Ports.
