(* ===== verification/Requeue.v ===== *)
(** * The reconciliation loop: [src/internal/controller/requeue.go] and the loop of
      [src/internal/controller/hstreamdb_controller.go]

    A sub-reconciler works on the [HStreamDB] the controller has read, may change it, and returns
    nil or a requeue request. [subReconcile] runs a list of them in order. [pass] describes the
    same as a state machine; the two are shown to agree. *)
From S2P Require Import Prelude GoStrings KubeTypes ApiTypes Effects.

(** [time.Second], in nanoseconds *)
Definition Second : Z := 1000000000.

Record requeue := {
  rq_delay : Z;
  rq_curError : option go_error;
  rq_message : string;
  rq_delayedRequeue : bool
}.

Definition requeue_error (e : go_error) : requeue :=
  {| rq_delay := 0; rq_curError := Some e; rq_message := ""; rq_delayedRequeue := false |}.
Definition requeue_message (message : string) (delay : Z) : requeue :=
  {| rq_delay := delay; rq_curError := None; rq_message := message; rq_delayedRequeue := false |}.
Definition requeue_after (delay : Z) : requeue := requeue_message "" delay.

(** [ctrl.Result] and the error of [Reconcile]; the zero [Result] is not retried. *)
Record Result := { res_RequeueAfter : Z; res_err : option go_error }.

(** The interface [hdbSubReconciler]: the request, and the [HStreamDB] afterwards. *)
Abbreviation subReconciler := (HStreamDB -> prog (option requeue * HStreamDB)).

Definition processRequeue (rq : requeue) : prog Result :=
  let message :=
    match rq_curError rq with
    | Some e => if decide (rq_message rq = "") then err_msg e else rq_message rq
    | None => rq_message rq
    end in
  let '(err, delay) :=
    match rq_curError rq with
    | Some e =>
        if IsConflict e then (None, if decide (rq_delay rq = 0%Z) then Second else rq_delay rq)
        else (Some e, rq_delay rq)
    | None => (None, rq_delay rq)
    end in
  let* _ := record_Event "ReconciliationTerminatedEarly" message in
  match err with
  | Some e => Ret {| res_RequeueAfter := 0; res_err := Some e |}
  | None => Ret {| res_RequeueAfter := delay; res_err := None |}
  end.

(** The loop of [subReconcile], with its flag [delayedRequeue]. *)
Fixpoint subReconcile_loop (subs : list subReconciler) (hdb : HStreamDB) (delayedRequeue : bool)
    : prog Result :=
  match subs with
  | [] =>
      if delayedRequeue then Ret {| res_RequeueAfter := Second; res_err := None |}
      else
        let* _ := record_Event "ReconciliationComplete" "" in
        Ret {| res_RequeueAfter := 0; res_err := None |}
  | s :: subs' =>
      let* (rq, hdb') := s hdb in
      match rq with
      | None => subReconcile_loop subs' hdb' delayedRequeue
      | Some rq =>
          if rq_delayedRequeue rq then subReconcile_loop subs' hdb' true
          else processRequeue rq
      end
  end.

Definition subReconcile (hdb : HStreamDB) (subs : list subReconciler) : prog Result :=
  subReconcile_loop subs hdb false.

(** ** The state machine of one pass *)

Inductive pass_end :=
| PassComplete (hdb : HStreamDB) (delayed : bool)
| PassStopped (rq : requeue) (hdb : HStreamDB)
| PassPanic (msg : string).

(** [pass subs hdb delayed tr e]: from [hdb], the remaining sub-reconcilers [subs] make the calls
    [tr] and the pass ends in [e]. *)
Inductive pass : list subReconciler -> HStreamDB -> bool -> list event -> pass_end -> Prop :=
| pass_done hdb delayed : pass [] hdb delayed [] (PassComplete hdb delayed)
| pass_next (s : subReconciler) subs hdb hdb' delayed tr tr' e :
    exec (s hdb) tr (Done (None, hdb')) -> pass subs hdb' delayed tr' e ->
    pass (s :: subs) hdb delayed (tr ++ tr') e
| pass_delay (s : subReconciler) subs hdb hdb' delayed rq tr tr' e :
    exec (s hdb) tr (Done (Some rq, hdb')) -> rq_delayedRequeue rq = true ->
    pass subs hdb' true tr' e ->
    pass (s :: subs) hdb delayed (tr ++ tr') e
| pass_stop (s : subReconciler) subs hdb hdb' delayed rq tr :
    exec (s hdb) tr (Done (Some rq, hdb')) -> rq_delayedRequeue rq = false ->
    pass (s :: subs) hdb delayed tr (PassStopped rq hdb')
| pass_panic (s : subReconciler) subs hdb delayed msg tr :
    exec (s hdb) tr (Panic msg) -> pass (s :: subs) hdb delayed tr (PassPanic msg).

(** What a requeue request asks of the work queue. *)
Definition requeue_result (rq : requeue) : Result :=
  match rq_curError rq with
  | Some e =>
      if IsConflict e then
        {| res_RequeueAfter := if decide (rq_delay rq = 0%Z) then Second else rq_delay rq;
           res_err := None |}
      else {| res_RequeueAfter := 0; res_err := Some e |}
  | None => {| res_RequeueAfter := rq_delay rq; res_err := None |}
  end.

(** The last event of a pass that a request stops. *)
Definition stop_message (rq : requeue) : string :=
  match rq_curError rq with
  | Some e => if decide (rq_message rq = "") then err_msg e else rq_message rq
  | None => rq_message rq
  end.
Definition stop_event (rq : requeue) : event :=
  Ev (CEvent "ReconciliationTerminatedEarly" (stop_message rq)) tt.

(** The result of a pass, and its last event. *)
Definition pass_result (e : pass_end) : go Result :=
  match e with
  | PassComplete _ true => Done {| res_RequeueAfter := Second; res_err := None |}
  | PassComplete _ false => Done {| res_RequeueAfter := 0; res_err := None |}
  | PassStopped rq _ => Done (requeue_result rq)
  | PassPanic msg => Panic msg
  end.

Definition pass_events (e : pass_end) : list event :=
  match e with
  | PassComplete _ true => []
  | PassComplete _ false => [Ev (CEvent "ReconciliationComplete" "") tt]
  | PassStopped rq _ => [stop_event rq]
  | PassPanic _ => []
  end.

(** The result asks for another reconciliation. *)
Definition retried (r : Result) : Prop := res_err r <> None \/ (0 < res_RequeueAfter r)%Z.

(** A requeue request that makes the work queue come back. *)
Definition effective (rq : requeue) : Prop :=
  (0 <= rq_delay rq)%Z /\
  (rq_delayedRequeue rq = true \/ rq_curError rq <> None \/ (0 < rq_delay rq)%Z).

(** A request that is effective and ends the pass. *)
Definition stopping (rq : requeue) : Prop := effective rq /\ rq_delayedRequeue rq = false.

(** ** Lemmas *)

Lemma processRequeue_exec rq tr o :
  exec (processRequeue rq) tr o <-> tr = [stop_event rq] /\ o = Done (requeue_result rq).
Proof.
  unfold processRequeue, requeue_result, stop_event, stop_message.
  destruct rq as [delay [e|] message d]; cbn -[decide]; [destruct (IsConflict e); cbn -[decide]|].
  all: split; [intros (r & tr' & -> & -> & ->); by destruct r | intros [-> ->]; by exists tt, []].
Qed.

Lemma effective_retried rq : effective rq -> rq_delayedRequeue rq = false -> retried (requeue_result rq).
Proof.
  intros [Hpos [Hd|Herr]] Hnd; [congruence|].
  unfold requeue_result, retried. destruct (rq_curError rq) as [err|].
  - destruct (IsConflict err); simpl; [right|by left]. case_decide; unfold Second; lia.
  - simpl. destruct Herr; [done|by right].
Qed.

(** Every request [s] returns is effective, in every run. *)
Definition effective_sub (s : subReconciler) : Prop :=
  forall hdb, wp (s hdb) (fun _ o =>
    match o with Done (Some rq, _) => effective rq | _ => True end).

Lemma pass_stop_effective subs hdb delayed tr e :
  Forall effective_sub subs -> pass subs hdb delayed tr e ->
  match e with
  | PassStopped rq _ => effective rq /\ rq_delayedRequeue rq = false
  | _ => True
  end.
Proof.
  intros Hs Hp. induction Hp; try done; apply Forall_cons in Hs as [Hs1 Hs2];
    [by apply IHHp..|]. split; [|done]. specialize (Hs1 hdb). rewrite wp_exec in Hs1.
  by apply (Hs1 tr (Done (Some rq, hdb'))).
Qed.

(** The loop, from any position of the pass. *)
Lemma subReconcile_loop_pass subs hdb delayed tr o :
  exec (subReconcile_loop subs hdb delayed) tr o <->
  exists tr' e, pass subs hdb delayed tr' e /\ tr = tr' ++ pass_events e /\ o = pass_result e.
Proof.
  revert hdb delayed tr. induction subs as [|s subs IH]; intros hdb delayed tr; cbn [subReconcile_loop].
  - destruct delayed; cbn.
    + split; [intros [-> ->]; by exists [], (PassComplete hdb true); repeat constructor|].
      intros (tr' & e & Hp & -> & ->). inversion Hp; by subst.
    + split; [intros ([] & tr' & -> & -> & ->); by exists [], (PassComplete hdb false); repeat constructor|].
      intros (tr' & e & Hp & -> & ->). inversion Hp; subst. by exists tt, [].
  - rewrite exec_bind. split.
    + intros [([[rq|] hdb'] & tr1 & tr2 & -> & H1 & H2)|(msg & H1 & ->)].
      * destruct (rq_delayedRequeue rq) eqn:Hd.
        -- apply IH in H2 as (tr' & e & Hp & -> & ->).
           exists (tr1 ++ tr'), e. rewrite app_assoc. split; [by eapply pass_delay|done].
        -- apply processRequeue_exec in H2 as [-> ->].
           exists tr1, (PassStopped rq hdb'). split; [by eapply pass_stop|done].
      * apply IH in H2 as (tr' & e & Hp & -> & ->).
        exists (tr1 ++ tr'), e. rewrite app_assoc. split; [by eapply pass_next|done].
      * exists tr, (PassPanic msg). rewrite app_nil_r. split; [by eapply pass_panic|done].
    + intros (tr0 & e & Hp & -> & ->).
      inversion Hp as [|? ? ? hdb' ? tr1 tr2 ? H1 H2|? ? ? hdb' ? rq tr1 tr2 ? H1 Hd H2
        |? ? ? hdb' ? rq ? H1 Hd|? ? ? ? msg ? H1]; subst.
      * left. exists (None, hdb'), tr1, (tr2 ++ pass_events e). rewrite app_assoc.
        split; [done|]. split; [done|]. apply IH. eauto.
      * left. exists (Some rq, hdb'), tr1, (tr2 ++ pass_events e). rewrite app_assoc.
        split; [done|]. split; [done|]. rewrite Hd. apply IH. eauto.
      * left. exists (Some rq, hdb'), tr0, (pass_events (PassStopped rq hdb')).
        split; [done|]. split; [done|]. rewrite Hd. by apply processRequeue_exec.
      * right. exists msg. by rewrite app_nil_r.
Qed.

(** A pass over two lists: it ends in the first one, or is complete there and goes on. *)
Lemma pass_app l1 l2 hdb delayed tr e :
  pass (l1 ++ l2) hdb delayed tr e ->
  (pass l1 hdb delayed tr e /\ forall hdb' d, e <> PassComplete hdb' d) \/
  exists hdb1 d1 tr1 tr2, tr = tr1 ++ tr2 /\ pass l1 hdb delayed tr1 (PassComplete hdb1 d1) /\ pass l2 hdb1 d1 tr2 e.
Proof.
  revert hdb delayed tr. induction l1 as [|s l1 IH]; intros hdb delayed tr Hp.
  { right. exists hdb, delayed, [], tr. split; [done|]. split; [constructor|done]. }
  inversion Hp as [|? ? ? hdb' ? tr1 tr2 ? H1 H2|? ? ? hdb' ? rq tr1 tr2 ? H1 Hd H2
    |? ? ? hdb' ? rq ? H1 Hd|? ? ? ? msg ? H1]; subst.
  - apply IH in H2 as [[H2 He]|(hdb1 & d1 & t1 & t2 & -> & H2 & H3)].
    + left. split; [by eapply pass_next|done].
    + right. exists hdb1, d1, (tr1 ++ t1), t2. rewrite app_assoc. split; [done|]. split; [by eapply pass_next|done].
  - apply IH in H2 as [[H2 He]|(hdb1 & d1 & t1 & t2 & -> & H2 & H3)].
    + left. split; [by eapply pass_delay|done].
    + right. exists hdb1, d1, (tr1 ++ t1), t2. rewrite app_assoc. split; [done|]. split; [by eapply pass_delay|done].
  - left. split; [by eapply pass_stop|done].
  - left. split; [by eapply pass_panic|done].
Qed.

(** A sub-reconciler whose requests all end the pass is complete only without a request. *)
Definition stops (s : subReconciler) : Prop :=
  forall hdb, wp (s hdb) (fun _ o => match o with Done (Some rq, _) => stopping rq | _ => True end).

Lemma pass_cons_complete (s : subReconciler) subs hdb delayed tr hdb' d :
  stops s -> pass (s :: subs) hdb delayed tr (PassComplete hdb' d) ->
  exists hdb1 tr1 tr2, tr = tr1 ++ tr2 /\ exec (s hdb) tr1 (Done (None, hdb1)) /\
    pass subs hdb1 delayed tr2 (PassComplete hdb' d).
Proof.
  intros Hs Hp. inversion Hp as [|? ? ? hdb1 ? tr1 tr2 ? H1 H2|? ? ? hdb1 ? rq tr1 tr2 ? H1 Hd H2| |]; subst.
  - eauto 10.
  - specialize (Hs hdb). rewrite wp_exec in Hs. destruct (Hs _ _ H1) as [_ Hd']. congruence.
Qed.

Lemma pass_cons_undelayed (s : subReconciler) subs hdb delayed tr hdb' :
  pass (s :: subs) hdb delayed tr (PassComplete hdb' false) ->
  exists hdb1 tr1 tr2, tr = tr1 ++ tr2 /\ exec (s hdb) tr1 (Done (None, hdb1)) /\
    pass subs hdb1 delayed tr2 (PassComplete hdb' false).
Proof.
  intros Hp. inversion Hp as [|? ? ? hdb1 ? tr1 tr2 ? H1 H2|? ? ? hdb1 ? rq tr1 tr2 ? H1 Hd H2| |]; subst;
    [by eauto 10|]. exfalso. clear -H2. remember true as t eqn:Ht. remember (PassComplete hdb' false) as e eqn:He.
  revert Ht He. induction H2; intros; simplify_eq; auto.
Qed.

Lemma pass_nil hdb delayed tr hdb' d :
  pass [] hdb delayed tr (PassComplete hdb' d) -> tr = [] /\ hdb' = hdb /\ d = delayed.
Proof. by inversion 1. Qed.

Lemma stops_effective s : stops s -> effective_sub s.
Proof. intros H hdb. eapply wp_mono; [apply H|]. by intros tr [[[rq|] hdb']|msg]; [intros []|..]. Qed.

(** A pass that is not retried is complete and was never delayed. *)
Lemma subReconcile_not_lost subs hdb tr r :
  Forall effective_sub subs -> exec (subReconcile hdb subs) tr (Done r) ->
  retried r \/ exists tr' hdb', tr = tr' ++ [Ev (CEvent "ReconciliationComplete" "") tt] /\
    pass subs hdb false tr' (PassComplete hdb' false).
Proof.
  intros Hs H. apply subReconcile_loop_pass in H as (tr' & e & Hp & -> & Hr).
  pose proof (pass_stop_effective _ _ _ _ _ Hs Hp) as He.
  destruct e as [hdb' []|rq hdb'|msg]; simpl in Hr; simplify_eq.
  - left. by right.
  - right. eauto.
  - left. apply effective_retried; apply He.
Qed.

(** *** Properties *)

(** C14: a run of [subReconcile] is a pass of the state machine followed by its final event: the
    sub-reconcilers run in order, each on the object the one before it left, up to the first
    request that is not delayed; a delayed request lets the pass go on and asks for a retry after
    a second; without any request the pass is complete and nothing is retried. *)
Theorem subReconcile_pass hdb subs tr o :
  exec (subReconcile hdb subs) tr o <->
  exists tr' e, pass subs hdb false tr' e /\ tr = tr' ++ pass_events e /\ o = pass_result e.
Proof. apply subReconcile_loop_pass. Qed.

(** No lost wake-up: when every request a list of sub-reconcilers can return is delayed, has
    an error or has a positive delay, a pass over the list either ran all of them without any
    request, or asks the work queue for another reconciliation (or panicked). *)
Theorem subReconcile_retries hdb subs tr r :
  Forall effective_sub subs ->
  exec (subReconcile hdb subs) tr (Done r) ->
  retried r \/ exists tr' hdb', pass subs hdb false tr' (PassComplete hdb' false).
Proof.
  intros Hs H. destruct (subReconcile_not_lost _ _ _ _ Hs H) as [?|(tr' & hdb' & _ & ?)]; eauto.
Qed.
