(* ===== verification/Workload.v ===== *)
(** * Objects the operator owns: the pattern of [addHMeta], [addHStore], [addHServer],
      [addAdminServer], [addGateway], [addConsole] and [addServices.createOrUpdate]

    Each of these computes the desired object, reads the stored one, creates it (owned by the
    cluster) when there is none, leaves it alone when the recorded spec hash is the desired one,
    and otherwise updates it. [ensureOwned] is that pattern; the components differ in the object
    and in what an update copies. Its contract ([ensured]) and its idempotence are proved once. *)
From S2P Require Import Prelude GoStrings KubeTypes ApiTypes Effects FlagSet Naming Merge Requeue.

(** The kinds of object the pattern is used on. *)
Class Managed (k : Kind) := {
  mg_meta : obj_of k -> ObjectMeta;
  mg_set_meta : ObjectMeta -> obj_of k -> obj_of k;
  mg_obj : obj_of k -> kobj;
  mg_obj_meta o : kobj_meta (mg_obj o) = mg_meta o;
  mg_set_meta_meta m o : mg_meta (mg_set_meta m o) = m
}.

#[export, refine] Instance Managed_StatefulSet : Managed KStatefulSet :=
  {| mg_meta := sts_Meta : obj_of KStatefulSet -> _; mg_set_meta := sts_set_Meta; mg_obj := OStatefulSet |}.
Proof. all: done. Defined.
#[export, refine] Instance Managed_Deployment : Managed KDeployment :=
  {| mg_meta := dep_Meta : obj_of KDeployment -> _; mg_set_meta := dep_set_Meta; mg_obj := ODeployment |}.
Proof. all: done. Defined.
#[export, refine] Instance Managed_Service : Managed KService :=
  {| mg_meta := svc_Meta : obj_of KService -> _; mg_set_meta := svc_set_Meta; mg_obj := OService |}.
Proof. all: done. Defined.

(** [SetControllerReference] then [Create]: the error of the one that fails. *)
Definition createOwned (owner : ObjectMeta) (meta : ObjectMeta) (obj : ObjectMeta -> kobj)
    : prog (option go_error) :=
  let* owned := SetControllerReference owner meta in
  match owned with
  | inl err => Ret (Some err)
  | inr refs => kube_Create (obj (meta_set_OwnerReferences refs meta))
  end.

Section Ensure.
Context {k : Kind} {M : Managed k}.

Definition ensureOwned (owner : ObjectMeta) (desired : obj_of k)
    (update : obj_of k -> prog (option go_error)) : prog (option go_error) :=
  let* existing := kube_Get k (ObjectKey (mg_meta desired)) in
  match existing with
  | inl err =>
      if IsNotFound err then
        createOwned owner (mg_meta desired) (fun m => mg_obj (mg_set_meta m desired))
      else Ret (Some err)
  | inr existing =>
      if isHashChanged (mg_meta existing) (mg_meta desired) then update existing
      else Ret None
  end.

(** The update of the workloads: an event, then the write of [copy existing]. *)
Definition updateWorkload (reason : string) (copy : obj_of k -> obj_of k) (existing : obj_of k)
    : prog (option go_error) :=
  let* _ := record_Event reason "" in
  kube_Update (mg_obj (copy existing)).

Definition ensureWorkload (hdb : HStreamDB) (reason : string) (desired : obj_of k)
    (copy : obj_of k -> obj_of k) : prog (option requeue * HStreamDB) :=
  let* r := ensureOwned (hdb_Meta hdb) desired (updateWorkload reason copy) in
  Ret (requeue_error <$> r, hdb).

End Ensure.

(** ** Pods

    The literals the components start from: a container with its image, pull policy and probes,
    and a pod spec with the scheduling fields of the component. *)
Definition ctr_new (image pull : string) (liveness readiness : option Probe) : Container :=
  ctr_with "" image pull None None None None None liveness readiness ctr_zero.

Definition pod_spec (grace : option Z) (comp : Component) (containers : slice Container)
    (volumes : slice Volume) : PodSpec := {|
  pod_TerminationGracePeriodSeconds := grace;
  pod_Affinity := comp_Affinity comp; pod_Tolerations := comp_Tolerations comp;
  pod_NodeName := comp_NodeName comp; pod_NodeSelector := comp_NodeSelector comp;
  pod_SecurityContext := comp_PodSecurityContext comp;
  pod_InitContainers := comp_InitContainers comp;
  pod_Containers := containers; pod_Volumes := volumes; pod_rest := None |}.

(** [if container.Name == "" { container.Name = name }] *)
Definition default_name (name : string) (c : Container) : Container :=
  if decide (ctr_Name c = "") then ctr_set_Name name c else c.

(** [if len(container.Command) == 0 { container.Command = command }] *)
Definition default_command (command : list string) (c : Container) : Container :=
  match elems (ctr_Command c) with [] => ctr_set_Command (Some command) c | _ => c end.

(** [append([]corev1.Container{container}, sidecars...)] *)
Definition with_sidecars (c : Container) (comp : Component) : slice Container :=
  Some (c :: elems (comp_SidecarContainers comp)).

(** ** What an update copies *)

(** [existing.Annotations = desired.Annotations; existing.Labels = desired.Labels] *)
Definition copy_meta (desired existing : ObjectMeta) : ObjectMeta :=
  meta_set_Labels (meta_Labels desired) (meta_set_Annotations (meta_Annotations desired) existing).

(** [addHMeta] and [addHStore]: the fields of a stateful set that may change. *)
Definition copy_sts_fields (desired existing : StatefulSet) : StatefulSet :=
  let d := sts_Spec desired in
  let e := sts_Spec existing in {|
  sts_Meta := copy_meta (sts_Meta desired) (sts_Meta existing);
  sts_Spec := {|
    sts_Replicas := sts_Replicas d; sts_ServiceName := sts_ServiceName e;
    sts_Selector := sts_Selector e; sts_PodManagementPolicy := sts_PodManagementPolicy e;
    sts_Template := sts_Template d; sts_VolumeClaimTemplates := sts_VolumeClaimTemplates e;
    sts_UpdateStrategy := sts_UpdateStrategy d; sts_MinReadySeconds := sts_MinReadySeconds d;
    sts_rest := sts_rest e |};
  sts_readyReplicas := sts_readyReplicas existing |}.

(** [addHServer]: the whole spec. *)
Definition copy_sts_spec (desired existing : StatefulSet) : StatefulSet :=
  {| sts_Meta := copy_meta (sts_Meta desired) (sts_Meta existing); sts_Spec := sts_Spec desired;
     sts_readyReplicas := sts_readyReplicas existing |}.

(** The deployments: the whole spec. *)
Definition copy_dep_spec (desired existing : Deployment) : Deployment :=
  {| dep_Meta := copy_meta (dep_Meta desired) (dep_Meta existing); dep_Spec := dep_Spec desired;
     dep_readyReplicas := dep_readyReplicas existing |}.

(** ** The contract

    [ensured owner desired copy tr r]: the calls [tr] and the result [r] of one use of the
    pattern, where [copy e o] says that an update may write [o] over [e]. *)
Inductive ensured {k} {M : Managed k} (owner : ObjectMeta) (desired : obj_of k)
    (copy : obj_of k -> kobj -> Prop) : list event -> option go_error -> Prop :=
| ensured_unread err :
    IsNotFound err = false ->
    ensured owner desired copy [Ev (CGet k (ObjectKey (mg_meta desired))) (inl err)] (Some err)
| ensured_unowned err err' :
    IsNotFound err = true ->
    ensured owner desired copy
      [Ev (CGet k (ObjectKey (mg_meta desired))) (inl err);
       Ev (CSetOwner owner (mg_meta desired)) (inl err')] (Some err')
| ensured_created err refs r :
    IsNotFound err = true ->
    ensured owner desired copy
      [Ev (CGet k (ObjectKey (mg_meta desired))) (inl err);
       Ev (CSetOwner owner (mg_meta desired)) (inr refs);
       Ev (CCreate (mg_obj (mg_set_meta (meta_set_OwnerReferences refs (mg_meta desired)) desired))) r] r
| ensured_kept existing :
    last_spec (mg_meta existing) = last_spec (mg_meta desired) ->
    ensured owner desired copy [Ev (CGet k (ObjectKey (mg_meta desired))) (inr existing)] None
| ensured_updated existing o evs r :
    last_spec (mg_meta existing) <> last_spec (mg_meta desired) ->
    copy existing o -> writes evs = [] ->
    ensured owner desired copy
      (Ev (CGet k (ObjectKey (mg_meta desired))) (inr existing) :: evs ++ [Ev (CUpdate o) r]) r.

(** ** Lemmas *)

Lemma requeue_error_stopping err : stopping (requeue_error err).
Proof. split; [|done]. split; [done|]. right. by left. Qed.

Lemma requeue_message_stopping msg delay : (0 < delay)%Z -> stopping (requeue_message msg delay).
Proof. intros. split; [|done]. split; simpl; [lia|]. right. by right. Qed.

#[export] Hint Resolve requeue_error_stopping : hop.

Lemma default_name_mounts n c : ctr_VolumeMounts (default_name n c) = ctr_VolumeMounts c.
Proof. unfold default_name. by case_decide. Qed.
Lemma default_command_mounts cmd c : ctr_VolumeMounts (default_command cmd c) = ctr_VolumeMounts c.
Proof. unfold default_command. by destruct (elems _). Qed.
Lemma default_name_ports n c : ctr_Ports (default_name n c) = ctr_Ports c.
Proof. unfold default_name. by case_decide. Qed.
Lemma default_command_ports cmd c : ctr_Ports (default_command cmd c) = ctr_Ports c.
Proof. unfold default_command. by destruct (elems _). Qed.
Lemma default_name_env n c : ctr_Env (default_name n c) = ctr_Env c.
Proof. unfold default_name. by case_decide. Qed.
Lemma default_name_name n c : ctr_Name (default_name n c) = (if decide (ctr_Name c = "") then n else ctr_Name c).
Proof. unfold default_name. by case_decide. Qed.

(** The container of the user, completed: a field that the literal leaves nil is the user's. *)
Lemma assign_opt_None {A} (x : option A) : assign_opt None x = x.
Proof. by destruct x. Qed.
Lemma structAssign_new_mounts image pull l r c :
  ctr_VolumeMounts (structAssign (ctr_new image pull l r) c) = ctr_VolumeMounts c.
Proof. apply assign_opt_None. Qed.
Lemma structAssign_new_ports image pull l r c :
  ctr_Ports (structAssign (ctr_new image pull l r) c) = ctr_Ports c.
Proof. apply assign_opt_None. Qed.
Lemma structAssign_new_env image pull l r c : ctr_Env (structAssign (ctr_new image pull l r) c) = ctr_Env c.
Proof. apply assign_opt_None. Qed.
Lemma structAssign_new_name image pull l r c : ctr_Name (structAssign (ctr_new image pull l r) c) = ctr_Name c.
Proof. simpl. unfold assign_string. by case_decide. Qed.

#[export] Hint Rewrite default_name_mounts default_command_mounts default_name_ports default_command_ports
  default_name_env default_name_name structAssign_new_mounts structAssign_new_ports structAssign_new_env
  structAssign_new_name : hop_rw.

Lemma isHashChanged_false m m' : isHashChanged m m' = false <-> last_spec m = last_spec m'.
Proof. unfold isHashChanged. rewrite bool_decide_eq_false. split; [by intros ?%dec_stable|naive_solver]. Qed.

Lemma isHashChanged_true m m' : isHashChanged m m' = true <-> last_spec m <> last_spec m'.
Proof. unfold isHashChanged. by rewrite bool_decide_eq_true. Qed.

Lemma createOwned_wp owner meta obj Q :
  (forall err, Q [Ev (CSetOwner owner meta) (inl err)] (Done (Some err))) ->
  (forall refs r, Q [Ev (CSetOwner owner meta) (inr refs);
                     Ev (CCreate (obj (meta_set_OwnerReferences refs meta))) r] (Done r)) ->
  wp (createOwned owner meta obj) Q.
Proof. intros H1 H2. unfold createOwned. wp_run; subst; auto. Qed.

Section EnsureFacts.
Context {k : Kind} {M : Managed k}.

(** The pattern meets its contract, whatever the update does, as long as the update ends with the
    write of an object that [copy] allows and panics only for one of the reasons [P]. *)
Lemma ensureOwned_wp owner desired update (copy : obj_of k -> kobj -> Prop) (P : obj_of k -> string -> Prop) :
  (forall existing, wp (update existing) (fun tr o =>
     match o with
     | Done r => exists evs o, writes evs = [] /\ tr = evs ++ [Ev (CUpdate o) r] /\ copy existing o
     | Panic msg => P existing msg
     end)) ->
  wp (ensureOwned owner desired update) (fun tr o =>
    match o with
    | Done r => ensured owner desired copy tr r
    | Panic msg => exists existing tr',
        tr = Ev (CGet k (ObjectKey (mg_meta desired))) (inr existing) :: tr' /\
        last_spec (mg_meta existing) <> last_spec (mg_meta desired) /\ P existing msg
    end).
Proof.
  intros Hu r. unfold kube_Get. cbn [prog_bind]. destruct r as [err|existing].
  - destruct (IsNotFound err) eqn:He; [|by apply ensured_unread].
    apply createOwned_wp; intros; [by apply ensured_unowned|by apply ensured_created].
  - destruct (isHashChanged (mg_meta existing) (mg_meta desired)) eqn:Hh.
    + apply isHashChanged_true in Hh. eapply wp_mono; [apply Hu|].
      intros tr [r|msg]; [|by eauto 10]. intros (evs & o & He & -> & Hc). by apply ensured_updated.
    + apply isHashChanged_false in Hh. by apply ensured_kept.
Qed.

Lemma updateWorkload_wp reason copy existing :
  wp (updateWorkload reason copy existing) (fun tr o =>
    match o with
    | Done r => exists evs o, writes evs = [] /\ tr = evs ++ [Ev (CUpdate o) r] /\ o = mg_obj (copy existing)
    | Panic msg => False
    end).
Proof. intros r r'. by exists [Ev (CEvent reason "") r], (mg_obj (copy existing)). Qed.

(** The workloads: the contract, with the write determined by the stored object. *)
Lemma ensureWorkload_wp hdb reason desired copy :
  wp (ensureWorkload hdb reason desired copy) (fun tr o =>
    exists r, o = Done (requeue_error <$> r, hdb) /\
      ensured (hdb_Meta hdb) desired (fun existing o => o = mg_obj (copy existing)) tr r).
Proof.
  unfold ensureWorkload. eapply wp_weaken_bind.
  - apply (ensureOwned_wp _ _ _ (fun existing o => o = mg_obj (copy existing)) (fun _ _ => False)).
    intros existing. apply updateWorkload_wp.
  - intros tr r H. cbn. rewrite app_nil_r. eauto.
  - intros tr msg (? & ? & _ & _ & []).
Qed.

Lemma ensureWorkload_post hdb reason desired copy (Q : go (option requeue * HStreamDB) -> Prop) :
  (forall r, Q (Done (requeue_error <$> r, hdb))) ->
  wp (ensureWorkload hdb reason desired copy) (fun _ o => Q o).
Proof.
  intros HQ. eapply wp_mono; [apply ensureWorkload_wp|]. intros tr o (r & -> & _). apply HQ.
Qed.

(** The written objects carry the hash of the desired spec. *)
Lemma ensured_hash owner desired copy tr r :
  (forall existing o, copy existing o -> last_spec (kobj_meta o) = last_spec (mg_meta desired)) ->
  ensured owner desired copy tr r ->
  Forall (fun o => last_spec (kobj_meta o) = last_spec (mg_meta desired)) (writes tr).
Proof.
  intros Hcopy H. destruct H; simpl; [by repeat constructor..| |by repeat constructor|].
  - repeat constructor. by rewrite mg_obj_meta, mg_set_meta_meta.
  - unfold writes in *. simpl. rewrite omap_app, H1. simpl. repeat constructor. eauto.
Qed.

(** Once the stored object has the hash of the desired one, nothing is written. *)
Lemma ensured_idempotent owner desired copy tr r existing :
  ensured owner desired copy tr r ->
  head tr = Some (Ev (CGet k (ObjectKey (mg_meta desired))) (inr existing)) ->
  last_spec (mg_meta existing) = last_spec (mg_meta desired) ->
  length tr = 1 /\ r = None.
Proof.
  intros H Hh He. destruct H as [| | |e Hs|e o evs r Hs]; cbn [head] in Hh.
  all: apply Some_inj in Hh; apply Ev_get_inj in Hh as [_ Hh]; simplify_eq; done.
Qed.

End EnsureFacts.

(** A sub-reconciler that leaves the [HStreamDB] alone and whose requests are all effective. *)
Definition steady_outcome (hdb : HStreamDB) (o : go (option requeue * HStreamDB)) : Prop :=
  match o with
  | Done (Some rq, hdb') => stopping rq /\ hdb' = hdb
  | Done (None, hdb') => hdb' = hdb
  | Panic _ => True
  end.

Definition steady (s : subReconciler) : Prop := forall hdb, wp (s hdb) (fun _ o => steady_outcome hdb o).

Lemma steady_stops s : steady s -> stops s.
Proof. intros H hdb. eapply wp_mono; [apply H|]. by intros tr [[[rq|] hdb']|msg]; [intros []|..]. Qed.

Lemma steady_none hdb : steady_outcome hdb (Done (None, hdb)).
Proof. done. Qed.

Lemma steady_some hdb rq : stopping rq -> steady_outcome hdb (Done (Some rq, hdb)).
Proof. done. Qed.

Lemma steady_ensureWorkload {k} {M : Managed k} hdb reason (desired : obj_of k) copy :
  wp (ensureWorkload hdb reason desired copy) (fun _ o => steady_outcome hdb o).
Proof. apply ensureWorkload_post. intros [err|]; [|done]. split; [apply requeue_error_stopping|done]. Qed.

Lemma steady_bind {A} hdb (p : prog A) f :
  (forall a, wp (f a) (fun _ o => steady_outcome hdb o)) ->
  wp (prog_bind p f) (fun _ o => steady_outcome hdb o).
Proof. intros H. by apply wp_bind_any. Qed.

#[export] Hint Resolve steady_none steady_some steady_ensureWorkload steady_bind
  requeue_message_stopping steady_stops : hop.

(** What an update may copy keeps the hash: the annotations are the desired ones. *)
Lemma copy_meta_last_spec desired existing : last_spec (copy_meta desired existing) = last_spec desired.
Proof. done. Qed.

Lemma copy_meta_key desired existing : ObjectKey (copy_meta desired existing) = ObjectKey existing.
Proof. done. Qed.

Lemma ensured_writes {k} {M : Managed k} owner desired copy tr r :
  ensured owner desired copy tr r -> length (writes tr) <= 1.
Proof.
  destruct 1; try (simpl; lia).
  change (_ :: ?evs ++ ?l) with ([Ev (CGet k (ObjectKey (mg_meta desired))) (inr existing)] ++ (evs ++ l)).
  rewrite !writes_app, H1. simpl. lia.
Qed.

Lemma ensured_copied {k} {M : Managed k} owner desired copy tr r o :
  ensured owner desired copy tr r -> o ∈ writes tr ->
  (exists err refs, IsNotFound err = true /\
     head tr = Some (Ev (CGet k (ObjectKey (mg_meta desired))) (inl err)) /\
     o = mg_obj (mg_set_meta (meta_set_OwnerReferences refs (mg_meta desired)) desired)) \/
  (exists existing, head tr = Some (Ev (CGet k (ObjectKey (mg_meta desired))) (inr existing)) /\
     last_spec (mg_meta existing) <> last_spec (mg_meta desired) /\ copy existing o).
Proof.
  destruct 1; simpl; rewrite ?elem_of_nil, ?list_elem_of_singleton; try done.
  - intros ->. left. eauto 10.
  - change (omap written ?l) with (writes l). rewrite writes_app, H1. simpl.
    rewrite list_elem_of_singleton. intros ->. right. eauto.
Qed.

(** An update in a run of the pattern writes what [copy] gives for the object that was read. *)
Lemma ensured_update_elem {k} {M : Managed k} owner desired copy tr r o r' :
  ensured owner desired copy tr r -> Ev (CUpdate o) r' ∈ tr ->
  exists existing, Ev (CGet k (ObjectKey (mg_meta desired))) (inr existing) ∈ tr /\
    last_spec (mg_meta existing) <> last_spec (mg_meta desired) /\ copy existing o.
Proof.
  destruct 1 as [| | | |existing o' evs r Hl Hc He]; rewrite ?elem_of_cons, ?elem_of_app, ?elem_of_cons, ?elem_of_nil.
  all: intros Hin; repeat (destruct Hin as [Hin|Hin]; [by apply (f_equal ev_call) in Hin|]); try done.
  exists existing. split; [apply list_elem_of_here|]. split; [done|].
  destruct Hin as [Hin|[Hin|[]]].
  - exfalso. assert (o ∈ writes evs) as Hw by (apply list_elem_of_omap; by eexists).
    rewrite He in Hw. by apply elem_of_nil in Hw.
  - apply (f_equal ev_call) in Hin. by injection Hin as ->.
Qed.

(** What identifies a stateful set and may not change after its creation. *)
Definition same_identity (existing s : StatefulSet) : Prop :=
  ObjectKey (sts_Meta s) = ObjectKey (sts_Meta existing) /\
  sts_Selector (sts_Spec s) = sts_Selector (sts_Spec existing) /\
  sts_ServiceName (sts_Spec s) = sts_ServiceName (sts_Spec existing) /\
  sts_PodManagementPolicy (sts_Spec s) = sts_PodManagementPolicy (sts_Spec existing) /\
  sts_VolumeClaimTemplates (sts_Spec s) = sts_VolumeClaimTemplates (sts_Spec existing).

(** The updates of a run keep the identity, and carry the template and the number of replicas of
    [desired]. *)
Definition identity_kept (tr : list event) (desired : StatefulSet) : Prop :=
  forall s r, Ev (CUpdate (OStatefulSet s)) r ∈ tr ->
    exists existing, Ev (CGet KStatefulSet (ObjectKey (sts_Meta desired))) (inr existing) ∈ tr /\
      last_spec (sts_Meta existing) <> last_spec (sts_Meta desired) /\
      same_identity existing s /\
      sts_Template (sts_Spec s) = sts_Template (sts_Spec desired) /\
      sts_Replicas (sts_Spec s) = sts_Replicas (sts_Spec desired).

Lemma copy_sts_fields_kept hdb reason desired :
  wp (ensureWorkload (k := KStatefulSet) hdb reason desired (copy_sts_fields desired))
    (fun tr _ => identity_kept tr desired).
Proof.
  eapply wp_mono; [apply ensureWorkload_wp|]. intros tr o (r & _ & H) s r' Hin.
  destruct (ensured_update_elem _ _ _ _ _ _ _ H Hin) as (existing & Hget & Hl & Ho).
  injection Ho as ->. by exists existing.
Qed.

(** How the sub-reconcilers bring a stored object up to date. *)
Inductive brings_up : forall {k}, Managed k -> obj_of k -> (obj_of k -> obj_of k) -> Prop :=
| brings_fields (desired : StatefulSet) : brings_up (k := KStatefulSet) _ desired (copy_sts_fields desired)
| brings_sts (desired : StatefulSet) : brings_up (k := KStatefulSet) _ desired (copy_sts_spec desired)
| brings_dep (desired : Deployment) : brings_up (k := KDeployment) _ desired (copy_dep_spec desired).

(** *** Properties *)

(** C12: every run of the pattern all workloads share is one of five: the read fails; the owner
    cannot be set; the object is created, owned, because the server has answered that there is
    none; it is left alone because it carries the desired hash; or it is updated because it
    carries another. At most one object is written, every written object carries the hash of the
    desired spec, and the result is exactly the error of the last call. *)
Theorem ensureWorkload_contract {k} {M : Managed k} hdb reason (desired : obj_of k) copy tr o :
  (forall existing, last_spec (mg_meta (copy existing)) = last_spec (mg_meta desired)) ->
  exec (ensureWorkload hdb reason desired copy) tr o ->
  exists r, o = Done (requeue_error <$> r, hdb) /\
    ensured (hdb_Meta hdb) desired (fun existing o => o = mg_obj (copy existing)) tr r /\
    length (writes tr) <= 1 /\
    Forall (fun o => last_spec (kobj_meta o) = last_spec (mg_meta desired)) (writes tr).
Proof.
  intros Hc H. pose proof (ensureWorkload_wp hdb reason desired copy) as Hw. rewrite wp_exec in Hw.
  destruct (Hw _ _ H) as (r & -> & He). exists r. split; [done|]. split; [done|].
  split; [by eapply ensured_writes|]. eapply ensured_hash; [|done]. intros e o' ->. by rewrite mg_obj_meta.
Qed.

(** C17: a pass is idempotent, with each of the three ways in which the operator brings an object up
    to date (the fields of a stateful set that may change, its whole spec, the spec of a deployment):
    when an earlier pass has written an object, created or updated, and the server gives back the
    annotations that were written, the next pass for the same cluster makes that one read, writes
    nothing, and asks for nothing. *)
Theorem ensureWorkload_idempotent {k} {M : Managed k} hdb reason (desired : obj_of k) copy tr1 o1 w
    existing tr2 o2 :
  brings_up M desired copy ->
  exec (ensureWorkload hdb reason desired copy) tr1 o1 -> w ∈ writes tr1 ->
  meta_Annotations (mg_meta existing) = meta_Annotations (kobj_meta w) ->
  exec (ensureWorkload hdb reason desired copy)
    (Ev (CGet k (ObjectKey (mg_meta desired))) (inr existing) :: tr2) o2 ->
  tr2 = [] /\ o2 = Done (None, hdb).
Proof.
  intros Hcopy H1 Hw He H2. assert (forall existing, last_spec (mg_meta (copy existing)) = last_spec (mg_meta desired)) as Hc
    by by destruct Hcopy.
  pose proof (ensureWorkload_wp hdb reason desired copy) as Hwp. rewrite wp_exec in Hwp.
  destruct (Hwp _ _ H1) as (r1 & -> & E1). destruct (Hwp _ _ H2) as (r2 & -> & E2).
  assert (last_spec (kobj_meta w) = last_spec (mg_meta desired)) as Hl.
  { assert (Forall (fun o => last_spec (kobj_meta o) = last_spec (mg_meta desired)) (writes tr1)) as HF.
    { eapply ensured_hash; [|done]. intros e o' ->. by rewrite mg_obj_meta. }
    rewrite Forall_forall in HF. by apply HF. }
  destruct (ensured_idempotent _ _ _ _ _ existing E2) as [Hlen ->]; [done| |by destruct tr2].
  rewrite <-Hl. unfold last_spec. by rewrite He.
Qed.
