(* ===== verification/LogDevice.v ===== *)
(** * LogDevice configuration: [src/internal/utils] and
      [src/internal/controller/logdevice_config.go]

    The two config maps of a cluster: the LogDevice configuration, rendered from a template and
    merged with the user's JSON, and the number of shards, which is fixed when it is first
    stored. JSON parsing, merging and printing are those of the gabs library ([Gabs]). *)
From S2P Require Import Prelude GoStrings KubeTypes ApiTypes Effects FlagSet Constants Naming Merge Requeue Workload.

(** [gabs.ParseJSON], [Container.MergeFn] with the function that resolves a collision, and
    [Container.String]. *)
Class Gabs := {
  gabs_Value : Type;
  gabs_ParseJSON : string -> go_error + gabs_Value;
  gabs_MergeFn : (gabs_Value -> gabs_Value -> gabs_Value) -> gabs_Value -> gabs_Value -> go_error + gabs_Value;
  gabs_String : gabs_Value -> string
}.

(** ** Recommended replication *)

Definition defaultRecommendedLogReplication : Z := 3.

Definition GetRecommendedLogReplicaAcross (hdb : HStreamDB) : Z :=
  let replicas := comp_Replicas (spec_HStore (hdb_Spec hdb)) in
  if (replicas <=? defaultRecommendedLogReplication)%Z then replicas
  else defaultRecommendedLogReplication.

(** ** Names and volumes *)

Definition LogDeviceConfigKey : string := "config.json".
Definition NShardsConfigKey : string := "NSHARDS".

Definition GetLogDeviceConfigMapNamespacedName (hdb : HStreamDB) : NamespacedName :=
  {| nn_Namespace := hdb_Namespace hdb; nn_Name := hdb_Name hdb +:+ "-logdevice-config" |}.

Definition GetLogDeviceConfigVolume (hdb : HStreamDB) : Volume :=
  let name := nn_Name (GetLogDeviceConfigMapNamespacedName hdb) in
  {| vol_Name := name; vol_Source := ConfigMapSource name [(LogDeviceConfigKey, LogDeviceConfigKey)] |}.

Definition GetLogDeviceConfigVolumeMount (hdb : HStreamDB) : VolumeMount :=
  {| vm_Name := nn_Name (GetLogDeviceConfigMapNamespacedName hdb); vm_ReadOnly := true;
     vm_MountPath := "/etc/logdevice"; vm_SubPath := ""; vm_rest := None |}.

Definition GetMinNShards (hdb : HStreamDB) : Z :=
  if (cfg_NShards (spec_Config (hdb_Spec hdb)) =? 0)%Z then 1
  else cfg_NShards (spec_Config (hdb_Spec hdb)).

Definition GetNShardsConfigMapNamespacedName (hdb : HStreamDB) : NamespacedName :=
  {| nn_Namespace := hdb_Namespace hdb; nn_Name := hdb_Name hdb +:+ "-nshards" |}.

Definition GetNShardsConfigVolume (hdb : HStreamDB) : Volume :=
  let name := nn_Name (GetNShardsConfigMapNamespacedName hdb) in
  {| vol_Name := name; vol_Source := ConfigMapSource name [(NShardsConfigKey, NShardsConfigKey)] |}.

Definition GetNShardsConfigVolumeMount (hdb : HStreamDB) : VolumeMount :=
  {| vm_Name := nn_Name (GetNShardsConfigMapNamespacedName hdb); vm_ReadOnly := true;
     vm_MountPath := "/data/logdevice"; vm_SubPath := ""; vm_rest := None |}.

(** ** The template

    Double quotes are written as single quotes here and restored by [json_text]; a piece of the
    template is text or one of its two parameters. *)
Definition quote : Ascii.ascii := Ascii.ascii_of_nat 34.
Definition apostrophe : Ascii.ascii := Ascii.ascii_of_nat 39.
Definition json_text (s : string) : string := Replace s apostrophe quote.

Inductive piece := Text (s : string) | NodeNum | HMetaAddr.

Definition replicate_log (name last : string) : list piece :=
  [Text ("		'" +:+ name +:+ "': {
			'replicate_across': {
				'node': "); NodeNum; Text ("
			}
		}" +:+ last +:+ "
")].

Definition defaultLogDeviceConfigTemplate : list piece :=
  [Text "{
	'server_settings': {
		'enable-node-self-registration':                       'true',
		'enable-nodes-configuration-manager':                  'true',
		'enable-cluster-maintenance-state-machine':            'true',
		'use-nodes-configuration-manager-nodes-configuration': 'true'
	},
	'client_settings': {
		'enable-nodes-configuration-manager': 'true',
		'use-nodes-configuration-manager-nodes-configuration': 'true',
		'admin-client-capabilities': 'true'
	},
	'cluster': 'hstore',
	'internal_logs': {
"] ++
  replicate_log "config_log_deltas" "," ++
  replicate_log "config_log_snapshots" "," ++
  replicate_log "event_log_deltas" "," ++
  replicate_log "event_log_snapshots" "," ++
  replicate_log "maintenance_log_deltas" "," ++
  replicate_log "maintenance_log_snapshots" "" ++
  [Text "	},
	'rqlite': {
		'rqlite_uri': 'ip://"; HMetaAddr; Text "'
	},
	'version': 1
}"].

(** [tmpl.Execute] with the two parameters. *)
Definition execute_template (tmpl : list piece) (nodeNum : Z) (hmetaAddr : string) : string :=
  Join ((fun p => match p with
                  | Text s => json_text s
                  | NodeNum => Itoa nodeNum
                  | HMetaAddr => hmetaAddr
                  end) <$> tmpl) "".

(** ** The address of HMeta, as [utils] computes it *)

Section HMetaAddr.
Context {KL : KubeLib}.

Definition getHMetaContainerPort (hmetaArgs : list string) : ContainerPort :=
  let parsedArgs := ParseArgs hmetaArgs in
  match parsedArgs !! "--http-addr" with
  | Some addr =>
      match Split addr colon with
      | [_; port] => mkPort "port" (intstr_IntVal port) ""
      | _ => DefaultHMetaPort
      end
  | None => DefaultHMetaPort
  end.

(** The error of the Go function is always nil. *)
Definition GetHMetaAddr (hdb : HStreamDB) : string :=
  match spec_ExternalHMeta (hdb_Spec hdb) with
  | Some ext => GetAddr ext
  | None =>
      let svc := v1alpha2.GetHeadlessService ComponentTypeHMeta hdb None in
      let port := getHMetaContainerPort (elems (ctr_Args (comp_Container (spec_HMeta (hdb_Spec hdb))))) in
      meta_Name (svc_Meta svc) +:+ "." +:+ meta_Namespace (svc_Meta svc) +:+ ":" +:+
        Itoa (port_ContainerPort port)
  end.

End HMetaAddr.

(** ** The configuration *)

Section Config.
Context {G : Gabs} {KL : KubeLib}.

Definition GetLogDeviceConfig (nodeNum : Z) (hmetaAddr : string) (existingConfig : string)
    : go_error + string :=
  match gabs_ParseJSON (execute_template defaultLogDeviceConfigTemplate nodeNum hmetaAddr) with
  | inl err => inl err
  | inr jsonParsed =>
      if decide (existingConfig = "") then inr (gabs_String jsonParsed)
      else
        match gabs_ParseJSON existingConfig with
        | inl err => inl err
        | inr existingParsed =>
            match gabs_MergeFn (fun destination source => source) jsonParsed existingParsed with
            | inl err => inl err
            | inr merged => inr (gabs_String merged)
            end
        end
  end.

(** ** The sub-reconciler *)

Definition config_map_meta (nn : NamespacedName) : ObjectMeta :=
  meta_set_Namespace (nn_Namespace nn) (meta_set_Name (nn_Name nn) meta_zero).

Definition config_map (data : gmap string string) (meta : ObjectMeta) : kobj :=
  OConfigMap {| cm_Meta := meta; cm_Data := Some data |}.

(** The first half: the LogDevice configuration, created when it does not exist. The errors of
    the two helpers that compute it are ignored. *)
Definition ensureLogDeviceConfig (hdb : HStreamDB) : prog (option requeue) :=
  let nn := GetLogDeviceConfigMapNamespacedName hdb in
  let* existing := kube_Get KConfigMap nn in
  match existing with
  | inr _ => Ret None
  | inl err =>
      if IsNotFound err then
        let hmetaAddr := GetHMetaAddr hdb in
        let logDeviceConfig :=
          match GetLogDeviceConfig (comp_Replicas (spec_HStore (hdb_Spec hdb))) hmetaAddr
                  (cfg_LogDeviceConfig (spec_Config (hdb_Spec hdb))) with
          | inl _ => ""
          | inr config => config
          end in
        let* r := createOwned (hdb_Meta hdb) (config_map_meta nn)
              (config_map {[LogDeviceConfigKey := logDeviceConfig]}) in
        Ret (requeue_error <$> r)
      else Ret (Some (requeue_error err))
  end.

(** The second half: the number of shards. An error of the read other than not-found ends the
    sub-reconciler without a request. *)
Definition ensureNShards (hdb : HStreamDB) : prog (option requeue) :=
  let nn := GetNShardsConfigMapNamespacedName hdb in
  let* existing := kube_Get KConfigMap nn in
  match existing with
  | inr _ => Ret None
  | inl err =>
      if IsNotFound err then
        let* r := createOwned (hdb_Meta hdb) (config_map_meta nn)
              (config_map {[NShardsConfigKey := Itoa (GetMinNShards hdb)]}) in
        Ret (requeue_error <$> r)
      else Ret None
  end.

Definition LogDeviceConfigReconciler_reconcile (hdb : HStreamDB) : prog (option requeue * HStreamDB) :=
  let* rq := ensureLogDeviceConfig hdb in
  match rq with
  | Some rq => Ret (Some rq, hdb)
  | None =>
      let* rq := ensureNShards hdb in
      Ret (rq, hdb)
  end.

End Config.

(** ** Lemmas *)

Section Facts.
Context {G : Gabs} {KL : KubeLib}.

Lemma LogDeviceConfigReconciler_steady : steady LogDeviceConfigReconciler_reconcile.
Proof.
  intros hdb. unfold LogDeviceConfigReconciler_reconcile, ensureLogDeviceConfig, ensureNShards, createOwned.
  wp_run; wp_post.
Qed.

(** *** Properties *)

(** The recommended replication of the metadata logs is the number of HStore replicas, capped
    at three: for a cluster with at least one replica it is a valid replication factor. *)
Theorem GetRecommendedLogReplicaAcross_bounds hdb :
  let replicas := comp_Replicas (spec_HStore (hdb_Spec hdb)) in
  GetRecommendedLogReplicaAcross hdb = Z.min replicas 3 /\
  (int32_ok replicas -> int32_ok (GetRecommendedLogReplicaAcross hdb)) /\
  ((1 <= replicas)%Z -> (1 <= GetRecommendedLogReplicaAcross hdb <= replicas)%Z).
Proof.
  unfold GetRecommendedLogReplicaAcross, defaultRecommendedLogReplication, int32_ok. simpl.
  destruct (Z.leb_spec (comp_Replicas (spec_HStore (hdb_Spec hdb))) 3); lia.
Qed.


(** When the address is given as one word, [--http-addr=host:port], the servers are told the
    port of the user but the LogDevice configuration gets the default port 4001: [ParseArgs]
    does not split at the equals sign. *)
Theorem GetHMetaAddr_diverges hdb host p :
  spec_ExternalHMeta (hdb_Spec hdb) = None ->
  elems (ctr_Args (comp_Container (spec_HMeta (hdb_Spec hdb)))) =
    ["--http-addr=" +:+ host +:+ ":" +:+ Itoa p] ->
  cut host colon = None -> intstr_IntVal (Itoa p) = p ->
  let svc := GetInternalResName ComponentTypeHMeta hdb +:+ "." +:+ hdb_Namespace hdb +:+ ":" in
  getHMetaAddr hdb = Done (svc +:+ Itoa p, None) /\
  GetHMetaAddr hdb = svc +:+ "4001".
Proof.
  intros Hext Hargs Hhost Hp. unfold getHMetaAddr, GetHMetaAddr. rewrite Hext, Hargs.
  rewrite GetHeadlessService_done. cbn [mbind go_bind elems default]. split.
  - unfold parseHMetaPort.
    set (addr := host +:+ ":" +:+ Itoa p).
    assert (scan ["--http-addr=" +:+ addr] "" ∅ = ({["--http-addr" := addr]}, ScanEnd)) as Hs by done.
    destruct (Parse_scan ["--http-addr=" +:+ addr]) as (a & l & Hf). rewrite Hs in Hf.
    rewrite Hf. cbn [scan_result mbind go_bind Flags fs_actual]. rewrite mget_Some, lookup_singleton_eq.
    subst addr. change (":" +:+ Itoa p) with (String colon (Itoa p)).
    rewrite (Split_app host colon (Itoa p)) by (done || by apply Itoa_cut).
    cbn. rewrite Hp. rewrite string_app_assoc. cbn. rewrite string_app_assoc. reflexivity.
  - unfold getHMetaContainerPort. set (arg := "--http-addr=" +:+ _).
    assert (ParseArgs [arg] = {[arg := ""]}) as -> by done.
    rewrite lookup_singleton_ne by done.
    rewrite headless_name. by rewrite !string_app_assoc.
Qed.

(** What may be written, and when: a config map of the cluster, with its initial content, after
    the server has answered that it does not exist. *)
Definition config_map_creation (hdb : HStreamDB) (tr : list event) (o : kobj) : Prop :=
  exists cm err, o = OConfigMap cm /\
    Ev (CGet KConfigMap (ObjectKey (cm_Meta cm))) (inl err) ∈ tr /\ IsNotFound err = true /\
    (ObjectKey (cm_Meta cm) = GetLogDeviceConfigMapNamespacedName hdb /\
       cm_Data cm = Some {[LogDeviceConfigKey :=
         match GetLogDeviceConfig (comp_Replicas (spec_HStore (hdb_Spec hdb))) (GetHMetaAddr hdb)
                 (cfg_LogDeviceConfig (spec_Config (hdb_Spec hdb))) with
         | inl _ => "" | inr config => config end]} \/
     ObjectKey (cm_Meta cm) = GetNShardsConfigMapNamespacedName hdb /\
       cm_Data cm = Some {[NShardsConfigKey := Itoa (GetMinNShards hdb)]}).

(** In every run the configuration sub-reconciler writes only the two config maps of the
    cluster, each only after the server has answered that it does not exist: a stored
    configuration and the stored number of shards are never changed. *)
Theorem config_maps_created_once hdb :
  wp (LogDeviceConfigReconciler_reconcile hdb) (fun tr _ =>
    Forall (fun e => match ev_call e with
                     | CCreate o => config_map_creation hdb tr o
                     | CUpdate _ | CStatusUpdate _ => False
                     | _ => True
                     end) tr).
Proof.
  unfold LogDeviceConfigReconciler_reconcile, ensureLogDeviceConfig, ensureNShards, createOwned.
  wp_run; repeat (apply Forall_cons_2; [simpl; try exact I|]); try apply Forall_nil_2.
  all: eexists _, _; split; [done|]; split;
    [repeat first [apply list_elem_of_here | apply list_elem_of_further]|].
  all: split; [eassumption|simpl; auto].
Qed.

(** The two reads of the sub-reconciler treat a failing API server differently: an error on
    the LogDevice configuration is reported, the same error on the number of shards is dropped
    and the pass goes on. *)
Theorem nshards_read_error_dropped hdb err cm :
  IsNotFound err = false ->
  exec (LogDeviceConfigReconciler_reconcile hdb)
    [Ev (CGet KConfigMap (GetLogDeviceConfigMapNamespacedName hdb)) (inl err)]
    (Done (Some (requeue_error err), hdb)) /\
  exec (LogDeviceConfigReconciler_reconcile hdb)
    [Ev (CGet KConfigMap (GetLogDeviceConfigMapNamespacedName hdb)) (inr cm);
     Ev (CGet KConfigMap (GetNShardsConfigMapNamespacedName hdb)) (inl err)]
    (Done (None, hdb)).
Proof.
  intros Herr. split; cbn.
  - eexists (inl err), []. rewrite Herr. done.
  - eexists (inr cm), _. split; [done|]. eexists (inl err), []. rewrite Herr. done.
Qed.
End Facts.
