(* ===== verification/Services.v ===== *)
(** * The services of a cluster: [src/internal/controller/add_services.go]

    Four services, one per component that is addressed by name: HMeta (unless it is external),
    the admin server, HStore and HServer. Their ports are those of the user's container completed
    with the defaults and covered by the numbers of the command line. *)
From S2P Require Import Prelude GoStrings KubeTypes ApiTypes Effects FlagSet Naming Constants Merge Requeue Workload.

Definition convertToServicePort (ports : list ContainerPort) : list ServicePort :=
  (fun port => {| sport_Name := port_Name port; sport_Protocol := port_Protocol port;
                  sport_Port := port_ContainerPort port; sport_rest := None |}) <$> ports.

Section Services.
Context {KL : KubeLib}.

(** The error is always nil; a panic is that of the parser. *)
Definition getPorts (container : Container) (defaultPorts : list ContainerPort) : go (list ServicePort) :=
  ports ← coverPortsFromArgs (elems (ctr_Args container)) (elems (extendPorts (ctr_Ports container) defaultPorts));
  Done (convertToServicePort ports).

(** The service an update writes: the labels and annotations merged, the spec replaced. *)
Definition mergeService (existing newService : Service) : go Service :=
  '(metadata, _) ← mergeLabelsInMetadata (svc_Meta existing) (svc_Meta newService);
  '(metadata, _) ← mergeAnnotations metadata (svc_Meta newService);
  Done {| svc_Meta := metadata; svc_Spec := svc_Spec newService |}.

Definition createOrUpdate (hdb : HStreamDB) (newService : Service) : prog (option go_error) :=
  let* meta := lift (annotate_hash (GetObjectHash (OService newService)) (svc_Meta newService)) in
  let newService := svc_set_Meta meta newService in
  ensureOwned (k := KService) (hdb_Meta hdb) newService (fun existing =>
    let* merged := lift (mergeService existing newService) in
    kube_Update (OService merged)).

Definition addHServerService (hdb : HStreamDB) : prog (option go_error) :=
  let* ports := lift (getPorts (comp_Container (spec_HServer (hdb_Spec hdb)))
                        [DefaultHServerPort; DefaultHServerInternalPort]) in
  let* service := lift (GetHeadlessService hdb ComponentTypeHServer ports) in
  createOrUpdate hdb (svc_set_PublishNotReadyAddresses true service).

Definition addHStoreService (hdb : HStreamDB) : prog (option go_error) :=
  let* ports := lift (getPorts (comp_Container (spec_HStore (hdb_Spec hdb))) DefaultHStorePorts) in
  let* service := lift (GetHeadlessService hdb ComponentTypeHStore ports) in
  createOrUpdate hdb service.

Definition addAdminServerService (hdb : HStreamDB) : prog (option go_error) :=
  let* ports := lift (getPorts (comp_Container (spec_AdminServer (hdb_Spec hdb))) [DefaultAdminServerPort]) in
  createOrUpdate hdb (GetService hdb ComponentTypeAdminServer ports).

Definition addHMetaService (hdb : HStreamDB) : prog (option go_error) :=
  match spec_ExternalHMeta (hdb_Spec hdb) with
  | Some _ => Ret None
  | None =>
      let container := comp_Container (spec_HMeta (hdb_Spec hdb)) in
      let* (_, err) := lift (Parse FlagSet_zero (elems (ctr_Args container))) in
      match err with
      | Some e => Ret (Some (wrap_error "parse HMeta args failed. " (new_error e)))
      | None =>
          let* (port, _) := lift (parseHMetaPort (elems (ctr_Args container))) in
          let ports := extendPorts (ctr_Ports container) [port] in
          let servicePorts := convertToServicePort (elems ports) in
          let* service := lift (GetHeadlessService hdb ComponentTypeHMeta servicePorts) in
          createOrUpdate hdb (svc_set_PublishNotReadyAddresses true service)
      end
  end.

Definition addServices_reconcile (hdb : HStreamDB) : prog (option requeue * HStreamDB) :=
  let* err := addHMetaService hdb in
  match err with
  | Some err => Ret (Some (requeue_error err), hdb)
  | None =>
      let* err := addAdminServerService hdb in
      match err with
      | Some err => Ret (Some (requeue_error err), hdb)
      | None =>
          let* err := addHStoreService hdb in
          match err with
          | Some err => Ret (Some (requeue_error err), hdb)
          | None =>
              let* err := addHServerService hdb in
              match err with
              | Some err => Ret (Some (requeue_error err), hdb)
              | None => Ret (None, hdb)
              end
          end
      end
  end.

End Services.

(** ** Lemmas *)

Section Facts.
Context {KL : KubeLib}.

(** The desired service with the hash of its spec. *)
Definition stamped (s : Service) : Service :=
  svc_set_Meta (meta_set_Annotations
    (Some (<[LastSpecKey := GetObjectHash (OService s)]> (entries (meta_Annotations (svc_Meta s))))) (svc_Meta s)) s.

Lemma createOrUpdate_stamped hdb s :
  meta_Annotations (svc_Meta s) <> None ->
  createOrUpdate hdb s = ensureOwned (k := KService) (hdb_Meta hdb) (stamped s) (fun existing =>
    let* merged := lift (mergeService existing (stamped s)) in kube_Update (OService merged)).
Proof.
  intros Ha. unfold createOrUpdate, stamped, annotate_hash. by destruct (meta_Annotations (svc_Meta s)).
Qed.

Lemma mergeService_done existing s l a la an :
  meta_Labels (svc_Meta existing) = Some l -> meta_Annotations (svc_Meta existing) = Some a ->
  meta_Labels (svc_Meta s) = Some la -> meta_Annotations (svc_Meta s) = Some an ->
  exists l' a', mergeService existing s =
    Done {| svc_Meta := meta_set_Annotations (Some a') (meta_set_Labels (Some l') (svc_Meta existing));
            svc_Spec := svc_Spec s |} /\
    (forall k, mstr (Some l') k = default (mstr (Some l) k) (la !! k)) /\
    (forall k, mstr (Some a') k = default (mstr (Some a) k) (an !! k)).
Proof.
  intros Hl Ha Hla Han. unfold mergeService, mergeLabelsInMetadata, mergeAnnotations. rewrite Hl, Hla, Han.
  destruct (mergeMap_some l la) as (l' & c & -> & Hl'). cbn [mbind go_bind].
  change (meta_Annotations (meta_set_Labels (Some l') (svc_Meta existing))) with
    (meta_Annotations (svc_Meta existing)). rewrite Ha.
  destruct (mergeMap_some a an) as (a' & c' & -> & Ha'). cbn [mbind go_bind]. eauto 10.
Qed.

Lemma mergeService_panics existing s la an :
  meta_Labels (svc_Meta existing) = None \/ meta_Annotations (svc_Meta existing) = None ->
  meta_Labels (svc_Meta s) = Some la -> meta_Annotations (svc_Meta s) = Some an ->
  (exists k v, la !! k = Some v /\ v <> "") -> (exists k v, an !! k = Some v /\ v <> "") ->
  exists msg, mergeService existing s = Panic msg.
Proof.
  intros Hnil Hla Han (kl & vl & Hkl & Hvl) (ka & va & Hka & Hva).
  unfold mergeService, mergeLabelsInMetadata, mergeAnnotations. rewrite Hla, Han.
  destruct (meta_Labels (svc_Meta existing)) as [l|].
  - destruct Hnil as [?|Ha]; [done|]. destruct (mergeMap_some l la) as (l' & c & -> & _). cbn [mbind go_bind].
    change (meta_Annotations (meta_set_Labels (Some l') (svc_Meta existing))) with
      (meta_Annotations (svc_Meta existing)). rewrite Ha.
    destruct (mergeMap_nil_panics an ka va) as [msg ->]; [done|done|]. by exists msg.
  - destruct (mergeMap_nil_panics la kl vl) as [msg ->]; [done|done|]. by exists msg.
Qed.

(** What an update of a service may write. *)
Definition service_copy (s existing : Service) (o : kobj) : Prop :=
  exists merged, mergeService existing s = Done merged /\ o = OService merged.

Lemma createOrUpdate_wp hdb s :
  meta_Annotations (svc_Meta s) <> None ->
  wp (createOrUpdate hdb s) (fun tr o =>
    match o with
    | Done r => ensured (k := KService) (hdb_Meta hdb) (stamped s) (service_copy (stamped s)) tr r
    | Panic msg => exists existing tr',
        tr = Ev (CGet KService (ObjectKey (svc_Meta (stamped s)))) (inr existing) :: tr' /\
        last_spec (svc_Meta existing) <> last_spec (svc_Meta (stamped s)) /\
        mergeService existing (stamped s) = Panic msg
    end).
Proof.
  intros Ha. rewrite createOrUpdate_stamped by done.
  eapply wp_mono.
  { apply (ensureOwned_wp (k := KService) _ _ _ (service_copy (stamped s))
             (fun existing msg => mergeService existing (stamped s) = Panic msg)).
    intros existing. destruct (mergeService existing (stamped s)) as [merged|msg] eqn:Hm; cbn; [|done].
    intros r. exists [], (OService merged). split; [done|]. split; [done|]. by exists merged. }
  intros tr [r|msg] H; exact H.
Qed.

Lemma addServices_steady : steady addServices_reconcile.
Proof.
  intros hdb. unfold addServices_reconcile.
  repeat (apply steady_bind; intros [err|]; [split; [apply requeue_error_stopping|done]|]). done.
Qed.

(** *** Properties *)

(** C21: a service is created when there is none, and updated exactly when its recorded hash is not
    the desired one. The update keeps the labels and annotations of others, sets the desired ones
    and replaces the spec; but on a stored service without a label or an annotation map it panics,
    and the panic is the only thing that can go wrong besides the errors of the server. *)
Theorem createOrUpdate_contract hdb s la an tr o :
  meta_Labels (svc_Meta s) = Some la -> meta_Annotations (svc_Meta s) = Some an ->
  (exists k v, la !! k = Some v /\ v <> "") ->
  exec (createOrUpdate hdb s) tr o ->
  match o with
  | Done r => ensured (k := KService) (hdb_Meta hdb) (stamped s) (fun existing o =>
      exists l a l' a',
        meta_Labels (svc_Meta existing) = Some l /\ meta_Annotations (svc_Meta existing) = Some a /\
        o = OService {| svc_Meta := meta_set_Annotations (Some a') (meta_set_Labels (Some l') (svc_Meta existing));
                        svc_Spec := svc_Spec s |} /\
        (forall k, mstr (Some l') k = default (mstr (Some l) k) (la !! k)) /\
        (forall k, mstr (Some a') k =
           default (mstr (Some a) k) ((<[LastSpecKey := GetObjectHash (OService s)]> an) !! k))) tr r
  | Panic _ => exists existing tr',
      tr = Ev (CGet KService (ObjectKey (svc_Meta s))) (inr existing) :: tr' /\
      last_spec (svc_Meta existing) <> GetObjectHash (OService s) /\
      (meta_Labels (svc_Meta existing) = None \/ meta_Annotations (svc_Meta existing) = None)
  end.
Proof.
  intros Hla Han Hne He. pose proof (createOrUpdate_wp hdb s) as Hw. rewrite wp_exec in Hw.
  specialize (Hw ltac:(by rewrite Han) _ _ He).
  assert (forall existing, meta_Labels (svc_Meta existing) = None \/ meta_Annotations (svc_Meta existing) = None ->
    exists msg, mergeService existing (stamped s) = Panic msg) as Hpanic.
  { intros existing Hn. eapply mergeService_panics; [done|done|done|done|].
    exists LastSpecKey, (GetObjectHash (OService s)). rewrite lookup_insert_eq.
    split; [done|apply Itoa_nonempty]. }
  pose proof (fun existing l a Hl Ha => mergeService_done existing (stamped s) l a la
    (<[LastSpecKey := GetObjectHash (OService s)]> (entries (meta_Annotations (svc_Meta s)))) Hl Ha Hla eq_refl)
    as Hdone.
  rewrite Han in Hdone. cbn [entries default] in Hdone.
  destruct o as [r|msg].
  - destruct Hw as [| | | |existing o evs r Hd (merged & Hm & ->) Hevs]; try by econstructor.
    econstructor; [done| |done].
    destruct (meta_Labels (svc_Meta existing)) as [l|] eqn:Hl; [|destruct (Hpanic existing); [by left|congruence]].
    destruct (meta_Annotations (svc_Meta existing)) as [a|] eqn:Ha; [|destruct (Hpanic existing); [by right|congruence]].
    destruct (Hdone existing l a Hl Ha) as (l' & a' & Hm' & ?). exists l, a, l', a'.
    rewrite Hm in Hm'. by simplify_eq.
  - destruct Hw as (existing & tr' & -> & Hd & Hm). exists existing, tr'. split; [done|].
    split; [intros Heq; apply Hd; by rewrite Heq; unfold last_spec; simpl; rewrite mstr_Some, lookup_insert_eq|].
    destruct (meta_Labels (svc_Meta existing)) as [l|] eqn:Hl; [|by left].
    destruct (meta_Annotations (svc_Meta existing)) as [a|] eqn:Ha; [|by right].
    destruct (Hdone existing l a Hl Ha) as (l' & a' & Hm' & ?). congruence.
Qed.

End Facts.
