(* ===== verification/Admin.v ===== *)
(** * The admin client: [src/internal/admin], [src/pkg/executor], [src/pkg/selector]

    The operator talks to a running cluster by executing [hadmin] in a pod of the admin server
    and by reading the nodes of HMeta through the service proxy. [IAdminClient] and
    [AdminClientProvider] are the interfaces the sub-reconcilers use; [adminClientProvider] is the
    implementation over the API server, [mockAdminClientProvider] the one of the tests. *)
From S2P Require Import Prelude GoStrings KubeTypes ApiTypes Effects Naming Constants.

(** ** [pkg/executor] *)

Record Command := { cmd_Command : string; cmd_Args : list string }.

Definition GetCommand (c : Command) : list string := cmd_Command c :: cmd_Args c.

Definition ToString (c : Command) : string := cmd_Command c +:+ " " +:+ Join (cmd_Args c) " ".

(** The message of [fmt.Errorf] with [%w] and an error that may be nil. *)
Definition stream_error (err : option go_error) (command : Command) (stderr : string) : go_error :=
  {| err_reason := from_option err_reason ReasonOther err;
     err_msg := "an error occurred while executing the command: " +:+
       from_option err_msg "%!w(<nil>)" err +:+ ", command: " +:+ ToString command +:+
       ", stderr: " +:+ stderr |}.

(** A [*RemoteExecutor], nil or not, and the error. What is in it (the configuration and the
    clientset) is behind the calls. *)
Inductive RemoteExecutor := remote_executor.

Definition NewRemoteExecutor : prog (option RemoteExecutor * option go_error) :=
  let* err := new_clientset in
  match err with
  | Some err => Ret (None, Some err)
  | None => Ret (Some remote_executor, None)
  end.

Definition RunCommandInPod (podName namespace : string) (command : Command) : prog (go_error + string) :=
  let* err := new_executor namespace podName in
  match err with
  | Some err => Ret (inl (wrap_error "an error occurred while creating the executor: " err))
  | None =>
      let* (err, stdout, stderr) := stream namespace podName (GetCommand command) in
      if bool_decide (err <> None) || bool_decide (stderr <> "") then Ret (inl (stream_error err command stderr))
      else Ret (inr stdout)
  end.

Definition AccessServiceProxy (namespace serviceName path : string) : prog (go_error + string) :=
  service_proxy namespace serviceName path.

(** ** [pkg/selector] *)

(** [NewSelector] reads the clientset of the executor it is given: a nil executor panics. *)
Definition nil_pointer : string := "runtime error: invalid memory address or nil pointer dereference".

Inductive Selector := selector.

Definition NewSelector (e : option RemoteExecutor) : go Selector :=
  match e with Some _ => Done selector | None => Panic nil_pointer end.

(** With a label map and no field map, as it is called; the names of the pods. *)
Definition GetPods (namespace : string) (labelMap : gmap string string) : prog (go_error + list string) :=
  let* podList := list_pods namespace labelMap in
  match podList with
  | inl err => Ret (inl err)
  | inr items => Ret (inr items)
  end.

(** ** [types.go] *)

Module admin.

Record HMetaNode := { Reachable : bool; Leader : bool; Error : string }.

Record HMetaStatus := { Nodes : gomap HMetaNode }.

Definition IsAllReady (rs : HMetaStatus) : bool :=
  if decide (size (entries (Nodes rs)) = 0) then false
  else forallb (fun '(_, node) => Reachable node) (map_to_list (entries (Nodes rs))).

End admin.

(** [json.Unmarshal] of the answer of HMeta's [/nodes] into a node map. *)
Class AdminJson := { unmarshal_nodes : string -> go_error + gomap admin.HMetaNode }.

Inductive MaintenanceAction := MaintenanceActionApply.
Definition action_string (a : MaintenanceAction) : string := match a with MaintenanceActionApply => "apply" end.

Record IAdminClient := {
  CallServer : list string -> prog (go_error + string);
  CallStore : list string -> prog (go_error + string);
  MaintenanceStore : MaintenanceAction -> list string -> prog (go_error + string);
  GetHMetaStatus : prog (go_error + admin.HMetaStatus)
}.

(** What the operator relies on: a client leaves the objects of the API server alone. *)
Record client_ok (c : IAdminClient) : Prop := {
  CallServer_reads args : reads_only (CallServer c args);
  CallStore_reads args : reads_only (CallStore c args);
  MaintenanceStore_reads action args : reads_only (MaintenanceStore c action args);
  GetHMetaStatus_reads : reads_only (GetHMetaStatus c)
}.

Class AdminClientProvider := {
  GetAdminClient : HStreamDB -> prog IAdminClient;
  GetAdminClient_ok hdb : wp (GetAdminClient hdb) (fun tr o =>
    quiet tr /\ match o with Done c => client_ok c | Panic _ => True end)
}.

(** ** [client.go] *)

Section AdminClient.
Context {AJ : AdminJson}.

(** [AdminClient.call]: the first pod of the list is used without a look at its length. *)
Definition admin_call (hdb : HStreamDB) (args : list string) : prog (go_error + string) :=
  let command := {| cmd_Command := "hadmin"; cmd_Args := args |} in
  let* pods := GetPods (hdb_Namespace hdb) {[ComponentKey := ct_string ComponentTypeAdminServer]} in
  match pods with
  | inl err => Ret (inl err)
  | inr [] => Crash "runtime error: index out of range [0] with length 0"
  | inr (pod :: _) => RunCommandInPod pod (hdb_Namespace hdb) command
  end.

Definition AdminClient_GetHMetaStatus (hdb : HStreamDB) : prog (go_error + admin.HMetaStatus) :=
  let* (namespace, hmetaAddr) :=
    match spec_ExternalHMeta (hdb_Spec hdb) with
    | Some ext => Ret (ext_Namespace ext, ext_Host ext +:+ ":" +:+ Itoa (ext_Port ext))
    | None =>
        let* svc := lift (GetHeadlessService hdb ComponentTypeHMeta []) in
        Ret (hdb_Namespace hdb,
             meta_Name (svc_Meta svc) +:+ ":" +:+ Itoa (port_ContainerPort DefaultHMetaPort))
    end in
  let* output := AccessServiceProxy namespace hmetaAddr "nodes" in
  match output with
  | inl err => Ret (inl (wrap_error "failed to get HMeta status: " err))
  | inr output =>
      match unmarshal_nodes output with
      | inl err => Ret (inl (wrap_error "failed to unmarshal HMeta staus: " err))
      | inr nodes => Ret (inr {| admin.Nodes := nodes |})
      end
  end.

Definition AdminClient (hdb : HStreamDB) : IAdminClient := {|
  CallServer args := admin_call hdb ("server" :: args);
  CallStore args := admin_call hdb ("store" :: args);
  MaintenanceStore action args := admin_call hdb ("store" :: "maintenance" :: action_string action :: args);
  GetHMetaStatus := AdminClient_GetHMetaStatus hdb |}.

(** The error of [NewRemoteExecutor] is dropped, and the executor it comes with is nil. *)
Definition NewAdminClient (hdb : HStreamDB) : prog IAdminClient :=
  let* (e, _) := NewRemoteExecutor in
  let* _ := lift (NewSelector e) in
  Ret (AdminClient hdb).

(** ** Lemmas *)

Lemma RunCommandInPod_reads pod ns c : reads_only (RunCommandInPod pod ns c).
Proof. unfold reads_only, RunCommandInPod. wp_run; by repeat constructor. Qed.

Lemma admin_call_reads hdb args : reads_only (admin_call hdb args).
Proof.
  apply reads_only_bind; [unfold reads_only, GetPods; wp_run; by repeat constructor|].
  intros [err|[|pod pods]]; [constructor|constructor|apply RunCommandInPod_reads].
Qed.

Lemma AdminClient_GetHMetaStatus_reads hdb : reads_only (AdminClient_GetHMetaStatus hdb).
Proof.
  unfold AdminClient_GetHMetaStatus. apply reads_only_bind.
  - destruct (spec_ExternalHMeta (hdb_Spec hdb)); [constructor|].
    apply reads_only_bind; [apply reads_only_lift|constructor].
  - intros [ns addr]. apply reads_only_bind; [by intros r; repeat constructor|].
    intros [err|output]; [constructor|]. destruct (unmarshal_nodes output); constructor.
Qed.

Lemma AdminClient_ok hdb : client_ok (AdminClient hdb).
Proof. split; intros; first [apply admin_call_reads | apply AdminClient_GetHMetaStatus_reads]. Qed.

#[export, refine] Instance adminClientProvider : AdminClientProvider := {| GetAdminClient := NewAdminClient |}.
Proof. intros hdb. unfold NewAdminClient, NewRemoteExecutor. wp_run; split; try by repeat constructor. apply AdminClient_ok. Defined.

(** Its configuration and its logger are behind the calls. *)
Definition NewAdminClientProvider : AdminClientProvider := adminClientProvider.

End AdminClient.

(** ** [client_mock.go] *)

(** The node map of the result is nil: with at least one replica its first assignment panics. *)
Fixpoint mock_nodes (i : nat) (n : nat) (nodes : gomap admin.HMetaNode) : go (gomap admin.HMetaNode) :=
  match n with
  | 0 => Done nodes
  | S n' =>
      nodes' ← mset nodes ("nodeId-" +:+ Itoa (Z.of_nat i))
                 {| admin.Reachable := true; admin.Leader := false; admin.Error := "" |};
      mock_nodes (S i) n' nodes'
  end.

Definition mockAdminClient (hdb : HStreamDB) : IAdminClient := {|
  CallServer _ := Crash "unimplemented";
  CallStore _ := Crash "unimplemented";
  MaintenanceStore _ _ := Crash "unimplemented";
  GetHMetaStatus :=
    let* nodes := lift (mock_nodes 0 (Z.to_nat (comp_Replicas (spec_HMeta (hdb_Spec hdb)))) None) in
    Ret (inr {| admin.Nodes := nodes |}) |}.

#[refine] Definition mockAdminClientProvider : AdminClientProvider :=
  {| GetAdminClient hdb := Ret (mockAdminClient hdb) |}.
Proof.
  intros hdb. cbn. split; [constructor|]. split; intros; try constructor.
  simpl. apply reads_only_bind; [apply reads_only_lift|constructor].
Defined.

Definition NewMockAdminClientProvider : AdminClientProvider := mockAdminClientProvider.

(** *** Properties *)

Section Properties.
Context {AJ : AdminJson}.

(** The trace of [admin_call] when [hadmin] runs in the pod [pod] with the answer [answer]. *)
Definition hadmin_run (hdb : HStreamDB) (args pods : list string) (pod : string)
    (answer : option go_error * string * string) : list event :=
  [Ev (CListPods (hdb_Namespace hdb) {[ComponentKey := ct_string ComponentTypeAdminServer]}) (inr (pod :: pods));
   Ev (CNewExecutor (hdb_Namespace hdb) pod) None;
   Ev (CStream (hdb_Namespace hdb) pod ("hadmin" :: args)) answer].

(** C30: an admin command succeeds exactly when it ran, without an error and without a word on its
    standard error, in the first pod the server lists for the label of the admin server; its
    result is then the standard output. The call panics exactly when the list is empty. *)
Theorem admin_call_contract hdb args tr o :
  exec (admin_call hdb args) tr o ->
  (forall out, o = Done (inr out) <-> exists pods pod, tr = hadmin_run hdb args pods pod (None, out, "")) /\
  ((exists msg, o = Panic msg) <->
     tr = [Ev (CListPods (hdb_Namespace hdb) {[ComponentKey := ct_string ComponentTypeAdminServer]}) (inr [])]).
Proof.
  unfold admin_call, GetPods, RunCommandInPod. cbn. intros (r & tr' & -> & H).
  destruct r as [err|[|pod pods]]; cbn in H.
  - destruct H as [-> ->]. split; [intros out; split; [done|]|split; [by intros [? ?]|]].
    + intros (? & ? & Hl%(f_equal length)). done.
    + intros Hl%(f_equal (fun tr => pods_answer <$> head tr)). done.
  - destruct H as [-> ->]. split; [intros out; split; [done|]|split; [done|eauto]].
    intros (? & ? & Hl%(f_equal length)). done.
  - destruct H as (r2 & tr2 & -> & H). destruct r2 as [err|]; cbn in H.
    { destruct H as [-> ->]. split; [intros out; split; [done|]|split; [by intros [? ?]|]].
      - intros (? & ? & Hl%(f_equal length)). done.
      - intros Hl%(f_equal length). done. }
    destruct H as ([[err out] stderr] & tr3 & -> & H).
    assert (exists r, tr3 = [] /\ o = Done r /\
      (forall out', r = inr out' <-> (err, out, stderr) = (None, out', ""))) as (r & -> & -> & Hr).
    { destruct err as [err|]; cbn in H.
      - destruct H as [-> ->]. eexists. split_and!; [done|done|naive_solver].
      - case_bool_decide as Hs; destruct H as [-> ->]; eexists; (split_and!; [done|done|]).
        + naive_solver.
        + subst. naive_solver. }
    split; [|split; [by intros [? ?]|intros Hl%(f_equal length); done]].
    intros out'. split.
    + intros [= Hr']. apply Hr in Hr'. exists pods, pod. unfold hadmin_run. by rewrite <-Hr'.
    + intros (? & ? & Hl%(f_equal (fun tr => stream_answer <$> last tr))). f_equal. apply Hr.
      cbn in Hl. congruence.
Qed.

(** HMeta counts as ready exactly when it reports at least one node and every reported node
    is reachable, in whatever order the nodes are visited. *)
Theorem IsAllReady_spec (rs : admin.HMetaStatus) order :
  order ≡ₚ map_to_list (entries (admin.Nodes rs)) ->
  admin.IsAllReady rs = bool_decide (order <> []) && forallb (fun entry => admin.Reachable (snd entry)) order.
Proof.
  intros Hp. unfold admin.IsAllReady. case_decide as Hs.
  - apply map_size_empty_inv in Hs. rewrite Hs, map_to_list_empty in Hp.
    apply Permutation_nil_r in Hp as ->. by rewrite bool_decide_false by auto.
  - rewrite bool_decide_true.
    2:{ intros ->. apply Permutation_nil_l in Hp. symmetry in Hp.
        apply map_to_list_empty_iff in Hp. by rewrite Hp, map_size_empty in Hs. }
    rewrite (forallb_Permutation _ _ _ Hp). simpl.
    clear Hp. induction (map_to_list _) as [|[id node] l IH]; simpl; [done|by rewrite IH].
Qed.

(** The client of the tests cannot report a status: with at least one HMeta replica it panics
    on the first node, because its node map is never made. *)
Theorem mock_GetHMetaStatus_panics hdb :
  (exists msg, exec (GetHMetaStatus (mockAdminClient hdb)) [] (Panic msg)) <->
  (0 < comp_Replicas (spec_HMeta (hdb_Spec hdb)))%Z.
Proof.
  cbn [mockAdminClient GetHMetaStatus]. set (n := comp_Replicas _). split.
  - intros [msg H]. destruct (decide (0 < n)%Z) as [|Hn]; [done|].
    replace (Z.to_nat n) with 0 in H by lia. cbn in H. by destruct H.
  - intros Hn. destruct (Z.to_nat n) as [|m] eqn:E; [lia|]. cbn. by eexists.
Qed.

End Properties.
