(* ===== verification/HMeta.v ===== *)
(** * HMeta: [src/internal/controller/add_hmeta.go]

    The stateful set of the metadata cluster, unless the cluster is external. The status of its
    nodes, which every later component waits for, is recorded in [Bootstrap.v]. *)
From S2P Require Import Prelude GoStrings KubeTypes ApiTypes Effects Conditions FlagSet Naming Constants Merge Requeue Workload LogDevice Admin.

Definition hmeta_probe (path : string) (period : Z) : Probe := {|
  probe_Handler := HTTPGet path (FromInt (port_ContainerPort DefaultHMetaPort)) "HTTP";
  probe_InitialDelaySeconds := 5; probe_TimeoutSeconds := 2; probe_PeriodSeconds := period;
  probe_FailureThreshold := 0; probe_rest := None |}.

(** An emptyDir volume where the user gives no claim. *)
Definition empty_dir (name : string) (template : option PVCTemplate) : list Volume :=
  match template with
  | None => [{| vol_Name := name; vol_Source := EmptyDir |}]
  | Some _ => []
  end.

Module addHMeta.
Section addHMeta.
Context {KL : KubeLib}.

Definition getContainer (hdb : HStreamDB) : go (slice Container) :=
  let hmeta := spec_HMeta (hdb_Spec hdb) in
  let container := structAssign
    (ctr_new (comp_Image hmeta) (comp_ImagePullPolicy hmeta)
       (Some (hmeta_probe "/readyz?noleader" 0)) (Some (hmeta_probe "/readyz" 5)))
    (comp_Container hmeta) in
  let container := default_name (ct_string ComponentTypeHMeta) container in
  svc ← GetHeadlessService hdb ComponentTypeHMeta [];
  let args := DefaultHMetaArgs ++
    ["--bootstrap-expect"; Itoa (comp_Replicas hmeta);
     "--disco-config"; json_text "{'name':'" +:+ meta_Name (svc_Meta svc) +:+ json_text "'}"] in
  args ← extendArgs (elems (ctr_Args container)) args;
  let container := ctr_set_Args (args_or_nil args) container in
  '(port, _) ← parseHMetaPort (elems (ctr_Args container));
  let container := ctr_set_Ports (extendPorts (ctr_Ports container) [port]) container in
  let container := ctr_set_VolumeMounts (append (ctr_VolumeMounts container)
    [{| vm_Name := GetPvcName hdb (comp_VolumeClaimTemplate hmeta); vm_ReadOnly := false;
        vm_MountPath := HMetaDataPath; vm_SubPath := ""; vm_rest := None |}]) container in
  Done (with_sidecars container hmeta).

Definition getVolumes (hdb : HStreamDB) : list Volume :=
  let template := comp_VolumeClaimTemplate (spec_HMeta (hdb_Spec hdb)) in
  empty_dir (GetPvcName hdb template) template.

Definition getPVC (hdb : HStreamDB) : slice PersistentVolumeClaim :=
  match comp_VolumeClaimTemplate (spec_HMeta (hdb_Spec hdb)) with
  | Some t => Some [GetPvc hdb (Some t) ComponentTypeHMeta]
  | None => None
  end.

Definition getPodTemplate (hdb : HStreamDB) : go PodTemplateSpec :=
  let hmeta := spec_HMeta (hdb_Spec hdb) in
  containers ← getContainer hdb;
  Done {| tpl_Meta := meta_set_Name (GetResName ComponentTypeHMeta hdb)
                        (GetObjectMetadata hdb None ComponentTypeHMeta);
          tpl_Spec := pod_spec (Some 5%Z) hmeta containers (append (comp_Volumes hmeta) (getVolumes hdb)) |}.

Definition getSts (hdb : HStreamDB) : go StatefulSet :=
  podTemplate ← getPodTemplate hdb;
  let pvcs := getPVC hdb in
  sts ← GetStatefulSet hdb (spec_HMeta (hdb_Spec hdb)) podTemplate ComponentTypeHMeta;
  Done (sts_set_Spec (sts_set_VolumeClaimTemplates pvcs (sts_Spec sts)) sts).

Definition reconcile (hdb : HStreamDB) : prog (option requeue * HStreamDB) :=
  match spec_ExternalHMeta (hdb_Spec hdb) with
  | Some _ => Ret (None, hdb)
  | None =>
      let* sts := lift (getSts hdb) in
      ensureWorkload (k := KStatefulSet) hdb "UpdatingHMeta" sts (copy_sts_fields sts)
  end.

End addHMeta.
End addHMeta.

(** ** Lemmas *)

Lemma addHMeta_steady {KL : KubeLib} : steady addHMeta.reconcile.
Proof.
  intros hdb. unfold addHMeta.reconcile. destruct (spec_ExternalHMeta (hdb_Spec hdb)); [done|]. auto with hop.
Qed.
