(* ===== verification/AdminServer.v ===== *)
(** * The admin server: [src/internal/controller/add_admin_server.go] *)
From S2P Require Import Prelude GoStrings KubeTypes ApiTypes Effects FlagSet Naming Constants Merge Requeue Workload LogDevice.

Definition adminServerConfigPath : string := "/etc/logdevice".

Definition adminServerArgs : list string :=
  ["--config-path"; adminServerConfigPath +:+ "/config.json";
   "--enable-maintenance-manager"; "";
   "--maintenance-log-snapshotting"; "";
   "--enable-safety-check-periodic-metadata-update"; ""].

Module addAdminServer.
Section addAdminServer.
Context {KL : KubeLib}.

Definition getContainer (hdb : HStreamDB) : go (slice Container) :=
  let adminServer := spec_AdminServer (hdb_Spec hdb) in
  let container := structAssign
    (ctr_new (comp_Image adminServer) (comp_ImagePullPolicy adminServer) None None)
    (comp_Container adminServer) in
  let container := default_name (ct_string ComponentTypeAdminServer) container in
  let container := default_command ["/usr/local/bin/ld-admin-server"] container in
  args ← extendArgs (elems (ctr_Args container)) adminServerArgs;
  let container := ctr_set_Args (args_or_nil args) container in
  ports ← coverPortsFromArgs (elems (ctr_Args container))
            (elems (extendPorts (ctr_Ports container) [DefaultAdminServerPort]));
  let container := ctr_set_Ports (Some ports) container in
  let container := ctr_set_VolumeMounts
    (append (ctr_VolumeMounts container) [GetLogDeviceConfigVolumeMount hdb]) container in
  Done (with_sidecars container adminServer).

Definition getPodTemplate (hdb : HStreamDB) : go PodTemplateSpec :=
  let adminServer := spec_AdminServer (hdb_Spec hdb) in
  containers ← getContainer hdb;
  Done {| tpl_Meta := v1alpha2.GetObjectMeta ComponentTypeAdminServer hdb None;
          tpl_Spec := pod_spec None adminServer containers
                        (append (comp_Volumes adminServer) [GetLogDeviceConfigVolume hdb]) |}.

Definition getDeployment (hdb : HStreamDB) : go Deployment :=
  podTemplate ← getPodTemplate hdb;
  GetDeployment hdb (spec_AdminServer (hdb_Spec hdb)) podTemplate ComponentTypeAdminServer.

Definition reconcile (hdb : HStreamDB) : prog (option requeue * HStreamDB) :=
  let* deploy := lift (getDeployment hdb) in
  ensureWorkload (k := KDeployment) hdb "UpdatingAdminServer" deploy (copy_dep_spec deploy).

End addAdminServer.
End addAdminServer.

(** ** Lemmas *)

Lemma addAdminServer_steady {KL : KubeLib} : steady addAdminServer.reconcile.
Proof. intros hdb. unfold addAdminServer.reconcile. auto with hop. Qed.
