(* ===== verification/HStore.v ===== *)
(** * HStore: [src/internal/controller/add_hstore.go]

    The stateful set of the storage nodes. The number of shards decides the paths the data is
    stored under, so it is read back from the config map that was created with the cluster. *)
From S2P Require Import Prelude GoStrings KubeTypes ApiTypes Effects FlagSet Naming Constants Merge Requeue Workload LogDevice HMeta.

Definition hstore_readiness : Probe := {|
  probe_Handler := TCPSocket (FromString "admin-port");
  probe_InitialDelaySeconds := 0; probe_TimeoutSeconds := 0; probe_PeriodSeconds := 1;
  probe_FailureThreshold := 30; probe_rest := None |}.

(** One round of the loop over the stored data: [int32(num)] when the value is a number. *)
Definition read_nshard (nShard : Z) (entry : string * string) : Z :=
  match Atoi (snd entry) with Some num => wrap32 num | None => nShard end.

Module addHStore.
Section addHStore.
Context {KL : KubeLib}.

Definition getNShardFromExistingConfigMap (hdb : HStreamDB) : prog Z :=
  let nShard := cfg_NShards (spec_Config (hdb_Spec hdb)) in
  let* existing := kube_Get KConfigMap (GetNShardsConfigMapNamespacedName hdb) in
  match existing with
  | inl _ => Ret nShard
  | inr existingConfigMap =>
      let* data := range_map (entries (cm_Data existingConfigMap)) in
      Ret (foldl read_nshard nShard data)
  end.

(** The mount of one shard. *)
Definition shard_mount (hdb : HStreamDB) (i : Z) : VolumeMount := {|
  vm_Name := GetPvcName hdb (comp_VolumeClaimTemplate (spec_HStore (hdb_Spec hdb)));
  vm_ReadOnly := false;
  vm_MountPath := HStoreDataPath +:+ "/shard" +:+ Itoa i;
  vm_SubPath := "shard" +:+ Itoa i; vm_rest := None |}.

Definition getContainer (hdb : HStreamDB) (nShard : Z) : go (slice Container) :=
  let hStore := spec_HStore (hdb_Spec hdb) in
  let container := structAssign
    (ctr_new (comp_Image hStore) (comp_ImagePullPolicy hStore) None (Some hstore_readiness))
    (comp_Container hStore) in
  let container := ctr_set_Env (extendEnvs (ctr_Env container) DefaultHStoreEnv) container in
  let container := default_name (ct_string ComponentTypeHStore) container in
  let container := default_command ["/usr/local/bin/logdeviced"] container in
  let args := DefaultHStoreArgs ++ ["--num-shards"; Itoa nShard] in
  args ← extendArgs (elems (ctr_Args container)) args;
  let container := ctr_set_Args (args_or_nil args) container in
  ports ← coverPortsFromArgs (elems (ctr_Args container))
            (elems (extendPorts (ctr_Ports container) DefaultHStorePorts));
  let container := ctr_set_Ports (Some ports) container in
  let mounts := append (ctr_VolumeMounts container)
    [GetLogDeviceConfigVolumeMount hdb; GetNShardsConfigVolumeMount hdb] in
  let mounts := foldl (fun mounts i => append mounts [shard_mount hdb i]) mounts (seqZ 0 nShard) in
  let container := ctr_set_VolumeMounts mounts container in
  Done (with_sidecars container hStore).

Definition getVolumes (hdb : HStreamDB) : list Volume :=
  let template := comp_VolumeClaimTemplate (spec_HStore (hdb_Spec hdb)) in
  [GetLogDeviceConfigVolume hdb; GetNShardsConfigVolume hdb] ++ empty_dir (GetPvcName hdb template) template.

Definition getPVC (hdb : HStreamDB) : slice PersistentVolumeClaim :=
  match comp_VolumeClaimTemplate (spec_HStore (hdb_Spec hdb)) with
  | Some t => Some [GetPvc hdb (Some t) ComponentTypeHStore]
  | None => None
  end.

Definition getPodTemplate (hdb : HStreamDB) (nShard : Z) : go PodTemplateSpec :=
  let hStore := spec_HStore (hdb_Spec hdb) in
  containers ← getContainer hdb nShard;
  Done {| tpl_Meta := meta_set_Name (GetResName ComponentTypeHStore hdb)
                        (GetObjectMetadata hdb None ComponentTypeHStore);
          tpl_Spec := pod_spec None hStore containers (append (comp_Volumes hStore) (getVolumes hdb)) |}.

Definition getSts (hdb : HStreamDB) (nShard : Z) : go StatefulSet :=
  podTemplate ← getPodTemplate hdb nShard;
  let pvcs := getPVC hdb in
  sts ← GetStatefulSet hdb (spec_HStore (hdb_Spec hdb)) podTemplate ComponentTypeHStore;
  Done (sts_set_Spec (sts_set_VolumeClaimTemplates pvcs (sts_Spec sts)) sts).

Definition reconcile (hdb : HStreamDB) : prog (option requeue * HStreamDB) :=
  let* nShard := getNShardFromExistingConfigMap hdb in
  let* sts := lift (getSts hdb nShard) in
  ensureWorkload (k := KStatefulSet) hdb "UpdatingHStore" sts (copy_sts_fields sts).

End addHStore.
End addHStore.

(** ** Lemmas *)

Lemma addHStore_steady {KL : KubeLib} : steady addHStore.reconcile.
Proof. intros hdb. unfold addHStore.reconcile. auto with hop. Qed.

Section Facts.
Context {KL : KubeLib}.

Lemma foldl_append {A B} (f : B -> A) (l : list B) (m : slice A) :
  elems (foldl (fun m i => append m [f i]) m l) = elems m ++ (f <$> l).
Proof.
  revert m. induction l as [|x l IH]; intros m; simpl; [by rewrite app_nil_r|].
  rewrite IH. simpl. by rewrite <-app_assoc.
Qed.

(** *** Properties *)

(** The number of shards is fixed with the cluster: whatever the user has changed it to since,
    and in whatever order the stored data is visited, [addHStore] works with the number that
    [ensureNShards] stored for the object [hdb0] it first saw. *)
Theorem nshards_stable hdb hdb0 cm tr n :
  int32_ok (cfg_NShards (spec_Config (hdb_Spec hdb0))) ->
  cm_Data cm = Some {[NShardsConfigKey := Itoa (GetMinNShards hdb0)]} ->
  exec (addHStore.getNShardFromExistingConfigMap hdb)
    (Ev (CGet KConfigMap (GetNShardsConfigMapNamespacedName hdb)) (inr cm) :: tr) (Done n) ->
  n = GetMinNShards hdb0 /\ n <> 0%Z.
Proof.
  intros Hok Hcm (r & tr' & Heq & H).
  pose proof (f_equal head Heq) as He. apply Some_inj in He. apply Ev_get_inj in He as [_ <-].
  cbn [prog_bind] in H. rewrite Hcm in H. cbn [range_map entries default prog_bind range_order] in H.
  destruct H as (code & tr2 & _ & _ & [= ->]). rewrite map_to_list_singleton.
  assert (permute code [(NShardsConfigKey, Itoa (GetMinNShards hdb0))] =
    [(NShardsConfigKey, Itoa (GetMinNShards hdb0))]) as ->.
  { apply Permutation_singleton_r. by rewrite permute_Permutation. }
  assert (int32_ok (GetMinNShards hdb0) /\ GetMinNShards hdb0 <> 0%Z) as [Hmin Hnz].
  { unfold GetMinNShards. destruct (Z.eqb_spec (cfg_NShards (spec_Config (hdb_Spec hdb0))) 0); [|done].
    unfold int32_ok. lia. }
  unfold int32_ok in Hmin.
  cbn [foldl read_nshard snd]. unfold read_nshard. cbn [snd]. rewrite Atoi_Itoa by (unfold int64_ok; lia).
  by rewrite wrap32_id.
Qed.

Lemma shard_paths_NoDup hdb l : NoDup l -> NoDup (vm_MountPath <$> (addHStore.shard_mount hdb <$> l)).
Proof.
  intros H. rewrite <-list_fmap_compose. apply NoDup_fmap_2; [|done].
  intros i j Hij. unfold compose in Hij. simpl in Hij. injection Hij. apply Itoa_inj.
Qed.

(** The parts of the stateful set. *)
Lemma getSts_parts hdb n sts :
  addHStore.getSts hdb n = Done sts ->
  exists containers, addHStore.getContainer hdb n = Done containers /\
    pod_Containers (tpl_Spec (sts_Template (sts_Spec sts))) = containers /\
    pod_Volumes (tpl_Spec (sts_Template (sts_Spec sts))) =
      append (comp_Volumes (spec_HStore (hdb_Spec hdb))) (addHStore.getVolumes hdb) /\
    sts_VolumeClaimTemplates (sts_Spec sts) = addHStore.getPVC hdb.
Proof.
  unfold addHStore.getSts, addHStore.getPodTemplate. intros H.
  apply go_bind_done in H as (tpl & Htpl & H). apply go_bind_done in Htpl as (cs & Hcs & <-%Done_inj).
  apply go_bind_done in H as (s & Hs & <-%Done_inj). exists cs. split; [done|].
  match type of Hs with GetStatefulSet _ ?c ?t ?ct = _ =>
    destruct (GetStatefulSet_done hdb c t ct) as (s' & Hs' & _ & Hspec) end.
  rewrite Hs in Hs'. apply Done_inj in Hs' as <-. cbn [sts_Spec sts_set_Spec]. by rewrite Hspec.
Qed.

Lemma getContainer_mounts hdb n containers :
  addHStore.getContainer hdb n = Done containers ->
  exists c rest, containers = Some (c :: rest) /\
    elems (ctr_VolumeMounts c) = elems (ctr_VolumeMounts (comp_Container (spec_HStore (hdb_Spec hdb)))) ++
      [GetLogDeviceConfigVolumeMount hdb; GetNShardsConfigVolumeMount hdb] ++
      (addHStore.shard_mount hdb <$> seqZ 0 n).
Proof.
  unfold addHStore.getContainer. intros H.
  apply go_bind_done in H as (args & _ & H). apply go_bind_done in H as (ports & _ & <-%Done_inj).
  eexists _, _. split; [done|].
  cbn [ctr_VolumeMounts ctr_set_VolumeMounts ctr_set_Ports ctr_set_Args ctr_with].
  rewrite foldl_append, elems_append, <-app_assoc. autorewrite with hop_rw.
  cbn [ctr_VolumeMounts ctr_set_Env ctr_with]. by autorewrite with hop_rw.
Qed.

(** C18: the storage container mounts, after the mounts of the user, the two config maps and then
    exactly the shards 0 to n-1, each at a path of its own; and the volume of the shards exists in
    every pod: it is the claim of the stateful set when the user gives a template, and an emptyDir
    otherwise. *)
Theorem shard_mounts hdb n sts :
  addHStore.getSts hdb n = Done sts ->
  exists c rest shards,
    elems (pod_Containers (tpl_Spec (sts_Template (sts_Spec sts)))) = c :: rest /\
    elems (ctr_VolumeMounts c) = elems (ctr_VolumeMounts (comp_Container (spec_HStore (hdb_Spec hdb)))) ++
      [GetLogDeviceConfigVolumeMount hdb; GetNShardsConfigVolumeMount hdb] ++ shards /\
    shards = addHStore.shard_mount hdb <$> seqZ 0 n /\
    NoDup (vm_MountPath <$> shards) /\
    Forall (fun m =>
      match comp_VolumeClaimTemplate (spec_HStore (hdb_Spec hdb)) with
      | Some _ => vm_Name m ∈ (fun pvc => meta_Name (pvc_Meta pvc)) <$> elems (sts_VolumeClaimTemplates (sts_Spec sts))
      | None => {| vol_Name := vm_Name m; vol_Source := EmptyDir |} ∈
                  elems (pod_Volumes (tpl_Spec (sts_Template (sts_Spec sts))))
      end) shards.
Proof.
  intros H. apply getSts_parts in H as (cs & Hcs & -> & -> & ->).
  apply getContainer_mounts in Hcs as (c & rest & -> & Hm).
  eexists c, rest, _. split; [done|]. split; [exact Hm|]. split; [done|]. split.
  - apply shard_paths_NoDup, NoDup_seqZ.
  - apply Forall_fmap, Forall_forall. intros i _. unfold compose. simpl vm_Name.
    unfold addHStore.getPVC, addHStore.getVolumes.
    destruct (comp_VolumeClaimTemplate (spec_HStore (hdb_Spec hdb))) as [t|]; simpl elems.
    + apply list_elem_of_here.
    + rewrite elem_of_app. right. do 2 apply list_elem_of_further. apply list_elem_of_here.
Qed.

(** C16: the stateful sets that hold data are updated only in the fields that may change: the name,
    the selector, the governing service, the pod management policy and the claims are those that
    the server has, so the claims of a cluster are never replaced. *)
Theorem sts_updates_keep_identity hdb tr o :
  (exec (addHMeta.reconcile hdb) tr o ->
   forall desired, addHMeta.getSts hdb = Done desired -> identity_kept tr desired) /\
  (exec (addHStore.reconcile hdb) tr o ->
   exists n, forall desired, addHStore.getSts hdb n = Done desired -> identity_kept tr desired).
Proof.
  split; intros He.
  - intros desired Hd. unfold addHMeta.reconcile in He. rewrite Hd in He.
    destruct (spec_ExternalHMeta (hdb_Spec hdb)).
    + destruct He as [-> _]. intros s r Hin. by apply elem_of_nil in Hin.
    + pose proof (copy_sts_fields_kept hdb "UpdatingHMeta" desired) as Hw. rewrite wp_exec in Hw. by eapply Hw.
  - unfold addHStore.reconcile in He.
    apply exec_bind in He as [(n & tr1 & tr2 & -> & H1 & H2)|(msg & H1 & ->)].
    + exists n. intros desired Hd. rewrite Hd in H2.
      pose proof (copy_sts_fields_kept hdb "UpdatingHStore" desired) as Hw. rewrite wp_exec in Hw.
      specialize (Hw _ _ H2). intros s r Hin. apply elem_of_app in Hin as [Hin|Hin].
      * exfalso. assert (reads_only (addHStore.getNShardFromExistingConfigMap hdb)) as Hro.
        { intros r0. destruct r0; cbn; by repeat constructor. }
        unfold reads_only in Hro. rewrite wp_exec in Hro. by specialize (quiet_elem _ _ (Hro _ _ H1) Hin).
      * destruct (Hw s r Hin) as (existing & Hget & ?). exists existing. rewrite elem_of_app. auto.
    + exfalso. clear -H1. destruct H1 as ([err|cm] & tr' & -> & H); [by destruct H|].
      destruct H as (code & tr2 & _ & H). by destruct H.
Qed.

End Facts.
