(* ===== verification/HServer.v ===== *)
(** * HServer: [src/internal/controller/add_hserver.go]

    The stateful set of the servers. Unless the user gives a command, the container runs
    [bash -c] on one line: the server with the flags the user does not give, then the user's
    arguments. The parsed flags decide which defaults are added and which ports are opened. *)
From S2P Require Import Prelude GoStrings KubeTypes ApiTypes Effects FlagSet Naming Constants Merge Requeue Workload LogDevice Services.

Definition hserver_readiness : Probe := {|
  probe_Handler := TCPSocket (FromString "port");
  probe_InitialDelaySeconds := 10; probe_TimeoutSeconds := 0; probe_PeriodSeconds := 5;
  probe_FailureThreshold := 15; probe_rest := None |}.

(** The first argument starts a shell of the user. *)
Definition starts_shell (args : list string) : bool :=
  match args with
  | [] => false
  | arg :: _ => HasPrefix arg "bash" || HasPrefix arg "sh" || HasPrefix arg "-c"
  end.

(** [if _, ok := flags.Flags()[name]; !ok { args = append(args, name, value) }] *)
Definition add_flag (flags : gomap string) (name value : string) (args : list string) : list string :=
  match mget flags name with
  | Some _ => args
  | None => args ++ [name; value]
  end.

(** [hstreamdb-sample-hserver-0.hstreamdb-sample-internal-hserver.default:6571] *)
Definition seed_node (hdb : HStreamDB) (hServerSvc : Service) (internalPortStr : string) (i : Z) : string :=
  GetResName ComponentTypeHServer hdb +:+ "-" +:+ Itoa i +:+ "." +:+ meta_Name (svc_Meta hServerSvc) +:+
  "." +:+ meta_Namespace (svc_Meta hServerSvc) +:+ ":" +:+ internalPortStr.

Module addHServer.
Section addHServer.
Context {KL : KubeLib}.

(** The ports and the last argument of one of the two port flags. *)
Definition port_flag (flags : gomap string) (userArgs : list string) (name : string)
    (default : ContainerPort) (args : list string) (ports : slice ContainerPort)
    : go (list string * slice ContainerPort) :=
  match mget flags name with
  | None =>
      let args := args ++ [name; Itoa (port_ContainerPort default)] in
      ports ← coverPortsFromArgs args (elems (extendPorts ports [default]));
      Done (args, Some ports)
  | Some _ =>
      ports ← coverPortsFromArgs userArgs (elems (extendPorts ports [default]));
      Done (args, Some ports)
  end.

(** [make([]string, replicas)], filled. *)
Definition seed_nodes (hdb : HStreamDB) (internalPortStr : string) : go (list string) :=
  let replicas := comp_Replicas (spec_HServer (hdb_Spec hdb)) in
  hServerSvc ← GetHeadlessService hdb ComponentTypeHServer [];
  if (replicas <? 0)%Z then Panic "runtime error: makeslice: len out of range"
  else Done (seed_node hdb hServerSvc internalPortStr <$> seqZ 0 replicas).

Definition defaultCommandArgsAndPorts (hdb : HStreamDB)
    : go (slice string * slice string * slice ContainerPort) :=
  let container := comp_Container (spec_HServer (hdb_Spec hdb)) in
  let userArgs := elems (ctr_Args container) in
  if bool_decide (elems (ctr_Command container) <> []) || starts_shell userArgs then
    ports ← coverPortsFromArgs userArgs
              (elems (extendPorts (ctr_Ports container) [DefaultHServerPort; DefaultHServerInternalPort]));
    Done (ctr_Command container, ctr_Args container, Some ports)
  else
    '(f, _) ← match userArgs with
              | [] => Done (FlagSet_zero, None)
              | _ => Parse FlagSet_zero userArgs
              end;
    let flags := Flags f in
    let args := ["/usr/local/bin/hstream-server"] in
    let args := add_flag flags "--config-path" "/etc/hstream/config.yaml" args in
    let args := add_flag flags "--bind-address" "0.0.0.0" args in
    hServerSvc ← GetHeadlessService hdb ComponentTypeHServer [];
    let args := add_flag flags "--advertised-address"
      ("$(POD_NAME)." +:+ meta_Name (svc_Meta hServerSvc) +:+ "." +:+ hdb_Namespace hdb) args in
    let args := add_flag flags "--store-config" "/etc/logdevice/config.json" args in
    let args := add_flag flags "--store-admin-host"
      (meta_Name (svc_Meta (GetService hdb ComponentTypeAdminServer [])) +:+ "." +:+ hdb_Namespace hdb) args in
    args ← match mget flags "--metastore-uri" with
           | Some _ => Done args
           | None =>
               '(hmeta, _) ← getHMetaAddr hdb;
               Done (args ++ ["--metastore-uri"; "rq://" +:+ hmeta])
           end;
    let args := add_flag flags "--server-id" "$(hostname | grep -o '[0-9]*$')" args in
    '(args, ports) ← port_flag flags userArgs "--port" DefaultHServerPort args (ctr_Ports container);
    let internalPortStr := Itoa (port_ContainerPort DefaultHServerInternalPort) in
    '(args, ports) ← port_flag flags userArgs "--internal-port" DefaultHServerInternalPort args ports;
    args ← match mget flags "--seed-nodes" with
           | Some _ => Done args
           | None =>
               seedNodes ← seed_nodes hdb internalPortStr;
               Done (args ++ ["--seed-nodes"; Join seedNodes ","])
           end;
    let args := args ++ userArgs in
    Done (Some ["bash"; "-c"], Some [Join args " "], ports).

Definition getServerContainer (hdb : HStreamDB) : go Container :=
  let hServer := spec_HServer (hdb_Spec hdb) in
  let container := structAssign
    (ctr_new (comp_Image hServer) (comp_ImagePullPolicy hServer) None (Some hserver_readiness))
    (comp_Container hServer) in
  let container := ctr_set_Env (extendEnvs (ctr_Env container) DefaultHServerEnv) container in
  let container := default_name (ct_string ComponentTypeHServer) container in
  '(command, args, ports) ← defaultCommandArgsAndPorts hdb;
  let container := ctr_set_Ports ports (ctr_set_Args args (ctr_set_Command command container)) in
  Done (ctr_set_VolumeMounts
    (append (ctr_VolumeMounts container) [GetLogDeviceConfigVolumeMount hdb]) container).

Definition getPodTemplate (hdb : HStreamDB) : go PodTemplateSpec :=
  let hserver := spec_HServer (hdb_Spec hdb) in
  container ← getServerContainer hdb;
  Done {| tpl_Meta := meta_set_Name (GetResName ComponentTypeHServer hdb)
                        (GetObjectMetadata hdb None ComponentTypeHServer);
          tpl_Spec := pod_spec None hserver (with_sidecars container hserver)
                        (append (comp_Volumes hserver) [GetLogDeviceConfigVolume hdb]) |}.

Definition getSts (hdb : HStreamDB) : go StatefulSet :=
  podTemplate ← getPodTemplate hdb;
  GetStatefulSet hdb (spec_HServer (hdb_Spec hdb)) podTemplate ComponentTypeHServer.

Definition reconcile (hdb : HStreamDB) : prog (option requeue * HStreamDB) :=
  let* sts := lift (getSts hdb) in
  ensureWorkload (k := KStatefulSet) hdb "UpdatingHServer" sts (copy_sts_spec sts).

End addHServer.
End addHServer.

(** ** Lemmas *)

Lemma addHServer_steady {KL : KubeLib} : steady addHServer.reconcile.
Proof. intros hdb. unfold addHServer.reconcile. auto with hop. Qed.

Section Facts.
Context {KL : KubeLib}.
Import addHServer.

(** The numbers of the command line on a list of ports. *)
Definition cover (m : gmap string string) (ports : list ContainerPort) : list ContainerPort :=
  coverPort (Some m) <$> ports.

Lemma cover_names m ports : port_Name <$> cover m ports = port_Name <$> ports.
Proof. unfold cover. rewrite <-list_fmap_compose. apply list_fmap_ext. intros i p _. apply coverPort_name. Qed.

Lemma coverPort_idem m p : coverPort m (coverPort m p) = coverPort m p.
Proof.
  unfold coverPort at 1. rewrite coverPort_name. unfold coverPort.
  by destruct (mget m ("--" +:+ port_Name p)).
Qed.

Lemma cover_idem m ports : cover m (cover m ports) = cover m ports.
Proof. unfold cover. rewrite <-list_fmap_compose. apply list_fmap_ext. intros i p _. apply coverPort_idem. Qed.

Lemma cover_app m l1 l2 : cover m (l1 ++ l2) = cover m l1 ++ cover m l2.
Proof. apply fmap_app. Qed.

Lemma cover_id m ports : Forall (fun p => m !! ("--" +:+ port_Name p) = None) ports -> cover m ports = ports.
Proof.
  induction 1 as [|p ports Hp _ IH]; [done|]. unfold cover in *. rewrite fmap_cons, IH. f_equal.
  unfold coverPort. by rewrite mget_Some, Hp.
Qed.

Lemma has_port_names name l l' : port_Name <$> l = port_Name <$> l' -> has_port name l = has_port name l'.
Proof.
  intros H. destruct (has_port name l') eqn:E.
  - apply has_port_true. rewrite H. by apply has_port_true.
  - apply has_port_false. rewrite H. by apply has_port_false.
Qed.

(** Adding one named default port, before or after the others are covered. *)
Lemma mergePorts_one l d :
  mergePorts l [d] = if has_port (port_Name d) l then l else l ++ [unset_name d].
Proof. done. Qed.

Lemma cover_merge m l d : cover m (mergePorts (cover m l) [d]) = cover m (mergePorts l [d]).
Proof.
  rewrite !mergePorts_one, (has_port_names _ _ l (cover_names m l)).
  destruct (has_port _ _); [apply cover_idem|]. by rewrite !cover_app, cover_idem.
Qed.

Lemma merge_cover m l d :
  port_Name d <> "" -> m !! ("--" +:+ port_Name d) = None ->
  mergePorts (cover m l) [d] = cover m (mergePorts l [d]).
Proof.
  intros Hn Hm. rewrite !mergePorts_one, (has_port_names _ _ l (cover_names m l)), unset_name_id by done.
  destruct (has_port _ _); [done|]. rewrite cover_app. f_equal. by rewrite cover_id by (by constructor).
Qed.

Lemma coverPortsFromArgs_parsed args m ports :
  parsed_flags args = Done (Some m) -> coverPortsFromArgs args ports = Done (cover m ports).
Proof. intros H. unfold coverPortsFromArgs. by rewrite H. Qed.

(** The command line the operator composes starts with the server itself. *)
Definition server_line (args : list string) : Prop := exists rest, args = "/usr/local/bin/hstream-server" :: rest.

Lemma server_line_app args l : server_line args -> server_line (args ++ l).
Proof. intros [rest ->]. by eexists. Qed.

Lemma server_line_add flags name value args : server_line args -> server_line (add_flag flags name value args).
Proof. unfold add_flag. destruct (mget flags name); [done|apply server_line_app]. Qed.

(** A flag map that reads like the parsed one. *)
Definition reads (flags : gomap string) (m : gmap string string) : Prop := forall name, mget flags name = m !! name.

(** The ports after one port flag: covered by the user's arguments when the user gives it. *)
Definition flag_ports (m : gmap string string) (name : string) (d : ContainerPort) (ports : list ContainerPort)
    : list ContainerPort :=
  match m !! name with
  | Some _ => cover m (mergePorts ports [d])
  | None => mergePorts ports [d]
  end.

Lemma port_flag_done flags m userArgs name d args ports :
  reads flags m -> parsed_flags userArgs = Done (Some m) -> server_line args ->
  port_flag flags userArgs name d args ports =
    Done (add_flag flags name (Itoa (port_ContainerPort d)) args, Some (flag_ports m name d (elems ports))).
Proof.
  intros Hf Hm Hargs. unfold port_flag, add_flag, flag_ports. rewrite Hf, extendPorts_mergePorts.
  destruct (m !! name) as [v|].
  - by rewrite (coverPortsFromArgs_parsed _ _ _ Hm).
  - destruct (server_line_app _ [name; Itoa (port_ContainerPort d)] Hargs) as [rest Hrest].
    by rewrite Hrest, coverPortsFromArgs_command.
Qed.

(** The arguments parse to the same map however they are looked at. *)
Lemma user_flags userArgs m :
  parsed_flags userArgs = Done (Some m) ->
  exists f err, match userArgs with [] => Done (FlagSet_zero, None) | _ => Parse FlagSet_zero userArgs end = Done (f, err) /\
    reads (Flags f) m.
Proof.
  intros Hm. destruct userArgs as [|arg userArgs].
  - exists FlagSet_zero, None. split; [done|]. intros name. rewrite parsed_flags_scan in Hm.
    cbn in Hm. injection Hm as <-. done.
  - unfold parsed_flags in Hm. apply go_bind_done in Hm as ([f err] & -> & [= Hf]). exists f, err.
    split; [done|]. intros name. by rewrite Hf.
Qed.

(** The ten flags of the server with their defaults, in the order they are added. *)
Definition hserver_defaults (hdb : HStreamDB) (hmeta : string) : list (string * string) :=
  let host ct := GetInternalResName ct hdb +:+ "." +:+ hdb_Namespace hdb in
  [("--config-path", "/etc/hstream/config.yaml");
   ("--bind-address", "0.0.0.0");
   ("--advertised-address", "$(POD_NAME)." +:+ host ComponentTypeHServer);
   ("--store-config", "/etc/logdevice/config.json");
   ("--store-admin-host", GetResName ComponentTypeAdminServer hdb +:+ "." +:+ hdb_Namespace hdb);
   ("--metastore-uri", "rq://" +:+ hmeta);
   ("--server-id", "$(hostname | grep -o '[0-9]*$')");
   ("--port", "6570");
   ("--internal-port", "6571");
   ("--seed-nodes", Join ((fun i => GetResName ComponentTypeHServer hdb +:+ "-" +:+ Itoa i +:+ "." +:+
       host ComponentTypeHServer +:+ ":6571") <$> seqZ 0 (comp_Replicas (spec_HServer (hdb_Spec hdb)))) ",")].

(** The defaults of the flags that the user does not give, as words. *)
Fixpoint missing (m : gmap string string) (defaults : list (string * string)) : list string :=
  match defaults with
  | [] => []
  | (name, value) :: defaults' =>
      match m !! name with Some _ => [] | None => [name; value] end ++ missing m defaults'
  end.

Lemma add_flag_missing flags m name value args :
  reads flags m -> add_flag flags name value args = args ++ missing m [(name, value)].
Proof. intros Hf. unfold add_flag. rewrite Hf. cbn. destruct (m !! name); [by rewrite app_nil_r|done]. Qed.

Lemma missing_app m l1 l2 : missing m (l1 ++ l2) = missing m l1 ++ missing m l2.
Proof. induction l1 as [|[n v] l1 IH]; [done|]. cbn. by rewrite IH, app_assoc. Qed.

Lemma missing_cons m p l : missing m (p :: l) = missing m [p] ++ missing m l.
Proof. apply (missing_app m [p]). Qed.

Definition user_container (hdb : HStreamDB) : Container := comp_Container (spec_HServer (hdb_Spec hdb)).
Definition user_args (hdb : HStreamDB) : list string := elems (ctr_Args (user_container hdb)).

(** The user runs something else than the server line of the operator. *)
Definition own_command (hdb : HStreamDB) : bool :=
  bool_decide (elems (ctr_Command (user_container hdb)) <> []) || starts_shell (user_args hdb).

Lemma seed_nodes_done hdb port :
  (0 <= comp_Replicas (spec_HServer (hdb_Spec hdb)))%Z ->
  seed_nodes hdb port = Done ((fun i => GetResName ComponentTypeHServer hdb +:+ "-" +:+ Itoa i +:+ "." +:+
    (GetInternalResName ComponentTypeHServer hdb +:+ "." +:+ hdb_Namespace hdb) +:+ ":" +:+ port) <$>
    seqZ 0 (comp_Replicas (spec_HServer (hdb_Spec hdb)))).
Proof.
  intros Hr. unfold seed_nodes. rewrite GetHeadlessService_done. cbn [mbind go_bind].
  destruct (Z.ltb_spec (comp_Replicas (spec_HServer (hdb_Spec hdb))) 0); [lia|]. f_equal.
  apply list_fmap_ext. intros i x _. unfold seed_node. cbn. by rewrite !string_app_assoc.
Qed.

(** The default branch, in closed form. *)
Lemma default_branch hdb m addr err :
  own_command hdb = false -> parsed_flags (user_args hdb) = Done (Some m) ->
  getHMetaAddr hdb = Done (addr, err) -> (0 <= comp_Replicas (spec_HServer (hdb_Spec hdb)))%Z ->
  defaultCommandArgsAndPorts hdb =
    Done (Some ["bash"; "-c"],
          Some [Join ("/usr/local/bin/hstream-server" :: missing m (hserver_defaults hdb addr) ++ user_args hdb) " "],
          Some (flag_ports m "--internal-port" DefaultHServerInternalPort
                  (flag_ports m "--port" DefaultHServerPort (elems (ctr_Ports (user_container hdb)))))).
Proof.
  intros Hown Hm Haddr Hr. unfold defaultCommandArgsAndPorts.
  change (bool_decide _ || starts_shell _) with (own_command hdb). rewrite Hown.
  destruct (user_flags _ _ Hm) as (f & e & Hf & Hreads). unfold user_args, user_container in *. rewrite Hf.
  cbn [mbind go_bind]. rewrite GetHeadlessService_done. cbn [mbind go_bind].
  set (flags := Flags f) in *.
  assert (forall args, match mget flags "--metastore-uri" with
    | Some _ => Done args
    | None => getHMetaAddr hdb ≫= (fun pat => let '(hmeta, _) := pat in Done (args ++ ["--metastore-uri"; "rq://" +:+ hmeta]))
    end = Done (add_flag flags "--metastore-uri" ("rq://" +:+ addr) args)) as Hmeta.
  { intros args. unfold add_flag. rewrite Haddr. by destruct (mget flags "--metastore-uri"). }
  rewrite Hmeta. cbn [mbind go_bind].
  rewrite (port_flag_done flags m) by (done || (repeat apply server_line_add; by eexists)).
  cbn [mbind go_bind].
  rewrite (port_flag_done flags m) by (done || (repeat apply server_line_add; by eexists)).
  cbn [mbind go_bind elems default].
  rewrite (seed_nodes_done hdb _ Hr). cbn [mbind go_bind].
  match goal with |- (match mget flags "--seed-nodes" with Some _ => Done ?args | None => Done (?args ++ [_; ?v]) end ≫= _) = _ =>
    replace (match mget flags "--seed-nodes" with Some _ => Done args | None => Done (args ++ ["--seed-nodes"; v]) end)
      with (Done (add_flag flags "--seed-nodes" v args)) by (unfold add_flag; by destruct (mget flags "--seed-nodes"))
  end.
  cbn [mbind go_bind]. rewrite !(add_flag_missing flags m) by done.
  do 2 f_equal. unfold hserver_defaults. rewrite !(missing_cons m _ (_ :: _)), <-!app_assoc. reflexivity.
Qed.

Lemma missing_filter m defaults :
  missing m defaults =
    concat ((fun flag => [fst flag; snd flag]) <$> filter (fun flag => m !! fst flag = None) defaults).
Proof.
  induction defaults as [|[name value] defaults IH]; [done|]. cbn [missing]. rewrite IH.
  destruct (m !! name) eqn:E.
  - rewrite filter_cons_False; [done|]. cbn. congruence.
  - by rewrite filter_cons_True.
Qed.

Lemma mergePorts_two l d1 d2 : mergePorts l [d1; d2] = mergePorts (mergePorts l [d1]) [d2].
Proof. done. Qed.

(** The two port flags in turn cover the same ports as all at once. *)
Lemma flag_ports_cover m l :
  m !! "--port" <> None \/ m !! "--internal-port" <> None ->
  flag_ports m "--internal-port" DefaultHServerInternalPort (flag_ports m "--port" DefaultHServerPort l) =
    cover m (mergePorts l [DefaultHServerPort; DefaultHServerInternalPort]).
Proof.
  intros H. rewrite mergePorts_two. unfold flag_ports.
  destruct (m !! "--port") eqn:Ep, (m !! "--internal-port") eqn:Ei; [apply cover_merge| |done|naive_solver].
  by apply merge_cover.
Qed.

Lemma flag_ports_plain m l :
  m !! "--port" = None -> m !! "--internal-port" = None ->
  flag_ports m "--internal-port" DefaultHServerInternalPort (flag_ports m "--port" DefaultHServerPort l) =
    mergePorts l [DefaultHServerPort; DefaultHServerInternalPort].
Proof. intros Hp Hi. unfold flag_ports. by rewrite Hp, Hi, mergePorts_two. Qed.

(** No port that the user declares has its number on the command line. *)
Definition uncovered (m : gmap string string) (ports : list ContainerPort) : Prop :=
  Forall (fun p => m !! ("--" +:+ port_Name p) = None) ports.

Lemma mergePorts_uncovered m l :
  uncovered m l -> m !! "--port" = None -> m !! "--internal-port" = None ->
  cover m (mergePorts l [DefaultHServerPort; DefaultHServerInternalPort]) =
    mergePorts l [DefaultHServerPort; DefaultHServerInternalPort].
Proof.
  intros Hl Hp Hi. apply cover_id. rewrite mergePorts_two, !mergePorts_one.
  repeat (destruct (has_port _ _) || apply Forall_app_2 || apply Forall_cons_2 || apply Forall_nil_2); done.
Qed.

(** The ports of the default branch, whatever the other flags are. *)
Lemma default_ports hdb m command args ports :
  own_command hdb = false -> parsed_flags (user_args hdb) = Done (Some m) ->
  defaultCommandArgsAndPorts hdb = Done (command, args, ports) ->
  elems ports = flag_ports m "--internal-port" DefaultHServerInternalPort
    (flag_ports m "--port" DefaultHServerPort (elems (ctr_Ports (user_container hdb)))).
Proof.
  intros Hown Hm. unfold defaultCommandArgsAndPorts.
  change (bool_decide _ || starts_shell _) with (own_command hdb). rewrite Hown.
  destruct (user_flags _ _ Hm) as (f & e & Hf & Hreads). unfold user_args, user_container in *. rewrite Hf.
  cbn [mbind go_bind]. rewrite GetHeadlessService_done. cbn [mbind go_bind]. set (flags := Flags f) in *.
  intros H. apply go_bind_done in H as (words & Hwords & H).
  assert (server_line words) as Hline.
  { destruct (mget flags "--metastore-uri"); [apply Done_inj in Hwords as <-|].
    - repeat apply server_line_add. by eexists.
    - apply go_bind_done in Hwords as ([addr err] & _ & <-%Done_inj).
      apply server_line_app. repeat apply server_line_add. by eexists. }
  rewrite (port_flag_done flags m) in H by (done || by apply server_line_add). cbn [mbind go_bind] in H.
  rewrite (port_flag_done flags m) in H by (done || (repeat apply server_line_add; done)). cbn [mbind go_bind] in H.
  apply go_bind_done in H as (words' & _ & H). by injection H as _ _ <-.
Qed.

(** The ports of the server container, whoever wrote its command. *)
Lemma server_ports hdb m command args ports :
  parsed_flags (user_args hdb) = Done (Some m) ->
  defaultCommandArgsAndPorts hdb = Done (command, args, ports) ->
  elems ports =
    if own_command hdb then cover m (mergePorts (elems (ctr_Ports (user_container hdb)))
                                       [DefaultHServerPort; DefaultHServerInternalPort])
    else flag_ports m "--internal-port" DefaultHServerInternalPort
           (flag_ports m "--port" DefaultHServerPort (elems (ctr_Ports (user_container hdb)))).
Proof.
  intros Hm H. destruct (own_command hdb) eqn:Hown.
  - unfold defaultCommandArgsAndPorts in H. change (bool_decide _ || starts_shell _) with (own_command hdb) in H.
    rewrite Hown in H. fold (user_container hdb) in H. fold (user_args hdb) in H.
    rewrite extendPorts_mergePorts, (coverPortsFromArgs_parsed _ _ _ Hm) in H. cbn [mbind go_bind] in H.
    by injection H as _ _ <-.
  - by eapply default_ports.
Qed.

(** A container that was built came from arguments that the parser could read. *)
Lemma server_args_parsed hdb r :
  defaultCommandArgsAndPorts hdb = Done r -> exists m, parsed_flags (user_args hdb) = Done (Some m).
Proof.
  assert (forall msg, parsed_flags (user_args hdb) = Panic msg -> exists msg', defaultCommandArgsAndPorts hdb = Panic msg') as Hp.
  { intros msg Hm. unfold defaultCommandArgsAndPorts. fold (user_container hdb). fold (user_args hdb).
    destruct (bool_decide _ || starts_shell _).
    - unfold coverPortsFromArgs. rewrite Hm. by eexists.
    - destruct (user_args hdb) as [|arg rest]; [done|]. unfold parsed_flags in Hm.
      apply go_bind_panic in Hm as [->|([? ?] & _ & ?)]; [by eexists|done]. }
  intros Hd. rewrite parsed_flags_scan in *. destruct (scan (user_args hdb) "" ∅) as [m []]; eauto.
  destruct (Hp _ eq_refl) as [msg Hmsg]. congruence.
Qed.

Lemma flag_ports_names m name d l : port_Name <$> flag_ports m name d l = port_Name <$> mergePorts l [d].
Proof. unfold flag_ports. destruct (m !! name); [apply cover_names|done]. Qed.

Lemma mergePorts_has l d : port_Name d <> "" -> port_Name d ∈ port_Name <$> mergePorts l [d].
Proof. intros Hd. apply mergePorts_names; [by repeat constructor|]. right. apply list_elem_of_here. Qed.

Lemma mergePorts_mono l d n : n ∈ port_Name <$> l -> n ∈ port_Name <$> mergePorts l [d].
Proof.
  intros Hn. destruct (mergePorts_prefix l [d]) as [k ->]. rewrite fmap_app, elem_of_app. by left.
Qed.

(** The server container always has a port named ["port"]. *)
Lemma server_has_port hdb command args ports :
  defaultCommandArgsAndPorts hdb = Done (command, args, ports) -> "port" ∈ port_Name <$> elems ports.
Proof.
  intros Hd. destruct (server_args_parsed _ _ Hd) as [m Hm]. rewrite (server_ports _ _ _ _ _ Hm Hd).
  destruct (own_command hdb).
  - rewrite cover_names, mergePorts_two. apply mergePorts_mono. by apply (mergePorts_has _ DefaultHServerPort).
  - rewrite flag_ports_names. apply mergePorts_mono. rewrite flag_ports_names.
    by apply (mergePorts_has _ DefaultHServerPort).
Qed.

(** The server container is the first of its pod, under the name that the others look for. *)
Lemma getSts_container hdb sts :
  getSts hdb = Done sts ->
  exists c rest, elems (pod_Containers (tpl_Spec (sts_Template (sts_Spec sts)))) = c :: rest /\
    ctr_Name c = (if decide (ctr_Name (user_container hdb) = "") then ct_string ComponentTypeHServer
                  else ctr_Name (user_container hdb)) /\
    "port" ∈ port_Name <$> elems (ctr_Ports c).
Proof.
  unfold getSts, getPodTemplate, getServerContainer. intros H.
  apply go_bind_done in H as (tpl & Htpl & H). apply go_bind_done in Htpl as (c & Hc & <-%Done_inj).
  apply go_bind_done in Hc as ([[command args] ports] & Hd & <-%Done_inj).
  match type of H with GetStatefulSet _ ?c ?t ?ct = _ =>
    destruct (GetStatefulSet_done hdb c t ct) as (s' & Hs' & _ & Hspec) end.
  rewrite H in Hs'. apply Done_inj in Hs' as <-. rewrite Hspec. eexists _, _. split; [done|]. split.
  - cbn [ctr_Name ctr_set_VolumeMounts ctr_set_Ports ctr_set_Args ctr_set_Command ctr_with].
    autorewrite with hop_rw. cbn [ctr_Name ctr_set_Env ctr_with]. by autorewrite with hop_rw.
  - by eapply server_has_port.
Qed.

(** *** Properties *)

(** C19: unless the user runs a command or a shell of their own, the server is started with one
    line: the server, every one of the ten flags that the user does not give, each followed by its
    default, and then the words of the user, unchanged and last. Among the defaults is one seed
    node per replica. The line is always built when HMeta's arguments can be read, the number of
    replicas is not negative and the parser does not panic. *)
Theorem HServer_command_line hdb m addr err :
  own_command hdb = false -> parsed_flags (user_args hdb) = Done (Some m) ->
  getHMetaAddr hdb = Done (addr, err) -> (0 <= comp_Replicas (spec_HServer (hdb_Spec hdb)))%Z ->
  exists defaults ports,
    defaultCommandArgsAndPorts hdb =
      Done (Some ["bash"; "-c"],
            Some [Join ("/usr/local/bin/hstream-server" :: defaults ++ user_args hdb) " "], Some ports) /\
    defaults = concat ((fun flag => [fst flag; snd flag]) <$>
      filter (fun flag => m !! fst flag = None) (hserver_defaults hdb addr)).
Proof.
  intros Hown Hm Haddr Hr. rewrite (default_branch _ _ _ _ Hown Hm Haddr Hr).
  eexists _, _. split; [done|]. apply missing_filter.
Qed.

(** C20: the service of HServer opens the ports the server container has, with the same names and
    numbers, when the user runs a command of their own or gives one of the two port flags, or when
    no other declared port has its number on the command line. *)
Theorem HServer_ports_agree hdb m command args ports sports :
  parsed_flags (user_args hdb) = Done (Some m) ->
  own_command hdb = true \/ m !! "--port" <> None \/ m !! "--internal-port" <> None \/
    uncovered m (elems (ctr_Ports (user_container hdb))) ->
  defaultCommandArgsAndPorts hdb = Done (command, args, ports) ->
  getPorts (user_container hdb) [DefaultHServerPort; DefaultHServerInternalPort] = Done sports ->
  sports = convertToServicePort (elems ports).
Proof.
  intros Hm Hcond Hd Hs. rewrite (server_ports _ _ _ _ _ Hm Hd).
  unfold getPorts in Hs. fold (user_args hdb) in Hs. rewrite extendPorts_mergePorts in Hs.
  rewrite (coverPortsFromArgs_parsed _ _ _ Hm) in Hs. cbn [mbind go_bind] in Hs. apply Done_inj in Hs as <-.
  f_equal. destruct (own_command hdb); [done|].
  destruct (m !! "--port") eqn:Hp; [rewrite flag_ports_cover; [done|left; congruence]|].
  destruct (m !! "--internal-port") eqn:Hi; [rewrite flag_ports_cover; [done|right; congruence]|].
  rewrite flag_ports_plain by done. rewrite mergePorts_uncovered; [done| |done|done].
  destruct Hcond as [?|[?|[?|?]]]; done.
Qed.

End Facts.
