(* ===== verification/Gateway.v ===== *)
(** * The gateway: [src/internal/controller/add_geteway.go] *)
From S2P Require Import Prelude GoStrings KubeTypes ApiTypes Effects Conditions FlagSet Naming Constants Merge Requeue Workload HServer.

Module addGateway.
Section addGateway.
Context {KL : KubeLib}.

(** The first port named ["port"] of a container with the given name, if any. *)
Definition port_of (containers : list Container) (name : string) : option Z :=
  foldr (fun c found =>
    if decide (ctr_Name c = name) then
      match filter (fun p => port_Name p = "port") (elems (ctr_Ports c)) with
      | p :: _ => Some (port_ContainerPort p)
      | [] => found
      end
    else found) None containers.

(** The error of the read is dropped: the stateful set then has no containers. *)
Definition findHServerPort (hdb : HStreamDB) : prog Z :=
  let name := ctr_Name (comp_Container (spec_HServer (hdb_Spec hdb))) in
  let hServerContainerName := if decide (name = "") then ct_string ComponentTypeHServer else name in
  let* hServer := kube_Get KStatefulSet (ObjectKey (GetObjectMetadata hdb None ComponentTypeHServer)) in
  let containers :=
    match hServer with
    | inl _ => []
    | inr sts => elems (pod_Containers (tpl_Spec (sts_Template (sts_Spec sts))))
    end in
  Ret (default (port_ContainerPort DefaultHServerPort) (port_of containers hServerContainerName)).

Definition tls_env : list EnvVar :=
  [mkEnv "ENABLE_TLS" "true"; mkEnv "TLS_KEY_PATH" "/certs/tls.key";
   mkEnv "TLS_CERT_PATH" "/certs/tls.crt"; mkEnv "TLS_CA_PATH" "/certs/ca.crt"].

Definition cert_mount (file : string) : VolumeMount := {|
  vm_Name := "cert"; vm_ReadOnly := false; vm_MountPath := "/certs/" +:+ file; vm_SubPath := file;
  vm_rest := None |}.

Definition getContainer (hdb : HStreamDB) (gateway : Gateway) : prog (slice Container) :=
  let comp := gw_Component gateway in
  let container := structAssign (ctr_new (comp_Image comp) (comp_ImagePullPolicy comp) None None)
    (comp_Container comp) in
  let container := default_name (ct_string ComponentTypeGateway) container in
  let container := ctr_set_Ports
    (extendPorts (ctr_Ports container) [mkPort "port" (gw_Port gateway) ""]) container in
  let* port := findHServerPort hdb in
  let* hServerSvc := lift (GetHeadlessService hdb ComponentTypeHServer []) in
  let address := "hstream://" +:+ meta_Name (svc_Meta hServerSvc) +:+ "." +:+ hdb_Namespace hdb +:+
    ":" +:+ Itoa port in
  let container := ctr_set_Env (extendEnvs (ctr_Env container)
    [mkEnv "ENDPOINT_HOST" (gw_Endpoint gateway); mkEnv "HSTREAM_SERVICE_URL" address]) container in
  let container :=
    match gw_SecretRef gateway with
    | None => ctr_set_Env (extendEnvs (ctr_Env container) [mkEnv "ENABLE_TLS" "false"]) container
    | Some _ =>
        let container := ctr_set_Env (extendEnvs (ctr_Env container) tls_env) container in
        ctr_set_VolumeMounts (append (ctr_VolumeMounts container)
          [cert_mount "tls.key"; cert_mount "tls.crt"; cert_mount "ca.crt"]) container
    end in
  Ret (with_sidecars container comp).

Definition getPodTemplate (hdb : HStreamDB) (gateway : Gateway) : prog PodTemplateSpec :=
  let comp := gw_Component gateway in
  let* containers := getContainer hdb gateway in
  let volumes :=
    match gw_SecretRef gateway with
    | Some name => append (comp_Volumes comp) [{| vol_Name := "cert"; vol_Source := SecretSource name |}]
    | None => comp_Volumes comp
    end in
  Ret {| tpl_Meta := meta_set_Name (GetResName ComponentTypeGateway hdb)
                       (GetObjectMetadata hdb None ComponentTypeGateway);
         tpl_Spec := pod_spec None comp containers volumes |}.

Definition getDeployment (hdb : HStreamDB) (gateway : Gateway) : prog Deployment :=
  let* podTemplate := getPodTemplate hdb gateway in
  lift (GetDeployment hdb (gw_Component gateway) podTemplate ComponentTypeGateway).

Definition reconcile (hdb : HStreamDB) : prog (option requeue * HStreamDB) :=
  match spec_Gateway (hdb_Spec hdb) with
  | None => Ret (None, hdb)
  | Some gateway =>
      if negb (IsConditionTrue hdb HServerReady) then
        Ret (Some (requeue_message "wait for HServer nodes to be ready" (10 * Second)), hdb)
      else
        let* deploy := getDeployment hdb gateway in
        ensureWorkload (k := KDeployment) hdb "UpdatingGateway" deploy (copy_dep_spec deploy)
  end.

End addGateway.
End addGateway.

(** ** Lemmas *)

Lemma addGateway_steady {KL : KubeLib} : steady addGateway.reconcile.
Proof.
  intros hdb. unfold addGateway.reconcile. destruct (spec_Gateway (hdb_Spec hdb)); [|done].
  destruct (negb _); [split; [by apply requeue_message_stopping|done]|]. auto with hop.
Qed.

Section Facts.
Context {KL : KubeLib}.
Import addGateway.

Lemma port_of_head c rest name :
  ctr_Name c = name -> "port" ∈ port_Name <$> elems (ctr_Ports c) ->
  exists p, port_of (c :: rest) name = Some (port_ContainerPort p) /\ p ∈ elems (ctr_Ports c) /\ port_Name p = "port".
Proof.
  intros Hn (p & Hp & Hin)%list_elem_of_fmap. cbn [port_of foldr]. rewrite decide_True by done.
  destruct (filter (fun p => port_Name p = "port") (elems (ctr_Ports c))) as [|q l] eqn:E.
  - exfalso. assert (p ∈ filter (fun p => port_Name p = "port") (elems (ctr_Ports c))) as Hf
      by (by apply list_elem_of_filter). rewrite E in Hf. by apply elem_of_nil in Hf.
  - exists q. split; [done|]. assert (q ∈ q :: l) as Hq by apply list_elem_of_here. rewrite <-E in Hq.
    apply list_elem_of_filter in Hq as [? ?]. done.
Qed.

(** The port found in a stateful set that runs the template the operator wants. *)
Lemma findHServerPort_current hdb sts desired tr n :
  addHServer.getSts hdb = Done desired ->
  sts_Template (sts_Spec sts) = sts_Template (sts_Spec desired) ->
  exec (findHServerPort hdb)
    (Ev (CGet KStatefulSet (ObjectKey (GetObjectMetadata hdb None ComponentTypeHServer))) (inr sts) :: tr) (Done n) ->
  exists c rest p, elems (pod_Containers (tpl_Spec (sts_Template (sts_Spec desired)))) = c :: rest /\
    p ∈ elems (ctr_Ports c) /\ port_Name p = "port" /\ n = port_ContainerPort p /\ tr = [].
Proof.
  intros Hd Ht (r & tr' & Heq & H). pose proof (f_equal head Heq) as He. apply Some_inj in He.
  apply Ev_get_inj in He as [_ <-]. apply (f_equal tail) in Heq. cbn [tail] in Heq. subst tr'.
  cbn [prog_bind] in H. rewrite Ht in H.
  destruct (getSts_container _ _ Hd) as (c & rest & Hc & Hname & Hport). rewrite Hc in H.
  destruct H as [-> H]. apply Done_inj in H as ->.
  destruct (port_of_head c rest _ Hname Hport) as (p & Hp & Hin & Hpn).
  exists c, rest, p. split_and!; try done. unfold user_container in Hp. by rewrite Hp.
Qed.

Lemma extendEnvs_keeps envs ext e : e ∈ elems envs -> e ∈ elems (extendEnvs envs ext).
Proof. rewrite extendEnvs_filter, elems_append, elem_of_app. by left. Qed.

Lemma extendEnvs_adds envs ext e :
  e ∈ ext -> env_Name e ∉ env_Name <$> elems envs -> e ∈ elems (extendEnvs envs ext).
Proof.
  intros He Hn. rewrite extendEnvs_filter, elems_append, elem_of_app. right. by apply list_elem_of_filter.
Qed.

(** The URL of the servers that the gateway is given. *)
Definition service_url (hdb : HStreamDB) (port : Z) : string :=
  "hstream://" +:+ GetInternalResName ComponentTypeHServer hdb +:+ "." +:+ hdb_Namespace hdb +:+ ":" +:+ Itoa port.

(** *** Properties *)

(** C38: when the stored stateful set of HServer runs the pods the operator wants, the gateway is
    given the internal service of HServer and the number of the port named ["port"] of the server
    container, unless the user sets the URL in the environment. *)
Theorem gateway_service_url hdb gateway sts desired tr cs :
  addHServer.getSts hdb = Done desired ->
  sts_Template (sts_Spec sts) = sts_Template (sts_Spec desired) ->
  "HSTREAM_SERVICE_URL" ∉ env_Name <$> elems (ctr_Env (comp_Container (gw_Component gateway))) ->
  exec (getContainer hdb gateway)
    (Ev (CGet KStatefulSet (ObjectKey (GetObjectMetadata hdb None ComponentTypeHServer))) (inr sts) :: tr) (Done cs) ->
  exists g rest c rest' p,
    cs = Some (g :: rest) /\
    elems (pod_Containers (tpl_Spec (sts_Template (sts_Spec desired)))) = c :: rest' /\
    p ∈ elems (ctr_Ports c) /\ port_Name p = "port" /\
    mkEnv "HSTREAM_SERVICE_URL" (service_url hdb (port_ContainerPort p)) ∈ elems (ctr_Env g).
Proof.
  intros Hd Ht Hurl H. unfold getContainer in H.
  apply exec_bind in H as [(n & tr1 & tr2 & Heq & H1 & H2)|(msg & _ & [=])].
  destruct tr1 as [|ev tr1]; [by destruct H1 as (? & ? & ? & _)|]. injection Heq as <- ->.
  destruct (findHServerPort_current _ _ _ _ _ Hd Ht H1) as (c & rest' & p & Hc & Hp & Hpn & -> & _).
  rewrite GetHeadlessService_done in H2. cbn [lift prog_bind] in H2. destruct H2 as [_ H2].
  apply Done_inj in H2 as ->. eexists _, _, c, rest', p. split; [done|]. do 3 (split; [done|]).
  destruct (gw_SecretRef gateway);
    cbn [ctr_Env ctr_set_VolumeMounts ctr_set_Env ctr_set_Ports ctr_with]; apply extendEnvs_keeps.
  all: apply extendEnvs_adds; [by right; left|].
  all: autorewrite with hop_rw; exact Hurl.
Qed.

End Facts.
