(* ===== verification/Console.v ===== *)
(** * The console: [src/internal/controller/add_console.go] *)
From S2P Require Import Prelude GoStrings KubeTypes ApiTypes Effects FlagSet Naming Constants Merge Requeue Workload.

Definition consoleEnvPortName : string := "SERVER_PORT".
Definition consoleEnvHServerAddr : string := "HSTREAM_PRIVATE_ADDRESS".
Definition consoleContainerPortName : string := "server-port".
Definition consoleDefaultPort : Z := 5177.
Definition consoleEnvVars : list EnvVar := [mkEnv consoleEnvPortName (Itoa consoleDefaultPort)].
Definition consolePort : ContainerPort := mkPort consoleContainerPortName consoleDefaultPort ProtocolTCP.

Module addConsole.
Section addConsole.
Context {KL : KubeLib}.

(** [strconv.Atoi], then the conversion to [int32]. *)
Definition generateContainerPort (p : string) : go_error + ContainerPort :=
  match Atoi p with
  | None => inl (new_error "parse console server port failed")
  | Some port => inr (port_set_ContainerPort (wrap32 port) consolePort)
  end.

Definition hasDefinedPortInEnv (container : Container) : option string :=
  env_Value <$> head (filter (fun e => env_Name e = consoleEnvPortName) (elems (ctr_Env container))).

(** The last port named ["port"] wins; 0 when there is none. *)
Definition last_port (ports : list ContainerPort) : Z :=
  foldl (fun port p => if decide (port_Name p = "port") then port_ContainerPort p else port) 0%Z ports.

(** The port of the console: the start-up parameter, else the environment, else the default,
    which is also put into the environment. *)
Definition set_port (args : gomap string) (container : Container) : go_error + Container :=
  let with_port p :=
    match generateContainerPort p with
    | inl err => inl err
    | inr defPort => inr (ctr_set_Ports (extendPorts (ctr_Ports container) [defPort]) container)
    end in
  match mget args "-Dserver.port" with
  | Some port => with_port port
  | None =>
      match hasDefinedPortInEnv container with
      | Some port => with_port port
      | None =>
          let container := ctr_set_Ports (extendPorts (ctr_Ports container) [consolePort]) container in
          inr (ctr_set_Env (extendEnvs (ctr_Env container) consoleEnvVars) container)
      end
  end.

Definition getContainer (hdb : HStreamDB) (console : Component) : go (go_error + slice Container) :=
  let container := structAssign (ctr_new (comp_Image console) (comp_ImagePullPolicy console) None None)
    (comp_Container console) in
  let container := default_name (ct_string ComponentTypeConsole) container in
  '(flags, _) ← Parse FlagSet_zero (elems (ctr_Args container));
  let args := Flags flags in
  match set_port args container with
  | inl err => Done (inl err)
  | inr container =>
      container ←
        match mget args "-Dplain.hstream.privateAddress" with
        | Some _ => Done container
        | None =>
            let hServerContainer := comp_Container (spec_HServer (hdb_Spec hdb)) in
            ports ← coverPortsFromArgs (elems (ctr_Args hServerContainer))
                      (elems (extendPorts (ctr_Ports hServerContainer) [DefaultHServerPort]));
            let port := last_port ports in
            hServerSvc ← GetHeadlessService hdb ComponentTypeHServer [];
            let address := meta_Name (svc_Meta hServerSvc) +:+ ":" +:+ Itoa port in
            Done (ctr_set_Env (extendEnvs (ctr_Env container) [mkEnv consoleEnvHServerAddr address]) container)
        end;
      Done (inr (with_sidecars container console))
  end.

Definition getPodTemplate (hdb : HStreamDB) (console : Component) : go (go_error + PodTemplateSpec) :=
  r ← getContainer hdb console;
  Done match r with
       | inl err => inl err
       | inr containers =>
           inr {| tpl_Meta := meta_set_Name (GetResName ComponentTypeConsole hdb)
                                (GetObjectMetadata hdb None ComponentTypeConsole);
                  tpl_Spec := pod_spec None console containers (comp_Volumes console) |}
       end.

Definition getDeployment (hdb : HStreamDB) (console : Component) : go (go_error + Deployment) :=
  r ← getPodTemplate hdb console;
  match r with
  | inl err => Done (inl err)
  | inr podTemplate =>
      deploy ← GetDeployment hdb console podTemplate ComponentTypeConsole;
      Done (inr deploy)
  end.

Definition reconcile (hdb : HStreamDB) : prog (option requeue * HStreamDB) :=
  match spec_Console (hdb_Spec hdb) with
  | None => Ret (None, hdb)
  | Some console =>
      let* deploy := lift (getDeployment hdb console) in
      match deploy with
      | inl err => Ret (Some (requeue_error err), hdb)
      | inr deploy =>
          ensureWorkload (k := KDeployment) hdb "UpdatingConsole" deploy (copy_dep_spec deploy)
      end
  end.

End addConsole.
End addConsole.

(** ** Lemmas *)

Lemma addConsole_steady {KL : KubeLib} : steady addConsole.reconcile.
Proof.
  intros hdb. unfold addConsole.reconcile. destruct (spec_Console (hdb_Spec hdb)); [|done].
  apply steady_bind. intros [err|deploy]; [split; [apply requeue_error_stopping|done]|]. auto with hop.
Qed.

(** The start-up parameter, or else the environment. *)
Definition chosen_port (args : gomap string) (container : Container) : option string :=
  match mget args "-Dserver.port" with
  | Some port => Some port
  | None => addConsole.hasDefinedPortInEnv container
  end.

Lemma hasDefinedPortInEnv_None c :
  addConsole.hasDefinedPortInEnv c = None -> consoleEnvPortName ∉ env_Name <$> elems (ctr_Env c).
Proof.
  unfold addConsole.hasDefinedPortInEnv. intros H (e & He & Hin)%list_elem_of_fmap.
  destruct (filter _ (elems (ctr_Env c))) as [|e' l] eqn:E; [|done].
  assert (e ∈ filter (fun e => env_Name e = consoleEnvPortName) (elems (ctr_Env c))) as Hf
    by (by apply list_elem_of_filter). rewrite E in Hf. by apply elem_of_nil in Hf.
Qed.

Lemma hasDefinedPortInEnv_default c :
  consoleEnvPortName ∉ env_Name <$> elems (ctr_Env c) ->
  addConsole.hasDefinedPortInEnv (ctr_set_Env (extendEnvs (ctr_Env c) consoleEnvVars) c) =
    Some (Itoa consoleDefaultPort).
Proof.
  intros Hn. unfold addConsole.hasDefinedPortInEnv. cbn [ctr_Env ctr_set_Env ctr_with].
  rewrite extendEnvs_filter, elems_append, (filter_all _ consoleEnvVars).
  - rewrite filter_app, (filter_none _ (elems (ctr_Env c))); [done|].
    intros e He Hen. apply Hn. rewrite <-Hen. by apply list_elem_of_fmap_2.
  - intros e ->%list_elem_of_singleton. exact Hn.
Qed.

(** *** Properties *)

(** C39: the port of the console is the start-up parameter, else the environment variable, else
    5177, which is then put into the environment. It is exact when it fits 32 bits and wraps
    otherwise; a port that the user declares under the same name is kept. The only failure is a
    chosen word that is no number, for example the empty value of a variable that takes its value
    from elsewhere. *)
Theorem console_port args container :
  match addConsole.set_port args container with
  | inl _ => exists p, chosen_port args container = Some p /\ Atoi p = None
  | inr c => exists n,
      match chosen_port args container with
      | Some p => exists v, Atoi p = Some v /\ n = wrap32 v /\ (int32_ok v -> n = v) /\ ctr_Env c = ctr_Env container
      | None => n = consoleDefaultPort /\ addConsole.hasDefinedPortInEnv c = Some (Itoa n)
      end /\
      int32_ok n /\
      elems (ctr_Ports c) = mergePorts (elems (ctr_Ports container)) [port_set_ContainerPort n consolePort] /\
      (consoleContainerPortName ∉ port_Name <$> elems (ctr_Ports container) ->
       port_set_ContainerPort n consolePort ∈ elems (ctr_Ports c))
  end.
Proof.
  assert (forall n, consoleContainerPortName ∉ port_Name <$> elems (ctr_Ports container) ->
    port_set_ContainerPort n consolePort ∈
      mergePorts (elems (ctr_Ports container)) [port_set_ContainerPort n consolePort]) as Hin.
  { intros n Hn. unfold mergePorts. cbn [foldl]. rewrite (proj2 (has_port_false _ _)) by exact Hn.
    rewrite unset_name_id by done. apply elem_of_app. right. apply list_elem_of_here. }
  assert (forall p, match match addConsole.generateContainerPort p with
      | inl err => inl err
      | inr defPort => inr (ctr_set_Ports (extendPorts (ctr_Ports container) [defPort]) container)
      end with
    | inl _ => Atoi p = None
    | inr c => exists v, Atoi p = Some v /\ ctr_Env c = ctr_Env container /\
        elems (ctr_Ports c) = mergePorts (elems (ctr_Ports container)) [port_set_ContainerPort (wrap32 v) consolePort]
    end) as Hport.
  { intros p. unfold addConsole.generateContainerPort. destruct (Atoi p) as [v|]; [|done].
    exists v. split; [done|]. split; [done|]. apply extendPorts_mergePorts. }
  unfold addConsole.set_port, chosen_port. destruct (mget args "-Dserver.port") as [p|].
  2: destruct (addConsole.hasDefinedPortInEnv container) as [p|] eqn:Henv.
  1,2: specialize (Hport p); destruct (match addConsole.generateContainerPort p with inl _ => _ | inr _ => _ end) as [err|c];
    [by exists p|]; destruct Hport as (v & Hv & He & Hp); exists (wrap32 v); rewrite Hp;
    (split; [exists v; by eauto using wrap32_id|]); (split; [apply wrap32_ok|]); auto.
  exists consoleDefaultPort. split.
  - split; [done|]. apply (hasDefinedPortInEnv_default (ctr_set_Ports _ container)).
    by apply hasDefinedPortInEnv_None.
  - split; [unfold int32_ok, consoleDefaultPort; lia|].
    cbn [ctr_Ports ctr_set_Env ctr_set_Ports ctr_with]. rewrite extendPorts_mergePorts. split; [done|apply Hin].
Qed.
