(* ===== verification/Totality.v ===== *)
(** * The builders do not panic

    The one thing in a spec that makes a builder panic is an argument that is a lone ["-"] (see
    [FlagSet.Parse_panics_on_dash]). Without it, and with a number of HServer replicas that a
    slice can have, every workload and every service is built: also the second
    parse, of the arguments that [extendArgs] has printed, succeeds. *)
From S2P Require Import Prelude GoStrings KubeTypes ApiTypes Effects FlagSet Naming Constants Merge Requeue Workload LogDevice Services HMeta AdminServer HStore HServer Gateway Console.

Definition dashless (args : list string) : Prop := "-" ∉ args.
#[export] Instance dashless_dec args : Decision (dashless args).
Proof. unfold dashless. apply _. Defined.

Definition container_args (comp : Component) : list string := elems (ctr_Args (comp_Container comp)).

(** What a builder needs of the user's input. *)
Record readable_spec (hdb : HStreamDB) : Prop := {
  rs_hmeta : dashless (container_args (spec_HMeta (hdb_Spec hdb)));
  rs_admin : dashless (container_args (spec_AdminServer (hdb_Spec hdb)));
  rs_hstore : dashless (container_args (spec_HStore (hdb_Spec hdb)));
  rs_hserver : dashless (container_args (spec_HServer (hdb_Spec hdb)));
  rs_hserver_replicas : (0 <= comp_Replicas (spec_HServer (hdb_Spec hdb)))%Z;
  rs_console console : spec_Console (hdb_Spec hdb) = Some console -> dashless (container_args console)
}.

(** ** The parser *)

Lemma parsed_flags_total args : dashless args -> exists m, parsed_flags args = Done (Some m).
Proof.
  intros Hd. rewrite parsed_flags_scan. pose proof (scan_panic args "" ∅) as Hp.
  destruct (scan args "" ∅) as [m []]; eauto. by destruct Hd; apply Hp.
Qed.

Lemma Parse_total args : dashless args -> exists f err, Parse FlagSet_zero args = Done (f, err).
Proof.
  intros (m & Hm)%parsed_flags_total. unfold parsed_flags in Hm.
  apply go_bind_done in Hm as ([f err] & -> & _). eauto.
Qed.

(** Printed flags are read back without a panic, whatever their values. *)
Lemma scan_render_total kvs m :
  Forall (fun kv => plain_flag (fst kv)) kvs -> snd (scan (render kvs) "" m) <> ScanPanic.
Proof.
  intros H. revert m. induction H as [|[k v] kvs Hk H IH]; intros m; [done|].
  change (render ((k, v) :: kvs)) with (k :: v :: render kvs). cbn [fst] in Hk.
  destruct (plain_flag_dash k Hk) as (c & s & ->). cbn [scan].
  rewrite Ascii_eqb_refl, decide_False by auto. rewrite Hk. destruct v as [|d v]; cbn [scan]; [apply IH|].
  destruct (Ascii.eqb d dash); [by rewrite decide_True|]. rewrite decide_False by done.
  destruct (Ascii.eqb d eqsign); [done|]. apply IH.
Qed.

Lemma sorted_args_total M : plain_keys M -> exists m, parsed_flags (sorted_args M) = Done (Some m).
Proof.
  intros HM. rewrite parsed_flags_scan.
  pose proof (scan_render_total (Visit {| fs_actual := Some M; fs_args := []; fs_lastName := "" |}) ∅) as Hp.
  unfold sorted_args. destruct (scan (render _) "" ∅) as [m []]; eauto. destruct Hp; [|done].
  rewrite Visit_Permutation. apply Forall_forall. intros [k v] Hin%elem_of_map_to_list. exact (HM k v Hin).
Qed.

Lemma parsed_plain args m : parsed_flags args = Done (Some m) -> plain_keys m.
Proof.
  rewrite parsed_flags_scan. pose proof (scan_plain_keys args "" ∅ ltac:(apply map_Forall_empty) ltac:(by left)) as Hk.
  destruct (scan args "" ∅) as [m' []]; intros [= <-]; exact Hk.
Qed.

(** Merging arguments never panics, and its result can be parsed again. *)
Lemma extendArgs_total args ext :
  dashless args -> dashless ext ->
  exists r m, extendArgs args ext = Done r /\ parsed_flags (elems (args_or_nil r)) = Done (Some m).
Proof.
  intros Ha He. destruct (Parse_total args Ha) as (f & [e|] & Hf).
  - exists (inl e), ∅. unfold extendArgs. rewrite Hf. done.
  - destruct (parsed_flags_total ext He) as (me & Hme).
    destruct (extendArgs_done args ext f me Hf Hme) as (M & HM & Hk).
    assert (plain_keys M) as HMp.
    { intros k v Hkv. rewrite Hk in Hkv. unfold merged_flag in Hkv.
      assert (exists mu, Flags f = Some mu /\ plain_keys mu) as (mu & Hmu & Hmup).
      { assert (parsed_flags args = Done (Flags f)) as Hp by (unfold parsed_flags; by rewrite Hf).
        destruct (parsed_flags_total args Ha) as (mu & Hmu). exists mu. rewrite Hp in Hmu.
        split; [by apply Done_inj in Hmu|]. eapply parsed_plain. by rewrite Hp. }
      rewrite Hmu in Hkv. cbn [entries default] in Hkv. pose proof (parsed_plain _ _ Hme) as Hmep.
      destruct (me !! k) as [v'|] eqn:E; [|by eapply Hmup]. by eapply Hmep. }
    destruct (sorted_args_total M HMp) as (m & Hm). by exists (inr (sorted_args M)), m.
Qed.

Section Builders.
Context {KL : KubeLib}.

Lemma coverPortsFromArgs_total args m ports :
  parsed_flags args = Done (Some m) -> exists ports', coverPortsFromArgs args ports = Done ports'.
Proof. intros H. rewrite (coverPortsFromArgs_parsed _ _ _ H). eauto. Qed.

Lemma parseHMetaPort_total args m :
  parsed_flags args = Done (Some m) -> exists r, parseHMetaPort args = Done r.
Proof.
  unfold parsed_flags, parseHMetaPort. intros ([f err] & -> & _)%go_bind_done. cbn [mbind go_bind].
  repeat case_match; eauto.
Qed.

Lemma getPorts_total comp ports :
  dashless (container_args comp) -> exists sp, getPorts (comp_Container comp) ports = Done sp.
Proof.
  intros (m & Hm)%parsed_flags_total. unfold getPorts.
  destruct (coverPortsFromArgs_total _ m (elems (extendPorts (ctr_Ports (comp_Container comp)) ports)) Hm) as (p & Hp).
  unfold container_args in Hp. rewrite Hp. by eexists.
Qed.

Lemma GetStatefulSet_total hdb comp tpl ct : exists d, GetStatefulSet hdb comp tpl ct = Done d.
Proof. destruct (GetStatefulSet_done hdb comp tpl ct) as (d & ? & _). eauto. Qed.

Lemma GetDeployment_total hdb comp tpl ct : exists d, GetDeployment hdb comp tpl ct = Done d.
Proof. destruct (GetDeployment_done hdb comp tpl ct) as (d & ? & _). eauto. Qed.

(** The arguments of the containers the builders start from are those of the user. *)
Lemma structAssign_new_args image pull l r c : ctr_Args (structAssign (ctr_new image pull l r) c) = ctr_Args c.
Proof. apply assign_opt_None. Qed.
Lemma default_name_args n c : ctr_Args (default_name n c) = ctr_Args c.
Proof. unfold default_name. by case_decide. Qed.
Lemma default_command_args cmd c : ctr_Args (default_command cmd c) = ctr_Args c.
Proof. unfold default_command. by destruct (elems _). Qed.

(** Decides the dashes of the default arguments. *)
Ltac solve_dashless :=
  let H := fresh in
  intros H; repeat (apply elem_of_cons in H as [H|H]; [first [discriminate H | by destruct (Itoa_not_dash _ (eq_sym H))]|]);
  by apply elem_of_nil in H.

(** The workloads: what their containers need. *)
Lemma addAdminServer_total hdb :
  dashless (container_args (spec_AdminServer (hdb_Spec hdb))) -> exists d, addAdminServer.getDeployment hdb = Done d.
Proof.
  intros Hd. unfold addAdminServer.getDeployment, addAdminServer.getPodTemplate, addAdminServer.getContainer.
  rewrite default_command_args, default_name_args, structAssign_new_args.
  destruct (extendArgs_total _ adminServerArgs Hd ltac:(solve_dashless)) as (r & m & Hr & Hm).
  unfold container_args in Hr. rewrite Hr. cbn [mbind go_bind]. cbn [ctr_Args ctr_set_Args ctr_with].
  match goal with |- context [coverPortsFromArgs _ ?p] => destruct (coverPortsFromArgs_total _ m p Hm) as (ports & ->) end.
  cbn [mbind go_bind]. apply GetDeployment_total.
Qed.

Lemma addHStore_total hdb n :
  dashless (container_args (spec_HStore (hdb_Spec hdb))) -> exists d, addHStore.getSts hdb n = Done d.
Proof.
  intros Hd. unfold addHStore.getSts, addHStore.getPodTemplate, addHStore.getContainer.
  rewrite default_command_args, default_name_args. cbn [ctr_Args ctr_set_Env ctr_with]. rewrite structAssign_new_args.
  destruct (extendArgs_total _ (DefaultHStoreArgs ++ ["--num-shards"; Itoa n]) Hd ltac:(solve_dashless)) as (r & m & Hr & Hm).
  unfold container_args in Hr. rewrite Hr. cbn [mbind go_bind]. cbn [ctr_Args ctr_set_Args ctr_with].
  match goal with |- context [coverPortsFromArgs _ ?p] => destruct (coverPortsFromArgs_total _ m p Hm) as (ports & ->) end.
  cbn [mbind go_bind].
  match goal with |- context [GetStatefulSet ?h ?c ?t ?ct] => destruct (GetStatefulSet_total h c t ct) as (d & ->) end.
  by eexists.
Qed.

Lemma addHMeta_total hdb :
  dashless (container_args (spec_HMeta (hdb_Spec hdb))) -> exists d, addHMeta.getSts hdb = Done d.
Proof.
  intros Hd. unfold addHMeta.getSts, addHMeta.getPodTemplate, addHMeta.getContainer.
  rewrite GetHeadlessService_done. cbn [mbind go_bind]. rewrite default_name_args, structAssign_new_args.
  match goal with |- context [extendArgs _ ?ext] => destruct (extendArgs_total _ ext Hd ltac:(solve_dashless)) as (r & m & Hr & Hm) end.
  unfold container_args in Hr. rewrite Hr. cbn [mbind go_bind]. cbn [ctr_Args ctr_set_Args ctr_with].
  destruct (parseHMetaPort_total _ m Hm) as ([port err] & ->). cbn [mbind go_bind].
  match goal with |- context [GetStatefulSet ?h ?c ?t ?ct] => destruct (GetStatefulSet_total h c t ct) as (d & ->) end.
  by eexists.
Qed.

Lemma getHMetaAddr_total hdb :
  dashless (container_args (spec_HMeta (hdb_Spec hdb))) -> exists addr err, getHMetaAddr hdb = Done (addr, err).
Proof.
  intros (m & Hm)%parsed_flags_total. unfold getHMetaAddr. destruct (spec_ExternalHMeta (hdb_Spec hdb)); [by eauto|].
  rewrite GetHeadlessService_done. cbn [mbind go_bind].
  destruct (parseHMetaPort_total _ m Hm) as ([port [err|]] & Hp); unfold container_args in Hp; rewrite Hp; cbn [mbind go_bind]; eauto.
Qed.

Lemma addHServer_total hdb :
  dashless (container_args (spec_HServer (hdb_Spec hdb))) -> dashless (container_args (spec_HMeta (hdb_Spec hdb))) ->
  (0 <= comp_Replicas (spec_HServer (hdb_Spec hdb)))%Z -> exists d, addHServer.getSts hdb = Done d.
Proof.
  intros Hd Hmeta Hr. unfold addHServer.getSts, addHServer.getPodTemplate, addHServer.getServerContainer.
  assert (exists r, addHServer.defaultCommandArgsAndPorts hdb = Done r) as ([[command args] ports] & ->).
  { destruct (parsed_flags_total _ Hd) as (m & Hm). destruct (own_command hdb) eqn:Hown.
    - unfold addHServer.defaultCommandArgsAndPorts. change (bool_decide _ || starts_shell _) with (own_command hdb).
      rewrite Hown. match goal with |- context [coverPortsFromArgs _ ?p] => destruct (coverPortsFromArgs_total _ m p Hm) as (ports & Hp) end.
      unfold container_args in Hp. rewrite Hp. by eexists.
    - destruct (getHMetaAddr_total hdb Hmeta) as (addr & err & Ha). eexists. by eapply default_branch. }
  cbn [mbind go_bind]. apply GetStatefulSet_total.
Qed.

Lemma set_port_refuses args container err :
  addConsole.set_port args container = inl err -> exists p, chosen_port args container = Some p /\ Atoi p = None.
Proof.
  unfold addConsole.set_port, chosen_port, addConsole.generateContainerPort. intros H.
  repeat case_match; simplify_eq; eauto.
Qed.

(** The console: built, or refused because the port it is given is no number. *)
Lemma addConsole_total hdb console :
  dashless (container_args console) -> dashless (container_args (spec_HServer (hdb_Spec hdb))) ->
  (exists d, addConsole.getDeployment hdb console = Done (inr d)) \/
  (exists err flags p, addConsole.getDeployment hdb console = Done (inl err) /\
     parsed_flags (container_args console) = Done flags /\
     chosen_port flags (comp_Container console) = Some p /\ Atoi p = None).
Proof.
  intros (f & err & Hf)%Parse_total Hs. unfold addConsole.getDeployment, addConsole.getPodTemplate, addConsole.getContainer.
  rewrite default_name_args, structAssign_new_args. unfold container_args in Hf. rewrite Hf. cbn [mbind go_bind].
  set (c := default_name _ _). destruct (addConsole.set_port (Flags f) c) as [e|c'] eqn:Hp.
  - right. destruct (set_port_refuses _ _ _ Hp) as (p & Hp1 & Hp2). exists e, (Flags f), p. split_and!; try done.
    + unfold parsed_flags, container_args. by rewrite Hf.
    + rewrite <-Hp1. unfold chosen_port, addConsole.hasDefinedPortInEnv, c. by autorewrite with hop_rw.
  - left. destruct (parsed_flags_total _ Hs) as (m & Hm). unfold container_args in Hm.
    destruct (mget (Flags f) "-Dplain.hstream.privateAddress"); cbn [mbind go_bind]; [by eexists|].
    rewrite (coverPortsFromArgs_parsed _ _ _ Hm). cbn [mbind go_bind]. rewrite GetHeadlessService_done.
    cbn [mbind go_bind]. by eexists.
Qed.

(** The gateway asks for the stateful set of HServer: it is built whatever the answer. *)
Lemma addGateway_total hdb gateway tr o :
  exec (addGateway.getDeployment hdb gateway) tr o -> exists d, o = Done d.
Proof.
  intros H. cut (wp (addGateway.getDeployment hdb gateway) (fun _ o => exists d, o = Done d)).
  { rewrite wp_exec. intros Hw. by eapply Hw. }
  clear H. unfold addGateway.getDeployment, addGateway.getPodTemplate, addGateway.getContainer.
  intros answer. cbn [prog_bind]. rewrite GetHeadlessService_done. cbn [lift prog_bind].
  match goal with |- context [GetDeployment ?h ?c ?t ?ct] => destruct (GetDeployment_total h c t ct) as (d & ->) end.
  by exists d.
Qed.

(** The services: each is built and handed to [createOrUpdate]. *)
Lemma services_total hdb :
  readable_spec hdb ->
  (exists s, addAdminServerService hdb = createOrUpdate hdb s) /\
  (exists s, addHStoreService hdb = createOrUpdate hdb s) /\
  (exists s, addHServerService hdb = createOrUpdate hdb s).
Proof.
  intros [_ H2 H3 H4 _ _]. unfold addAdminServerService, addHStoreService, addHServerService. split_and!.
  - match goal with |- context [getPorts _ ?p] => destruct (getPorts_total _ p H2) as (ports & ->) end. by eexists.
  - match goal with |- context [getPorts _ ?p] => destruct (getPorts_total _ p H3) as (ports & ->) end.
    cbn [lift prog_bind]. rewrite GetHeadlessService_done. by eexists.
  - match goal with |- context [getPorts _ ?p] => destruct (getPorts_total _ p H4) as (ports & ->) end.
    cbn [lift prog_bind]. rewrite GetHeadlessService_done. by eexists.
Qed.

Lemma HMetaService_total hdb :
  dashless (container_args (spec_HMeta (hdb_Spec hdb))) -> spec_ExternalHMeta (hdb_Spec hdb) = None ->
  (exists f s, Parse FlagSet_zero (container_args (spec_HMeta (hdb_Spec hdb))) = Done (f, None) /\
     addHMetaService hdb = createOrUpdate hdb s) \/
  (exists f err, Parse FlagSet_zero (container_args (spec_HMeta (hdb_Spec hdb))) = Done (f, Some err) /\
     addHMetaService hdb = Ret (Some (wrap_error "parse HMeta args failed. " (new_error err)))).
Proof.
  intros Hd Hext. destruct (Parse_total _ Hd) as (f & err & Hf). unfold addHMetaService. rewrite Hext.
  assert (Hf' := Hf). unfold container_args in Hf'. rewrite Hf'. destruct err as [err|]; cbn [lift prog_bind].
  - right. by exists f, err.
  - left. destruct (parsed_flags_total _ Hd) as (m & Hm). destruct (parseHMetaPort_total _ m Hm) as ([port e] & Hp).
    unfold container_args in Hp. rewrite Hp. cbn [lift prog_bind]. rewrite GetHeadlessService_done. by eexists f, _.
Qed.

(** *** Properties *)

(** C13: building never panics: for a spec without a lone ["-"] among the arguments and with a
    number of HServer replicas that is not negative, the workload of every component is built,
    whatever else the user gives: unknown or repeated flags, values that look like flags, arguments
    that do not parse, any ports, volumes and sidecars, for HStore any number of shards, and for the
    gateway whatever the server answers when it looks for the port of HServer. The console alone
    may be refused, and only because the port chosen for it is no number. And every service is
    built and handed to [createOrUpdate]; the one exception is the service of HMeta, which is
    refused with an error, and exactly when its arguments do not parse. *)
Theorem builders_total hdb :
  readable_spec hdb ->
  let spec := hdb_Spec hdb in
  (exists d, addHMeta.getSts hdb = Done d) /\
  (exists d, addAdminServer.getDeployment hdb = Done d) /\
  (forall n, exists d, addHStore.getSts hdb n = Done d) /\
  (exists d, addHServer.getSts hdb = Done d) /\
  (forall gateway tr o, exec (addGateway.getDeployment hdb gateway) tr o -> exists d, o = Done d) /\
  (forall console, spec_Console spec = Some console ->
    (exists d, addConsole.getDeployment hdb console = Done (inr d)) \/
    (exists err flags p, addConsole.getDeployment hdb console = Done (inl err) /\
       parsed_flags (container_args console) = Done flags /\
       chosen_port flags (comp_Container console) = Some p /\ Atoi p = None)) /\
  (exists s, addAdminServerService hdb = createOrUpdate hdb s) /\
  (exists s, addHStoreService hdb = createOrUpdate hdb s) /\
  (exists s, addHServerService hdb = createOrUpdate hdb s) /\
  (spec_ExternalHMeta spec = None ->
    (exists f s, Parse FlagSet_zero (container_args (spec_HMeta spec)) = Done (f, None) /\
       addHMetaService hdb = createOrUpdate hdb s) \/
    (exists f err, Parse FlagSet_zero (container_args (spec_HMeta spec)) = Done (f, Some err) /\
       addHMetaService hdb = Ret (Some (wrap_error "parse HMeta args failed. " (new_error err))))).
Proof.
  intros Hr spec. destruct (services_total hdb Hr) as (S1 & S2 & S3). destruct Hr as [H1 H2 H3 H4 H5 H6]. split_and!.
  - by apply addHMeta_total.
  - by apply addAdminServer_total.
  - intros n. by apply addHStore_total.
  - by apply addHServer_total.
  - intros gateway tr o. apply addGateway_total.
  - intros console Hc. apply addConsole_total; auto.
  - exact S1.
  - exact S2.
  - exact S3.
  - by apply HMetaService_total.
Qed.

End Builders.
