(* ===== verification/DeepCopy.v ===== *)
(** * Deep copies: [zz_generated.deepcopy.go] of both API packages

    The cache of the manager hands out deep copies, which is why the controllers may work on an
    object as on a value of their own. The generated functions are modelled over a heap of Go
    values, where a pointer, a slice or a map is a location, and a type of the API is a predicate:
    a value, with exactly this part of the heap, represents this tree. What is proved is that each
    function copies what its type declares: the same tree, in fresh memory, with full slices. *)
From S2P Require Import Prelude.

(** ** Values and memory *)

Definition loc := positive.

Inductive gval :=
| Plain (repr : string) (* without references: a string, a number, a boolean, a time *)
| Struct (fields : gmap string gval)
| Pointer (l : option loc)
| Slice (a : option (loc * nat)) (* the array and the length, or nil *)
| Map (l : option loc).

Inductive cell :=
| Box (v : gval)
| Array (vs : list gval) (* all of it, up to the capacity *)
| Dict (m : gmap string string).

Abbreviation heap := (gmap loc cell).

(** Code over the heap; [None] is a panic. *)
Definition mem (A : Type) : Type := heap -> option (A * heap).

Definition mem_ret {A} (a : A) : mem A := fun H => Some (a, H).
Definition mem_bind {A B} (p : mem A) (f : A -> mem B) : mem B := fun H =>
  match p H with Some (a, H') => f a H' | None => None end.
Definition mem_fail {A} : mem A := fun _ => None.

Declare Scope mem_scope.
Delimit Scope mem_scope with mem.
Notation "'let!' x := p 'in' f" := (mem_bind p (fun x => f)) 
  (at level 10, x name, p at level 100, f at level 200, right associativity) : mem_scope.
Open Scope mem_scope.

Definition load (l : loc) : mem cell := fun H => match H !! l with Some c => Some (c, H) | None => None end.
Definition alloc (c : cell) : mem loc := fun H => let l := fresh (dom H) in Some (l, <[l := c]> H).

(** The loop over a slice: [DeepCopyInto] from each element to the same element of the copy. *)
Fixpoint each (c : gval -> mem gval) (vs : list gval) : mem (list gval) :=
  match vs with
  | [] => mem_ret []
  | v :: vs' => let! y := c v in let! ys := each c vs' in mem_ret (y :: ys)
  end.

(** ** What the generated code is made of

    [in.DeepCopyInto(out)] is a function from the value of [*in] to the value it leaves in [*out]. *)
Definition copier : Type := gval -> mem gval.

(** [*out = *in] *)
Definition shallow : copier := mem_ret.

(** [if in != nil { *out = new(T); copy of **in }] *)
Definition copy_pointer (c : copier) : copier := fun v =>
  match v with
  | Pointer None => mem_ret (Pointer None)
  | Pointer (Some l) =>
      let! x := load l in
      match x with
      | Box x => let! y := c x in let! l' := alloc (Box y) in mem_ret (Pointer (Some l'))
      | _ => mem_fail
      end
  | _ => mem_fail
  end.

(** [if in != nil { *out = make([]T, len(in)); copies of the elements }]; [copy(out, in)] is
    the same with shallow copies. *)
Definition copy_slice (c : copier) : copier := fun v =>
  match v with
  | Slice None => mem_ret (Slice None)
  | Slice (Some (l, n)) =>
      let! x := load l in
      match x with
      | Array vs => let! ys := each c (take n vs) in let! l' := alloc (Array ys) in mem_ret (Slice (Some (l', n)))
      | _ => mem_fail
      end
  | _ => mem_fail
  end.

(** [if in != nil { *out = make(map[string]string, len(in)); copies of the entries }] *)
Definition copy_map : copier := fun v =>
  match v with
  | Map None => mem_ret (Map None)
  | Map (Some l) =>
      let! x := load l in
      match x with
      | Dict m => let! l' := alloc (Dict m) in mem_ret (Map (Some l'))
      | _ => mem_fail
      end
  | _ => mem_fail
  end.

(** [*out = *in], then the fields that are copied, one after the other. *)
Fixpoint overwrite (cs : list (string * copier)) (inn out : gmap string gval) : mem (gmap string gval) :=
  match cs with
  | [] => mem_ret out
  | (f, c) :: cs' =>
      match inn !! f with
      | Some v => let! y := c v in overwrite cs' inn (<[f := y]> out)
      | None => mem_fail
      end
  end.

Definition copy_struct (cs : list (string * copier)) : copier := fun v =>
  match v with
  | Struct fields => let! out := overwrite cs fields fields in mem_ret (Struct out)
  | _ => mem_fail
  end.

(** [if in == nil { return nil }; out := new(T); in.DeepCopyInto(out); return out] *)
Definition DeepCopy (c : copier) : copier := copy_pointer c.

(** [if c := in.DeepCopy(); c != nil { return c }; return nil]: a nil interface for a nil pointer. *)
Definition DeepCopyObject (c : copier) (v : gval) : mem (option gval) :=
  let! r := DeepCopy c v in
  mem_ret (match r with Pointer None => None | _ => Some r end).

(** ** Types *)

(** What a value represents. *)
Inductive tree :=
| TPlain (repr : string)
| TNil
| TPointer (t : tree)
| TList (ts : list tree)
| TDict (m : gmap string string)
| TStruct (fields : gmap string tree).

(** [T tight v t h]: of type [T], the value [v] with exactly the memory [h] represents [t]; when
    [tight], no slice of it has spare capacity. *)
Definition gotype : Type := bool -> gval -> tree -> heap -> Prop.

Definition plain : gotype := fun _ v t h => exists s, v = Plain s /\ t = TPlain s /\ h = ∅.

Definition pointer (T : gotype) : gotype := fun tight v t h =>
  (v = Pointer None /\ t = TNil /\ h = ∅) \/
  exists l x t' h', v = Pointer (Some l) /\ t = TPointer t' /\ h = <[l := Box x]> h' /\ h' !! l = None /\ T tight x t' h'.

Inductive elements (T : gotype) (tight : bool) : list gval -> list tree -> heap -> Prop :=
| elements_nil : elements T tight [] [] ∅
| elements_cons v vs t ts h1 h2 :
    T tight v t h1 -> elements T tight vs ts h2 -> h1 ##ₘ h2 -> elements T tight (v :: vs) (t :: ts) (h1 ∪ h2).

Definition slice_of (T : gotype) : gotype := fun tight v t h =>
  (v = Slice None /\ t = TNil /\ h = ∅) \/
  exists l n vs ts h', v = Slice (Some (l, n)) /\ t = TList ts /\ n <= length vs /\ (tight = true -> length vs = n) /\
    h = <[l := Array vs]> h' /\ h' !! l = None /\ elements T tight (take n vs) ts h'.

Definition map_of_strings : gotype := fun _ v t h =>
  (v = Map None /\ t = TNil /\ h = ∅) \/
  exists l m, v = Map (Some l) /\ t = TDict m /\ h = {[l := Dict m]}.

Abbreviation decl := (list (string * gotype)).

Inductive fields_of (tight : bool) : decl -> gmap string gval -> gmap string tree -> heap -> Prop :=
| fields_nil fs ts : fields_of tight [] fs ts ∅
| fields_cons f (T : gotype) d fs ts v t h1 h2 :
    fs !! f = Some v -> ts !! f = Some t -> T tight v t h1 -> fields_of tight d fs ts h2 -> h1 ##ₘ h2 ->
    fields_of tight ((f, T) :: d) fs ts (h1 ∪ h2).

Definition struct (d : decl) : gotype := fun tight v t h =>
  exists fs ts, v = Struct fs /\ t = TStruct ts /\
    dom fs = list_to_set d.*1 /\ dom ts = list_to_set d.*1 /\ fields_of tight d fs ts h.

(** A copier does what it should: from any memory that holds the value, it leaves that memory as it
    is and adds a copy: the same tree, in memory of its own, without spare capacity. *)
Definition copies (T : gotype) (c : copier) : Prop :=
  forall tight v t h H, T tight v t h -> h ⊆ H ->
    exists v' h', c v H = Some (v', h' ∪ H) /\ h' ##ₘ H /\ T true v' t h'.

(** The types of the libraries, with their own deep copies. *)
Class LibTypes := {
  lib : string -> gotype;
  lib_DeepCopyInto : string -> copier;
  lib_DeepCopyInto_ok name : copies (lib name) (lib_DeepCopyInto name)
}.

(** ** Lemmas: every combinator copies the type it is for *)

Lemma bind_some {A B} (p : mem A) (f : A -> mem B) H a H' : p H = Some (a, H') -> mem_bind p f H = f a H'.
Proof. unfold mem_bind. by intros ->. Qed.

Lemma load_some l c H : H !! l = Some c -> load l H = Some (c, H).
Proof. unfold load. by intros ->. Qed.

Lemma alloc_some c H : exists l, alloc c H = Some (l, <[l := c]> H) /\ H !! l = None.
Proof. eexists. split; [done|]. apply not_elem_of_dom, is_fresh. Qed.

(** A cell of a part of the heap, and the rest of that part. *)
Lemma own_cell (l : loc) (c : cell) (h0 H : heap) : <[l := c]> h0 ⊆ H -> h0 !! l = None -> H !! l = Some c /\ h0 ⊆ H.
Proof.
  intros Hsub Hl. split; [by eapply lookup_weaken; [apply lookup_insert_eq|]|].
  etrans; [|exact Hsub]. by apply insert_subseteq.
Qed.

Lemma copies_plain : copies plain shallow.
Proof.
  intros tight v t h H (s & -> & -> & ->) _. exists (Plain s), ∅. split; [by rewrite (left_id_L ∅ (∪))|].
  split; [apply map_disjoint_empty_l|by exists s].
Qed.

Lemma copies_pointer T c : copies T c -> copies (pointer T) (copy_pointer c).
Proof.
  intros Hc tight v t h H [(-> & -> & ->)|(l & x & t' & h0 & -> & -> & -> & Hl & Hx)] Hsub.
  { exists (Pointer None), ∅. split; [cbn; unfold mem_ret; by rewrite (left_id_L ∅ (∪))|].
    split; [apply map_disjoint_empty_l|by left]. }
  destruct (own_cell _ _ _ _ Hsub Hl) as [HHl Hsub0].
  destruct (Hc tight x t' h0 H Hx Hsub0) as (y & h1 & Hcx & Hdis & Hy).
  destruct (alloc_some (Box y) (h1 ∪ H)) as (l' & Ha & Hl'). apply lookup_union_None in Hl' as [Hl1 HlH].
  exists (Pointer (Some l')), (<[l' := Box y]> h1). split; [|split].
  - cbn [copy_pointer]. rewrite (bind_some _ _ _ _ _ (load_some _ _ _ HHl)), (bind_some _ _ _ _ _ Hcx), (bind_some _ _ _ _ _ Ha).
    unfold mem_ret. by rewrite insert_union_l.
  - by apply map_disjoint_insert_l_2.
  - right. by exists l', y, t', h1.
Qed.

Lemma each_copies T c tight vs ts h H :
  copies T c -> elements T tight vs ts h -> h ⊆ H ->
  exists ys h', each c vs H = Some (ys, h' ∪ H) /\ h' ##ₘ H /\ elements T true ys ts h' /\ length ys = length vs.
Proof.
  intros Hc He. revert H. induction He as [|v vs t ts h1 h2 Hv He IH Hdis]; intros H Hsub.
  { exists [], ∅. split; [cbn; unfold mem_ret; by rewrite (left_id_L ∅ (∪))|].
    split; [apply map_disjoint_empty_l|split; [constructor|done]]. }
  destruct (Hc tight v t h1 H Hv) as (y & h1' & Hcv & Hd1 & Hy).
  { etrans; [apply map_union_subseteq_l|exact Hsub]. }
  destruct (IH (h1' ∪ H)) as (ys & h2' & Hcs & Hd2 & Hys & Hlen).
  { etrans; [|apply map_union_subseteq_r, Hd1]. etrans; [by apply map_union_subseteq_r|exact Hsub]. }
  apply map_disjoint_union_r in Hd2 as [Hd21 Hd2].
  exists (y :: ys), (h1' ∪ h2'). split; [|split; [|split]].
  - cbn [each]. rewrite (bind_some _ _ _ _ _ Hcv), (bind_some _ _ _ _ _ Hcs). unfold mem_ret.
    rewrite (assoc_L (∪)), (map_union_comm h1' h2'); [done|by symmetry].
  - by apply map_disjoint_union_l.
  - by constructor; [..|symmetry].
  - cbn. by rewrite Hlen.
Qed.

Lemma copies_slice T c : copies T c -> copies (slice_of T) (copy_slice c).
Proof.
  intros Hc tight v t h H [(-> & -> & ->)|(l & n & vs & ts & h0 & -> & -> & Hn & _ & -> & Hl & Hvs)] Hsub.
  { exists (Slice None), ∅. split; [cbn; unfold mem_ret; by rewrite (left_id_L ∅ (∪))|].
    split; [apply map_disjoint_empty_l|by left]. }
  destruct (own_cell _ _ _ _ Hsub Hl) as [HHl Hsub0].
  destruct (each_copies T c tight _ ts h0 H Hc Hvs Hsub0) as (ys & h1 & Hcx & Hdis & Hys & Hlen).
  rewrite length_take, Nat.min_l in Hlen by done.
  destruct (alloc_some (Array ys) (h1 ∪ H)) as (l' & Ha & Hl'). apply lookup_union_None in Hl' as [Hl1 HlH].
  exists (Slice (Some (l', n))), (<[l' := Array ys]> h1). split; [|split].
  - cbn [copy_slice]. rewrite (bind_some _ _ _ _ _ (load_some _ _ _ HHl)), (bind_some _ _ _ _ _ Hcx), (bind_some _ _ _ _ _ Ha).
    unfold mem_ret. by rewrite insert_union_l.
  - by apply map_disjoint_insert_l_2.
  - right. exists l', n, ys, ts, h1. rewrite take_ge by lia. split_and!; try done. lia.
Qed.

Lemma copies_map : copies map_of_strings copy_map.
Proof.
  intros tight v t h H [(-> & -> & ->)|(l & m & -> & -> & ->)] Hsub.
  { exists (Map None), ∅. split; [cbn; unfold mem_ret; by rewrite (left_id_L ∅ (∪))|].
    split; [apply map_disjoint_empty_l|by left]. }
  apply map_singleton_subseteq_l in Hsub. destruct (alloc_some (Dict m) H) as (l' & Ha & Hl').
  exists (Map (Some l')), {[l' := Dict m]}. split; [|split].
  - cbn [copy_map]. rewrite (bind_some _ _ _ _ _ (load_some _ _ _ Hsub)), (bind_some _ _ _ _ _ Ha).
    unfold mem_ret. by rewrite insert_union_singleton_l.
  - by apply map_disjoint_singleton_l_2.
  - right. by exists l', m.
Qed.

(** The fields a [DeepCopyInto] copies are enough for a type: every other field holds no reference,
    so that the shallow copy of the start is a copy. *)
Inductive covers : list (string * copier) -> decl -> Prop :=
| covers_nil : covers [] []
| covers_plain f cs d : covers cs d -> covers cs ((f, plain) :: d)
| covers_copied f (T : gotype) c cs d : copies T c -> covers cs d -> covers ((f, c) :: cs) ((f, T) :: d).

Lemma overwrite_copies cs d tight fs ts h H out :
  covers cs d -> NoDup d.*1 -> fields_of tight d fs ts h -> h ⊆ H -> (forall f, f ∈ d.*1 -> out !! f = fs !! f) ->
  exists out' h', overwrite cs fs out H = Some (out', h' ∪ H) /\ h' ##ₘ H /\
    fields_of true d out' ts h' /\ dom out' = dom out /\ forall f, f ∉ d.*1 -> out' !! f = out !! f.
Proof.
  intros Hcov. revert h H out. induction Hcov as [|f cs d Hcov IH|f T c cs d Hc Hcov IH]; intros h H out Hnd Hf Hsub Hout.
  - exists out, ∅. inversion Hf; subst. split; [cbn; unfold mem_ret; by rewrite (left_id_L ∅ (∪))|].
    split; [apply map_disjoint_empty_l|]. split; [constructor|done].
  - inversion Hf as [|? ? ? ? ? v t h1 h2 Hv Ht Hvt Hf2 Hdis]; subst. apply NoDup_cons in Hnd as [Hnin Hnd].
    destruct Hvt as (s & -> & -> & ->). rewrite (left_id_L ∅ (∪)) in Hsub.
    destruct (IH h2 H out Hnd Hf2 Hsub) as (out' & h' & Ho & Hd & Hf' & Hdom & Hother).
    { intros g Hg. apply Hout. by right. }
    exists out', h'. split; [exact Ho|]. split; [exact Hd|]. split; [|split; [exact Hdom|]].
    + rewrite <-(left_id_L ∅ (∪) h'). econstructor; [|exact Ht|by exists s|exact Hf'|apply map_disjoint_empty_l].
      rewrite Hother, Hout by (done || left); done.
    + intros g Hg. apply Hother. by intros ?; apply Hg; right.
  - inversion Hf as [|? ? ? ? ? v t h1 h2 Hv Ht Hvt Hf2 Hdis]; subst. apply NoDup_cons in Hnd as [Hnin Hnd].
    destruct (Hc tight v t h1 H Hvt) as (y & h1' & Hcv & Hd1 & Hy).
    { etrans; [apply map_union_subseteq_l|exact Hsub]. }
    destruct (IH h2 (h1' ∪ H) (<[f := y]> out) Hnd Hf2) as (out' & h2' & Ho & Hd & Hf' & Hdom & Hother).
    { etrans; [|apply map_union_subseteq_r, Hd1]. etrans; [by apply map_union_subseteq_r|exact Hsub]. }
    { intros g Hg. rewrite lookup_insert_ne by (by intros ->). apply Hout. by right. }
    apply map_disjoint_union_r in Hd as [Hd21 Hd2].
    exists out', (h1' ∪ h2'). split; [|split; [|split; [|split]]].
    + cbn [overwrite]. rewrite Hv, (bind_some _ _ _ _ _ Hcv), Ho.
      by rewrite (assoc_L (∪)), (map_union_comm h1' h2') by (by symmetry).
    + by apply map_disjoint_union_l.
    + econstructor; [|exact Ht|exact Hy|exact Hf'|by symmetry]. by rewrite Hother, lookup_insert_eq.
    + rewrite Hdom, dom_insert_L. assert (f ∈ dom out); [|set_solver].
      apply elem_of_dom. rewrite Hout by left. by exists v.
    + intros g Hg. rewrite Hother by (by intros ?; apply Hg; right). apply lookup_insert_ne. intros ->. apply Hg. left.
Qed.

Lemma copies_struct cs d : NoDup d.*1 -> covers cs d -> copies (struct d) (copy_struct cs).
Proof.
  intros Hnd Hcov tight v t h H (fs & ts & -> & -> & Hfs & Hts & Hf) Hsub.
  destruct (overwrite_copies cs d tight fs ts h H fs Hcov Hnd Hf Hsub) as (out & h' & Ho & Hd & Hf' & Hdom & _); [done|].
  exists (Struct out), h'. split; [|split; [exact Hd|]].
  - cbn [copy_struct]. by rewrite (bind_some _ _ _ _ _ Ho).
  - exists out, ts. by rewrite Hdom.
Qed.

(** A struct without references is copied by the assignment alone. *)
Lemma copies_shallow d : NoDup d.*1 -> covers [] d -> copies (struct d) shallow.
Proof.
  intros Hnd Hcov tight v t h H Hv Hsub. destruct (copies_struct [] d Hnd Hcov tight v t h H Hv Hsub) as (v' & h' & Hc & Hrest).
  exists v', h'. split; [|exact Hrest]. destruct Hv as (fs & ts & -> & _). exact Hc.
Qed.

(** ** The types of the API, and their generated functions *)

Section Types.
Context {L : LibTypes}.

(** *** api/v1alpha2 *)

Definition Component_decl : decl := [
  ("Image", plain); ("ImagePullPolicy", plain); ("Replicas", plain);
  ("Volumes", slice_of (lib "v1.Volume")); ("InitContainers", slice_of (lib "v1.Container"));
  ("SidecarContainers", slice_of (lib "v1.Container")); ("Container", lib "v1.Container");
  ("NodeSelector", map_of_strings); ("NodeName", plain);
  ("PodSecurityContext", pointer (lib "v1.PodSecurityContext")); ("Affinity", pointer (lib "v1.Affinity"));
  ("Tolerations", slice_of (lib "v1.Toleration"));
  ("VolumeClaimTemplate", pointer (lib "v1.PersistentVolumeClaimTemplate"))].

Definition Component_DeepCopyInto : copier := copy_struct [
  ("Volumes", copy_slice (lib_DeepCopyInto "v1.Volume"));
  ("InitContainers", copy_slice (lib_DeepCopyInto "v1.Container"));
  ("SidecarContainers", copy_slice (lib_DeepCopyInto "v1.Container"));
  ("Container", lib_DeepCopyInto "v1.Container");
  ("NodeSelector", copy_map);
  ("PodSecurityContext", copy_pointer (lib_DeepCopyInto "v1.PodSecurityContext"));
  ("Affinity", copy_pointer (lib_DeepCopyInto "v1.Affinity"));
  ("Tolerations", copy_slice (lib_DeepCopyInto "v1.Toleration"));
  ("VolumeClaimTemplate", copy_pointer (lib_DeepCopyInto "v1.PersistentVolumeClaimTemplate"))].
Definition Component_DeepCopy : copier := DeepCopy Component_DeepCopyInto.

Definition Config_decl : decl := [
  ("MetadataReplicateAcross", pointer plain); ("NShards", plain);
  ("LogDeviceConfig", lib "runtime.RawExtension")].

Definition Config_DeepCopyInto : copier := copy_struct [
  ("MetadataReplicateAcross", copy_pointer shallow);
  ("LogDeviceConfig", lib_DeepCopyInto "runtime.RawExtension")].
Definition Config_DeepCopy : copier := DeepCopy Config_DeepCopyInto.

Definition ExternalHMeta_decl : decl := [("Host", plain); ("Port", plain); ("Namespace", plain)].

Definition ExternalHMeta_DeepCopyInto : copier := shallow.
Definition ExternalHMeta_DeepCopy : copier := DeepCopy ExternalHMeta_DeepCopyInto.

Definition Gateway_decl : decl := [
  ("Component", struct Component_decl); ("Endpoint", plain); ("Port", plain); ("SecretRef", pointer plain)].

Definition Gateway_DeepCopyInto : copier := copy_struct [
  ("Component", Component_DeepCopyInto);
  ("SecretRef", copy_pointer shallow)].
Definition Gateway_DeepCopy : copier := DeepCopy Gateway_DeepCopyInto.

Definition HMetaNode_decl : decl := [("NodeId", plain); ("Reachable", plain); ("Leader", plain); ("Error", plain)].

Definition HMetaNode_DeepCopyInto : copier := shallow.
Definition HMetaNode_DeepCopy : copier := DeepCopy HMetaNode_DeepCopyInto.

Definition HMetaStatus_decl : decl := [("Nodes", slice_of (struct HMetaNode_decl)); ("Version", plain)].

Definition HMetaStatus_DeepCopyInto : copier := copy_struct [("Nodes", copy_slice shallow)].
Definition HMetaStatus_DeepCopy : copier := DeepCopy HMetaStatus_DeepCopyInto.

Definition HStreamDBSpec_decl : decl := [
  ("ExternalHMeta", pointer (struct ExternalHMeta_decl)); ("Config", struct Config_decl);
  ("Gateway", pointer (struct Gateway_decl)); ("Console", pointer (struct Component_decl));
  ("AdminServer", struct Component_decl); ("HServer", struct Component_decl);
  ("HStore", struct Component_decl); ("HMeta", struct Component_decl)].

Definition HStreamDBSpec_DeepCopyInto : copier := copy_struct [
  ("ExternalHMeta", copy_pointer shallow);
  ("Config", Config_DeepCopyInto);
  ("Gateway", copy_pointer Gateway_DeepCopyInto);
  ("Console", copy_pointer Component_DeepCopyInto);
  ("AdminServer", Component_DeepCopyInto);
  ("HServer", Component_DeepCopyInto);
  ("HStore", Component_DeepCopyInto);
  ("HMeta", Component_DeepCopyInto)].
Definition HStreamDBSpec_DeepCopy : copier := DeepCopy HStreamDBSpec_DeepCopyInto.

Definition HStreamDBStatus_decl : decl := [
  ("Conditions", slice_of (lib "metav1.Condition")); ("HMeta", struct HMetaStatus_decl)].

Definition HStreamDBStatus_DeepCopyInto : copier := copy_struct [
  ("Conditions", copy_slice (lib_DeepCopyInto "metav1.Condition"));
  ("HMeta", HMetaStatus_DeepCopyInto)].
Definition HStreamDBStatus_DeepCopy : copier := DeepCopy HStreamDBStatus_DeepCopyInto.

Definition HStreamDB_decl : decl := [
  ("TypeMeta", plain); ("ObjectMeta", lib "metav1.ObjectMeta");
  ("Spec", struct HStreamDBSpec_decl); ("Status", struct HStreamDBStatus_decl)].

Definition HStreamDB_DeepCopyInto : copier := copy_struct [
  ("TypeMeta", shallow);
  ("ObjectMeta", lib_DeepCopyInto "metav1.ObjectMeta");
  ("Spec", HStreamDBSpec_DeepCopyInto);
  ("Status", HStreamDBStatus_DeepCopyInto)].
Definition HStreamDB_DeepCopy : copier := DeepCopy HStreamDB_DeepCopyInto.
Definition HStreamDB_DeepCopyObject : gval -> mem (option gval) := DeepCopyObject HStreamDB_DeepCopyInto.

Definition HStreamDBList_decl : decl := [
  ("TypeMeta", plain); ("ListMeta", lib "metav1.ListMeta"); ("Items", slice_of (struct HStreamDB_decl))].

Definition HStreamDBList_DeepCopyInto : copier := copy_struct [
  ("TypeMeta", shallow);
  ("ListMeta", lib_DeepCopyInto "metav1.ListMeta");
  ("Items", copy_slice HStreamDB_DeepCopyInto)].
Definition HStreamDBList_DeepCopy : copier := DeepCopy HStreamDBList_DeepCopyInto.
Definition HStreamDBList_DeepCopyObject : gval -> mem (option gval) := DeepCopyObject HStreamDBList_DeepCopyInto.

(** *** api/v1beta1 *)

Definition ConnectorSpec_decl : decl := [
  ("Type", plain); ("TemplateName", plain); ("Streams", slice_of plain); ("Patches", slice_of plain);
  ("HServerEndpoint", plain); ("ImageRegistry", pointer plain); ("ContainerPorts", slice_of plain);
  ("Container", lib "v1.Container"); ("Containers", slice_of (lib "v1.Container"))].

Definition ConnectorSpec_DeepCopyInto : copier := copy_struct [
  ("Streams", copy_slice shallow);
  ("Patches", copy_slice shallow);
  ("ImageRegistry", copy_pointer shallow);
  ("ContainerPorts", copy_slice shallow);
  ("Container", lib_DeepCopyInto "v1.Container");
  ("Containers", copy_slice (lib_DeepCopyInto "v1.Container"))].
Definition ConnectorSpec_DeepCopy : copier := DeepCopy ConnectorSpec_DeepCopyInto.

Definition ConnectorStatus_decl : decl := [].

Definition ConnectorStatus_DeepCopyInto : copier := shallow.
Definition ConnectorStatus_DeepCopy : copier := DeepCopy ConnectorStatus_DeepCopyInto.

Definition Connector_decl : decl := [
  ("TypeMeta", plain); ("ObjectMeta", lib "metav1.ObjectMeta");
  ("Spec", struct ConnectorSpec_decl); ("Status", struct ConnectorStatus_decl)].

Definition Connector_DeepCopyInto : copier := copy_struct [
  ("TypeMeta", shallow);
  ("ObjectMeta", lib_DeepCopyInto "metav1.ObjectMeta");
  ("Spec", ConnectorSpec_DeepCopyInto);
  ("Status", shallow)].
Definition Connector_DeepCopy : copier := DeepCopy Connector_DeepCopyInto.
Definition Connector_DeepCopyObject : gval -> mem (option gval) := DeepCopyObject Connector_DeepCopyInto.

Definition ConnectorList_decl : decl := [
  ("TypeMeta", plain); ("ListMeta", lib "metav1.ListMeta"); ("Items", slice_of (struct Connector_decl))].

Definition ConnectorList_DeepCopyInto : copier := copy_struct [
  ("TypeMeta", shallow);
  ("ListMeta", lib_DeepCopyInto "metav1.ListMeta");
  ("Items", copy_slice Connector_DeepCopyInto)].
Definition ConnectorList_DeepCopy : copier := DeepCopy ConnectorList_DeepCopyInto.
Definition ConnectorList_DeepCopyObject : gval -> mem (option gval) := DeepCopyObject ConnectorList_DeepCopyInto.

Definition ConnectorTemplateSpec_decl : decl := [("Type", plain); ("Config", plain)].

Definition ConnectorTemplateSpec_DeepCopyInto : copier := shallow.
Definition ConnectorTemplateSpec_DeepCopy : copier := DeepCopy ConnectorTemplateSpec_DeepCopyInto.

Definition ConnectorTemplateStatus_decl : decl := [].

Definition ConnectorTemplateStatus_DeepCopyInto : copier := shallow.
Definition ConnectorTemplateStatus_DeepCopy : copier := DeepCopy ConnectorTemplateStatus_DeepCopyInto.

Definition ConnectorTemplate_decl : decl := [
  ("TypeMeta", plain); ("ObjectMeta", lib "metav1.ObjectMeta");
  ("Spec", struct ConnectorTemplateSpec_decl); ("Status", struct ConnectorTemplateStatus_decl)].

Definition ConnectorTemplate_DeepCopyInto : copier := copy_struct [
  ("TypeMeta", shallow);
  ("ObjectMeta", lib_DeepCopyInto "metav1.ObjectMeta");
  ("Spec", shallow);
  ("Status", shallow)].
Definition ConnectorTemplate_DeepCopy : copier := DeepCopy ConnectorTemplate_DeepCopyInto.
Definition ConnectorTemplate_DeepCopyObject : gval -> mem (option gval) := DeepCopyObject ConnectorTemplate_DeepCopyInto.

Definition ConnectorTemplateList_decl : decl := [
  ("TypeMeta", plain); ("ListMeta", lib "metav1.ListMeta"); ("Items", slice_of (struct ConnectorTemplate_decl))].

Definition ConnectorTemplateList_DeepCopyInto : copier := copy_struct [
  ("TypeMeta", shallow);
  ("ListMeta", lib_DeepCopyInto "metav1.ListMeta");
  ("Items", copy_slice ConnectorTemplate_DeepCopyInto)].
Definition ConnectorTemplateList_DeepCopy : copier := DeepCopy ConnectorTemplateList_DeepCopyInto.
Definition ConnectorTemplateList_DeepCopyObject : gval -> mem (option gval) := DeepCopyObject ConnectorTemplateList_DeepCopyInto.

(** The types that have generated functions, with them. *)
Definition api_types : list (decl * copier * copier) := [
  (Component_decl, Component_DeepCopyInto, Component_DeepCopy);
  (Config_decl, Config_DeepCopyInto, Config_DeepCopy);
  (ExternalHMeta_decl, ExternalHMeta_DeepCopyInto, ExternalHMeta_DeepCopy);
  (Gateway_decl, Gateway_DeepCopyInto, Gateway_DeepCopy);
  (HMetaNode_decl, HMetaNode_DeepCopyInto, HMetaNode_DeepCopy);
  (HMetaStatus_decl, HMetaStatus_DeepCopyInto, HMetaStatus_DeepCopy);
  (HStreamDB_decl, HStreamDB_DeepCopyInto, HStreamDB_DeepCopy);
  (HStreamDBList_decl, HStreamDBList_DeepCopyInto, HStreamDBList_DeepCopy);
  (HStreamDBSpec_decl, HStreamDBSpec_DeepCopyInto, HStreamDBSpec_DeepCopy);
  (HStreamDBStatus_decl, HStreamDBStatus_DeepCopyInto, HStreamDBStatus_DeepCopy);
  (Connector_decl, Connector_DeepCopyInto, Connector_DeepCopy);
  (ConnectorList_decl, ConnectorList_DeepCopyInto, ConnectorList_DeepCopy);
  (ConnectorSpec_decl, ConnectorSpec_DeepCopyInto, ConnectorSpec_DeepCopy);
  (ConnectorStatus_decl, ConnectorStatus_DeepCopyInto, ConnectorStatus_DeepCopy);
  (ConnectorTemplate_decl, ConnectorTemplate_DeepCopyInto, ConnectorTemplate_DeepCopy);
  (ConnectorTemplateList_decl, ConnectorTemplateList_DeepCopyInto, ConnectorTemplateList_DeepCopy);
  (ConnectorTemplateSpec_decl, ConnectorTemplateSpec_DeepCopyInto, ConnectorTemplateSpec_DeepCopy);
  (ConnectorTemplateStatus_decl, ConnectorTemplateStatus_DeepCopyInto, ConnectorTemplateStatus_DeepCopy)].

(** ** The generated functions copy their types *)

Lemma NoDup_names (d : decl) : bool_decide (NoDup d.*1) = true -> NoDup d.*1.
Proof. apply bool_decide_eq_true. Qed.

End Types.

Create HintDb copy_db discriminated.
#[export] Hint Resolve copies_plain copies_pointer copies_slice copies_map lib_DeepCopyInto_ok : copy_db.
#[export] Hint Constructors covers : copy_db.

(** A struct: its names are different and its references are covered. *)
Ltac copies_decl :=
  match goal with
  | |- copies (struct ?d) ?c =>
      first [apply (copies_shallow d) | apply copies_struct]; [apply NoDup_names; vm_compute; reflexivity|];
      let d' := eval hnf in d in change d with d'
  end;
  repeat first [apply covers_nil | apply covers_copied; [solve [auto 6 with copy_db]|] | apply covers_plain].

Section Copies.
Context {L : LibTypes}.

Lemma Component_copies : copies (struct Component_decl) Component_DeepCopyInto.
Proof. copies_decl. Qed.
Lemma Config_copies : copies (struct Config_decl) Config_DeepCopyInto.
Proof. copies_decl. Qed.
Lemma ExternalHMeta_copies : copies (struct ExternalHMeta_decl) shallow.
Proof. copies_decl. Qed.
#[local] Hint Resolve Component_copies Config_copies ExternalHMeta_copies : copy_db.
Lemma Gateway_copies : copies (struct Gateway_decl) Gateway_DeepCopyInto.
Proof. copies_decl. Qed.
Lemma HMetaNode_copies : copies (struct HMetaNode_decl) shallow.
Proof. copies_decl. Qed.
#[local] Hint Resolve Gateway_copies HMetaNode_copies : copy_db.
Lemma HMetaStatus_copies : copies (struct HMetaStatus_decl) HMetaStatus_DeepCopyInto.
Proof. copies_decl. Qed.
Lemma HStreamDBSpec_copies : copies (struct HStreamDBSpec_decl) HStreamDBSpec_DeepCopyInto.
Proof. copies_decl. Qed.
#[local] Hint Resolve HMetaStatus_copies HStreamDBSpec_copies : copy_db.
Lemma HStreamDBStatus_copies : copies (struct HStreamDBStatus_decl) HStreamDBStatus_DeepCopyInto.
Proof. copies_decl. Qed.
#[local] Hint Resolve HStreamDBStatus_copies : copy_db.
Lemma HStreamDB_copies : copies (struct HStreamDB_decl) HStreamDB_DeepCopyInto.
Proof. copies_decl. Qed.
Lemma ConnectorSpec_copies : copies (struct ConnectorSpec_decl) ConnectorSpec_DeepCopyInto.
Proof. copies_decl. Qed.
Lemma ConnectorStatus_copies : copies (struct ConnectorStatus_decl) shallow.
Proof. copies_decl. Qed.
Lemma ConnectorTemplateSpec_copies : copies (struct ConnectorTemplateSpec_decl) shallow.
Proof. copies_decl. Qed.
Lemma ConnectorTemplateStatus_copies : copies (struct ConnectorTemplateStatus_decl) shallow.
Proof. copies_decl. Qed.
#[local] Hint Resolve HStreamDB_copies ConnectorSpec_copies ConnectorStatus_copies ConnectorTemplateSpec_copies
  ConnectorTemplateStatus_copies : copy_db.
Lemma Connector_copies : copies (struct Connector_decl) Connector_DeepCopyInto.
Proof. copies_decl. Qed.
Lemma ConnectorTemplate_copies : copies (struct ConnectorTemplate_decl) ConnectorTemplate_DeepCopyInto.
Proof. copies_decl. Qed.
#[local] Hint Resolve Connector_copies ConnectorTemplate_copies : copy_db.

Lemma api_types_copies : Forall (fun '(d, into, copy) => copies (struct d) into /\ copy = DeepCopy into) api_types.
Proof.
  repeat apply Forall_cons_2; [..|apply Forall_nil_2]; (split; [|reflexivity]); try solve [auto with copy_db]; copies_decl.
Qed.

(** *** Properties *)

(** C23: deep copies are deep: for every type of the API, [DeepCopy] of a pointer never panics, leaves
    the memory that was there as it is, and returns a pointer that represents the same object in
    memory of its own, so that no later change to one of the two is a change to the other. Every
    slice of the copy is full. This holds because each generated function copies every field of
    its type that holds a reference. *)
Theorem DeepCopy_separates d into copy tight v t h H :
  (d, into, copy) ∈ api_types -> pointer (struct d) tight v t h -> h ⊆ H ->
  exists v' h', copy v H = Some (v', h' ∪ H) /\ h' ##ₘ H /\ pointer (struct d) true v' t h' /\
    DeepCopyObject into v H = Some (if v is Pointer None then None else Some v', h' ∪ H).
Proof.
  intros Hin Hv Hsub. pose proof api_types_copies as Hall. rewrite Forall_forall in Hall.
  destruct (Hall _ Hin) as [Hinto ->].
  destruct (copies_pointer _ _ Hinto tight v t h H Hv Hsub) as (v' & h' & Hc & Hd & Hv').
  exists v', h'. split; [exact Hc|]. split; [exact Hd|]. split; [exact Hv'|].
  unfold DeepCopyObject. rewrite (bind_some _ _ _ _ _ Hc). unfold mem_ret.
  destruct Hv as [(-> & -> & ->)|(l & x & t' & h0 & -> & -> & _)];
    destruct Hv' as [(-> & ? & _)|(l' & x' & t'' & h1 & -> & ? & _)]; done.
Qed.

End Copies.

(** ** Appending

    [append(s, x)] writes into the array of [s] when it has room. *)
Definition store_cell (l : loc) (c : cell) : mem unit := fun H => Some (tt, <[l := c]> H).

Definition go_append (s x : gval) : mem gval :=
  match s with
  | Slice None => let! l := alloc (Array [x]) in mem_ret (Slice (Some (l, 1)))
  | Slice (Some (l, n)) =>
      let! a := load l in
      match a with
      | Array vs =>
          if decide (n < length vs) then
            let! u := store_cell l (Array (<[n := x]> vs)) in mem_ret (Slice (Some (l, S n)))
          else let! l' := alloc (Array (vs ++ [x])) in mem_ret (Slice (Some (l', S n)))
      | _ => mem_fail
      end
  | _ => mem_fail
  end.

(** An append to a slice of a deep copy changes no memory that is there: such slices behave as
    values, which is how the other files treat them. *)
Theorem append_to_copy T v t h H x :
  slice_of T true v t h -> h ⊆ H -> exists s H', go_append v x H = Some (s, H') /\ H ⊆ H'.
Proof.
  intros [(-> & -> & ->)|(l & n & vs & ts & h0 & -> & -> & Hn & Hfull & -> & Hl & _)] Hsub.
  - destruct (alloc_some (Array [x]) H) as (l' & Ha & Hl'). exists (Slice (Some (l', 1))), (<[l' := Array [x]]> H).
    cbn [go_append]. rewrite (bind_some _ _ _ _ _ Ha). split; [done|by apply insert_subseteq].
  - destruct (own_cell _ _ _ _ Hsub Hl) as [HHl _]. destruct (alloc_some (Array (vs ++ [x])) H) as (l' & Ha & Hl').
    exists (Slice (Some (l', S n))), (<[l' := Array (vs ++ [x])]> H). specialize (Hfull eq_refl).
    cbn [go_append]. rewrite (bind_some _ _ _ _ _ (load_some _ _ _ HHl)), decide_False by lia.
    rewrite (bind_some _ _ _ _ _ Ha). split; [done|by apply insert_subseteq].
Qed.

(** Otherwise it may: two appends to one slice with room are the same memory. *)
Example append_with_room :
  let H := {[1%positive := Array [Plain "a"; Plain "b"]]} in
  let s := Slice (Some (1%positive, 1)) in
  exists s1 s2 H', (let! s1 := go_append s (Plain "x") in let! s2 := go_append s (Plain "y") in mem_ret (s1, s2))%mem H
      = Some ((s1, s2), H') /\ s1 = s2 /\ H' = {[1%positive := Array [Plain "a"; Plain "y"]]}.
Proof. do 3 eexists. split; [reflexivity|]. split; reflexivity. Qed.
