(* ===== verification/Fixtures.v ===== *)
(** * The objects of the tests: [src/mock]

    The sample custom resources with which the tests of the controllers run, and the event recorder
    of the same package. *)
From S2P Require Import Prelude GoStrings KubeTypes ApiTypes Effects Conditions FlagSet Naming Constants Merge Requeue Workload LogDevice Services HMeta AdminServer HStore HServer Console Totality.

(** [mock/default_cr.go] *)
Definition cr_meta (name namespace : string) : ObjectMeta :=
  meta_set_Namespace namespace (meta_set_Name name meta_zero).

Definition cr_component (image : string) (replicas : Z) : Component := {|
  comp_Image := image; comp_ImagePullPolicy := "IfNotPresent"; comp_Replicas := replicas;
  comp_Volumes := None; comp_InitContainers := None; comp_SidecarContainers := None;
  comp_Container := ctr_zero; comp_NodeSelector := None; comp_NodeName := "";
  comp_PodSecurityContext := None; comp_Affinity := None; comp_Tolerations := None;
  comp_VolumeClaimTemplate := None |}.

Definition CreateDefaultCR : HStreamDB := {|
  hdb_Meta := cr_meta "hstreamdb-sample" "default";
  hdb_Spec := {|
    spec_ExternalHMeta := None;
    spec_Config := {| cfg_MetadataReplicateAcross := Some 1%Z; cfg_NShards := 1; cfg_LogDeviceConfig := "{}" |};
    spec_Gateway := None; spec_Console := None;
    spec_AdminServer := cr_component "hstreamdb/hstream:rqlite" 1;
    spec_HServer := cr_component "hstreamdb/hstream:rqlite" 1;
    spec_HStore := cr_component "hstreamdb/hstream:rqlite" 3;
    spec_HMeta := cr_component "rqlite/rqlite:latest" 1 |};
  hdb_Status := {| status_Conditions := None; status_HMeta := {| hms_Nodes := None; hms_Version := "" |} |} |}.

(** [mock/connector.go] *)
Definition CreateDefaultConnector (ns : string) : Connector := {|
  con_Meta := cr_meta "test-connector" ns;
  con_Spec := {|
    con_Type := "sink-elasticsearch"; con_TemplateName := "test-connector-template";
    con_Streams := Some ["stream01"]; con_Patches := None; con_HServerEndpoint := "";
    con_ImageRegistry := None; con_ContainerPorts := None; con_Container := ctr_zero;
    con_Containers := None |} |}.

(** [mock/connectortemplate.go] *)
Definition CreateDefaultConnectorTemplate : ConnectorTemplate := {|
  ctpl_Meta := cr_meta "test-connector-template" "default";
  ctpl_Spec := {|
    ctpl_Type := "sink-elasticsearch";
    ctpl_Config := json_text "
			{
				'auth': 'basic',
				'username': 'elastic',
				'password': 'elastic',
				'enableLogReport': true,
				'buffer.enableBackgroundFlush': false,
				'buffer.batch.maxAge': 0,
				'buffer.batch.maxBytesSize': 0,
				'scheme': 'http',
				'hosts': 'localhost:9200',
				'task.error.maxRetries': 3,
				'task.error.skipStrategy': 'SkipAll',
				'task.reader.fromOffset': 'EARLIEST'
			}" |} |}.

(** [mock/event_recorder.go]: the interface of the recorder, with the object an event is about left
    out, and the recorder that drops every event. *)
Record EventRecorder := {
  rec_Event : string -> string -> string -> prog unit;
  rec_Eventf : string -> string -> string -> list string -> prog unit;
  rec_AnnotatedEventf : gomap string -> string -> string -> string -> list string -> prog unit
}.

Definition mockEventRecorder : EventRecorder := {|
  rec_Event eventtype reason message := Ret tt;
  rec_Eventf eventtype reason messageFmt args := Ret tt;
  rec_AnnotatedEventf annotations eventtype reason messageFmt args := Ret tt |}.

Definition GetEventRecorderFor (name : string) : EventRecorder := mockEventRecorder.

(** The sample cluster can be built. *)
Lemma CreateDefaultCR_readable : readable_spec CreateDefaultCR.
Proof. split; try done; apply not_elem_of_nil. Qed.
