(* ===== verification/Bootstrap.v ===== *)
(** * Bootstrapping: [update_hmeta_status.go], [bootstrap_hstore.go] and [bootstrap_hserver.go]

    Three sub-reconcilers wait for the pods of a stateful set, talk to the cluster through the
    admin client and record a condition in the status of the [HStreamDB]. The object that
    [Status().Update] gives back replaces the one the pass works on. *)
From S2P Require Import Prelude GoStrings KubeTypes ApiTypes Effects Conditions FlagSet Naming Constants Merge Requeue Workload LogDevice Admin.

(** ** [getReadyReplicasInService], [checkPodRunningStatus]

    The object of any kind; its JSON has [status.readyReplicas] for a workload with a count
    other than zero. *)
Definition obj_meta (k : Kind) : obj_of k -> ObjectMeta :=
  match k with
  | KHStreamDB => hdb_Meta
  | KConnector => con_Meta
  | KConnectorTemplate => ctpl_Meta
  | KStatefulSet => sts_Meta
  | KDeployment => dep_Meta
  | KService => svc_Meta
  | KConfigMap => cm_Meta
  end.

Definition json_readyReplicas (k : Kind) : obj_of k -> option Z :=
  let present n := if decide (n = 0%Z) then None else Some n in
  match k with
  | KStatefulSet => fun sts => present (sts_readyReplicas sts)
  | KDeployment => fun deploy => present (dep_readyReplicas deploy)
  | _ => fun _ => None
  end.

(** The two type assertions: [Spec.Replicas] of a workload. *)
Definition spec_replicas (k : Kind) : obj_of k -> option (option Z) :=
  match k with
  | KStatefulSet => fun sts => Some (sts_Replicas (sts_Spec sts))
  | KDeployment => fun deploy => Some (dep_Replicas (dep_Spec deploy))
  | _ => fun _ => None
  end.

(** The count and the object the read has filled. *)
Definition getReadyReplicasInService (hdb : HStreamDB) (k : Kind) (name : string)
    : prog (go_error + Z * obj_of k) :=
  let* r := kube_Get k {| nn_Namespace := hdb_Namespace hdb; nn_Name := name |} in
  match r with
  | inl err => Ret (inl err)
  | inr obj =>
      match json_readyReplicas k obj with
      | None => Ret (inl (new_error ("wait for all of " +:+ meta_Name (obj_meta k obj) +:+ " nodes to be ready")))
      | Some count => Ret (inr (count, obj))
      end
  end.

Definition checkPodRunningStatus (hdb : HStreamDB) (k : Kind) (name : string) : prog (option go_error) :=
  let* r := getReadyReplicasInService hdb k name in
  match r with
  | inl err => Ret (Some err)
  | inr (count, obj) =>
      match spec_replicas k obj with
      | None => Ret (Some (new_error (meta_Name (obj_meta k obj) +:+ " is neither StatefulSet nor Deployment")))
      | Some None => Crash nil_pointer
      | Some (Some desiredReplicas) =>
          if bool_decide (count = 0%Z) || (count <? desiredReplicas)%Z then
            Ret (Some (new_error (meta_Name (obj_meta k obj) +:+ " cluster isn't ready")))
          else Ret None
      end
  end.

(** [hdb.SetCondition] and [r.Status().Update] *)
Definition ready_condition (type message : string) : Condition :=
  mkCondition type ConditionTrue type message.

Section Bootstrap.
Context {SS : SortSlice} {P : AdminClientProvider}.

Definition updateCondition (prefix : string) (hdb : HStreamDB) (c : Condition)
    : prog (option requeue * HStreamDB) :=
  let* hdb := SetCondition hdb c in
  let* r := kube_StatusUpdate hdb in
  match r with
  | inl err => Ret (Some (requeue_error (wrap_error prefix err)), hdb)
  | inr hdb => Ret (None, hdb)
  end.

(** ** [update_hmeta_status.go] *)

Definition status_node (entry : string * admin.HMetaNode) : HMetaNode :=
  let '(id, node) := entry in
  {| node_NodeId := id; node_Reachable := admin.Reachable node; node_Leader := admin.Leader node;
     node_Error := admin.Error node |}.

Definition updateHMetaStatus_reconcile (hdb : HStreamDB) : prog (option requeue * HStreamDB) :=
  let* err :=
    match spec_ExternalHMeta (hdb_Spec hdb) with
    | None => checkPodRunningStatus hdb KStatefulSet (GetResName ComponentTypeHMeta hdb)
    | Some _ => Ret None
    end in
  match err with
  | Some err => Ret (Some (requeue_message (err_msg err) Second), hdb)
  | None =>
      let* client := GetAdminClient hdb in
      let* cluster := GetHMetaStatus client in
      match cluster with
      | inl err => Ret (Some (requeue_message (err_msg err) Second), hdb)
      | inr cluster =>
          if negb (admin.IsAllReady cluster) then
            Ret (Some (requeue_message "wait for HMeta cluster to be ready" Second), hdb)
          else
            let* nodes := range_map (entries (admin.Nodes cluster)) in
            let hdb := hdb_set_Nodes (Some (status_node <$> nodes)) hdb in
            updateCondition "update HMeta status failed: " hdb (ready_condition HMetaReady "HMeta is ready")
      end
  end.

(** ** [bootstrap_hstore.go] *)

Definition metadataReplication (hdb : HStreamDB) : Z :=
  match cfg_MetadataReplicateAcross (spec_Config (hdb_Spec hdb)) with
  | None => GetRecommendedLogReplicaAcross hdb
  | Some n =>
      if (comp_Replicas (spec_HStore (hdb_Spec hdb)) <? n)%Z then GetRecommendedLogReplicaAcross hdb else n
  end.

Definition bootstrapHStore_reconcile (hdb : HStreamDB) : prog (option requeue * HStreamDB) :=
  if IsConditionTrue hdb HStoreReady then Ret (None, hdb)
  else
    let* err := checkPodRunningStatus hdb KStatefulSet (GetResName ComponentTypeHStore hdb) in
    match err with
    | Some err => Ret (Some (requeue_message (err_msg err) Second), hdb)
    | None =>
        let* client := GetAdminClient hdb in
        let* r := CallStore client ["nodes-config"; "bootstrap"; "--metadata-replicate-across";
                                    "node:" +:+ Itoa (metadataReplication hdb)] in
        match r with
        | inl err => Ret (Some (requeue_message (err_msg err) (5 * Second)), hdb)
        | inr _ =>
            let* (rq, hdb) := updateCondition "update HStore status failed: " hdb
              (ready_condition HStoreReady "HStore has been bootstrapped") in
            match rq with
            | Some rq => Ret (Some rq, hdb)
            | None => Ret (Some (requeue_after Second), hdb)
            end
        end
    end.

(** ** [bootstrap_hserver.go] *)

Definition bootstrapHServer_reconcile (hdb : HStreamDB) : prog (option requeue * HStreamDB) :=
  if IsConditionTrue hdb HServerReady then Ret (None, hdb)
  else
    let* err := checkPodRunningStatus hdb KStatefulSet (GetResName ComponentTypeHServer hdb) in
    match err with
    | Some err => Ret (Some (requeue_message (err_msg err) Second), hdb)
    | None =>
        let* client := GetAdminClient hdb in
        let* svc := lift (GetHeadlessService hdb ComponentTypeHServer []) in
        let* r := CallServer client ["init"; "--host"; meta_Name (svc_Meta svc)] in
        match r with
        | inl err => Ret (Some (requeue_message (err_msg err) (5 * Second)), hdb)
        | inr _ =>
            updateCondition "update HStore status failed: " hdb
              (ready_condition HServerReady "HServer has been bootstrapped")
        end
    end.

End Bootstrap.

(** ** Lemmas *)

(** A stateful set with as many ready pods as it asks for, and at least one. *)
Definition sts_running (sts : StatefulSet) : Prop :=
  exists n, sts_Replicas (sts_Spec sts) = Some n /\ (n <= sts_readyReplicas sts)%Z /\ sts_readyReplicas sts <> 0%Z.

Lemma checkPodRunningStatus_wp hdb name :
  wp (checkPodRunningStatus hdb KStatefulSet name) (fun tr o =>
    match o with
    | Done None => exists sts, sts_running sts /\
        tr = [Ev (CGet KStatefulSet {| nn_Namespace := hdb_Namespace hdb; nn_Name := name |}) (inr sts)]
    | _ => quiet tr
    end).
Proof.
  unfold checkPodRunningStatus, getReadyReplicasInService. intros r. cbn [prog_bind].
  destruct r as [err|sts]; [by repeat constructor|]. cbn [json_readyReplicas spec_replicas].
  destruct (decide (sts_readyReplicas sts = 0%Z)) as [|Hnz]; [by repeat constructor|]. cbn [prog_bind].
  destruct (sts_Replicas (sts_Spec sts)) as [n|] eqn:Hn; [|by repeat constructor].
  destruct (Z.ltb_spec (sts_readyReplicas sts) n) as [|Hle];
    [rewrite orb_true_r; by repeat constructor|].
  rewrite bool_decide_false by done. cbn. exists sts. split; [|done]. by exists n.
Qed.

Lemma checkPodRunningStatus_post hdb k name Q :
  (forall tr o, Q tr o) -> wp (checkPodRunningStatus hdb k name) Q.
Proof. apply wp_True. Qed.

Section Facts.
Context {SS : SortSlice}.

Lemma updateCondition_wp prefix hdb c Q :
  (forall now err, Q [Ev CNow now; Ev (CStatusUpdate (SetCondition_at now hdb c)) (inl err)]
     (Done (Some (requeue_error (wrap_error prefix err)), SetCondition_at now hdb c))) ->
  (forall now hdb', Q [Ev CNow now; Ev (CStatusUpdate (SetCondition_at now hdb c)) (inr hdb')]
     (Done (None, hdb'))) ->
  wp (updateCondition prefix hdb c) Q.
Proof. intros H1 H2 now r. destruct r as [err|hdb']; cbn; [apply H1|apply H2]. Qed.

Lemma ready_condition_true now hdb t msg :
  conditions_ok hdb -> IsConditionTrue (SetCondition_at now hdb (ready_condition t msg)) t = true.
Proof.
  intros Hok. unfold IsConditionTrue. rewrite GetCondition_SetCondition_at by done.
  by rewrite decide_True.
Qed.

Lemma ready_condition_other now hdb t t' msg :
  conditions_ok hdb -> t' <> t ->
  IsConditionTrue (SetCondition_at now hdb (ready_condition t msg)) t' = IsConditionTrue hdb t'.
Proof.
  intros Hok Ht. unfold IsConditionTrue. rewrite GetCondition_SetCondition_at by done.
  by rewrite decide_False.
Qed.

Section Provider.
Context {P : AdminClientProvider}.

Lemma updateHMetaStatus_stops : stops updateHMetaStatus_reconcile.
Proof.
  intros hdb. unfold updateHMetaStatus_reconcile.
  set (Q := fun o : go (option requeue * HStreamDB) => match o with Done (Some rq, _) => stopping rq | _ => True end).
  apply (wp_bind_any _ _ Q); [|done]. intros [err|]; [by apply requeue_message_stopping|].
  apply (wp_bind_any _ _ Q); [|done]. intros client.
  apply (wp_bind_any _ _ Q); [|done]. intros [err|cluster]; [by apply requeue_message_stopping|].
  destruct (negb _); [by apply requeue_message_stopping|].
  apply (wp_bind_any _ _ Q); [|done]. intros nodes.
  apply updateCondition_wp; [intros; apply requeue_error_stopping|done].
Qed.

(** [bootstrapHStore] lets the pass go on only when HStore was bootstrapped before it. *)
Lemma bootstrapHStore_wp hdb :
  wp (bootstrapHStore_reconcile hdb) (fun _ o =>
    match o with
    | Done (None, hdb') => hdb' = hdb /\ IsConditionTrue hdb HStoreReady = true
    | Done (Some rq, _) => stopping rq
    | Panic _ => True
    end).
Proof.
  unfold bootstrapHStore_reconcile. destruct (IsConditionTrue hdb HStoreReady); [done|].
  set (Q := fun o : go (option requeue * HStreamDB) => match o with
    | Done (None, hdb') => hdb' = hdb /\ false = true
    | Done (Some rq, _) => stopping rq
    | Panic _ => True end).
  apply (wp_bind_any _ _ Q); [|done]. intros [err|]; [by apply requeue_message_stopping|].
  apply (wp_bind_any _ _ Q); [|done]. intros client.
  apply (wp_bind_any _ _ Q); [|done]. intros [err|out]; [by apply requeue_message_stopping|].
  apply wp_bind, updateCondition_wp; intros; [apply requeue_error_stopping|by apply requeue_message_stopping].
Qed.

Lemma bootstrapHServer_stops : stops bootstrapHServer_reconcile.
Proof.
  intros hdb. unfold bootstrapHServer_reconcile. destruct (IsConditionTrue hdb HServerReady); [done|].
  set (Q := fun o : go (option requeue * HStreamDB) => match o with Done (Some rq, _) => stopping rq | _ => True end).
  apply (wp_bind_any _ _ Q); [|done]. intros [err|]; [by apply requeue_message_stopping|].
  apply (wp_bind_any _ _ Q); [|done]. intros client.
  apply (wp_bind_any _ _ Q); [|done]. intros svc.
  apply (wp_bind_any _ _ Q); [|done]. intros [err|out]; [by apply requeue_message_stopping|].
  apply updateCondition_wp; intros; [apply requeue_error_stopping|done].
Qed.

End Provider.
End Facts.

(** The replication factor of the metadata is between one and the number of nodes. *)
Lemma metadataReplication_bounds hdb :
  (1 <= comp_Replicas (spec_HStore (hdb_Spec hdb)))%Z ->
  (forall m, cfg_MetadataReplicateAcross (spec_Config (hdb_Spec hdb)) = Some m -> (1 <= m)%Z) ->
  (1 <= metadataReplication hdb <= comp_Replicas (spec_HStore (hdb_Spec hdb)))%Z.
Proof.
  intros Hr Hm. unfold metadataReplication, GetRecommendedLogReplicaAcross, defaultRecommendedLogReplication.
  destruct (cfg_MetadataReplicateAcross _) as [m|]; [specialize (Hm m eq_refl)|];
    repeat (case_match || lia).
Qed.

(** The command of [bootstrapHStore]. *)
Definition bootstrap_command (hdb : HStreamDB) : list string :=
  ["hadmin"; "store"; "nodes-config"; "bootstrap"; "--metadata-replicate-across";
   "node:" +:+ Itoa (metadataReplication hdb)].

Lemma CallStore_wp {AJ : AdminJson} hdb args :
  wp (CallStore (AdminClient hdb) args) (fun tr o =>
    quiet tr /\ forall out, o = Done (inr out) -> exists pod,
      Ev (CStream (hdb_Namespace hdb) pod ("hadmin" :: "store" :: args)) (None, out, "") ∈ tr).
Proof.
  apply wp_conj; [apply admin_call_reads|].
  cbn [AdminClient CallStore]. unfold admin_call, GetPods, RunCommandInPod. wp_run; try done; subst.
  all: intros out [= ->]. apply orb_false_iff in Heqb as [He Hs].
  apply bool_decide_eq_false in He, Hs. apply dec_stable in He, Hs. subst.
  eexists. do 2 apply list_elem_of_further. apply list_elem_of_here.
Qed.

(** Where the nodes of HMeta are listed: the service of an external HMeta, in the namespace the spec
    names, or the cluster's own service of HMeta. *)
Definition proxied (hdb : HStreamDB) (ns service path : string) : Prop :=
  path = "nodes" /\
  match spec_ExternalHMeta (hdb_Spec hdb) with
  | Some ext => ns = ext_Namespace ext /\ service = ext_Host ext +:+ ":" +:+ Itoa (ext_Port ext)
  | None => ns = hdb_Namespace hdb /\ service = GetInternalResName ComponentTypeHMeta hdb +:+ ":4001"
  end.

(** The end of a run of [updateHMetaStatus] that lets the pass go on: the nodes are read, all of
    them are reachable, and they are stored, in any order, together with the condition; the server
    gives back [hdb']. *)
Definition hmeta_reported {SS : SortSlice} {AJ : AdminJson} (hdb : HStreamDB) (tr : list event) (hdb' : HStreamDB) : Prop :=
  exists ns service body nodes order n code now,
    proxied hdb ns service "nodes" /\ unmarshal_nodes body = inr nodes /\
    order ≡ₚ map_to_list (entries nodes) /\ order <> [] /\
    Forall (fun entry : string * admin.HMetaNode => admin.Reachable entry.2 = true) order /\
    tr = [Ev (CServiceProxy ns service "nodes") (inr body); Ev (CRange n) code; Ev CNow now;
          Ev (CStatusUpdate (SetCondition_at now (hdb_set_Nodes (Some (status_node <$> order)) hdb)
                (ready_condition HMetaReady "HMeta is ready"))) (inr hdb')].

Section Concrete.
Context {SS : SortSlice} {AJ : AdminJson}.

Lemma GetHMetaStatus_wp hdb :
  wp (AdminClient_GetHMetaStatus hdb) (fun tr o => forall cluster, o = Done (inr cluster) ->
    exists ns service body nodes, tr = [Ev (CServiceProxy ns service "nodes") (inr body)] /\
      proxied hdb ns service "nodes" /\ unmarshal_nodes body = inr nodes /\ cluster = {| admin.Nodes := nodes |}).
Proof.
  unfold AdminClient_GetHMetaStatus. apply wp_bind.
  apply (wp_mono _ (fun tr o => tr = [] /\ exists ns service, o = Done (ns, service) /\ proxied hdb ns service "nodes")).
  { unfold proxied. destruct (spec_ExternalHMeta _) as [ext|]; cbn [wp].
    - split; [done|]. by eexists _, _.
    - rewrite GetHeadlessService_done. cbn [lift prog_bind wp]. split; [done|]. eexists _, _. split; [done|]. done. }
  intros tr o [-> (ns & service & -> & Hp)]. intros [err|body]; cbn [prog_bind wp]; [done|].
  destruct (unmarshal_nodes body) as [err|nodes] eqn:E; cbn [wp]; [done|]. intros cluster [= <-].
  by exists ns, service, body, nodes.
Qed.

Lemma updateHMetaStatus_reports hdb :
  wp (updateHMetaStatus_reconcile (P := adminClientProvider) hdb) (fun tr o =>
    forall hdb', o = Done (None, hdb') -> exists before last, tr = before ++ last /\ hmeta_reported hdb last hdb').
Proof.
  unfold updateHMetaStatus_reconcile.
  eapply (wp_weaken_bind _ _ (fun _ _ => True)); [by apply wp_True| |done]. intros tr1 [err|] _; [done|].
  eapply (wp_weaken_bind _ _ (fun _ o => forall c, o = Done c -> c = AdminClient hdb)); [| |done].
  { intros [err|]; cbn [wp prog_bind]; [done|]. by intros c [= <-]. }
  intros tr2 client Hclient. rewrite (Hclient client eq_refl). cbn [AdminClient GetHMetaStatus].
  eapply wp_weaken_bind; [apply GetHMetaStatus_wp| |done]. intros tr3 [err|cluster] Hc; [done|].
  destruct (Hc cluster eq_refl) as (ns & service & body & nodes & -> & Hp & Hn & ->). clear Hc Hclient.
  destruct (admin.IsAllReady _) eqn:Hready; [|done]. cbn [negb]. apply wp_bind, range_map_wp. intros code.
  set (order := permute code _). apply updateCondition_wp; [done|]. intros now hdb' h [= <-].
  unfold admin.IsAllReady in Hready. cbn [admin.Nodes] in *.
  destruct (decide (size (entries nodes) = 0)) as [|Hsize]; [done|].
  assert (order ≡ₚ map_to_list (entries nodes)) as Hperm by apply permute_Permutation.
  exists (tr1 ++ tr2). eexists. split; [rewrite <-!app_assoc; reflexivity|].
  exists ns, service, body, nodes, order. eexists _, code, now. split_and!; [done|done|done| | |done].
  - intros Hnil. rewrite Hnil in Hperm. apply Permutation_nil_l in Hperm.
    symmetry in Hperm. apply map_to_list_empty_iff in Hperm. by rewrite Hperm, map_size_empty in Hsize.
  - rewrite Hperm. apply Forall_forall. intros [id node] Hin.
    rewrite forallb_forall in Hready. apply (Hready (id, node)). by apply list_elem_of_In.
Qed.

Definition hstore_key (hdb : HStreamDB) : NamespacedName :=
  {| nn_Namespace := hdb_Namespace hdb; nn_Name := GetResName ComponentTypeHStore hdb |}.

Definition hstore_condition : Condition := ready_condition HStoreReady "HStore has been bootstrapped".

(** A run of [bootstrapHStore] changes nothing, or ends by recording the condition. *)
Lemma bootstrapHStore_update_wp hdb :
  wp (bootstrapHStore_reconcile (P := adminClientProvider) hdb) (fun tr o =>
    quiet tr \/
    IsConditionTrue hdb HStoreReady = false /\
    exists sts pod out tr' now r rq hdb'',
      sts_running sts /\ quiet tr' /\ Ev (CGet KStatefulSet (hstore_key hdb)) (inr sts) ∈ tr' /\
      Ev (CStream (hdb_Namespace hdb) pod (bootstrap_command hdb)) (None, out, "") ∈ tr' /\
      tr = tr' ++ [Ev CNow now; Ev (CStatusUpdate (SetCondition_at now hdb hstore_condition)) r] /\
      o = Done (Some rq, hdb'') /\ rq_delayedRequeue rq = false).
Proof.
  unfold bootstrapHStore_reconcile. destruct (IsConditionTrue hdb HStoreReady); [left; constructor|].
  eapply wp_weaken_bind; [apply checkPodRunningStatus_wp| |intros tr msg H; by left].
  intros tr1 [err|] H1; [left; by rewrite app_nil_r|].
  destruct H1 as (sts & Hsts & ->). cbn [GetAdminClient adminClientProvider]. unfold NewAdminClient.
  intros rc. destruct rc as [err|]; cbn [prog_bind wp new_clientset lift NewSelector]; [left; by repeat constructor|].
  eapply wp_weaken_bind; [apply CallStore_wp| |intros tr msg [H _]; left; by repeat constructor].
  intros tr2 [err|out] [H2 Hrun]; [left; rewrite app_nil_r; by repeat constructor|].
  destruct (Hrun out eq_refl) as [pod Hpod]. apply wp_bind, updateCondition_wp.
  all: intros now x; right; split; [done|]; exists sts, pod, out,
    (Ev (CGet KStatefulSet (hstore_key hdb)) (inr sts) :: Ev CNewClientset None :: tr2), now.
  all: eexists _, _, _; split_and!; [done|by repeat constructor|apply list_elem_of_here
    |by do 2 apply list_elem_of_further|by rewrite app_nil_r|done|done].
Qed.

End Concrete.

(** *** Properties *)

Section Properties.
Context {SS : SortSlice} {AJ : AdminJson}.


End Properties.
