(* ===== verification/Server.v ===== *)
(** * The API server and its other clients

    The server is outside the repository. It is modelled as permissively as the theorems allow:
    [serves s e s'] says which answers a call may get from the store [s] and what the store is
    afterwards, [env_step s s'] what users, the controllers of Kubernetes and other clients may do
    to it between two calls. A call may fail at any time, also after the server has applied it. *)
From S2P Require Import Prelude GoStrings KubeTypes ApiTypes Effects Naming Merge Requeue Workload LogDevice Admin Bootstrap.

#[export] Instance NamespacedName_countable : Countable NamespacedName.
Proof.
  refine (inj_countable' (fun nn => (nn_Namespace nn, nn_Name nn))
            (fun p => {| nn_Namespace := fst p; nn_Name := snd p |}) _).
  by intros [].
Defined.

(** ** The store *)

Record store := {
  st_hdb : gmap NamespacedName HStreamDB;
  st_con : gmap NamespacedName Connector;
  st_ctpl : gmap NamespacedName ConnectorTemplate;
  st_sts : gmap NamespacedName StatefulSet;
  st_dep : gmap NamespacedName Deployment;
  st_svc : gmap NamespacedName Service;
  st_cm : gmap NamespacedName ConfigMap
}.

Definition empty_store : store := {|
  st_hdb := ∅; st_con := ∅; st_ctpl := ∅; st_sts := ∅; st_dep := ∅; st_svc := ∅; st_cm := ∅ |}.

Definition objs (k : Kind) (s : store) : gmap NamespacedName (obj_of k) :=
  match k with
  | KHStreamDB => st_hdb s
  | KConnector => st_con s
  | KConnectorTemplate => st_ctpl s
  | KStatefulSet => st_sts s
  | KDeployment => st_dep s
  | KService => st_svc s
  | KConfigMap => st_cm s
  end.

Definition put_hdb (h : HStreamDB) (s : store) : store := {|
  st_hdb := <[ObjectKey (hdb_Meta h) := h]> (st_hdb s); st_con := st_con s; st_ctpl := st_ctpl s;
  st_sts := st_sts s; st_dep := st_dep s; st_svc := st_svc s; st_cm := st_cm s |}.

(** The store with an object at its key. *)
Definition put (o : kobj) (s : store) : store :=
  let nn := ObjectKey (kobj_meta o) in {|
  st_hdb := st_hdb s; st_con := st_con s; st_ctpl := st_ctpl s;
  st_sts := match o with OStatefulSet x => <[nn := x]> (st_sts s) | _ => st_sts s end;
  st_dep := match o with ODeployment x => <[nn := x]> (st_dep s) | _ => st_dep s end;
  st_svc := match o with OService x => <[nn := x]> (st_svc s) | _ => st_svc s end;
  st_cm := match o with OConfigMap x => <[nn := x]> (st_cm s) | _ => st_cm s end |}.

(** An object is stored under its kind and key. *)
Definition exists_at (o : kobj) (s : store) : Prop :=
  match o with
  | OStatefulSet x => is_Some (st_sts s !! ObjectKey (sts_Meta x))
  | ODeployment x => is_Some (st_dep s !! ObjectKey (dep_Meta x))
  | OService x => is_Some (st_svc s !! ObjectKey (svc_Meta x))
  | OConfigMap x => is_Some (st_cm s !! ObjectKey (cm_Meta x))
  end.

(** ** Identity

    What a stateful set or a deployment may not change after its creation: the server rejects the
    update as invalid. For a stateful set this is its wiring (the selector, the governing service
    and the pod management policy) and its volume claims. *)
Definition sts_wiring (x y : StatefulSet) : Prop :=
  sts_Selector (sts_Spec y) = sts_Selector (sts_Spec x) /\
  sts_ServiceName (sts_Spec y) = sts_ServiceName (sts_Spec x) /\
  sts_PodManagementPolicy (sts_Spec y) = sts_PodManagementPolicy (sts_Spec x).

Definition sts_identity (x y : StatefulSet) : Prop :=
  sts_wiring x y /\ sts_VolumeClaimTemplates (sts_Spec y) = sts_VolumeClaimTemplates (sts_Spec x).

Definition dep_identity (x y : Deployment) : Prop := dep_Selector (dep_Spec y) = dep_Selector (dep_Spec x).

(** What the server stores for an object it accepts: it may complete the object with defaults, but
    keeps its key, its labels, annotations and owners, its identity and its data. *)
Definition stored_as (o o' : kobj) : Prop :=
  ObjectKey (kobj_meta o') = ObjectKey (kobj_meta o) /\
  meta_Labels (kobj_meta o') = meta_Labels (kobj_meta o) /\
  meta_Annotations (kobj_meta o') = meta_Annotations (kobj_meta o) /\
  meta_OwnerReferences (kobj_meta o') = meta_OwnerReferences (kobj_meta o) /\
  match o, o' with
  | OStatefulSet x, OStatefulSet y => sts_identity x y
  | ODeployment x, ODeployment y => dep_identity x y
  | OService _, OService _ => True
  | OConfigMap x, OConfigMap y => cm_Data y = cm_Data x
  | _, _ => False
  end.

(** ** Calls *)

(** [SetControllerReference]: the owner is recorded as the controller. *)
Definition owned_by (owner : ObjectMeta) (refs : slice OwnerReference) : Prop :=
  exists r, r ∈ elems refs /\ owner_Name r = meta_Name owner /\ owner_Controller r = true.

Definition creates (o : kobj) (s s' : store) : Prop :=
  ~ exists_at o s /\ exists o', stored_as o o' /\ s' = put o' s.

Definition updates (o : kobj) (s s' : store) : Prop :=
  exists_at o s /\ exists o', stored_as o o' /\ s' = put o' s.

(** The status subresource: metadata and spec stay those of the server. *)
Definition with_status (h old : HStreamDB) : HStreamDB :=
  {| hdb_Meta := hdb_Meta old; hdb_Spec := hdb_Spec old; hdb_Status := hdb_Status h |}.

Definition status_updates (h h' : HStreamDB) (s s' : store) : Prop :=
  exists old, st_hdb s !! ObjectKey (hdb_Meta h) = Some old /\
    h' = with_status h old /\ s' = put_hdb h' s.

Definition served (s s' : store) (c : call) : resp c -> Prop :=
  match c with
  | CGet k nn => fun r => s' = s /\
      match r with
      | inr o => objs k s !! nn = Some o
      | inl err => IsNotFound err = true -> objs k s !! nn = None
      end
  | CCreate o => fun r =>
      match r with None => creates o s s' | Some _ => s' = s \/ creates o s s' end
  | CUpdate o => fun r =>
      match r with None => updates o s s' | Some _ => s' = s \/ updates o s s' end
  | CStatusUpdate h => fun r =>
      match r with
      | inr h' => status_updates h h' s s'
      | inl _ => s' = s \/ exists h', status_updates h h' s s'
      end
  | CSetOwner owner _ => fun r =>
      s' = s /\ match r with inr refs => owned_by owner refs | inl _ => True end
  | _ => fun _ => s' = s
  end.

Definition serves (s : store) (e : event) (s' : store) : Prop := served s s' (ev_call e) (ev_resp e).

(** ** Other clients *)

(** The names of the workloads and of the config map with the number of shards. *)
Definition component_name (name : string) (ct : ComponentType) : string := name +:+ "-" +:+ ct_string ct.
Definition nshards_name (name : string) : string := name +:+ "-nshards".

(** Users may create, change and delete the custom resources, and anybody may delete workloads
    and services. Others keep the identity of the workloads, do not create workloads under the
    names of components, and leave the number of shards alone. *)
Record env_step (s s' : store) : Prop := {
  env_hdb nn h : st_hdb s' !! nn = Some h -> ObjectKey (hdb_Meta h) = nn;
  env_sts nn x : st_sts s' !! nn = Some x -> ObjectKey (sts_Meta x) = nn /\
    ((exists x0, st_sts s !! nn = Some x0 /\ sts_identity x0 x) \/
     forall name ct, nn_Name nn <> component_name name ct);
  env_dep nn x : st_dep s' !! nn = Some x -> ObjectKey (dep_Meta x) = nn /\
    ((exists x0, st_dep s !! nn = Some x0 /\ dep_identity x0 x) \/
     forall name ct, nn_Name nn <> component_name name ct);
  env_svc nn x : st_svc s' !! nn = Some x -> ObjectKey (svc_Meta x) = nn;
  env_cm nn x : st_cm s' !! nn = Some x -> ObjectKey (cm_Meta x) = nn;
  env_nshards ns name x : st_cm s !! {| nn_Namespace := ns; nn_Name := nshards_name name |} = Some x ->
    exists x', st_cm s' !! {| nn_Namespace := ns; nn_Name := nshards_name name |} = Some x' /\
      cm_Data x' = cm_Data x
}.

(** ** Lemmas *)

(** A name that ends in the name of a component determines the component and the rest. *)
Lemma string_app_split (s1 t1 s2 t2 : string) :
  s1 +:+ t1 = s2 +:+ t2 -> exists u, (s2 = s1 +:+ u /\ t1 = u +:+ t2) \/ (s1 = s2 +:+ u /\ t2 = u +:+ t1).
Proof.
  revert s2. induction s1 as [|a s1 IH]; intros s2 H; [by exists s2; left|].
  destruct s2 as [|b s2]; simpl in H; [exists (String a s1); right; by subst|].
  injection H as -> H. destruct (IH s2 H) as (u & [[-> ->]|[-> ->]]); exists u; [left|right]; done.
Qed.

Definition component_suffix (ct : ComponentType) : string := "-" +:+ ct_string ct.

Lemma component_suffix_free ct ct' u : component_suffix ct = u +:+ component_suffix ct' -> u = "" /\ ct = ct'.
Proof.
  destruct ct, ct'; unfold component_suffix; simpl; intros H;
    repeat (destruct u as [|? u]; simpl in H; [try (by split)|injection H as ? H; subst; try done]).
  all: by destruct u.
Qed.

Lemma component_name_inj n n' ct ct' : component_name n ct = component_name n' ct' -> n = n' /\ ct = ct'.
Proof.
  unfold component_name. intros H. apply string_app_split in H as (u & [[-> H]|[-> H]]);
    apply component_suffix_free in H as [-> ->]; by rewrite string_app_nil_r.
Qed.

Lemma objs_put_sts x s : st_sts (put (OStatefulSet x) s) = <[ObjectKey (sts_Meta x) := x]> (st_sts s).
Proof. done. Qed.
