(* ===== verification/Status.v ===== *)
(** * The overall status: [src/internal/controller/update_status.go] *)
From S2P Require Import Prelude GoStrings KubeTypes ApiTypes Effects Conditions Naming Requeue Workload.

(** The map of the optional components, as the list of its entries. *)
Definition componentsMap (hdb : HStreamDB) : list (ComponentType * string) :=
  match spec_Console (hdb_Spec hdb) with Some _ => [(ComponentTypeConsole, ConsoleReady)] | None => [] end ++
  match spec_Gateway (hdb_Spec hdb) with Some _ => [(ComponentTypeGateway, GatewayReady)] | None => [] end.

Definition conditionList (hdb : HStreamDB) : list string :=
  [HMetaReady; HStoreReady; HServerReady] ++
  match spec_Console (hdb_Spec hdb) with Some _ => [ConsoleReady] | None => [] end ++
  match spec_Gateway (hdb_Spec hdb) with Some _ => [GatewayReady] | None => [] end.

Section Status.
Context {SS : SortSlice}.

(** The loop of [checkComponentsReady]: a component counts as ready when its deployment exists. *)
Fixpoint check_components (order : list (ComponentType * string)) (hdb : HStreamDB)
    : prog (option go_error * HStreamDB) :=
  match order with
  | [] => Ret (None, hdb)
  | (component, condition) :: order' =>
      let* deploy := kube_Get KDeployment (ObjectKey (GetObjectMetadata hdb None component)) in
      match deploy with
      | inl err => Ret (Some err, hdb)
      | inr _ =>
          let* hdb := SetCondition hdb
            (mkCondition condition ConditionTrue condition (ct_string component +:+ " is ready")) in
          check_components order' hdb
      end
  end.

Definition checkComponentsReady (hdb : HStreamDB) : prog (option go_error * HStreamDB) :=
  let* code := range_order (length (componentsMap hdb)) in
  check_components (permute code (componentsMap hdb)) hdb.

(** The error of [checkAllReady] is always nil. *)
Definition checkAllReady (hdb : HStreamDB) : prog HStreamDB :=
  if forallb (IsConditionTrue hdb) (conditionList hdb) then
    SetCondition hdb (mkCondition Ready ConditionTrue "AllComponentsReady" "All components are ready")
  else SetCondition hdb (mkCondition Ready ConditionFalse "AllComponentsNotReady" "").

Definition updateStatus_reconcile (hdb : HStreamDB) : prog (option requeue * HStreamDB) :=
  let* (err, hdb) := checkComponentsReady hdb in
  match err with
  | Some err => Ret (Some (requeue_error err), hdb)
  | None =>
      let* hdb := checkAllReady hdb in
      let* r := kube_StatusUpdate hdb in
      match r with
      | inl err => Ret (Some (requeue_error err), hdb)
      | inr hdb =>
          if negb (IsConditionTrue hdb Ready) then
            Ret (Some {| rq_delay := 0; rq_curError := None; rq_message := "HStreamDB is not ready";
                         rq_delayedRequeue := true |}, hdb)
          else Ret (None, hdb)
      end
  end.

End Status.

(** ** Lemmas *)

Definition deployment_key (ct : ComponentType) (hdb : HStreamDB) : NamespacedName :=
  {| nn_Namespace := hdb_Namespace hdb; nn_Name := GetResName ct hdb |}.

Section Facts.
Context {SS : SortSlice}.

Lemma IsConditionTrue_set now hdb c t :
  conditions_ok hdb ->
  IsConditionTrue (SetCondition_at now hdb c) t =
    if decide (t = cond_Type c) then bool_decide (cond_Status c = ConditionTrue) else IsConditionTrue hdb t.
Proof.
  intros Hok. unfold IsConditionTrue. rewrite GetCondition_SetCondition_at by done. by case_decide.
Qed.

(** The loop records exactly the components it has found. *)
Definition checked (order : list (ComponentType * string)) (hdb hdb' : HStreamDB) (tr : list event) : Prop :=
  conditions_ok hdb' /\ hdb_Meta hdb' = hdb_Meta hdb /\ hdb_Spec hdb' = hdb_Spec hdb /\
  (forall t, IsConditionTrue hdb' t = bool_decide (t ∈ order.*2) || IsConditionTrue hdb t) /\
  (forall ct, ct ∈ order.*1 -> exists d, Ev (CGet KDeployment (deployment_key ct hdb)) (inr d) ∈ tr).

Lemma checked_cons component condition order now hdb hdb' tr d msg :
  conditions_ok hdb ->
  checked order (SetCondition_at now hdb (mkCondition condition ConditionTrue condition msg)) hdb' tr ->
  checked ((component, condition) :: order) hdb hdb'
    (Ev (CGet KDeployment (deployment_key component hdb)) (inr d) :: Ev CNow now :: tr).
Proof.
  intros Hok (H1 & H2 & H3 & H4 & H5). rewrite SetCondition_at_meta in H2. rewrite SetCondition_at_spec in H3.
  split_and!; [done|done|done| |].
  - intros t. rewrite H4, IsConditionTrue_set by done. rewrite fmap_cons.
    cbn [cond_Type cond_Status mkCondition snd]. case_decide as Ht.
    + subst. rewrite (bool_decide_true (condition ∈ condition :: _)) by apply list_elem_of_here.
      change (bool_decide (ConditionTrue = ConditionTrue)) with true. apply orb_true_r.
    + f_equal. apply bool_decide_ext. rewrite elem_of_cons. naive_solver.
  - intros ct. rewrite fmap_cons, elem_of_cons. intros [->|Hin]; [exists d; apply list_elem_of_here|].
    destruct (H5 ct Hin) as [d' Hd]. exists d'. do 2 apply list_elem_of_further.
    unfold deployment_key, hdb_Namespace, GetResName, hdb_Name in *. by rewrite SetCondition_at_meta in Hd.
Qed.

Lemma check_components_wp order hdb :
  conditions_ok hdb ->
  wp (check_components order hdb) (fun tr o => quiet tr /\
    match o with
    | Done (None, hdb') => checked order hdb hdb' tr
    | Done (Some _, _) => True
    | Panic _ => False
    end).
Proof.
  revert hdb. induction order as [|[component condition] order IH]; intros hdb Hok.
  - split; [constructor|]. split_and!; try done. intros ct ?%elem_of_nil. done.
  - intros [err|d]; [by repeat constructor|]. intros now. cbn [prog_bind].
    eapply wp_mono; [apply IH, SetCondition_at_ok, Hok|].
    intros tr [[[err|] hdb']|msg] [Hq H]; (split; [by repeat constructor|]); try done.
    by eapply checked_cons.
Qed.

(** The base conditions are not those of the optional components. *)
Lemma componentsMap_base hdb t : t ∈ [HMetaReady; HStoreReady; HServerReady; Ready] -> t ∉ (componentsMap hdb).*2.
Proof.
  unfold componentsMap. destruct (spec_Console _), (spec_Gateway _); simpl;
    rewrite !elem_of_cons, !elem_of_nil; intros [->|[->|[->|[->|[]]]]]; naive_solver.
Qed.

Lemma conditionList_all hdb hdb' order tr :
  order ≡ₚ componentsMap hdb -> checked order hdb hdb' tr ->
  forallb (IsConditionTrue hdb') (conditionList hdb') =
    IsConditionTrue hdb HMetaReady && IsConditionTrue hdb HStoreReady && IsConditionTrue hdb HServerReady.
Proof.
  intros Hp (_ & _ & Hspec & Ht & _).
  assert (forall t, t ∈ (componentsMap hdb).*2 -> IsConditionTrue hdb' t = true) as Hopt.
  { intros t Hin. rewrite Ht, bool_decide_true; [done|]. by rewrite Hp. }
  assert (forall t, t ∈ [HMetaReady; HStoreReady; HServerReady; Ready] ->
    IsConditionTrue hdb' t = IsConditionTrue hdb t) as Hbase.
  { intros t Hin. rewrite Ht, bool_decide_false; [done|]. rewrite Hp. by apply componentsMap_base. }
  assert (conditionList hdb' = [HMetaReady; HStoreReady; HServerReady] ++ (componentsMap hdb).*2) as ->.
  { unfold conditionList, componentsMap. rewrite Hspec. by destruct (spec_Console _), (spec_Gateway _). }
  rewrite forallb_app. cbn [forallb]. rewrite !Hbase by set_solver.
  rewrite (proj2 (forallb_forall _ _)); [by rewrite !andb_true_r, andb_assoc|].
  intros t Hin%list_elem_of_In. auto.
Qed.

(** The part of [updateStatus] after the components have been checked. *)
Lemma checkAllReady_wp hdb Q :
  (forall now c, cond_Type c = Ready ->
     cond_Status c = (if forallb (IsConditionTrue hdb) (conditionList hdb) then ConditionTrue else ConditionFalse) ->
     Q [Ev CNow now] (Done (SetCondition_at now hdb c))) ->
  wp (checkAllReady hdb) Q.
Proof.
  intros HQ. unfold checkAllReady.
  destruct (forallb _ _) eqn:E; intros now; cbn; apply HQ; done.
Qed.

(** How [updateStatus] ends a pass: complete only when the object it has stored is ready. *)
Lemma updateStatus_wp hdb :
  wp (updateStatus_reconcile hdb) (fun tr o =>
    match o with
    | Done (None, hdb') => IsConditionTrue hdb' Ready = true /\
        exists tr' hdb0, tr = tr' ++ [Ev (CStatusUpdate hdb0) (inr hdb')]
    | Done (Some rq, _) => effective rq
    | Panic _ => True
    end).
Proof.
  unfold updateStatus_reconcile.
  eapply (wp_weaken_bind _ _ (fun _ _ => True)); [by apply wp_True| |done].
  intros tr1 [[err|] hdb1] _; [apply (proj1 (requeue_error_stopping err))|].
  apply wp_bind, checkAllReady_wp. intros now c _ _. intros [err|hdb2]; cbn [prog_bind].
  { apply (proj1 (requeue_error_stopping err)). }
  destruct (IsConditionTrue hdb2 Ready) eqn:E; cbn [negb wp].
  - split; [done|]. eexists (tr1 ++ [_]), _. by rewrite <-app_assoc.
  - split; [done|]. by left.
Qed.

(** A run of [updateStatus] changes nothing, or ends by storing the overall condition. *)
Lemma updateStatus_update_wp hdb :
  conditions_ok hdb ->
  wp (updateStatus_reconcile hdb) (fun tr _ =>
    quiet tr \/
    exists code hdb1 tr' now c r,
      let order := permute code (componentsMap hdb) in
      checked order hdb hdb1 tr' /\ quiet tr' /\ cond_Type c = Ready /\
      cond_Status c = (if forallb (IsConditionTrue hdb1) (conditionList hdb1) then ConditionTrue else ConditionFalse) /\
      tr = Ev (CRange (length (componentsMap hdb))) code ::
           tr' ++ [Ev CNow now; Ev (CStatusUpdate (SetCondition_at now hdb1 c)) r]).
Proof.
  intros Hok. unfold updateStatus_reconcile, checkComponentsReady. intros code. cbn [prog_bind range_order].
  eapply wp_weaken_bind; [by apply check_components_wp| |by intros tr msg [_ []]].
  intros tr [[err|] hdb1] [Hq H]; [left; rewrite app_nil_r; by repeat constructor|].
  apply wp_bind, checkAllReady_wp. intros now c Hc Hs r.
  destruct r as [err|hdb2]; cbn [prog_bind]; [|destruct (negb _)]; cbn [wp app]; right.
  all: exists code, hdb1, tr, now, c; eexists; split_and!; try done; by rewrite ?app_nil_r.
Qed.

(** *** Properties *)

(** C9: the status [updateStatus] stores says [Ready] exactly when HMeta, HStore and HServer are
    recorded as ready; it is stored only when the deployment of every optional component the user
    asks for was found in the same pass, whose conditions are then true; every other condition
    stays as true or untrue as it was, and there is still one condition per type. The order in which the optional components
    are visited does not matter. *)
Theorem updateStatus_records hdb tr o hdb' r :
  conditions_ok hdb ->
  exec (updateStatus_reconcile hdb) tr o -> Ev (CStatusUpdate hdb') r ∈ tr ->
  conditions_ok hdb' /\
  IsConditionTrue hdb' Ready =
    IsConditionTrue hdb HMetaReady && IsConditionTrue hdb HStoreReady && IsConditionTrue hdb HServerReady /\
  (forall t, t <> Ready ->
     IsConditionTrue hdb' t = bool_decide (t ∈ (componentsMap hdb).*2) || IsConditionTrue hdb t) /\
  (forall ct, ct ∈ (componentsMap hdb).*1 ->
     exists d, Ev (CGet KDeployment (deployment_key ct hdb)) (inr d) ∈ tr).
Proof.
  intros Hok He Hin. pose proof (updateStatus_update_wp hdb Hok) as Hw. rewrite wp_exec in Hw.
  destruct (Hw _ _ He) as [Hq|(code & hdb1 & tr' & now & c & r1 & H & Hq & Hc & Hs & ->)].
  { by destruct (quiet_status _ _ _ Hq Hin). }
  rewrite elem_of_cons, elem_of_app, !elem_of_cons, elem_of_nil in Hin.
  destruct Hin as [Hin|[Hin|[Hin|[Hin|[]]]]];
    [by apply (f_equal ev_call) in Hin|by destruct (quiet_status _ _ _ Hq Hin)|by apply (f_equal ev_call) in Hin|].
  apply (f_equal ev_call) in Hin. injection Hin as ->. clear r.
  assert (permute code (componentsMap hdb) ≡ₚ componentsMap hdb) as Hp by apply permute_Permutation.
  pose proof (conditionList_all _ _ _ _ Hp H) as Hall. destruct H as (Hok1 & Hm & Hsp & Ht & Hget).
  split_and!; [by apply SetCondition_at_ok| | |].
  - rewrite IsConditionTrue_set, decide_True, Hs, Hall by done. by destruct (_ && _).
  - intros t Hne. rewrite IsConditionTrue_set, decide_False, Ht by congruence. f_equal.
    apply bool_decide_ext. by rewrite Hp.
  - intros ct Hct. rewrite <-Hp in Hct. destruct (Hget ct Hct) as [d Hd]. exists d.
    apply list_elem_of_further, elem_of_app. by left.
Qed.

End Facts.
