(* ===== verification/Controller.v ===== *)
(** * The HStreamDB controller: [src/internal/controller/hstreamdb_controller.go]

    [Reconcile] reads the object and runs the twelve sub-reconcilers in order. *)
From S2P Require Import Prelude GoStrings KubeTypes ApiTypes Effects Conditions FlagSet Naming Merge Requeue Workload LogDevice Services Admin HMeta AdminServer HStore HServer Gateway Console Bootstrap Status.

(** The [UpdateFunc] of the event filter: an update of the status alone is no reason to reconcile. *)
Definition UpdateFunc (objectOld objectNew : HStreamDB) : bool :=
  negb (meta_Generation (hdb_Meta objectNew) =? meta_Generation (hdb_Meta objectOld))%Z.

Section Controller.
Context {KL : KubeLib} {G : Gabs} {SS : SortSlice} {P : AdminClientProvider}.

Definition subReconcilers : list subReconciler :=
  [LogDeviceConfigReconciler_reconcile;
   addServices_reconcile;
   addHMeta.reconcile;
   updateHMetaStatus_reconcile;
   addAdminServer.reconcile;
   addHStore.reconcile;
   bootstrapHStore_reconcile;
   addHServer.reconcile;
   bootstrapHServer_reconcile;
   addGateway.reconcile;
   addConsole.reconcile;
   updateStatus_reconcile].

Definition Reconcile (req : NamespacedName) : prog Result :=
  let* r := kube_Get KHStreamDB req in
  match r with
  | inl err =>
      if IsNotFound err then Ret {| res_RequeueAfter := 0; res_err := None |}
      else Ret {| res_RequeueAfter := 0; res_err := Some err |}
  | inr hdb => subReconcile hdb subReconcilers
  end.

End Controller.

(** ** Lemmas *)

Section Facts.
Context {KL : KubeLib} {G : Gabs} {SS : SortSlice} {P : AdminClientProvider}.

Lemma bootstrapHStore_stops : stops bootstrapHStore_reconcile.
Proof. intros hdb. eapply wp_mono; [apply bootstrapHStore_wp|]. by intros tr [[[rq|] hdb']|msg]. Qed.

(** All sub-reconcilers but the last end the pass with every request they make. *)
Lemma subReconcilers_stop : Forall stops (take 11 subReconcilers).
Proof.
  cbn [take subReconcilers]. repeat (apply Forall_cons_2); [..|apply Forall_nil_2].
  all: first [apply updateHMetaStatus_stops | apply bootstrapHStore_stops | apply bootstrapHServer_stops
    | apply steady_stops].
  - apply LogDeviceConfigReconciler_steady.
  - apply addServices_steady.
  - apply addHMeta_steady.
  - apply addAdminServer_steady.
  - apply addHStore_steady.
  - apply addHServer_steady.
  - apply addGateway_steady.
  - apply addConsole_steady.
Qed.

Lemma subReconcilers_split : subReconcilers = take 11 subReconcilers ++ [updateStatus_reconcile].
Proof. done. Qed.

Lemma subReconcilers_effective : Forall effective_sub subReconcilers.
Proof.
  rewrite subReconcilers_split. apply Forall_app_2.
  - eapply Forall_impl; [apply subReconcilers_stop|]. apply stops_effective.
  - apply Forall_cons_2; [|apply Forall_nil_2]. intros hdb. eapply wp_mono; [apply updateStatus_wp|].
    by intros tr [[[rq|] hdb']|msg].
Qed.

Lemma steady_keeps s hdb tr hdb' : steady s -> exec (s hdb) tr (Done (None, hdb')) -> hdb' = hdb.
Proof. intros Hs H. specialize (Hs hdb). rewrite wp_exec in Hs. exact (Hs _ _ H). Qed.

(** The first seven sub-reconcilers, up to [bootstrapHStore]. *)
Definition until_hstore : list subReconciler := take 7 subReconcilers.

(** One steady step of a pass that is complete in the end. *)
Lemma pass_steady s subs hdb d tr hdb' d' :
  steady s -> pass (s :: subs) hdb d tr (PassComplete hdb' d') ->
  exists tr1 tr2, tr = tr1 ++ tr2 /\ pass subs hdb d tr2 (PassComplete hdb' d').
Proof.
  intros Hs H. apply pass_cons_complete in H as (hdb1 & tr1 & tr2 & -> & H1 & H2); [|by apply steady_stops].
  apply (steady_keeps _ _ _ _ Hs) in H1 as ->. eauto.
Qed.

(** When they are complete, [updateHMetaStatus] has let the pass go on with the object it left, and
    that object says that HStore is ready. *)
Lemma until_hstore_complete hdb tr hdb' d :
  pass until_hstore hdb false tr (PassComplete hdb' d) ->
  d = false /\ IsConditionTrue hdb' HStoreReady = true /\
  exists tr1 tr2 tr3, tr = tr1 ++ tr2 ++ tr3 /\ exec (updateHMetaStatus_reconcile hdb) tr2 (Done (None, hdb')).
Proof.
  unfold until_hstore. cbn [take subReconcilers]. intros H.
  apply pass_steady in H as (t1 & ? & -> & H); [|apply LogDeviceConfigReconciler_steady].
  apply pass_steady in H as (t2 & ? & -> & H); [|apply addServices_steady].
  apply pass_steady in H as (t3 & ? & -> & H); [|apply addHMeta_steady].
  apply pass_cons_complete in H as (hdb1 & t4 & ? & -> & H4 & H); [|apply updateHMetaStatus_stops].
  apply pass_steady in H as (t5 & ? & -> & H); [|apply addAdminServer_steady].
  apply pass_steady in H as (t6 & ? & -> & H); [|apply addHStore_steady].
  apply pass_cons_complete in H as (hdb2 & t7 & ? & -> & H7 & H); [|apply bootstrapHStore_stops].
  apply pass_nil in H as (-> & -> & ->).
  pose proof (bootstrapHStore_wp hdb1) as Hb. rewrite wp_exec in Hb.
  destruct (Hb _ _ H7) as [-> Hready]. split; [done|]. split; [done|].
  eexists (t1 ++ t2 ++ t3), t4, _. split; [by rewrite <-!app_assoc|done].
Qed.

(** *** Properties *)

(** A reconciliation is never lost: it panics, or it asks the work queue to come back, or the
    object no longer exists, or the pass was complete and ended by storing a status that says
    [Ready]. A cluster that is not ready is always looked at again. *)
Theorem Reconcile_never_lost req tr r :
  exec (Reconcile req) tr (Done r) ->
  retried r \/
  (exists err, IsNotFound err = true /\ tr = [Ev (CGet KHStreamDB req) (inl err)]) \/
  (exists tr' hdb0 hdb', IsConditionTrue hdb' Ready = true /\
     tr = tr' ++ [Ev (CStatusUpdate hdb0) (inr hdb'); Ev (CEvent "ReconciliationComplete" "") tt]).
Proof.
  unfold Reconcile. cbn [kube_Get prog_bind exec]. intros ([err|hdb] & tr1 & -> & H); cbn [prog_bind] in H.
  { destruct (IsNotFound err) eqn:E; destruct H as [-> [= ->]]; [right; left; eauto|left; by left]. }
  apply subReconcile_not_lost in H as [H|(tr' & hdb' & -> & H)]; [by left| |apply subReconcilers_effective].
  right. right. rewrite subReconcilers_split in H.
  apply pass_app in H as [[_ H]|(hdb1 & [] & tr2 & tr3 & -> & H1 & H2)]; [by destruct (H hdb' false)| |].
  { by apply pass_cons_undelayed in H2 as (? & ? & ? & _ & _ & (_ & _ & [=])%pass_nil). }
  apply pass_cons_undelayed in H2 as (hdb2 & tr4 & ? & -> & H2 & (-> & <- & _)%pass_nil).
  pose proof (updateStatus_wp hdb1) as Hw. rewrite wp_exec in Hw.
  destruct (Hw _ _ H2) as (Hr & tr5 & hdb0 & ->).
  exists (Ev (CGet KHStreamDB req) (inr hdb) :: tr2 ++ tr5), hdb0, hdb'. split; [done|].
  cbn [app]. by rewrite app_nil_r, <-!app_assoc.
Qed.

End Facts.

