(* ===== verification/Bounds.v ===== *)
(** * The bounds of a pass

    How much one pass can do, and how long it can put the next one off: a bound on the objects it
    writes and on the status updates, whatever the server answers, and on the requeue delays. *)
From S2P Require Import Prelude GoStrings KubeTypes ApiTypes Effects Conditions FlagSet Naming Constants Merge Requeue Workload LogDevice Services Admin HMeta AdminServer HStore HServer Gateway Console Bootstrap Status Controller.

(** ** The cost of a program: at most [n] writes of objects and [m] status updates in every run *)

Fixpoint cost {A} (n m : nat) (p : prog A) : Prop :=
  match p with
  | Ret _ | Crash _ => True
  | Do c k =>
      match c return (resp c -> prog A) -> Prop with
      | CCreate _ | CUpdate _ => fun k => 1 <= n /\ forall r, cost (n - 1) m (k r)
      | CStatusUpdate _ => fun k => 1 <= m /\ forall r, cost n (m - 1) (k r)
      | _ => fun k => forall r, cost n m (k r)
      end k
  end.

Definition status_update (e : event) : option HStreamDB :=
  match ev_call e with CStatusUpdate h => Some h | _ => None end.

Definition status_updates_of (tr : list event) : list HStreamDB := omap status_update tr.

Lemma cost_exec {A} n m (p : prog A) tr o :
  cost n m p -> exec p tr o -> length (writes tr) <= n /\ length (status_updates_of tr) <= m.
Proof.
  revert n m tr. induction p as [a|msg|c k IH]; intros n m tr; cbn [cost exec].
  - intros _ [-> _]. cbn. lia.
  - intros _ [-> _]. cbn. lia.
  - intros Hc (r & tr' & -> & He). unfold writes, status_updates_of in *.
    destruct c; cbn [omap list_omap written status_update ev_call];
      first [ destruct Hc as [Hle Hc]; specialize (IH r _ _ tr' (Hc r) He); cbn [length]; lia
            | exact (IH r n m tr' (Hc r) He) ].
Qed.

Lemma cost_mono {A} n m n' m' (p : prog A) : cost n m p -> n <= n' -> m <= m' -> cost n' m' p.
Proof.
  revert n m n' m'. induction p as [a|msg|c k IH]; intros n m n' m' Hc Hn Hm; [done|done|].
  destruct c; cbn [cost] in *;
    first [ destruct Hc as [Hle Hc]; split; [lia|]; intros r; eapply IH; [apply Hc|lia|lia]
          | intros r; eapply IH; [apply Hc|lia|lia] ].
Qed.

Lemma cost_bind {A B} n1 m1 n2 m2 (p : prog A) (f : A -> prog B) :
  cost n1 m1 p -> (forall a, cost n2 m2 (f a)) -> cost (n1 + n2) (m1 + m2) (prog_bind p f).
Proof.
  intros Hp Hf. revert n1 m1 Hp. induction p as [a|msg|c k IH]; intros n1 m1 Hp; cbn [prog_bind].
  - eapply cost_mono; [apply Hf|lia|lia].
  - done.
  - destruct c; cbn [cost] in *;
      first [ destruct Hp as [Hle Hp]; split; [lia|]; intros r; eapply cost_mono; [apply IH, Hp|lia|lia]
            | intros r; by apply IH ].
Qed.

(** A program that writes nothing, before another. *)
Lemma cost_free {A B} n m (p : prog A) (f : A -> prog B) :
  cost 0 0 p -> (forall a, cost n m (f a)) -> cost n m (prog_bind p f).
Proof. apply (cost_bind 0 0). Qed.

Lemma cost_lift {A B} n m (g : go A) (f : A -> prog B) : (forall a, cost n m (f a)) -> cost n m (prog_bind (lift g) f).
Proof. intros H. by destruct g; cbn. Qed.

(** Programs that only read cost nothing. *)
Lemma cost_reads {A} (p : prog A) : reads_only p -> cost 0 0 p.
Proof.
  unfold reads_only. induction p as [a|msg|c k IH]; intros H; [done|done|]. cbn [wp cost] in *.
  assert (forall r, mutates c = false /\ wp (k r) (fun tr _ => quiet tr)) as H'.
  { intros r. specialize (H r). split.
    - destruct (exec_total (k r)) as (tr & o & He). rewrite wp_exec in H. specialize (H _ _ He).
      by apply Forall_cons in H as [? _].
    - eapply wp_mono; [exact H|]. by intros tr o [_ ?]%Forall_cons. }
  destruct c; cbn [cost]; try (intros r; apply IH, H').
  all: exfalso; first [by destruct (H' None) | by destruct (H' (inl (new_error "")))].
Qed.

(** ** The sub-reconcilers *)

Lemma cost_createOwned owner meta obj : cost 1 0 (createOwned owner meta obj).
Proof. intros [err|refs]; cbn; [done|]. split; [lia|done]. Qed.

Lemma cost_ensureOwned {k} {M : Managed k} owner (desired : obj_of k) update :
  (forall existing, cost 1 0 (update existing)) -> cost 1 0 (ensureOwned owner desired update).
Proof.
  intros Hu [err|existing]; cbn [prog_bind].
  - destruct (IsNotFound err); [apply cost_createOwned|done].
  - destruct (isHashChanged _ _); [apply Hu|done].
Qed.

Lemma cost_ensureWorkload {k} {M : Managed k} hdb reason (desired : obj_of k) copy :
  cost 1 0 (ensureWorkload hdb reason desired copy).
Proof.
  apply (cost_bind 1 0 0 0); [|done]. apply cost_ensureOwned. intros existing r. cbn. split; [lia|done].
Qed.

(** The delay a request asks for. *)
Definition delay_ok (rq : requeue) : Prop :=
  (0 <= rq_delay rq <= 10 * Second)%Z /\ (rq_curError rq <> None -> rq_delay rq = 0%Z).

Definition delays (s : subReconciler) : Prop :=
  forall hdb, wp (s hdb) (fun _ o => match o with Done (Some rq, _) => delay_ok rq | _ => True end).

Definition outcome_ok (o : go (option requeue * HStreamDB)) : Prop :=
  match o with Done (Some rq, _) => delay_ok rq | _ => True end.

Lemma delay_error err : delay_ok (requeue_error err).
Proof. split; [unfold Second; cbn; lia|done]. Qed.
Lemma delay_message msg d : (0 <= d <= 10 * Second)%Z -> delay_ok (requeue_message msg d).
Proof. by split. Qed.

Lemma delays_bind {A} (p : prog A) f : (forall a, wp (f a) (fun _ o => outcome_ok o)) -> wp (prog_bind p f) (fun _ o => outcome_ok o).
Proof. intros H. by apply wp_bind_any. Qed.

Lemma delays_ensureWorkload {k} {M : Managed k} hdb reason (desired : obj_of k) copy :
  wp (ensureWorkload hdb reason desired copy) (fun _ o => outcome_ok o).
Proof. apply ensureWorkload_post. intros [err|]; [apply delay_error|done]. Qed.

Section Bounds.
Context {KL : KubeLib} {G : Gabs} {SS : SortSlice} {AJ : AdminJson}.

Lemma cost_createOrUpdate hdb svc : cost 1 0 (createOrUpdate hdb svc).
Proof.
  apply cost_lift. intros meta. apply cost_ensureOwned. intros existing. apply cost_lift.
  intros merged. cbn. split; [lia|done].
Qed.

Lemma cost_addServices hdb : cost 4 0 (addServices_reconcile hdb).
Proof.
  unfold addServices_reconcile.
  apply (cost_bind 1 0 3 0).
  { unfold addHMetaService. destruct (spec_ExternalHMeta _); [done|]. apply cost_lift. intros [f [err|]]; [done|].
    apply cost_lift. intros [port e]. apply cost_lift. intros svc. apply cost_createOrUpdate. }
  intros [err|]; [done|]. apply (cost_bind 1 0 2 0).
  { apply cost_lift. intros ports. apply cost_createOrUpdate. }
  intros [err|]; [done|]. apply (cost_bind 1 0 1 0).
  { apply cost_lift. intros ports. apply cost_lift. intros svc. apply cost_createOrUpdate. }
  intros [err|]; [done|]. apply (cost_bind 1 0 0 0).
  { apply cost_lift. intros ports. apply cost_lift. intros svc. apply cost_createOrUpdate. }
  by intros [err|].
Qed.

Lemma cost_LogDeviceConfig hdb : cost 2 0 (LogDeviceConfigReconciler_reconcile hdb).
Proof.
  apply (cost_bind 1 0 1 0).
  { intros [err|cm]; cbn [prog_bind]; [|done]. destruct (IsNotFound err); [|done].
    apply (cost_bind 1 0 0 0); [apply cost_createOwned|done]. }
  intros [rq|]; [done|]. apply (cost_bind 1 0 0 0); [|done].
  intros [err|cm]; cbn [prog_bind]; [|done]. destruct (IsNotFound err); [|done].
  apply (cost_bind 1 0 0 0); [apply cost_createOwned|done].
Qed.

Lemma cost_updateCondition prefix hdb c : cost 0 1 (updateCondition prefix hdb c).
Proof. intros now. cbn. split; [lia|]. by intros [err|h]. Qed.

Lemma cost_checkPods hdb name : cost 0 0 (checkPodRunningStatus hdb KStatefulSet name).
Proof.
  intros [err|sts]; cbn; [done|]. destruct (decide _); cbn; [done|].
  destruct (sts_Replicas _); [|done]. by destruct (_ || _).
Qed.

Lemma cost_GetAdminClient {A} n m hdb (f : IAdminClient -> prog A) :
  (forall client, client_ok client -> cost n m (f client)) ->
  cost n m (prog_bind (GetAdminClient (AdminClientProvider := adminClientProvider) hdb) f).
Proof. intros H [err|]; cbn; [done|apply H, AdminClient_ok]. Qed.

Lemma cost_updateHMetaStatus hdb : cost 0 1 (updateHMetaStatus_reconcile (P := adminClientProvider) hdb).
Proof.
  apply cost_free; [destruct (spec_ExternalHMeta _); [exact I|apply cost_checkPods]|].
  intros [err|]; [done|]. apply cost_GetAdminClient. intros client Hc. apply cost_free; [apply cost_reads, Hc|].
  intros [err|cluster]; [done|]. destruct (negb _); [done|]. intros code. apply cost_updateCondition.
Qed.

Lemma cost_bootstrapHStore hdb : cost 0 1 (bootstrapHStore_reconcile (P := adminClientProvider) hdb).
Proof.
  unfold bootstrapHStore_reconcile. destruct (IsConditionTrue _ _); [done|].
  apply cost_free; [apply cost_checkPods|]. intros [err|]; [done|]. apply cost_GetAdminClient.
  intros client Hc. apply cost_free; [apply cost_reads, Hc|]. intros [err|out]; [done|].
  apply (cost_bind 0 1 0 0); [apply cost_updateCondition|]. by intros [[rq|] h].
Qed.

Lemma cost_bootstrapHServer hdb : cost 0 1 (bootstrapHServer_reconcile (P := adminClientProvider) hdb).
Proof.
  unfold bootstrapHServer_reconcile. destruct (IsConditionTrue _ _); [done|].
  apply cost_free; [apply cost_checkPods|]. intros [err|]; [done|]. apply cost_GetAdminClient.
  intros client Hc. apply cost_lift. intros svc. apply cost_free; [apply cost_reads, Hc|]. intros [err|out]; [done|].
  apply cost_updateCondition.
Qed.

Lemma cost_check_components l hdb : cost 0 0 (check_components l hdb).
Proof.
  revert hdb. induction l as [|[c t] l IH]; intros hdb; [done|]. intros [err|d]; [done|]. intros now. apply IH.
Qed.

Lemma cost_updateStatus hdb : cost 0 1 (updateStatus_reconcile hdb).
Proof.
  apply cost_free.
  { intros code. apply cost_check_components. }
  intros [[err|] hdb1]; [done|]. apply cost_free.
  { unfold checkAllReady. destruct (forallb _ _); by intros now. }
  intros hdb2. cbn. split; [lia|]. intros [err|hdb3]; [done|]. by destruct (negb _).
Qed.

Lemma cost_gateway_get hdb gateway : cost 0 0 (addGateway.getDeployment hdb gateway).
Proof.
  unfold addGateway.getDeployment, addGateway.getPodTemplate, addGateway.getContainer, addGateway.findHServerPort.
  intros r. cbn [prog_bind]. rewrite GetHeadlessService_done. by destruct r.
Qed.

(** ** The loop *)

Lemma cost_loop subs budget hdb delayed :
  Forall2 (fun (s : subReconciler) (b : nat * nat) => forall hdb, cost (fst b) (snd b) (s hdb)) subs budget ->
  cost (sum_list (budget.*1)) (sum_list (budget.*2)) (subReconcile_loop subs hdb delayed).
Proof.
  intros H. revert hdb delayed. induction H as [|s b subs budget Hs _ IH]; intros hdb delayed; cbn [subReconcile_loop].
  { by destruct delayed. }
  cbn [fmap list_fmap sum_list]. apply cost_bind; [apply Hs|]. intros [[rq|] hdb']; [|apply IH].
  destruct (rq_delayedRequeue rq); [apply IH|]. unfold processRequeue.
  destruct (rq_curError rq) as [err|]; [destruct (IsConflict err)|]; by intros r.
Qed.

(** The writes of objects and of the status, sub-reconciler by sub-reconciler. *)
Definition budget : list (nat * nat) :=
  [(2, 0); (4, 0); (1, 0); (0, 1); (1, 0); (1, 0); (0, 1); (1, 0); (0, 1); (1, 0); (1, 0); (0, 1)].

Lemma subReconcilers_budget :
  Forall2 (fun (s : subReconciler) (b : nat * nat) => forall hdb, cost (fst b) (snd b) (s hdb))
    (subReconcilers (P := adminClientProvider)) budget.
Proof.
  repeat (apply Forall2_cons; split); [..|apply Forall2_nil; done]; intros hdb; cbn [fst snd].
  - apply cost_LogDeviceConfig.
  - apply cost_addServices.
  - unfold addHMeta.reconcile. destruct (spec_ExternalHMeta _); [done|]. apply cost_lift. intros. apply cost_ensureWorkload.
  - apply cost_updateHMetaStatus.
  - apply cost_lift. intros. apply cost_ensureWorkload.
  - apply cost_free.
    + intros [err|cm]; [done|]. by intros code.
    + intros n. apply cost_lift. intros. apply cost_ensureWorkload.
  - apply cost_bootstrapHStore.
  - apply cost_lift. intros. apply cost_ensureWorkload.
  - apply cost_bootstrapHServer.
  - unfold addGateway.reconcile. destruct (spec_Gateway _); [|done]. destruct (negb _); [done|].
    apply cost_free; [apply cost_gateway_get|]. intros. apply cost_ensureWorkload.
  - unfold addConsole.reconcile. destruct (spec_Console _); [|done]. apply cost_lift. intros [err|d]; [done|].
    apply cost_ensureWorkload.
  - apply cost_updateStatus.
Qed.

(** *** Delays *)

Lemma delays_done hdb rq : delay_ok rq -> wp (Ret (Some rq, hdb)) (fun _ o => outcome_ok o).
Proof. done. Qed.

Lemma delays_fine hdb : wp (Ret (None, hdb)) (fun _ o => outcome_ok o).
Proof. done. Qed.

Lemma delays_updateCondition prefix hdb c : wp (updateCondition prefix hdb c) (fun _ o => outcome_ok o).
Proof. intros now [err|h]; cbn; [apply delay_error|done]. Qed.

(** One step of a sub-reconciler: its outcome does not depend on what came before. *)
Ltac delay_step :=
  first [ apply delays_ensureWorkload | apply delays_updateCondition | apply delays_fine
        | apply delays_done; first [apply delay_error | apply delay_message; unfold Second; lia]
        | apply delays_bind; intros ?
        | match goal with |- wp (match ?x with _ => _ end) _ => destruct x end ].

Lemma delays_LogDeviceConfig hdb : wp (LogDeviceConfigReconciler_reconcile hdb) (fun _ o => outcome_ok o).
Proof.
  unfold LogDeviceConfigReconciler_reconcile, ensureLogDeviceConfig, ensureNShards, createOwned. wp_run.
  all: simplify_eq/=; try done; try apply delay_error.
  all: repeat match goal with H : _ <$> ?o = Some _ |- _ => destruct o; simplify_eq/= end; try apply delay_error.
  all: match goal with |- context [_ <$> ?o] => destruct o end; simpl; by try apply delay_error.
Qed.

Lemma delays_updateStatus hdb : wp (updateStatus_reconcile hdb) (fun _ o => outcome_ok o).
Proof.
  unfold updateStatus_reconcile. apply delays_bind; intros [[err|] hdb1]; [apply (delays_done _ _ (delay_error _))|].
  apply delays_bind; intros hdb2. apply delays_bind; intros [err|h]; [apply (delays_done _ _ (delay_error _))|].
  destruct (negb _); [|done]. split; [cbn; unfold Second; lia|done].
Qed.

Lemma delays_bootstrapHStore hdb : wp (bootstrapHStore_reconcile (P := adminClientProvider) hdb) (fun _ o => outcome_ok o).
Proof.
  unfold bootstrapHStore_reconcile. destruct (IsConditionTrue _ _); [done|].
  apply delays_bind; intros [err|]; [delay_step|]. apply delays_bind; intros client.
  apply delays_bind; intros [err|out]; [delay_step|].
  eapply wp_weaken_bind; [apply delays_updateCondition| |by intros tr []].
  intros tr [[rq|] h] Hrq; [exact Hrq|]. delay_step.
Qed.

Lemma subReconcilers_delays : Forall delays (subReconcilers (P := adminClientProvider)).
Proof.
  repeat apply Forall_cons_2; [..|apply Forall_nil_2]; intros hdb.
  - apply delays_LogDeviceConfig.
  - unfold addServices_reconcile. repeat delay_step.
  - unfold addHMeta.reconcile. repeat delay_step.
  - unfold updateHMetaStatus_reconcile. repeat delay_step.
  - unfold addAdminServer.reconcile. repeat delay_step.
  - unfold addHStore.reconcile. repeat delay_step.
  - apply delays_bootstrapHStore.
  - unfold addHServer.reconcile. repeat delay_step.
  - unfold bootstrapHServer_reconcile. repeat delay_step.
  - unfold addGateway.reconcile. repeat delay_step.
  - unfold addConsole.reconcile. repeat delay_step.
  - apply delays_updateStatus.
Qed.

(** The result of a pass. *)
Definition result_ok (r : Result) : Prop :=
  (0 <= res_RequeueAfter r <= 10 * Second)%Z /\ (res_err r <> None -> res_RequeueAfter r = 0%Z).

Lemma processRequeue_delay rq :
  delay_ok rq -> wp (processRequeue rq) (fun _ o => match o with Done r => result_ok r | Panic _ => True end).
Proof.
  intros [Hd He]. unfold processRequeue, result_ok. destruct (rq_curError rq) as [err|]; [destruct (IsConflict err)|]; intros r; cbn [prog_bind wp res_RequeueAfter res_err].
  - split; [|done]. destruct (decide (rq_delay rq = 0%Z)); [unfold Second; lia|exact Hd].
  - split; [unfold Second; lia|done].
  - done.
Qed.

Lemma loop_delay subs hdb delayed :
  Forall delays subs ->
  wp (subReconcile_loop subs hdb delayed) (fun _ o => match o with Done r => result_ok r | Panic _ => True end).
Proof.
  intros Hs. revert hdb delayed. induction Hs as [|s subs Hs _ IH]; intros hdb delayed; cbn [subReconcile_loop].
  { destruct delayed; cbn; [|intros _]; (split; [unfold Second; cbn; lia|done]). }
  eapply wp_weaken_bind; [apply Hs| |done]. intros tr [[rq|] hdb'] Hrq; [|apply IH].
  destruct (rq_delayedRequeue rq); [apply IH|]. by apply processRequeue_delay.
Qed.

(** *** Properties *)

(** C15: what one pass can cost, whatever the server answers: it writes at most twelve objects and
    at most four times the status, and it asks to come back after at most ten seconds; with an
    error it leaves the delay to the work queue. *)
Theorem Reconcile_bounds req tr o :
  exec (Reconcile (P := adminClientProvider) req) tr o ->
  length (writes tr) <= 12 /\ length (status_updates_of tr) <= 4 /\
  forall r, o = Done r -> (0 <= res_RequeueAfter r <= 10 * Second)%Z /\ (res_err r <> None -> res_RequeueAfter r = 0%Z).
Proof.
  intros H. destruct (cost_exec 12 4 (Reconcile (P := adminClientProvider) req) tr o) as [H1 H2]; [|done|].
  { intros [err|hdb]; cbn [prog_bind]; [by destruct (IsNotFound err)|].
    apply (cost_loop _ budget), subReconcilers_budget. }
  split; [done|]. split; [done|].
  assert (wp (Reconcile (P := adminClientProvider) req) (fun _ o => match o with Done r => result_ok r | Panic _ => True end)) as Hw.
  { intros [err|hdb]; cbn [prog_bind]; [|apply loop_delay, subReconcilers_delays].
    destruct (IsNotFound err); (split; [unfold Second; cbn; lia|done]). }
  rewrite wp_exec in Hw. specialize (Hw _ _ H). by intros r ->.
Qed.

End Bounds.
