(* ===== verification/Passes.v ===== *)
(** * The shape of a pass

    Three arguments speak of every call of a pass: what it touches ([Footprint]), what it leaves in
    the store ([Faults]) and what the server must allow it ([Access]). They share the part that
    reads, talks to the cluster and records conditions; it is done here once, for any rely condition
    [R], any guarantee [G] and any invariant [I] of the object the pass works on. *)
From S2P Require Import Prelude GoStrings KubeTypes ApiTypes Effects RelyGuarantee Conditions FlagSet Naming Merge Requeue Workload LogDevice Services Admin HMeta AdminServer HStore HServer Gateway Console Bootstrap Status Controller.

(** The calls that look but do not write: reads in the namespace of the cluster, of the kinds a
    cluster has, and what they need; the nodes of HMeta are read where they are listed. *)
Definition observes (hdb : HStreamDB) (c : call) : Prop :=
  match c with
  | CGet k nn => nn_Namespace nn = hdb_Namespace hdb /\ k ∈ [KStatefulSet; KDeployment; KService; KConfigMap]
  | CCreate _ | CUpdate _ | CStatusUpdate _ => False
  | CSetOwner owner m => owner = hdb_Meta hdb /\ meta_Namespace m = hdb_Namespace hdb
  | CListPods ns _ | CNewExecutor ns _ | CStream ns _ _ => ns = hdb_Namespace hdb
  | CServiceProxy ns service path => proxied hdb ns service path
  | CEvent _ _ | CNow | CRange _ | CNewClientset => True
  end.

Section Passes.
Context {KL : KubeLib} {G : Gabs} {SS : SortSlice} {AJ : AdminJson}.
Context (R : event -> Prop) (Gu : call -> Prop) (I : HStreamDB -> Prop).
Hypothesis Hobserves : forall hdb c, I hdb -> observes hdb c -> Gu c.
Hypothesis Hcond : forall now hdb c, I hdb -> I (SetCondition_at now hdb c).
Hypothesis Hnodes : forall nodes hdb, I hdb -> I (hdb_set_Nodes nodes hdb).
Hypothesis Hstatus : forall hdb, I hdb -> Gu (CStatusUpdate hdb).
Hypothesis Hstored : forall hdb hdb', I hdb -> R (Ev (CStatusUpdate hdb) (inr hdb')) -> I hdb'.

(** A sub-reconciler that meets the guarantee and keeps the invariant. *)
Definition keeps_sub (s : subReconciler) : Prop := forall hdb, I hdb -> rg R Gu (s hdb) (fun r => I (snd r)).

(** One call that looks. *)
Lemma rg_observe {A} hdb c (k : resp c -> prog A) Q :
  I hdb -> observes hdb c -> (forall r, R (Ev c r) -> rg R Gu (k r) Q) -> rg R Gu (Do c k) Q.
Proof. intros Hh Hc Hk. split; [by eapply Hobserves|done]. Qed.

Lemma rg_checkPodRunningStatus hdb name :
  I hdb -> guarantees R Gu (checkPodRunningStatus hdb KStatefulSet name).
Proof.
  intros Hh. unfold checkPodRunningStatus, getReadyReplicasInService. apply rg_any.
  - apply rg_observe with hdb; [done|split; [done|set_solver]|].
    intros [err|sts] _; cbn [prog_bind]; [done|]. by destruct (json_readyReplicas _ _).
  - intros [err|[count sts]]; [done|]. cbn [spec_replicas]. destruct (sts_Replicas _); [|done]. by destruct (_ || _).
Qed.

Lemma rg_admin_call hdb args : I hdb -> guarantees R Gu (admin_call hdb args).
Proof.
  intros Hh. unfold admin_call. apply rg_any.
  - apply rg_observe with hdb; [done..|]. by intros [err|pods] _.
  - intros [err|[|pod pods]]; [done..|]. unfold RunCommandInPod. apply rg_observe with hdb; [done..|].
    intros [err|] _; cbn [prog_bind]; [done|]. apply rg_observe with hdb; [done..|].
    intros [[err stdout] stderr] _; cbn [prog_bind]. by destruct (_ || _).
Qed.

Lemma rg_GetAdminClient hdb : I hdb ->
  rg R Gu (GetAdminClient (AdminClientProvider := adminClientProvider) hdb) (fun c => c = AdminClient hdb).
Proof. intros Hh. apply rg_observe with hdb; [done..|]. by intros [err|] _. Qed.

Lemma rg_GetHMetaStatus hdb : I hdb -> guarantees R Gu (AdminClient_GetHMetaStatus hdb).
Proof.
  intros Hh. unfold AdminClient_GetHMetaStatus.
  eapply (rg_bind _ _ _ _ (fun '(ns, service) => proxied hdb ns service "nodes")).
  { unfold proxied. destruct (spec_ExternalHMeta _); [done|]. rewrite GetHeadlessService_done. cbn [lift prog_bind rg].
    done. }
  intros [ns addr] Hp. apply rg_observe with hdb; [done..|]. intros [err|out] _; cbn [prog_bind]; [done|].
  by destruct (unmarshal_nodes out).
Qed.

Lemma rg_updateCondition prefix hdb c : I hdb -> rg R Gu (updateCondition prefix hdb c) (fun r => I (snd r)).
Proof.
  intros Hh. apply rg_observe with hdb; [done..|]. intros now _. cbn [prog_bind].
  assert (I (SetCondition_at now hdb c)) as Hs by by apply Hcond.
  split; [by apply Hstatus|]. intros [err|hdb'] Hr; cbn; [done|]. by eapply Hstored.
Qed.

Lemma updateHMetaStatus_keeps : keeps_sub (updateHMetaStatus_reconcile (P := adminClientProvider)).
Proof.
  intros hdb Hh. unfold updateHMetaStatus_reconcile. apply rg_any.
  { destruct (spec_ExternalHMeta _); [done|]. by apply rg_checkPodRunningStatus. }
  intros [err|]; [done|]. eapply rg_bind; [by apply rg_GetAdminClient|]. intros c ->.
  apply rg_any; [by apply rg_GetHMetaStatus|]. intros [err|cluster]; [done|]. destruct (negb _); [done|].
  apply rg_observe with hdb; [done..|]. intros code _. cbn [prog_bind range_map range_order].
  by apply rg_updateCondition, Hnodes.
Qed.

Lemma bootstrapHStore_keeps : keeps_sub (bootstrapHStore_reconcile (P := adminClientProvider)).
Proof.
  intros hdb Hh. unfold bootstrapHStore_reconcile. destruct (IsConditionTrue _ _); [done|].
  apply rg_any; [by apply rg_checkPodRunningStatus|]. intros [err|]; [done|].
  eapply rg_bind; [by apply rg_GetAdminClient|]. intros c ->. apply rg_any; [by apply rg_admin_call|].
  intros [err|out]; [done|]. eapply rg_bind; [by apply rg_updateCondition|]. by intros [[rq|] hdb'].
Qed.

Lemma bootstrapHServer_keeps : keeps_sub (bootstrapHServer_reconcile (P := adminClientProvider)).
Proof.
  intros hdb Hh. unfold bootstrapHServer_reconcile. destruct (IsConditionTrue _ _); [done|].
  apply rg_any; [by apply rg_checkPodRunningStatus|]. intros [err|]; [done|].
  eapply rg_bind; [by apply rg_GetAdminClient|]. intros c ->. apply rg_lift_bind. intros svc _.
  apply rg_any; [by apply rg_admin_call|]. intros [err|out]; [done|]. by apply rg_updateCondition.
Qed.

Lemma rg_check_components order hdb : I hdb -> rg R Gu (check_components order hdb) (fun r => I (snd r)).
Proof.
  revert hdb. induction order as [|[component condition] order IH]; intros hdb Hh; [done|].
  apply rg_observe with hdb; [done|split; [done|set_solver]|]. intros [err|d] _; cbn [prog_bind]; [done|].
  apply rg_observe with hdb; [done..|]. intros now _. cbn [prog_bind]. by apply IH, Hcond.
Qed.

Lemma updateStatus_keeps : keeps_sub updateStatus_reconcile.
Proof.
  intros hdb Hh. unfold updateStatus_reconcile. eapply (rg_bind _ _ _ _ (fun r => I (snd r))).
  { apply rg_observe with hdb; [done..|]. intros code _. by apply rg_check_components. }
  intros [[err|] hdb1] Hh1; [done|]. simpl in Hh1. eapply (rg_bind _ _ _ _ I).
  { unfold checkAllReady. destruct (forallb _ _); (apply rg_observe with hdb1; [done..|]); intros now _; by apply Hcond. }
  intros hdb2 Hh2. split; [by apply Hstatus|]. intros [err|hdb3] Hr; cbn [prog_bind]; [done|].
  assert (I hdb3) by by eapply Hstored. by destruct (negb _).
Qed.

(** The objects: the eight sub-reconcilers that write them are the business of the argument. *)
Record keeps_objects : Prop := {
  ko_LogDeviceConfig : keeps_sub LogDeviceConfigReconciler_reconcile;
  ko_addServices : keeps_sub addServices_reconcile;
  ko_addHMeta : keeps_sub addHMeta.reconcile;
  ko_addAdminServer : keeps_sub addAdminServer.reconcile;
  ko_addHStore : keeps_sub addHStore.reconcile;
  ko_addHServer : keeps_sub addHServer.reconcile;
  ko_addGateway : keeps_sub addGateway.reconcile;
  ko_addConsole : keeps_sub addConsole.reconcile
}.

Lemma rg_subReconcile subs hdb delayed :
  Forall keeps_sub subs -> I hdb -> guarantees R Gu (subReconcile_loop subs hdb delayed).
Proof.
  intros Hs. revert hdb delayed. induction Hs as [|s subs Hsub Hs IH]; intros hdb delayed Hh; cbn [subReconcile_loop].
  { destruct delayed; [done|]. by apply rg_observe with hdb. }
  eapply rg_bind; [by apply Hsub|]. intros [[rq|] hdb'] Hk; [|by apply IH].
  destruct (rq_delayedRequeue rq); [by apply IH|]. unfold processRequeue.
  destruct (rq_curError rq) as [err|]; [destruct (IsConflict err)|]; by apply rg_observe with hdb'.
Qed.

(** The whole pass. *)
Lemma rg_Reconcile_keeps req :
  keeps_objects -> Gu (CGet KHStreamDB req) -> (forall hdb, R (Ev (CGet KHStreamDB req) (inr hdb)) -> I hdb) ->
  guarantees R Gu (Reconcile (P := adminClientProvider) req).
Proof.
  intros Ho Hg Hr. split; [done|]. intros [err|hdb] Hh; cbn [prog_bind]; [by destruct (IsNotFound err)|].
  apply rg_subReconcile; [|by apply Hr].
  repeat (apply Forall_cons_2); [..|apply Forall_nil_2].
  - exact (ko_LogDeviceConfig Ho).
  - exact (ko_addServices Ho).
  - exact (ko_addHMeta Ho).
  - exact updateHMetaStatus_keeps.
  - exact (ko_addAdminServer Ho).
  - exact (ko_addHStore Ho).
  - exact bootstrapHStore_keeps.
  - exact (ko_addHServer Ho).
  - exact bootstrapHServer_keeps.
  - exact (ko_addGateway Ho).
  - exact (ko_addConsole Ho).
  - exact updateStatus_keeps.
Qed.

End Passes.

(** ** The objects, once for every argument that only looks at the updates of stateful sets *)

(** What a sub-reconciler does to its objects, apart from updates of stateful sets. *)
Definition object_call (c : call) : Prop :=
  match c with
  | CGet k _ => k ∈ [KStatefulSet; KDeployment; KService; KConfigMap]
  | CCreate _ | CUpdate (OService _) | CUpdate (ODeployment _) | CSetOwner _ _ | CEvent _ _ | CRange _ => True
  | _ => False
  end.

Section Objects.
Context {KL : KubeLib} {G : Gabs}.
Context (R : event -> Prop) (Gu : call -> Prop) (I : HStreamDB -> Prop).
Hypothesis Hcall : forall c, object_call c -> Gu c.
Hypothesis Hfields : forall desired existing,
  R (Ev (CGet KStatefulSet (ObjectKey (sts_Meta desired))) (inr existing)) ->
  Gu (CUpdate (OStatefulSet (copy_sts_fields desired existing))).
Hypothesis Hspec : forall hdb desired existing, addHServer.getSts hdb = Done desired ->
  R (Ev (CGet KStatefulSet (ObjectKey (sts_Meta desired))) (inr existing)) ->
  Gu (CUpdate (OStatefulSet (copy_sts_spec desired existing))).

Abbreviation rgo p := (guarantees R Gu p).
Abbreviation rgo_sub s := (keeps_sub R Gu I s).

Lemma rgo_ensureOwned {k} {M : Managed k} owner (desired : obj_of k) update :
  k ∈ [KStatefulSet; KDeployment; KService; KConfigMap] ->
  (forall existing, R (Ev (CGet k (ObjectKey (mg_meta desired))) (inr existing)) -> rgo (update existing)) ->
  rgo (ensureOwned owner desired update).
Proof.
  intros Hk Hu. split; [by apply Hcall|]. intros [err|existing] Hr; cbn [prog_bind].
  - destruct (IsNotFound err); [|done]. split; [by apply Hcall|]. intros [err'|refs] _; cbn [prog_bind]; [done|].
    split; [by apply Hcall|done].
  - destruct (isHashChanged _ _); [|done]. by apply Hu.
Qed.

Lemma rgo_workload {k} {M : Managed k} hdb reason (desired : obj_of k) copy :
  k ∈ [KStatefulSet; KDeployment; KService; KConfigMap] -> I hdb ->
  (forall existing, R (Ev (CGet k (ObjectKey (mg_meta desired))) (inr existing)) ->
     Gu (CUpdate (mg_obj (copy existing)))) ->
  rg R Gu (ensureWorkload hdb reason desired copy) (fun r => I (snd r)).
Proof.
  intros Hk Hh Hu. apply rg_any; [|done]. apply rgo_ensureOwned; [done|]. intros existing Hr.
  split; [by apply Hcall|]. intros r _. split; [by apply Hu|done].
Qed.

Lemma rgo_fields hdb reason desired : I hdb ->
  rg R Gu (ensureWorkload (k := KStatefulSet) hdb reason desired (copy_sts_fields desired)) (fun r => I (snd r)).
Proof. intros Hh. apply rgo_workload; [set_solver|done|apply Hfields]. Qed.

Lemma rgo_dep hdb reason (desired : Deployment) copy : I hdb ->
  rg R Gu (ensureWorkload (k := KDeployment) hdb reason desired copy) (fun r => I (snd r)).
Proof. intros Hh. apply rgo_workload; [set_solver|done|]. intros existing _. by apply Hcall. Qed.

Lemma rgo_createOrUpdate hdb s : rgo (createOrUpdate hdb s).
Proof.
  unfold createOrUpdate. apply rg_lift_bind. intros meta _. apply rgo_ensureOwned; [set_solver|]. intros existing _.
  apply rg_lift_bind. intros merged _. split; [by apply Hcall|done].
Qed.

Lemma rgo_config_map owner nn data : rgo (createOwned owner (config_map_meta nn) (config_map data)).
Proof.
  split; [by apply Hcall|]. intros [err|refs] _; [done|]. cbn [prog_bind]. split; [by apply Hcall|done].
Qed.

Lemma addServices_walk : rgo_sub addServices_reconcile.
Proof.
  intros hdb Hh. unfold addServices_reconcile. apply rg_any.
  { unfold addHMetaService. destruct (spec_ExternalHMeta _); [done|]. apply rg_lift_bind. intros [f [err|]] _; [done|].
    apply rg_lift_bind. intros [port e] _. apply rg_lift_bind. intros svc _. apply rgo_createOrUpdate. }
  intros [err|]; [done|]. apply rg_any.
  { unfold addAdminServerService. apply rg_lift_bind. intros ports _. apply rgo_createOrUpdate. }
  intros [err|]; [done|]. apply rg_any.
  { unfold addHStoreService. apply rg_lift_bind. intros ports _. apply rg_lift_bind. intros svc _. apply rgo_createOrUpdate. }
  intros [err|]; [done|]. apply rg_any; [|by intros [err|]].
  unfold addHServerService. apply rg_lift_bind. intros ports _. apply rg_lift_bind. intros svc _. apply rgo_createOrUpdate.
Qed.

Lemma LogDeviceConfig_walk : rgo_sub LogDeviceConfigReconciler_reconcile.
Proof.
  intros hdb Hh. unfold LogDeviceConfigReconciler_reconcile, ensureLogDeviceConfig, ensureNShards. apply rg_any.
  - split; [apply Hcall; simpl; set_solver|]. intros [err|cm] _; cbn [prog_bind]; [|done]. destruct (IsNotFound err); [|done].
    apply rg_any; [apply rgo_config_map|done].
  - intros [rq|]; [done|]. apply rg_any; [|done].
    split; [apply Hcall; simpl; set_solver|]. intros [err|cm] _; cbn [prog_bind]; [|done].
    destruct (IsNotFound err); [|done]. apply rg_any; [apply rgo_config_map|done].
Qed.

Lemma addHStore_walk : rgo_sub addHStore.reconcile.
Proof.
  intros hdb Hh. unfold addHStore.reconcile. apply rg_any.
  { split; [apply Hcall; simpl; set_solver|]. intros [err|cm] _; cbn [prog_bind]; [done|]. split; [by apply Hcall|done]. }
  intros n. apply rg_lift_bind. intros d _. by apply rgo_fields.
Qed.

Lemma addGateway_walk : rgo_sub addGateway.reconcile.
Proof.
  intros hdb Hh. unfold addGateway.reconcile. destruct (spec_Gateway _) as [gateway|]; [|done].
  destruct (negb _); [done|]. apply rg_any; [|intros d; by apply rgo_dep].
  unfold addGateway.getDeployment, addGateway.getPodTemplate, addGateway.getContainer.
  repeat (apply rg_any; [|intros ?]); try done; try by apply rg_lift.
  split; [apply Hcall; simpl; set_solver|done].
Qed.

Lemma objects_walk : keeps_objects R Gu I.
Proof.
  split; first [apply LogDeviceConfig_walk | apply addServices_walk | apply addHStore_walk | apply addGateway_walk | idtac].
  - intros hdb Hh. unfold addHMeta.reconcile. destruct (spec_ExternalHMeta _); [done|].
    apply rg_lift_bind. intros d _. by apply rgo_fields.
  - intros hdb Hh. unfold addAdminServer.reconcile. apply rg_lift_bind. intros d _. by apply rgo_dep.
  - intros hdb Hh. unfold addHServer.reconcile. apply rg_lift_bind. intros d Hd.
    apply rgo_workload; [set_solver|done|]. intros existing. by eapply Hspec.
  - intros hdb Hh. unfold addConsole.reconcile. destruct (spec_Console _) as [console|]; [|done].
    apply rg_lift_bind. intros [err|d] _; [done|]. by apply rgo_dep.
Qed.

End Objects.
