(* ===== verification/Footprint.v ===== *)
(** * The footprint of a pass

    What a pass for one cluster may touch. Under the rely condition (the server answers with
    objects that have the key asked for, and with workloads whose identity is the one the operator
    gave them) every call of a pass stays inside the namespace, writes only objects of that
    cluster, and writes workloads that the server can accept. *)
From S2P Require Import Prelude GoStrings KubeTypes ApiTypes Effects RelyGuarantee Conditions FlagSet Naming Constants Merge Requeue Workload LogDevice Services Admin HMeta AdminServer HStore HServer Gateway Console Bootstrap Server Status Controller Passes.

(** ** Objects of a cluster *)

Definition component_labels (name : string) (ct : ComponentType) : gomap string :=
  Some (<[ComponentKey := ct_string ct]> {[InstanceKey := name]}).

(** The identity the operator gives the workload of a component; the set of the servers claims no
    volumes. *)
Definition sts_canonical (name : string) (ct : ComponentType) (x : StatefulSet) : Prop :=
  sts_Selector (sts_Spec x) = component_labels name ct /\
  sts_ServiceName (sts_Spec x) = name +:+ "-internal-" +:+ ct_string ct /\
  sts_PodManagementPolicy (sts_Spec x) = ParallelPodManagement /\
  (ct = ComponentTypeHServer -> sts_VolumeClaimTemplates (sts_Spec x) = None).

Definition dep_canonical (name : string) (ct : ComponentType) (x : Deployment) : Prop :=
  dep_Selector (dep_Spec x) = component_labels name ct.

Section Cluster.
Context {KL : KubeLib}.
(** The cluster, and the number of shards it was created with, once it is stored. *)
Variable req : NamespacedName.
Variable shards : option Z.

(** Its storage pods are those for some version of the spec and the given number of shards. *)
Definition hstore_shards (x : StatefulSet) : Prop :=
  exists hdb n desired, ObjectKey (hdb_Meta hdb) = req /\ addHStore.getSts hdb n = Done desired /\
    sts_Template (sts_Spec x) = sts_Template (sts_Spec desired) /\
    forall N, shards = Some N -> n = N.

Definition cluster_sts (x : StatefulSet) : Prop :=
  exists ct, ct ∈ [ComponentTypeHMeta; ComponentTypeHStore; ComponentTypeHServer] /\
    meta_Name (sts_Meta x) = component_name (nn_Name req) ct /\
    sts_canonical (nn_Name req) ct x /\
    meta_Labels (tpl_Meta (sts_Template (sts_Spec x))) = component_labels (nn_Name req) ct /\
    (ct = ComponentTypeHStore -> hstore_shards x).

Definition cluster_dep (x : Deployment) : Prop :=
  exists ct, ct ∈ [ComponentTypeAdminServer; ComponentTypeGateway; ComponentTypeConsole] /\
    meta_Name (dep_Meta x) = component_name (nn_Name req) ct /\
    dep_canonical (nn_Name req) ct x /\
    meta_Labels (tpl_Meta (dep_Template (dep_Spec x))) = component_labels (nn_Name req) ct.

Definition cluster_svc (x : Service) : Prop :=
  exists ct, svc_Selector (svc_Spec x) = Some {[ComponentKey := ct_string ct]} /\
    (ct = ComponentTypeAdminServer /\ meta_Name (svc_Meta x) = component_name (nn_Name req) ct \/
     ct ∈ [ComponentTypeHMeta; ComponentTypeHStore; ComponentTypeHServer] /\
     meta_Name (svc_Meta x) = nn_Name req +:+ "-internal-" +:+ ct_string ct).

Definition cluster_cm (x : ConfigMap) : Prop :=
  meta_Name (cm_Meta x) = nn_Name req +:+ "-logdevice-config" \/
  meta_Name (cm_Meta x) = nshards_name (nn_Name req).

Definition in_cluster (o : kobj) : Prop :=
  meta_Namespace (kobj_meta o) = nn_Namespace req /\
  match o with
  | OStatefulSet x => cluster_sts x
  | ODeployment x => cluster_dep x
  | OService x => cluster_svc x
  | OConfigMap x => cluster_cm x
  end.

(** ** The guarantee *)

Definition pass_call (c : call) : Prop :=
  match c with
  | CGet KHStreamDB nn => nn = req
  | CGet _ nn => nn_Namespace nn = nn_Namespace req
  | CCreate o => in_cluster o /\
      exists r, r ∈ elems (meta_OwnerReferences (kobj_meta o)) /\ owner_Name r = nn_Name req /\ owner_Controller r = true
  | CUpdate o => in_cluster o /\ kobj_kind o <> KConfigMap
  | CStatusUpdate h => ObjectKey (hdb_Meta h) = req
  | CSetOwner owner m => ObjectKey owner = req /\ meta_Namespace m = nn_Namespace req
  | CListPods ns _ => ns = nn_Namespace req
  | CNewExecutor ns _ => ns = nn_Namespace req
  | CStream ns _ _ => ns = nn_Namespace req
  | CServiceProxy ns service path => exists hdb, ObjectKey (hdb_Meta hdb) = req /\ proxied hdb ns service path
  | CEvent _ _ | CNow | CRange _ | CNewClientset => True
  end.

(** ** The rely condition *)

Definition answer_ok (c : call) : resp c -> Prop :=
  match c with
  | CGet k nn =>
      match k return go_error + obj_of k -> Prop with
      | KHStreamDB => fun r => forall h, r = inr h -> ObjectKey (hdb_Meta h) = nn
      | KStatefulSet => fun r => forall x, r = inr x -> ObjectKey (sts_Meta x) = nn /\
          forall name ct, nn_Name nn = component_name name ct -> sts_canonical name ct x
      | KDeployment => fun r => forall x, r = inr x -> ObjectKey (dep_Meta x) = nn /\
          forall name ct, nn_Name nn = component_name name ct -> dep_canonical name ct x
      | KService => fun r => forall x, r = inr x -> ObjectKey (svc_Meta x) = nn
      | KConfigMap => fun r => forall N, shards = Some N ->
          nn = {| nn_Namespace := nn_Namespace req; nn_Name := nshards_name (nn_Name req) |} ->
          exists cm, r = inr cm /\ cm_Data cm = Some {[NShardsConfigKey := Itoa N]}
      | _ => fun _ => True
      end
  | CStatusUpdate h => fun r => forall h', r = inr h' -> ObjectKey (hdb_Meta h') = ObjectKey (hdb_Meta h)
  | CSetOwner owner _ => fun r => forall refs, r = inr refs -> owned_by owner refs
  | _ => fun _ => True
  end.

Definition answered (e : event) : Prop := answer_ok (ev_call e) (ev_resp e).

(** A sub-reconciler that keeps to the footprint, and hands on an object with the same key. *)
Definition cluster_sub (s : subReconciler) : Prop :=
  forall hdb, ObjectKey (hdb_Meta hdb) = req ->
    rg answered pass_call (s hdb) (fun r => ObjectKey (hdb_Meta (snd r)) = req).

End Cluster.

(** ** What the operator builds *)

(** A stateful set, or a deployment, of a component: its key, its identity, and a selector that
    the labels of the pods match. *)
Definition built_sts (hdb : HStreamDB) (ct : ComponentType) (x : StatefulSet) : Prop :=
  ObjectKey (sts_Meta x) = {| nn_Namespace := hdb_Namespace hdb; nn_Name := GetResName ct hdb |} /\
  sts_canonical (hdb_Name hdb) ct x /\
  meta_Labels (tpl_Meta (sts_Template (sts_Spec x))) = component_labels (hdb_Name hdb) ct.

Definition built_dep (hdb : HStreamDB) (ct : ComponentType) (x : Deployment) : Prop :=
  ObjectKey (dep_Meta x) = {| nn_Namespace := hdb_Namespace hdb; nn_Name := GetResName ct hdb |} /\
  dep_canonical (hdb_Name hdb) ct x /\
  meta_Labels (tpl_Meta (dep_Template (dep_Spec x))) = component_labels (hdb_Name hdb) ct.

Section Built.
Context {KL : KubeLib}.

Lemma GetStatefulSet_built hdb comp tpl ct x :
  meta_Labels (tpl_Meta tpl) = component_labels (hdb_Name hdb) ct ->
  GetStatefulSet hdb comp tpl ct = Done x -> built_sts hdb ct x /\ sts_Template (sts_Spec x) = tpl.
Proof.
  intros Hl H. destruct (GetStatefulSet_done hdb comp tpl ct) as (x' & Hx & Hk & Hs).
  rewrite H in Hx. apply Done_inj in Hx as <-. unfold built_sts, sts_canonical. rewrite Hs. split_and!; done.
Qed.

Lemma GetDeployment_built hdb comp tpl ct x :
  meta_Labels (tpl_Meta tpl) = component_labels (hdb_Name hdb) ct ->
  GetDeployment hdb comp tpl ct = Done x -> built_dep hdb ct x.
Proof.
  intros Hl H. destruct (GetDeployment_done hdb comp tpl ct) as (x' & Hx & Hk & Hs).
  rewrite H in Hx. apply Done_inj in Hx as <-. unfold built_dep, dep_canonical. rewrite Hs. split_and!; done.
Qed.

Lemma built_sts_claims hdb ct x pvcs :
  ct <> ComponentTypeHServer ->
  built_sts hdb ct x -> built_sts hdb ct (sts_set_Spec (sts_set_VolumeClaimTemplates pvcs (sts_Spec x)) x).
Proof. intros Hct (Hk & (? & ? & ? & _) & Hl). split_and!; [exact Hk|split_and!; done|exact Hl]. Qed.

Lemma addHMeta_built hdb x : addHMeta.getSts hdb = Done x -> built_sts hdb ComponentTypeHMeta x.
Proof.
  unfold addHMeta.getSts, addHMeta.getPodTemplate. intros H.
  apply go_bind_done in H as (tpl & Ht & H). apply go_bind_done in H as (y & Hy & <-%Done_inj).
  apply built_sts_claims; [done|]. eapply GetStatefulSet_built; [|done].
  by apply go_bind_done in Ht as (cs & _ & <-%Done_inj).
Qed.

Lemma addHStore_built hdb n x : addHStore.getSts hdb n = Done x -> built_sts hdb ComponentTypeHStore x.
Proof.
  unfold addHStore.getSts, addHStore.getPodTemplate. intros H.
  apply go_bind_done in H as (tpl & Ht & H). apply go_bind_done in H as (y & Hy & <-%Done_inj).
  apply built_sts_claims; [done|]. eapply GetStatefulSet_built; [|done].
  by apply go_bind_done in Ht as (cs & _ & <-%Done_inj).
Qed.

Lemma addHServer_built hdb x : addHServer.getSts hdb = Done x -> built_sts hdb ComponentTypeHServer x.
Proof.
  unfold addHServer.getSts, addHServer.getPodTemplate. intros H.
  apply go_bind_done in H as (tpl & Ht & H). eapply GetStatefulSet_built; [|done].
  by apply go_bind_done in Ht as (cs & _ & <-%Done_inj).
Qed.

Lemma addAdminServer_built hdb x : addAdminServer.getDeployment hdb = Done x -> built_dep hdb ComponentTypeAdminServer x.
Proof.
  unfold addAdminServer.getDeployment, addAdminServer.getPodTemplate. intros H.
  apply go_bind_done in H as (tpl & Ht & H). eapply GetDeployment_built; [|done].
  apply go_bind_done in Ht as (cs & _ & <-%Done_inj). done.
Qed.

Lemma addConsole_built hdb console x :
  addConsole.getDeployment hdb console = Done (inr x) -> built_dep hdb ComponentTypeConsole x.
Proof.
  unfold addConsole.getDeployment, addConsole.getPodTemplate. intros H.
  apply go_bind_done in H as ([err|tpl] & Ht & H); [done|].
  apply go_bind_done in H as (y & Hy & [= ->]%Done_inj). eapply GetDeployment_built; [|done].
  by apply go_bind_done in Ht as ([err|cs] & _ & [= <-]%Done_inj).
Qed.

End Built.

(** ** Lemmas *)

Section Facts.
Context {KL : KubeLib} (req : NamespacedName) (shards : option Z).
Implicit Types hdb : HStreamDB.
Abbreviation rgp p := (rg (answered req shards) (pass_call req shards) p).

Lemma key_parts hdb :
  ObjectKey (hdb_Meta hdb) = req -> hdb_Name hdb = nn_Name req /\ hdb_Namespace hdb = nn_Namespace req.
Proof. by intros <-. Qed.

(** A call of the footprint that answers with something the rely condition does not speak of. *)
Lemma rg_get k nn (Q : go_error + obj_of k -> Prop) :
  pass_call req shards (CGet k nn) -> (forall r, answer_ok req shards (CGet k nn) r -> Q r) ->
  rgp (kube_Get k nn) Q.
Proof. intros Hc HQ. split; [done|]. intros r Hr. by apply HQ. Qed.

(** The pattern keeps to the footprint when the desired object and every update do. *)
Lemma rg_ensureOwned {k} {M : Managed k} hdb (desired : obj_of k) update :
  ObjectKey (hdb_Meta hdb) = req ->
  pass_call req shards (CGet k (ObjectKey (mg_meta desired))) ->
  (forall m, ObjectKey m = ObjectKey (mg_meta desired) ->
     meta_Labels m = meta_Labels (mg_meta desired) -> in_cluster req shards (mg_obj (mg_set_meta m desired))) ->
  meta_Namespace (mg_meta desired) = nn_Namespace req ->
  (forall existing, answer_ok req shards (CGet k (ObjectKey (mg_meta desired))) (inr existing) ->
     rgp (update existing) (fun _ => True)) ->
  rgp (ensureOwned (hdb_Meta hdb) desired update) (fun _ => True).
Proof.
  intros Hkey Hget Hcreate Hns Hupdate. split; [done|]. intros [err|existing] Hr; cbn [prog_bind].
  - destruct (IsNotFound err); [|done]. split; [done|]. intros [err'|refs] Ho; cbn [prog_bind]; [done|].
    split; [|done]. split; [by apply Hcreate|].
    destruct (Ho refs eq_refl) as (r & Hin & Hname & Hc). exists r.
    rewrite mg_obj_meta, mg_set_meta_meta. split; [done|]. split; [|done]. by rewrite Hname, <-Hkey.
  - destruct (isHashChanged _ _); [|done]. by apply Hupdate.
Qed.

Lemma rg_ensureWorkload {k} {M : Managed k} hdb reason (desired : obj_of k) copy :
  ObjectKey (hdb_Meta hdb) = req ->
  pass_call req shards (CGet k (ObjectKey (mg_meta desired))) ->
  (forall m, ObjectKey m = ObjectKey (mg_meta desired) ->
     meta_Labels m = meta_Labels (mg_meta desired) -> in_cluster req shards (mg_obj (mg_set_meta m desired))) ->
  meta_Namespace (mg_meta desired) = nn_Namespace req ->
  (forall existing, answer_ok req shards (CGet k (ObjectKey (mg_meta desired))) (inr existing) ->
     pass_call req shards (CUpdate (mg_obj (copy existing)))) ->
  rgp (ensureWorkload hdb reason desired copy) (fun r => ObjectKey (hdb_Meta (snd r)) = req).
Proof.
  intros Hkey Hget Hcreate Hns Hupdate. apply rg_any; [|done].
  apply rg_ensureOwned; [done..|]. intros existing He. split; [done|]. intros r _.
  split; [by apply Hupdate|done].
Qed.

(** The stateful sets: the fields [addHMeta] and [addHStore] copy, and the whole spec. *)
Lemma rg_workload_sts hdb reason ct desired (copy : StatefulSet -> StatefulSet) :
  ObjectKey (hdb_Meta hdb) = req -> ct ∈ [ComponentTypeHMeta; ComponentTypeHStore; ComponentTypeHServer] ->
  built_sts hdb ct desired -> (ct = ComponentTypeHStore -> hstore_shards req shards desired) ->
  copy = copy_sts_fields desired \/ copy = copy_sts_spec desired ->
  rgp (ensureWorkload (k := KStatefulSet) hdb reason desired copy) (fun r => ObjectKey (hdb_Meta (snd r)) = req).
Proof.
  intros Hkey Hct (Hk & Hcan & Hl) Hsh Hcopy. destruct (key_parts hdb Hkey) as [Hname Hns].
  assert (Hk' := Hk). unfold GetResName in Hk'. rewrite Hname, Hns in Hk'. rewrite Hname in Hcan, Hl.
  injection Hk' as Hkns Hkn.
  assert (forall m x, ObjectKey m = ObjectKey (sts_Meta desired) -> sts_canonical (nn_Name req) ct x ->
    sts_Meta x = m -> sts_Template (sts_Spec x) = sts_Template (sts_Spec desired) ->
    in_cluster req shards (OStatefulSet x)) as Hin.
  { intros m x Hm Hc <- Ht. injection Hm as Hm1 Hm2. split; [simpl; congruence|]. exists ct.
    rewrite Ht. split_and!; [done|by rewrite Hm2|done|done|].
    intros ->. destruct (Hsh eq_refl) as (h & n & d & ? & ? & ? & ?). exists h, n, d. rewrite Ht. done. }
  apply rg_ensureWorkload; [done|exact Hkns| |exact Hkns|].
  - intros m Hm _. by eapply Hin.
  - intros x Hx. destruct (Hx x eq_refl) as [Hxk Hxc]. split; [|done].
    specialize (Hxc (nn_Name req) ct Hkn).
    destruct Hcopy as [->| ->]; (eapply Hin; [|split_and!|done|done]); simpl;
      first [by rewrite copy_meta_key | apply Hxc | apply Hcan].
Qed.

Lemma rg_workload_dep hdb reason ct desired :
  ObjectKey (hdb_Meta hdb) = req -> ct ∈ [ComponentTypeAdminServer; ComponentTypeGateway; ComponentTypeConsole] ->
  built_dep hdb ct desired ->
  rgp (ensureWorkload (k := KDeployment) hdb reason desired (copy_dep_spec desired))
    (fun r => ObjectKey (hdb_Meta (snd r)) = req).
Proof.
  intros Hkey Hct (Hk & Hcan & Hl). destruct (key_parts hdb Hkey) as [Hname Hns].
  assert (Hk' := Hk). unfold GetResName in Hk'. rewrite Hname, Hns in Hk'. rewrite Hname in Hcan, Hl.
  injection Hk' as Hkns Hkn.
  assert (forall m x, ObjectKey m = ObjectKey (dep_Meta desired) -> dep_Meta x = m ->
    dep_Spec x = dep_Spec desired -> in_cluster req shards (ODeployment x)) as Hin.
  { intros m x Hm <- Ht. injection Hm as Hm1 Hm2. split; [simpl; congruence|]. exists ct.
    unfold dep_canonical. rewrite Ht. split_and!; [done|by rewrite Hm2|done|done]. }
  apply rg_ensureWorkload; [done|exact Hkns| |exact Hkns|].
  - intros m Hm _. by eapply Hin.
  - intros x Hx. destruct (Hx x eq_refl) as [Hxk _]. split; [|done]. by apply (Hin (copy_meta (dep_Meta desired) (dep_Meta x))).
Qed.

(** *** Services *)

Lemma mergeService_key existing s merged :
  mergeService existing s = Done merged ->
  ObjectKey (svc_Meta merged) = ObjectKey (svc_Meta existing) /\ svc_Spec merged = svc_Spec s.
Proof.
  unfold mergeService, mergeLabelsInMetadata, mergeAnnotations. intros H.
  apply go_bind_done in H as ([m b] & H1 & H). apply go_bind_done in H1 as ([l b1] & _ & [= <- <-]%Done_inj).
  apply go_bind_done in H as ([m2 b2] & H2 & <-%Done_inj).
  by apply go_bind_done in H2 as ([a b3] & _ & [= <- <-]%Done_inj).
Qed.

Lemma rg_createOrUpdate hdb s ct :
  ObjectKey (hdb_Meta hdb) = req -> meta_Namespace (svc_Meta s) = nn_Namespace req ->
  svc_Selector (svc_Spec s) = Some {[ComponentKey := ct_string ct]} ->
  (ct = ComponentTypeAdminServer /\ meta_Name (svc_Meta s) = component_name (nn_Name req) ct \/
   ct ∈ [ComponentTypeHMeta; ComponentTypeHStore; ComponentTypeHServer] /\
   meta_Name (svc_Meta s) = nn_Name req +:+ "-internal-" +:+ ct_string ct) ->
  meta_Annotations (svc_Meta s) <> None ->
  rgp (createOrUpdate hdb s) (fun _ => True).
Proof.
  intros Hkey Hns Hsel Hname Ha. rewrite createOrUpdate_stamped by done.
  assert (forall x, ObjectKey (svc_Meta x) = ObjectKey (svc_Meta s) -> svc_Spec x = svc_Spec s ->
    in_cluster req shards (OService x)) as Hin.
  { intros x Hk Hs. injection Hk as Hk1 Hk2. split; [simpl; congruence|]. exists ct. by rewrite Hs, Hk2. }
  apply rg_ensureOwned; [done|done| |done|].
  - intros m Hm _. by apply Hin.
  - intros existing He. apply rg_lift_bind. intros merged [Hk Hs]%mergeService_key.
    split; [|done]. split; [|done]. apply Hin; [|done]. rewrite Hk. by apply He.
Qed.

Lemma addServices_cluster : cluster_sub req shards addServices_reconcile.
Proof.
  intros hdb Hkey. destruct (key_parts hdb Hkey) as [Hname Hns].
  assert (forall s ct, s = headless hdb ct (elems (svc_Ports (svc_Spec s))) \/
      s = svc_set_PublishNotReadyAddresses true (headless hdb ct (elems (svc_Ports (svc_Spec s)))) ->
      ct ∈ [ComponentTypeHMeta; ComponentTypeHStore; ComponentTypeHServer] ->
      rgp (createOrUpdate hdb s) (fun _ => True)) as Hheadless.
  { intros s ct Hs Hct. apply rg_createOrUpdate with ct; [done|..].
    all: destruct Hs as [->| ->]; simpl; rewrite ?Hns; try done.
    all: right; split; [done|]; unfold GetInternalResName; by rewrite Hname. }
  unfold addServices_reconcile. apply rg_any.
  { unfold addHMetaService. destruct (spec_ExternalHMeta _); [done|].
    apply rg_lift_bind. intros [f [err|]] _; [done|]. apply rg_lift_bind. intros [port e] _.
    rewrite GetHeadlessService_done. eapply Hheadless; [by right|set_solver]. }
  intros [err|]; [done|]. apply rg_any.
  { unfold addAdminServerService. apply rg_lift_bind. intros ports _.
    apply rg_createOrUpdate with ComponentTypeAdminServer; try done.
    left. split; [done|]. simpl. unfold GetResName, component_name. by rewrite Hname. }
  intros [err|]; [done|]. apply rg_any.
  { unfold addHStoreService. apply rg_lift_bind. intros ports _. rewrite GetHeadlessService_done.
    eapply Hheadless; [by left|set_solver]. }
  intros [err|]; [done|]. apply rg_any.
  { unfold addHServerService. apply rg_lift_bind. intros ports _. rewrite GetHeadlessService_done.
    eapply Hheadless; [by right|set_solver]. }
  by intros [err|].
Qed.

(** *** Config maps and workloads *)

Lemma rg_config_map hdb nn data :
  ObjectKey (hdb_Meta hdb) = req -> nn_Namespace nn = nn_Namespace req ->
  nn_Name nn = nn_Name req +:+ "-logdevice-config" \/ nn_Name nn = nshards_name (nn_Name req) ->
  rgp (createOwned (hdb_Meta hdb) (config_map_meta nn) (config_map data)) (fun _ => True).
Proof.
  intros Hkey Hns Hnn. split; [done|]. intros [err|refs] Ho; [done|]. cbn [prog_bind]. split; [|done].
  destruct (Ho refs eq_refl) as (r & Hin & Hr & Hc). split; [by split|]. exists r. by rewrite Hr, <-Hkey.
Qed.

Lemma LogDeviceConfig_cluster {G : Gabs} : cluster_sub req shards LogDeviceConfigReconciler_reconcile.
Proof.
  intros hdb Hkey. destruct (key_parts hdb Hkey) as [Hname Hns].
  unfold LogDeviceConfigReconciler_reconcile, ensureLogDeviceConfig, ensureNShards. apply rg_any.
  - split; [done|]. intros [err|cm] _; cbn [prog_bind]; [|done]. destruct (IsNotFound err); [|done].
    apply rg_any; [|done]. apply rg_config_map; [done|done|left; simpl; by rewrite Hname].
  - intros [rq|]; [done|]. apply rg_any; [|done]. split; [done|]. intros [err|cm] _; cbn [prog_bind]; [|done].
    destruct (IsNotFound err); [|done]. apply rg_any; [|done].
    apply rg_config_map; [done|done|right; simpl; by rewrite Hname].
Qed.

Lemma addHMeta_cluster : cluster_sub req shards addHMeta.reconcile.
Proof.
  intros hdb Hkey. unfold addHMeta.reconcile. destruct (spec_ExternalHMeta _); [done|].
  apply rg_lift_bind. intros sts Hsts%addHMeta_built.
  eapply rg_workload_sts; [done| |done|done|by left]. set_solver.
Qed.

(** The number of shards [addHStore] works with is the stored one. *)
Lemma getNShard_cluster hdb :
  ObjectKey (hdb_Meta hdb) = req -> (forall N, shards = Some N -> int32_ok N) ->
  rgp (addHStore.getNShardFromExistingConfigMap hdb) (fun n => forall N, shards = Some N -> n = N).
Proof.
  intros Hkey Hok. destruct (key_parts hdb Hkey) as [Hname Hns].
  split; [done|]. intros r Hr. destruct shards as [N|]; [|by destruct r; cbn; [|split; [done|]]].
  destruct (Hr N eq_refl) as (cm & Hr' & Hcm); [|simpl in Hr'; subst r].
  { unfold GetNShardsConfigMapNamespacedName, nshards_name. by rewrite Hname, Hns. }
  cbn [prog_bind range_map range_order rg]. rewrite Hcm. split; [done|]. intros code _ N' [= <-].
  change (entries (Some ?m)) with m. rewrite map_to_list_singleton.
  assert (permute code [(NShardsConfigKey, Itoa N)] = [(NShardsConfigKey, Itoa N)]) as ->.
  { apply Permutation_singleton_r. by rewrite permute_Permutation. }
  specialize (Hok N eq_refl). assert (int64_ok N) as H64 by (unfold int32_ok, int64_ok in *; lia).
  cbn [foldl]. unfold read_nshard. cbn [snd]. rewrite Atoi_Itoa by done. by apply wrap32_id.
Qed.

Lemma addHStore_cluster :
  (forall N, shards = Some N -> int32_ok N) -> cluster_sub req shards addHStore.reconcile.
Proof.
  intros Hok hdb Hkey. unfold addHStore.reconcile.
  eapply rg_bind; [by apply getNShard_cluster|]. intros n Hn.
  apply rg_lift_bind. intros sts Hsts.
  eapply rg_workload_sts; [done| |by eapply addHStore_built| |by left]; [set_solver|].
  intros _. by exists hdb, n, sts.
Qed.

Lemma addHServer_cluster : cluster_sub req shards addHServer.reconcile.
Proof.
  intros hdb Hkey. unfold addHServer.reconcile. apply rg_lift_bind. intros sts Hsts%addHServer_built.
  eapply rg_workload_sts; [done| |done|done|by right]. set_solver.
Qed.

Lemma addAdminServer_cluster : cluster_sub req shards addAdminServer.reconcile.
Proof.
  intros hdb Hkey. unfold addAdminServer.reconcile. apply rg_lift_bind. intros d Hd%addAdminServer_built.
  eapply rg_workload_dep; [done| |done]. set_solver.
Qed.

Lemma addConsole_cluster : cluster_sub req shards addConsole.reconcile.
Proof.
  intros hdb Hkey. unfold addConsole.reconcile. destruct (spec_Console _) as [console|]; [|done].
  apply rg_lift_bind. intros [err|d] Hd; [done|]. apply addConsole_built in Hd.
  eapply rg_workload_dep; [done| |done]. set_solver.
Qed.

Lemma addGateway_cluster : cluster_sub req shards addGateway.reconcile.
Proof.
  intros hdb Hkey. destruct (key_parts hdb Hkey) as [Hname Hns].
  unfold addGateway.reconcile. destruct (spec_Gateway _) as [gateway|]; [|done].
  destruct (negb _); [done|]. eapply (rg_bind _ _ _ _ (built_dep hdb ComponentTypeGateway)).
  - unfold addGateway.getDeployment, addGateway.getPodTemplate.
    eapply (rg_bind _ _ _ _ (fun tpl => meta_Labels (tpl_Meta tpl) = component_labels (hdb_Name hdb) ComponentTypeGateway)).
    + apply rg_any; [|done]. unfold addGateway.getContainer. apply rg_any.
      { apply rg_any; [|done]. apply rg_get; [exact Hns|done]. }
      intros port. apply rg_lift_bind. done.
    + intros tpl Hl. apply rg_lift. intros d Hd. by eapply GetDeployment_built.
  - intros d Hd. eapply rg_workload_dep; [done| |done]. set_solver.
Qed.

(** *** The whole pass *)

Section Pass.
Context {SS : SortSlice} {AJ : AdminJson}.

Lemma observes_cluster hdb c : ObjectKey (hdb_Meta hdb) = req -> observes hdb c -> pass_call req shards c.
Proof.
  intros Hkey Hc. destruct (key_parts hdb Hkey) as [_ Hns].
  destruct c as [k nn| | | |owner m| |  | | | | | |]; simpl in *; try done; try congruence.
  - destruct Hc as [Hnn Hk]. destruct k; try congruence. set_solver.
  - destruct Hc as [-> ->]. done.
  - by exists hdb.
Qed.

Lemma rg_Reconcile {G : Gabs} :
  (forall N, shards = Some N -> int32_ok N) -> rgp (Reconcile (P := adminClientProvider) req) (fun _ => True).
Proof.
  intros Hok. apply rg_Reconcile_keeps with (fun hdb => ObjectKey (hdb_Meta hdb) = req); try done.
  - apply observes_cluster.
  - intros now hdb c Hh. by rewrite SetCondition_at_meta.
  - intros hdb hdb' Hh Hr. by rewrite (Hr hdb' eq_refl).
  - split; [apply LogDeviceConfig_cluster|apply addServices_cluster|apply addHMeta_cluster|apply addAdminServer_cluster
      |by apply addHStore_cluster|apply addHServer_cluster|apply addGateway_cluster|apply addConsole_cluster].
  - intros hdb Hr. by apply Hr.
Qed.

End Pass.
End Facts.

(** *** The nodes of HMeta *)

Section Proxy.
Context {KL : KubeLib} {G : Gabs} {SS : SortSlice} {AJ : AdminJson}.

(** A version of the cluster that the server has shown: as read, or after a status was stored. *)
Definition shown (req : NamespacedName) (tr : list event) (hdb : HStreamDB) : Prop :=
  Ev (CGet KHStreamDB req) (inr hdb) ∈ tr \/ exists h, Ev (CStatusUpdate h) (inr hdb) ∈ tr.

(** The object a pass works on has the metadata and the spec of such a version. *)
Definition as_shown (req : NamespacedName) (tr : list event) (hdb : HStreamDB) : Prop :=
  exists h, shown req tr h /\ hdb_Meta h = hdb_Meta hdb /\ hdb_Spec h = hdb_Spec hdb.

Definition proxy_call (req : NamespacedName) (tr : list event) (c : call) : Prop :=
  match c with
  | CServiceProxy ns service path => exists hdb, shown req tr hdb /\ proxied hdb ns service path
  | _ => True
  end.

Lemma rg_Reconcile_proxied req tr :
  guarantees (fun e => e ∈ tr) (proxy_call req tr) (Reconcile (P := adminClientProvider) req).
Proof.
  apply rg_Reconcile_keeps with (as_shown req tr); try done.
  - intros hdb c (h & Hh & Hm & Hs) Hc. destruct c; try done. exists h. split; [done|].
    unfold proxied, GetInternalResName, hdb_Name, hdb_Namespace in *. by rewrite Hm, Hs.
  - intros now hdb c (h & Hh & Hm & Hs). exists h. by rewrite SetCondition_at_meta, SetCondition_at_spec.
  - intros hdb hdb' _ Hr. exists hdb'. split; [|done]. right. by exists hdb.
  - apply objects_walk; try done. by intros [].
  - intros hdb Hr. exists hdb. split; [by left|done].
Qed.

End Proxy.

(** *** Properties *)

(** C8: a pass for one cluster touches nothing else: as long as the server answers with what was
    asked for, every call of the pass reads in the namespace of the cluster, writes one of the
    workloads, services and config maps named after the cluster, or stores the status of that
    cluster; every object it creates is recorded as controlled by the cluster; a config map is
    never updated; and commands run only in pods of that namespace. The one call that may leave the
    namespace is the list of the nodes of an external HMeta: it goes through the proxy of the
    service, port and namespace named by the spec of the cluster, as the server has shown it in
    this pass; without an external HMeta it goes to the cluster's own service of HMeta. *)
Theorem Reconcile_footprint {KL : KubeLib} {G : Gabs} {SS : SortSlice} {AJ : AdminJson} req tr o :
  exec (Reconcile (P := adminClientProvider) req) tr o -> Forall (answered req None) tr ->
  Forall (fun e => pass_call req None (ev_call e)) tr /\
  forall ns service path r, Ev (CServiceProxy ns service path) r ∈ tr ->
    exists hdb, shown req tr hdb /\ proxied hdb ns service path.
Proof.
  intros He Ha. split.
  - assert (forall N, None = Some N -> int32_ok N) as HN by done.
    by eapply (proj1 (rg_exec _ _ _ _ _ _ (rg_Reconcile req None HN) He Ha)).
  - intros ns service path r Hin. assert (Forall (fun e => e ∈ tr) tr) as Hself by by apply Forall_forall.
    pose proof (proj1 (rg_exec _ _ _ _ _ _ (rg_Reconcile_proxied req tr) He Hself)) as Hp.
    rewrite Forall_forall in Hp. exact (Hp _ Hin).
Qed.
