(* ===== verification/Wellformed.v ===== *)
(** * The shape of the workloads

    A scoping judgement for pods, in the manner of a type system: a container may mount only
    volumes that its pod or its stateful set declares, and its probes may name only ports that it
    declares itself. Every workload the operator builds satisfies it when what the user writes
    does, and has the key, the labels, the selector and the governing service of its component. *)
From S2P Require Import Prelude GoStrings KubeTypes ApiTypes Effects RelyGuarantee Conditions FlagSet Naming Constants Merge Requeue Workload LogDevice Services Admin HMeta AdminServer HStore HServer Gateway Console Bootstrap Server Status Controller Footprint.

(** ** The judgement *)

(** The name of the port a probe refers to, if it does so by name. *)
Definition probe_port (p : Probe) : option string :=
  match probe_Handler p with
  | HTTPGet _ (FromString s) _ | TCPSocket (FromString s) => Some s
  | _ => None
  end.

Definition probes (c : Container) : list (option Probe) :=
  [ctr_LivenessProbe c; ctr_ReadinessProbe c; ctr_StartupProbe c].

Definition port_names (c : Container) : list string := port_Name <$> elems (ctr_Ports c).

(** The mounts of a container are among [volumes], and its probes name ports among [ports]. *)
Definition scoped_in (volumes ports : list string) (c : Container) : Prop :=
  Forall (fun m => vm_Name m ∈ volumes) (elems (ctr_VolumeMounts c)) /\
  Forall (fun p => forall s, p ≫= probe_port = Some s -> s ∈ ports) (probes c).

Definition scoped (volumes : list string) (c : Container) : Prop := scoped_in volumes (port_names c) c.

Definition volume_names (p : PodSpec) : list string := vol_Name <$> elems (pod_Volumes p).

Definition claim_names (pvcs : slice PersistentVolumeClaim) : list string :=
  (fun pvc => meta_Name (pvc_Meta pvc)) <$> elems pvcs.

(** A pod whose volumes are its own and the claims of its stateful set. *)
Definition pod_scoped (claims : list string) (p : PodSpec) : Prop :=
  Forall (scoped (volume_names p ++ claims)) (elems (pod_InitContainers p) ++ elems (pod_Containers p)).

(** What the user writes for a component is scoped in the volumes the user declares there. *)
Definition user_scoped (comp : Component) : Prop :=
  Forall (scoped (vol_Name <$> elems (comp_Volumes comp)))
    (comp_Container comp :: elems (comp_InitContainers comp) ++ elems (comp_SidecarContainers comp)).

(** ** The workloads of a cluster *)

Section Builds.
Context {KL : KubeLib}.

(** [builds hdb comp ct o]: the operator builds [o] for the component [ct], configured by [comp]. *)
Inductive builds (hdb : HStreamDB) : Component -> ComponentType -> kobj -> Prop :=
| builds_hmeta x : addHMeta.getSts hdb = Done x ->
    builds hdb (spec_HMeta (hdb_Spec hdb)) ComponentTypeHMeta (OStatefulSet x)
| builds_hstore n x : addHStore.getSts hdb n = Done x ->
    builds hdb (spec_HStore (hdb_Spec hdb)) ComponentTypeHStore (OStatefulSet x)
| builds_hserver x : addHServer.getSts hdb = Done x ->
    builds hdb (spec_HServer (hdb_Spec hdb)) ComponentTypeHServer (OStatefulSet x)
| builds_admin x : addAdminServer.getDeployment hdb = Done x ->
    builds hdb (spec_AdminServer (hdb_Spec hdb)) ComponentTypeAdminServer (ODeployment x)
| builds_gateway gateway tr x : exec (addGateway.getDeployment hdb gateway) tr (Done x) ->
    builds hdb (gw_Component gateway) ComponentTypeGateway (ODeployment x)
| builds_console console x : addConsole.getDeployment hdb console = Done (inr x) ->
    builds hdb console ComponentTypeConsole (ODeployment x).

End Builds.

Definition workload_ok (hdb : HStreamDB) (ct : ComponentType) (o : kobj) : Prop :=
  match o with
  | OStatefulSet x =>
      built_sts hdb ct x /\
      GetHeadlessService hdb ct [] = Done (headless hdb ct []) /\
      sts_ServiceName (sts_Spec x) = meta_Name (svc_Meta (headless hdb ct [])) /\
      pod_scoped (claim_names (sts_VolumeClaimTemplates (sts_Spec x))) (tpl_Spec (sts_Template (sts_Spec x)))
  | ODeployment x => built_dep hdb ct x /\ pod_scoped [] (tpl_Spec (dep_Template (dep_Spec x)))
  | _ => False
  end.

(** ** Lemmas *)

Section Scoping.
Implicit Types volumes ports : list string.

Lemma scoped_mono volumes volumes' ports ports' c :
  scoped_in volumes ports c -> volumes ⊆ volumes' -> ports ⊆ ports' -> scoped_in volumes' ports' c.
Proof.
  intros [Hm Hp] Hv Hports. split.
  - eapply Forall_impl; [exact Hm|]. intros m. apply Hv.
  - eapply Forall_impl; [exact Hp|]. intros p H s Hs. by apply Hports, H.
Qed.

Lemma scoped_weaken volumes extra c : scoped volumes c -> scoped (volumes ++ extra) c.
Proof. intros H. eapply scoped_mono; [exact H|set_solver|done]. Qed.

(** The steps by which a container is completed. *)
Lemma scoped_name volumes ports n c : scoped_in volumes ports c -> scoped_in volumes ports (default_name n c).
Proof. unfold default_name. by case_decide. Qed.
Lemma scoped_command volumes ports cmd c :
  scoped_in volumes ports c -> scoped_in volumes ports (default_command cmd c).
Proof. unfold default_command. by destruct (elems (ctr_Command c)). Qed.
Lemma scoped_set_Command volumes ports cmd c :
  scoped_in volumes ports c -> scoped_in volumes ports (ctr_set_Command cmd c).
Proof. done. Qed.
Lemma scoped_set_Args volumes ports args c :
  scoped_in volumes ports c -> scoped_in volumes ports (ctr_set_Args args c).
Proof. done. Qed.
Lemma scoped_set_Env volumes ports env c : scoped_in volumes ports c -> scoped_in volumes ports (ctr_set_Env env c).
Proof. done. Qed.
Lemma scoped_set_Ports volumes ports ps c : scoped_in volumes ports c -> scoped_in volumes ports (ctr_set_Ports ps c).
Proof. done. Qed.

Lemma scoped_mount volumes ports mounts ms c :
  scoped_in volumes ports c -> mounts = ctr_VolumeMounts c -> Forall (fun m => vm_Name m ∈ volumes) ms ->
  scoped_in volumes ports (ctr_set_VolumeMounts (append mounts ms) c).
Proof.
  intros [Hm Hp] -> Hms. split; [|done]. cbn [ctr_VolumeMounts ctr_set_VolumeMounts ctr_with].
  rewrite elems_append. by apply Forall_app_2.
Qed.

Lemma scoped_user volumes ports image pull liveness readiness c :
  scoped_in volumes ports c ->
  (forall s, liveness ≫= probe_port = Some s \/ readiness ≫= probe_port = Some s -> s ∈ ports) ->
  scoped_in volumes ports (structAssign (ctr_new image pull liveness readiness) c).
Proof.
  intros [Hm Hp] Hprobe. unfold probes in Hp. rewrite !Forall_cons in Hp. destruct Hp as (Hl & Hr & Hs & _).
  split; [by rewrite structAssign_new_mounts|]. unfold probes.
  repeat apply Forall_cons_2; [..|apply Forall_nil_2]; intros s; simpl.
  - destruct (ctr_LivenessProbe c); [apply Hl|auto].
  - destruct (ctr_ReadinessProbe c); [apply Hr|auto].
  - destruct (ctr_StartupProbe c); [apply Hs|done].
Qed.

(** The pod of a component: its container, the sidecars, and the volumes of the operator. *)
Lemma pod_scoped_spec grace comp c extra claims :
  user_scoped comp -> scoped ((vol_Name <$> elems (append (comp_Volumes comp) extra)) ++ claims) c ->
  pod_scoped claims (pod_spec grace comp (with_sidecars c comp) (append (comp_Volumes comp) extra)).
Proof.
  intros Hu Hc. unfold user_scoped in Hu. rewrite Forall_cons, Forall_app in Hu. destruct Hu as (_ & Hi & Hs).
  assert (forall l, Forall (scoped (vol_Name <$> elems (comp_Volumes comp))) l ->
    Forall (scoped ((vol_Name <$> elems (append (comp_Volumes comp) extra)) ++ claims)) l) as Hw.
  { intros l Hl. eapply Forall_impl; [exact Hl|]. intros x Hx. rewrite elems_append, fmap_app, <-app_assoc.
    by apply scoped_weaken. }
  unfold pod_scoped, volume_names. cbn [pod_Volumes pod_InitContainers pod_Containers pod_spec with_sidecars].
  apply Forall_app_2; [by apply Hw|]. apply Forall_cons_2; [exact Hc|by apply Hw].
Qed.

(** The container of the user, in the pod of its component and with at least its ports. *)
Lemma user_container_scoped comp extra claims ports image pull liveness readiness :
  user_scoped comp -> port_names (comp_Container comp) ⊆ ports ->
  (forall s, liveness ≫= probe_port = Some s \/ readiness ≫= probe_port = Some s -> s ∈ ports) ->
  scoped_in ((vol_Name <$> elems (append (comp_Volumes comp) extra)) ++ claims) ports
    (structAssign (ctr_new image pull liveness readiness) (comp_Container comp)).
Proof.
  intros [Hc _]%Forall_cons Hports Hprobe. apply scoped_user; [|done].
  eapply scoped_mono; [exact Hc| |done]. rewrite elems_append, fmap_app. set_solver.
Qed.

End Scoping.

Create HintDb scope_db.
#[export] Hint Resolve scoped_name scoped_command scoped_set_Command scoped_set_Args scoped_set_Env scoped_set_Ports
  : scope_db.

(** Ports: what completes the ports of a container keeps their names. *)
Lemma mergePorts_incl l ext : port_Name <$> l ⊆ port_Name <$> mergePorts l ext.
Proof. destruct (mergePorts_prefix l ext) as [k ->]. rewrite fmap_app. set_solver. Qed.

Section Ports.
Context {KL : KubeLib}.

Lemma coverPortsFromArgs_names args ports ports' :
  coverPortsFromArgs args ports = Done ports' -> port_Name <$> ports' = port_Name <$> ports.
Proof.
  unfold coverPortsFromArgs. intros H. apply go_bind_done in H as (m & _ & <-%Done_inj).
  rewrite <-list_fmap_compose. apply list_fmap_ext. intros i p _. apply coverPort_name.
Qed.

Lemma extended_ports_incl args (ports : slice ContainerPort) ext ports' :
  coverPortsFromArgs args (elems (extendPorts ports ext)) = Done ports' ->
  port_Name <$> elems ports ⊆ port_Name <$> ports' /\
  (Forall (fun p => port_Name p <> "") ext -> port_Name <$> ext ⊆ port_Name <$> ports').
Proof.
  intros ->%coverPortsFromArgs_names. rewrite extendPorts_mergePorts. split; [apply mergePorts_incl|].
  intros H n Hn. apply mergePorts_names; auto.
Qed.

Lemma hserver_ports_incl hdb command args ports :
  addHServer.defaultCommandArgsAndPorts hdb = Done (command, args, ports) ->
  port_names (user_container hdb) ⊆ port_Name <$> elems ports.
Proof.
  intros Hd. destruct (server_args_parsed _ _ Hd) as [m Hm]. rewrite (server_ports _ _ _ _ _ Hm Hd).
  destruct (own_command hdb); [rewrite cover_names; apply mergePorts_incl|].
  rewrite flag_ports_names. etrans; [|apply mergePorts_incl]. rewrite flag_ports_names. apply mergePorts_incl.
Qed.

End Ports.

(** *** The containers *)

Section Containers.
Context {KL : KubeLib}.

(** A volume of the operator is in the pod. *)
Lemma declared_volume v (vols : slice Volume) extra claims :
  v ∈ extra -> vol_Name v ∈ (vol_Name <$> elems (append vols extra)) ++ claims.
Proof. intros Hv. rewrite elems_append, fmap_app, !elem_of_app. left. right. by apply list_elem_of_fmap_2. Qed.

(** The volume of the data of a component, whether it is a claim or an emptyDir. *)
Lemma data_volume hdb (vols : slice Volume) extra template ct :
  GetPvcName hdb template ∈
    (vol_Name <$> elems (append vols (extra ++ empty_dir (GetPvcName hdb template) template))) ++
    claim_names (t ← template; Some [GetPvc hdb (Some t) ct]).
Proof.
  rewrite elems_append, !fmap_app, !elem_of_app. destruct template as [t|]; simpl.
  - right. apply list_elem_of_here.
  - left. right. right. apply list_elem_of_here.
Qed.

(** The container is the user's, completed: what is left is that its ports and probes fit. *)
Ltac container_scoped :=
  eauto 8 with scope_db nocore;
  repeat first [apply scoped_set_Env | apply scoped_set_Ports | apply scoped_set_Args | apply scoped_set_Command
               | apply scoped_command | apply scoped_name];
  apply user_container_scoped; [done|..];
  unfold port_names;
  cbn [ctr_Ports ctr_set_VolumeMounts ctr_set_Env ctr_set_Ports ctr_set_Args ctr_set_Command ctr_with].

(** The ports of a container under completion are the user's. *)
Ltac user_ports_in H :=
  repeat (progress (cbn [ctr_Ports ctr_set_VolumeMounts ctr_set_Env ctr_set_Args ctr_set_Command ctr_with] in H;
    autorewrite with hop_rw in H)).

(** The mounts of the shards, one append each. *)
Lemma foldl_append_slice {A B} (f : B -> A) (l : list B) (m : slice A) :
  foldl (fun m i => append m [f i]) m l = append m (f <$> l).
Proof.
  revert m. induction l as [|x l IH]; intros m; [symmetry; apply append_nil|]. cbn [foldl fmap list_fmap]. by rewrite IH, append_app.
Qed.

(** A component whose container takes its ports from those of the user. *)
Lemma addHMeta_pod hdb tpl :
  user_scoped (spec_HMeta (hdb_Spec hdb)) -> addHMeta.getPodTemplate hdb = Done tpl ->
  pod_scoped (claim_names (addHMeta.getPVC hdb)) (tpl_Spec tpl).
Proof.
  intros Hu H. apply go_bind_done in H as (cs & H & <-%Done_inj). unfold addHMeta.getContainer in H.
  apply go_bind_done in H as (svc & _ & H). apply go_bind_done in H as (args & _ & H).
  apply go_bind_done in H as ([port e] & _ & <-%Done_inj).
  apply pod_scoped_spec; [done|]. apply scoped_mount; [|done|].
  - container_scoped.
    + rewrite extendPorts_mergePorts. autorewrite with hop_rw. apply mergePorts_incl.
    + by intros s [?|?].
  - apply Forall_singleton. apply (data_volume hdb _ []).
Qed.

Lemma addHStore_pod hdb n tpl :
  user_scoped (spec_HStore (hdb_Spec hdb)) -> addHStore.getPodTemplate hdb n = Done tpl ->
  pod_scoped (claim_names (addHStore.getPVC hdb)) (tpl_Spec tpl).
Proof.
  intros Hu H. apply go_bind_done in H as (cs & H & <-%Done_inj). unfold addHStore.getContainer in H.
  apply go_bind_done in H as (args & _ & H). apply go_bind_done in H as (ports & Hp%extended_ports_incl & <-%Done_inj).
  apply pod_scoped_spec; [done|]. cbn [ctr_VolumeMounts ctr_set_Ports ctr_with].
  rewrite foldl_append_slice, append_app. apply scoped_mount; [|done|].
  - container_scoped; destruct Hp as [Hp Hd]; user_ports_in Hp.
    + done.
    + intros s [[=]|[= <-]]. apply Hd; [by repeat constructor|]. set_solver.
  - repeat apply Forall_cons_2; [| |apply Forall_fmap, Forall_forall; intros i _].
    + apply (declared_volume (GetLogDeviceConfigVolume hdb)). apply list_elem_of_here.
    + apply (declared_volume (GetNShardsConfigVolume hdb)). apply list_elem_of_further, list_elem_of_here.
    + apply (data_volume hdb _ [_; _]).
Qed.

Lemma addHServer_pod hdb tpl :
  user_scoped (spec_HServer (hdb_Spec hdb)) -> addHServer.getPodTemplate hdb = Done tpl ->
  pod_scoped [] (tpl_Spec tpl).
Proof.
  intros Hu H. apply go_bind_done in H as (c & H & <-%Done_inj). unfold addHServer.getServerContainer in H.
  apply go_bind_done in H as ([[command args] ports] & Hp & <-%Done_inj).
  apply pod_scoped_spec; [done|]. apply scoped_mount; [|done|].
  - container_scoped; [by eapply hserver_ports_incl|]. intros s [[=]|[= <-]]. by eapply server_has_port.
  - apply Forall_singleton, (declared_volume (GetLogDeviceConfigVolume hdb)), list_elem_of_here.
Qed.

Lemma addAdminServer_pod hdb tpl :
  user_scoped (spec_AdminServer (hdb_Spec hdb)) -> addAdminServer.getPodTemplate hdb = Done tpl ->
  pod_scoped [] (tpl_Spec tpl).
Proof.
  intros Hu H. apply go_bind_done in H as (cs & H & <-%Done_inj). unfold addAdminServer.getContainer in H.
  apply go_bind_done in H as (args & _ & H). apply go_bind_done in H as (ports & Hp%extended_ports_incl & <-%Done_inj).
  apply pod_scoped_spec; [done|]. apply scoped_mount; [|done|].
  - container_scoped; [|by intros s [?|?]]. destruct Hp as [Hp _]. by user_ports_in Hp.
  - apply Forall_singleton, (declared_volume (GetLogDeviceConfigVolume hdb)), list_elem_of_here.
Qed.

(** The deployments without volumes of the operator. *)
Lemma pod_scoped_plain grace comp c claims :
  user_scoped comp -> scoped ((vol_Name <$> elems (append (comp_Volumes comp) [])) ++ claims) c ->
  pod_scoped claims (pod_spec grace comp (with_sidecars c comp) (comp_Volumes comp)).
Proof. intros Hu Hc. pose proof (pod_scoped_spec grace comp c [] claims Hu Hc) as H. by rewrite append_nil in H. Qed.

Lemma set_port_scoped volumes ports args c c' :
  scoped_in volumes ports c -> addConsole.set_port args c = inr c' ->
  scoped_in volumes ports c' /\ port_names c ⊆ port_names c'.
Proof.
  assert (forall ps ext, port_Name <$> elems ps ⊆ port_Name <$> elems (extendPorts ps ext)) as Hext.
  { intros ps ext. rewrite extendPorts_mergePorts. apply mergePorts_incl. }
  intros Hc. unfold addConsole.set_port.
  destruct (mget args _); [|destruct (addConsole.hasDefinedPortInEnv c)].
  1-2: destruct (addConsole.generateContainerPort _); [done|]; intros <-%(inj inr); split; [by apply scoped_set_Ports|apply Hext].
  intros <-%(inj inr). split; [by apply scoped_set_Env, scoped_set_Ports|apply Hext].
Qed.

Lemma addConsole_pod hdb console tpl :
  user_scoped console -> addConsole.getPodTemplate hdb console = Done (inr tpl) -> pod_scoped [] (tpl_Spec tpl).
Proof.
  intros Hu H. apply go_bind_done in H as ([err|cs] & H & [= <-]%Done_inj). unfold addConsole.getContainer in H.
  apply go_bind_done in H as ([flags e] & _ & H). destruct (addConsole.set_port _ _) as [err|c] eqn:Hs; [done|].
  apply go_bind_done in H as (c' & H & [= <-]%Done_inj).
  apply pod_scoped_plain; [done|].
  apply (set_port_scoped ((vol_Name <$> elems (append (comp_Volumes console) [])) ++ [])
           (port_names (comp_Container console))) in Hs as [Hs Hp].
  - unfold port_names in Hp. user_ports_in Hp.
    assert (scoped ((vol_Name <$> elems (append (comp_Volumes console) [])) ++ []) c) as Hc.
    { by apply (scoped_mono _ _ _ _ _ Hs). }
    destruct (mget _ _); [by apply Done_inj in H as <-|].
    by apply go_bind_done in H as (ports & _ & <-%Done_inj).
  - container_scoped; [done|by intros s [?|?]].
Qed.

Lemma addGateway_pod hdb gateway tr tpl :
  user_scoped (gw_Component gateway) -> exec (addGateway.getPodTemplate hdb gateway) tr (Done tpl) ->
  pod_scoped [] (tpl_Spec tpl).
Proof.
  intros Hu H. unfold addGateway.getPodTemplate in H.
  apply exec_bind in H as [(cs & tr1 & tr2 & -> & H & _ & ->%Done_inj)|(msg & _ & H)]; [|done].
  cbn [tpl_Spec]. unfold addGateway.getContainer in H.
  apply exec_bind in H as [(port & tr3 & tr4 & -> & _ & H)|(msg & _ & H)]; [|done].
  rewrite GetHeadlessService_done in H. cbn [lift prog_bind exec] in H. destruct H as [_ ->%Done_inj].
  destruct (gw_SecretRef gateway) as [secret|].
  - apply pod_scoped_spec; [done|]. apply scoped_mount; [|done|].
    + container_scoped; [|by intros s [?|?]]. rewrite extendPorts_mergePorts. autorewrite with hop_rw. apply mergePorts_incl.
    + repeat apply Forall_cons_2; [..|apply Forall_nil_2]; apply (declared_volume {| vol_Name := "cert"; vol_Source := SecretSource secret |}), list_elem_of_here.
  - apply pod_scoped_plain; [done|].
    container_scoped; [|by intros s [?|?]]. rewrite extendPorts_mergePorts. autorewrite with hop_rw. apply mergePorts_incl.
Qed.

(** A stateful set whose pod template is scoped in its claims. *)
Lemma sts_ok hdb ct x :
  built_sts hdb ct x ->
  pod_scoped (claim_names (sts_VolumeClaimTemplates (sts_Spec x))) (tpl_Spec (sts_Template (sts_Spec x))) ->
  workload_ok hdb ct (OStatefulSet x).
Proof. intros Hb Hp. split; [done|]. split; [apply GetHeadlessService_done|]. split; [apply Hb|done]. Qed.

Lemma GetStatefulSet_spec hdb comp tpl ct x :
  GetStatefulSet hdb comp tpl ct = Done x ->
  sts_Template (sts_Spec x) = tpl /\ sts_VolumeClaimTemplates (sts_Spec x) = None.
Proof.
  intros H. destruct (GetStatefulSet_done hdb comp tpl ct) as (x' & Hx & _ & Hs).
  rewrite H in Hx. apply Done_inj in Hx as <-. by rewrite Hs.
Qed.

Lemma GetDeployment_spec hdb comp tpl ct x : GetDeployment hdb comp tpl ct = Done x -> dep_Template (dep_Spec x) = tpl.
Proof.
  intros H. destruct (GetDeployment_done hdb comp tpl ct) as (x' & Hx & _ & Hs).
  rewrite H in Hx. apply Done_inj in Hx as <-. by rewrite Hs.
Qed.

Lemma addHMeta_ok hdb x :
  addHMeta.getSts hdb = Done x -> user_scoped (spec_HMeta (hdb_Spec hdb)) -> workload_ok hdb ComponentTypeHMeta (OStatefulSet x).
Proof.
  intros H Hu. apply sts_ok; [by apply addHMeta_built|]. unfold addHMeta.getSts in H.
  apply go_bind_done in H as (tpl & Ht & H). apply go_bind_done in H as (y & [Hy _]%GetStatefulSet_spec & <-%Done_inj).
  cbn [sts_Spec sts_set_Spec sts_set_VolumeClaimTemplates sts_Template sts_VolumeClaimTemplates]. rewrite Hy.
  by eapply addHMeta_pod.
Qed.

Lemma addHStore_ok hdb n x :
  addHStore.getSts hdb n = Done x -> user_scoped (spec_HStore (hdb_Spec hdb)) -> workload_ok hdb ComponentTypeHStore (OStatefulSet x).
Proof.
  intros H Hu. apply sts_ok; [by eapply addHStore_built|]. unfold addHStore.getSts in H.
  apply go_bind_done in H as (tpl & Ht & H). apply go_bind_done in H as (y & [Hy _]%GetStatefulSet_spec & <-%Done_inj).
  cbn [sts_Spec sts_set_Spec sts_set_VolumeClaimTemplates sts_Template sts_VolumeClaimTemplates]. rewrite Hy.
  by eapply addHStore_pod.
Qed.

Lemma addHServer_ok hdb x :
  addHServer.getSts hdb = Done x -> user_scoped (spec_HServer (hdb_Spec hdb)) -> workload_ok hdb ComponentTypeHServer (OStatefulSet x).
Proof.
  intros H Hu. apply sts_ok; [by apply addHServer_built|]. unfold addHServer.getSts in H.
  apply go_bind_done in H as (tpl & Ht & [Hy ->]%GetStatefulSet_spec). rewrite Hy. by eapply addHServer_pod.
Qed.

Lemma addAdminServer_ok hdb x :
  addAdminServer.getDeployment hdb = Done x -> user_scoped (spec_AdminServer (hdb_Spec hdb)) ->
  workload_ok hdb ComponentTypeAdminServer (ODeployment x).
Proof.
  intros H Hu. split; [by apply addAdminServer_built|]. unfold addAdminServer.getDeployment in H.
  apply go_bind_done in H as (tpl & Ht & ->%GetDeployment_spec). by eapply addAdminServer_pod.
Qed.

Lemma addConsole_ok hdb console x :
  addConsole.getDeployment hdb console = Done (inr x) -> user_scoped console ->
  workload_ok hdb ComponentTypeConsole (ODeployment x).
Proof.
  intros H Hu. split; [by eapply addConsole_built|]. unfold addConsole.getDeployment in H.
  apply go_bind_done in H as ([err|tpl] & Ht & H); [done|].
  apply go_bind_done in H as (y & <-%GetDeployment_spec & ->%Done_inj%(inj inr)). by eapply addConsole_pod.
Qed.

Lemma addGateway_ok hdb gateway tr x :
  exec (addGateway.getDeployment hdb gateway) tr (Done x) -> user_scoped (gw_Component gateway) ->
  workload_ok hdb ComponentTypeGateway (ODeployment x).
Proof.
  intros H Hu. unfold addGateway.getDeployment in H.
  apply exec_bind in H as [(tpl & tr1 & tr2 & -> & Ht & H)|(msg & _ & H)]; [|done].
  destruct (GetDeployment hdb _ _ _) as [d|msg] eqn:Hd; [|by destruct H]. destruct H as [_ ->%Done_inj]. split.
  - eapply GetDeployment_built; [|exact Hd].
    unfold addGateway.getPodTemplate in Ht.
    by apply exec_bind in Ht as [(cs & tr3 & tr4 & -> & _ & _ & ->%Done_inj)|(msg & _ & Ht)].
  - apply GetDeployment_spec in Hd as ->. by eapply addGateway_pod.
Qed.

(** *** Properties *)

(** C11: every workload the operator builds is well formed, whenever what the user writes for its
    component is: it has the key of its component, its selector is the labels its pods carry, a
    stateful set names the headless service that is created for the component, every container of
    the pod mounts only volumes that the pod or the stateful set declares, and every probe that
    names a port names one of its own container. *)
Theorem workloads_well_formed hdb comp ct o : builds hdb comp ct o -> user_scoped comp -> workload_ok hdb ct o.
Proof.
  intros [x H|n x H|x H|x H|gateway tr x H|console x H].
  - by apply addHMeta_ok.
  - by eapply addHStore_ok.
  - by apply addHServer_ok.
  - by apply addAdminServer_ok.
  - by eapply addGateway_ok.
  - by apply addConsole_ok.
Qed.

End Containers.
