(* ===== verification/Operator.v ===== *)
(** * The operator and its environment

    Passes of the HStreamDB controller, for any clusters, run against a store that users and the
    controllers of Kubernetes change at the same time. A step is one call of one pass, a change by
    others, the start of a pass, or its end, which may also be the death of the operator between
    two calls. The theorems are invariants of the reachable worlds. *)
From S2P Require Import Prelude GoStrings KubeTypes ApiTypes Effects RelyGuarantee Conditions FlagSet Naming Constants Merge Requeue Workload LogDevice Services Admin HMeta AdminServer HStore HServer Gateway Console Bootstrap Server Status Controller Footprint.

Record world := { w_store : store; w_passes : list (prog Result) }.

Section Operator.
Context {KL : KubeLib} {G : Gabs} {SS : SortSlice} {AJ : AdminJson}.

(** [step P w w']: one step, in which a call of the operator meets [P]. *)
Inductive step (P : event -> Prop) : world -> world -> Prop :=
| step_env s s' ps :
    env_step s s' -> step P {| w_store := s; w_passes := ps |} {| w_store := s'; w_passes := ps |}
| step_start s ps req :
    step P {| w_store := s; w_passes := ps |}
           {| w_store := s; w_passes := Reconcile (P := adminClientProvider) req :: ps |}
| step_call s s' ps1 ps2 c k r :
    serves s (Ev c r) s' -> P (Ev c r) ->
    step P {| w_store := s; w_passes := ps1 ++ Do c k :: ps2 |}
           {| w_store := s'; w_passes := ps1 ++ k r :: ps2 |}
| step_end s ps1 ps2 p :
    step P {| w_store := s; w_passes := ps1 ++ p :: ps2 |} {| w_store := s; w_passes := ps1 ++ ps2 |}.

(** The operator starts on what others have put into an empty store. *)
Inductive reachable : world -> Prop :=
| reachable_init s : env_step empty_store s -> reachable {| w_store := s; w_passes := [] |}
| reachable_step w w' : reachable w -> step (fun _ => True) w w' -> reachable w'.

(** A pass that is about to make the call [c]. *)
Definition pending (w : world) (c : call) : Prop := exists k, Do c k ∈ w_passes w.

(** ** The invariant of the store *)

Record store_ok (s : store) : Prop := {
  ok_hdb nn h : st_hdb s !! nn = Some h -> ObjectKey (hdb_Meta h) = nn;
  ok_sts nn x : st_sts s !! nn = Some x -> ObjectKey (sts_Meta x) = nn /\
    forall name ct, nn_Name nn = component_name name ct -> sts_canonical name ct x;
  ok_dep nn x : st_dep s !! nn = Some x -> ObjectKey (dep_Meta x) = nn /\
    forall name ct, nn_Name nn = component_name name ct -> dep_canonical name ct x;
  ok_svc nn x : st_svc s !! nn = Some x -> ObjectKey (svc_Meta x) = nn;
  ok_cm nn x : st_cm s !! nn = Some x -> ObjectKey (cm_Meta x) = nn
}.

(** The number of shards of a cluster is stored. *)
Definition nshards_key (req : NamespacedName) : NamespacedName :=
  {| nn_Namespace := nn_Namespace req; nn_Name := nshards_name (nn_Name req) |}.

Definition shards_stored (s : store) (req : NamespacedName) (shards : option Z) : Prop :=
  forall N, shards = Some N ->
    exists cm, st_cm s !! nshards_key req = Some cm /\ cm_Data cm = Some {[NShardsConfigKey := Itoa N]}.

(** ** Lemmas *)

Lemma env_step_ok s s' : store_ok s -> env_step s s' -> store_ok s'.
Proof.
  intros Hs He. split.
  - apply He.
  - intros nn x Hx. destruct (env_sts _ _ He _ _ Hx) as [Hk [(x0 & H0 & Hid)|Hn]]; (split; [done|]).
    + intros name ct Hname. destruct (ok_sts _ Hs _ _ H0) as [_ Hc]. destruct (Hc _ _ Hname) as (? & ? & ? & Hv).
      destruct Hid as [(? & ? & ?) Hvct]. split_and!; [congruence..|]. intros Hct. rewrite Hvct. auto.
    + intros name ct Hname. by destruct (Hn name ct).
  - intros nn x Hx. destruct (env_dep _ _ He _ _ Hx) as [Hk [(x0 & H0 & Hid)|Hn]]; (split; [done|]).
    + intros name ct Hname. destruct (ok_dep _ Hs _ _ H0) as [_ Hc]. specialize (Hc _ _ Hname).
      unfold dep_canonical, dep_identity in *. congruence.
    + intros name ct Hname. by destruct (Hn name ct).
  - apply He.
  - apply He.
Qed.

Lemma initial_ok s : env_step empty_store s -> store_ok s.
Proof. apply env_step_ok. split; intros nn x Hx; simpl in Hx; by rewrite lookup_empty in Hx. Qed.

(** A store with an object of a cluster put into it. *)
Lemma put_ok s o o' req shards : store_ok s -> in_cluster req shards o -> stored_as o o' -> store_ok (put o' s).
Proof.
  intros Hs [Hns Hin] (Hk & _ & _ & _ & Ho).
  destruct o as [x|x|x|x], o' as [y|y|y|y]; try done; split; simpl; try apply Hs.
  - intros nn z. rewrite lookup_insert_Some. intros [[<- <-]|[_ Hz]]; [|by apply (ok_sts _ Hs)].
    split; [done|]. intros name ct Hname. destruct Hin as (ct0 & _ & Hn & (? & ? & ? & Hv) & _ & _).
    simpl in Hk. rewrite Hk in Hname. simpl in Hname. rewrite Hn in Hname.
    apply component_name_inj in Hname as [<- <-]. destruct Ho as [(? & ? & ?) Hvct]. split_and!; [congruence..|]. intros Hct. rewrite Hvct. auto.
  - intros nn z. rewrite lookup_insert_Some. intros [[<- <-]|[_ Hz]]; [|by apply (ok_dep _ Hs)].
    split; [done|]. intros name ct Hname. destruct Hin as (ct0 & _ & Hn & Hc & _).
    simpl in Hk. rewrite Hk in Hname. simpl in Hname. rewrite Hn in Hname.
    apply component_name_inj in Hname as [<- <-]. unfold dep_canonical, dep_identity in *. congruence.
  - intros nn z. rewrite lookup_insert_Some. intros [[<- <-]|[_ Hz]]; [done|by apply (ok_svc _ Hs)].
  - intros nn z. rewrite lookup_insert_Some. intros [[<- <-]|[_ Hz]]; [done|by apply (ok_cm _ Hs)].
Qed.

Lemma status_updates_ok s s' h h' : store_ok s -> status_updates h h' s s' ->
  store_ok s' /\ ObjectKey (hdb_Meta h') = ObjectKey (hdb_Meta h).
Proof.
  intros Hs (old & Hold & -> & ->). pose proof (ok_hdb _ Hs _ _ Hold) as Hk. split; [|done].
  split; simpl; try apply Hs. intros nn z. rewrite lookup_insert_Some.
  intros [[<- <-]|[_ Hz]]; [done|by apply (ok_hdb _ Hs)].
Qed.

(** The server's answers meet the rely condition. *)
Lemma served_answered s s' e req shards :
  store_ok s -> serves s e s' -> shards_stored s req shards ->
  (forall err, e <> Ev (CGet KConfigMap (nshards_key req)) (inl err)) \/ shards = None ->
  answered req shards e.
Proof.
  destruct e as [c r]. unfold serves, answered. cbn [ev_call ev_resp].
  intros Hs Hserved Hsh Hread. destruct c as [k nn| | |h|owner m| | | | | | | |]; try done.
  - destruct Hserved as [_ Hr]. destruct k; simpl in *; try done.
    + intros h ->. by apply Hs.
    + intros x ->. by apply Hs.
    + intros x ->. by apply Hs.
    + intros x ->. by apply Hs.
    + intros N HN ->. destruct Hread as [Hread| ->]; [|done].
      destruct (Hsh N HN) as (cm & Hcm & Hd). destruct r as [err|cm']; [by destruct (Hread err)|].
      unfold nshards_key in Hcm. rewrite Hr in Hcm. injection Hcm as ->. eauto.
  - intros h' ->. by eapply status_updates_ok.
  - intros refs ->. apply Hserved.
Qed.

(** A call inside the footprint keeps the invariant of the store. *)
Lemma served_ok s s' c r req shards :
  store_ok s -> serves s (Ev c r) s' -> pass_call req shards c -> store_ok s'.
Proof.
  unfold serves. cbn [ev_call ev_resp]. intros Hs Hserved Hc.
  assert (forall o, in_cluster req shards o -> creates o s s' \/ updates o s s' -> store_ok s') as Hput.
  { intros o Ho [(_ & o' & Hst & ->)|(_ & o' & Hst & ->)]; by eapply put_ok. }
  destruct c as [k nn|o|o|h|owner m| | | | | | | |]; simpl in Hserved;
    try (by subst s'); try (by destruct Hserved as [-> _]).
  - destruct Hc as [Ho _]. destruct r; [destruct Hserved as [->|]|]; eauto.
  - destruct Hc as [Ho _]. destruct r; [destruct Hserved as [->|]|]; eauto.
  - destruct r; [destruct Hserved as [->|[h' Hu]]|]; [done|by eapply status_updates_ok..].
Qed.

(** What a pass in progress still guarantees. *)
Definition pass_ok (shards : NamespacedName -> option Z) (p : prog Result) : Prop :=
  exists req, guarantees (answered req (shards req)) (pass_call req (shards req)) p.

Lemma step_ok P shards w w' :
  (forall req N, shards req = Some N -> int32_ok N) ->
  store_ok (w_store w) -> Forall (pass_ok shards) (w_passes w) -> step P w w' ->
  (forall req, shards_stored (w_store w) req (shards req)) ->
  (forall req err, P (Ev (CGet KConfigMap (nshards_key req)) (inl err)) -> shards req = None) ->
  store_ok (w_store w') /\ Forall (pass_ok shards) (w_passes w').
Proof.
  intros Hok Hs Hp Hstep Hsh HP. destruct Hstep as [s s' ps He|s ps req|s s' ps1 ps2 c k r Hserved HPe|s ps1 ps2 p];
    cbn [w_store w_passes] in *.
  - split; [by eapply env_step_ok|done].
  - split; [done|]. constructor; [|done]. exists req. apply rg_Reconcile. apply Hok.
  - apply Forall_app in Hp as [Hp1 Hp2]. apply Forall_cons in Hp2 as [[req [Hc Hk]] Hp2].
    split; [by eapply served_ok|]. apply Forall_app; split; [done|]. constructor; [|done].
    exists req. apply Hk. eapply served_answered; [done|done|apply Hsh|].
    destruct (shards req) as [N|] eqn:HN; [left|by right]. intros err Heq. rewrite Heq in HPe.
    apply HP in HPe. congruence.
  - split; [done|]. apply Forall_app in Hp as [Hp1 Hp2]. apply Forall_cons in Hp2 as [_ Hp2].
    by apply Forall_app.
Qed.

Lemma reachable_ok w : reachable w -> store_ok (w_store w) /\ Forall (pass_ok (fun _ => None)) (w_passes w).
Proof.
  induction 1 as [s Hs|w w' _ [Hs Hp] Hstep]; [split; [by apply initial_ok|constructor]|].
  by eapply step_ok.
Qed.

Lemma pending_call shards w c :
  Forall (pass_ok shards) (w_passes w) -> pending w c -> exists req, pass_call req (shards req) c.
Proof. intros Hp [k Hin]. rewrite Forall_forall in Hp. destruct (Hp _ Hin) as [req [Hc _]]. by exists req. Qed.


(** The stored number of shards outlives every step. *)
Lemma creates_keeps_cm o s s' nn cm :
  creates o s s' -> st_cm s !! nn = Some cm -> st_cm s' !! nn = Some cm.
Proof.
  intros (Hn & o' & (Hk & _ & _ & _ & Ho) & ->) Hcm. destruct o as [x|x|x|x], o' as [y|y|y|y]; try done.
  simpl in *. rewrite lookup_insert_ne; [done|]. intros Heq. rewrite <-Heq, Hk in Hcm. by apply Hn.
Qed.

Lemma updates_keeps_cm o s s' : kobj_kind o <> KConfigMap -> updates o s s' -> st_cm s' = st_cm s.
Proof. intros Hk (_ & o' & (_ & _ & _ & _ & Ho) & ->). by destruct o, o'. Qed.

Lemma served_keeps_cm s s' c r req shards nn cm :
  serves s (Ev c r) s' -> pass_call req shards c -> st_cm s !! nn = Some cm -> st_cm s' !! nn = Some cm.
Proof.
  unfold serves. cbn [ev_call ev_resp]. intros Hserved Hc Hcm.
  destruct c as [k n|o|o|h|owner m| | | | | | | |]; simpl in Hserved;
    try (by subst s'); try (by destruct Hserved as [-> _]).
  - destruct r; [destruct Hserved as [->|]|]; [done|by eapply creates_keeps_cm..].
  - destruct Hc as [_ Hk].
    destruct r; [destruct Hserved as [->|]|]; [done|by rewrite (updates_keeps_cm o s s')..].
  - destruct r; [destruct Hserved as [->|(h' & old & _ & _ & ->)]|destruct Hserved as (old & _ & _ & ->)]; done.
Qed.

Lemma step_keeps_shards P shards w w' req :
  Forall (pass_ok shards) (w_passes w) -> step P w w' ->
  shards_stored (w_store w) req (shards req) -> shards_stored (w_store w') req (shards req).
Proof.
  intros Hp Hstep Hsh N HN. destruct (Hsh N HN) as (cm & Hcm & Hd).
  destruct Hstep as [s s' ps He|s ps r|s s' ps1 ps2 c k r Hserved _|s ps1 ps2 p]; cbn [w_store w_passes] in *;
    [|by eauto| |by eauto].
  - destruct (env_nshards _ _ He _ _ _ Hcm) as (cm' & Hcm' & Hd'). exists cm'. split; [done|]. by rewrite Hd'.
  - apply Forall_app in Hp as [_ Hp]. apply Forall_cons in Hp as [[rq [Hc _]] _].
    exists cm. split; [by eapply served_keeps_cm|done].
Qed.

(** *** Properties *)

(** What the server checks on a workload: the selector matches the pods, and an update [keeps] what
    identifies the stored object: for a stateful set its wiring, and its volume claims as well. *)
Definition respects (keeps : StatefulSet -> StatefulSet -> Prop) (s : store) (o : kobj) : Prop :=
  match o with
  | OStatefulSet x =>
      sts_Selector (sts_Spec x) = meta_Labels (tpl_Meta (sts_Template (sts_Spec x))) /\
      forall old, st_sts s !! ObjectKey (sts_Meta x) = Some old -> keeps old x
  | ODeployment x =>
      dep_Selector (dep_Spec x) = meta_Labels (tpl_Meta (dep_Template (dep_Spec x))) /\
      forall old, st_dep s !! ObjectKey (dep_Meta x) = Some old -> dep_identity old x
  | OService x => exists ct, svc_Selector (svc_Spec x) = Some {[ComponentKey := ct_string ct]}
  | OConfigMap _ => True
  end.

Definition wired (s : store) (o : kobj) : Prop := respects sts_wiring s o.
Definition acceptable (s : store) (o : kobj) : Prop := respects sts_identity s o.

Lemma in_cluster_wired s o req : store_ok s -> in_cluster req None o -> wired s o.
Proof.
  intros Hs [_ Ho]. destruct o as [x|x|x|x]; simpl in *; [| |by destruct Ho as (ct & ? & _); exists ct|done].
  - destruct Ho as (ct & _ & Hn & (H1 & H2 & H3 & _) & Hl & _). split; [congruence|]. intros old Hold.
    destruct (ok_sts _ Hs _ _ Hold) as [_ Hc]. destruct (Hc _ _ Hn) as (? & ? & ? & _). split_and!; congruence.
  - destruct Ho as (ct & _ & Hn & H1 & Hl). unfold dep_canonical in H1. split; [congruence|]. intros old Hold.
    destruct (ok_dep _ Hs _ _ Hold) as [_ Hc]. specialize (Hc _ _ Hn).
    unfold dep_canonical, dep_identity in *. congruence.
Qed.

(** Whatever users, the controllers of Kubernetes and concurrent passes for this and for other
    clusters do in the meantime, and wherever the operator was killed before, no write that a pass
    is about to make is one the server must reject for its wiring: the selector of a workload matches its pods,
    and an update leaves the selector, the governing service and the pod management policy of the
    stored object alone. A config map is never updated at all. (The volume claims, which the server
    checks too, are the business of [Claims].) *)
Theorem pending_writes_wired w o :
  reachable w -> pending w (CCreate o) \/ pending w (CUpdate o) ->
  wired (w_store w) o /\ (pending w (CUpdate o) -> kobj_kind o <> KConfigMap).
Proof.
  intros [Hs Hp]%reachable_ok Hpend. split.
  - destruct Hpend as [H|H]; destruct (pending_call _ _ _ Hp H) as [req [Ho _]]; by eapply in_cluster_wired.
  - intros H. destruct (pending_call _ _ _ Hp H) as [req Hc]. apply Hc.
Qed.

(** The pods of a storage node with [N] shards: some version of the cluster's spec, and exactly the
    mounts of the shards 0 to N-1 after those of the user and of the two config maps. *)
Definition mounts_shards (req : NamespacedName) (N : Z) (x : StatefulSet) : Prop :=
  exists hdb c rest, ObjectKey (hdb_Meta hdb) = req /\
    elems (pod_Containers (tpl_Spec (sts_Template (sts_Spec x)))) = c :: rest /\
    elems (ctr_VolumeMounts c) = elems (ctr_VolumeMounts (comp_Container (spec_HStore (hdb_Spec hdb)))) ++
      [GetLogDeviceConfigVolumeMount hdb; GetNShardsConfigVolumeMount hdb] ++
      (addHStore.shard_mount hdb <$> seqZ 0 N).

Lemma hstore_shards_mounts req N x : hstore_shards req (Some N) x -> mounts_shards req N x.
Proof.
  intros (hdb & n & desired & Hkey & Hd & Ht & Hn). rewrite (Hn N eq_refl) in Hd.
  apply getSts_parts in Hd as (cs & Hcs & Hc & _ & _). apply getContainer_mounts in Hcs as (c & rest & -> & Hm).
  exists hdb, c, rest. rewrite Ht, Hc. done.
Qed.

(** The stateful set of the storage nodes belongs to no other cluster. *)
Lemma in_cluster_hstore r req (shards : NamespacedName -> option Z) x :
  in_cluster r (shards r) (OStatefulSet x) ->
  ObjectKey (sts_Meta x) =
    {| nn_Namespace := nn_Namespace req; nn_Name := component_name (nn_Name req) ComponentTypeHStore |} ->
  hstore_shards req (shards req) x.
Proof.
  intros (Hns & ct & _ & Hname & _ & _ & Hx) Hkey. injection Hkey as Hk1 Hk2. simpl in Hns. rewrite Hname in Hk2.
  apply component_name_inj in Hk2 as [Hk2 ->].
  assert (r = req) as ->; [|by apply Hx]. clear -Hns Hk1 Hk2. destruct r, req; simpl in *. congruence.
Qed.

(** The number of shards is fixed for the life of the cluster: once it is stored, and from a
    moment at which no pass is running, every storage node that any later pass is about to create
    or update mounts exactly that many shards, whatever number users have put into the spec since,
    and the stored number itself stays. The one exception the code makes is a pass whose read of
    the stored number fails. *)
Theorem shards_fixed req N s w' :
  int32_ok N -> store_ok s -> shards_stored s req (Some N) ->
  rtc (step (fun e => forall err, e <> Ev (CGet KConfigMap (nshards_key req)) (inl err)))
    {| w_store := s; w_passes := [] |} w' ->
  shards_stored (w_store w') req (Some N) /\
  forall x, pending w' (CCreate (OStatefulSet x)) \/ pending w' (CUpdate (OStatefulSet x)) ->
    ObjectKey (sts_Meta x) =
      {| nn_Namespace := nn_Namespace req; nn_Name := component_name (nn_Name req) ComponentTypeHStore |} ->
    mounts_shards req N x.
Proof.
  intros HN Hs Hsh Hrtc. set (shards r := if decide (r = req) then Some N else None).
  assert (Hreq : shards req = Some N) by (unfold shards; by rewrite decide_True).
  assert (forall w, rtc (step (fun e => forall err, e <> Ev (CGet KConfigMap (nshards_key req)) (inl err))) w w' ->
    store_ok (w_store w) -> Forall (pass_ok shards) (w_passes w) ->
    (forall r, shards_stored (w_store w) r (shards r)) ->
    Forall (pass_ok shards) (w_passes w') /\ forall r, shards_stored (w_store w') r (shards r)) as Hind.
  { clear Hrtc. intros w Hrtc. induction Hrtc as [w|w w1 w' Hstep _ IH]; intros Hok Hp Hst; [done|].
    destruct (step_ok _ shards _ _ ltac:(intros r n; unfold shards; case_decide; naive_solver) Hok Hp Hstep Hst)
      as [Hok1 Hp1].
    { intros r err HP. unfold shards. rewrite decide_False; [done|]. intros ->. by apply (HP err). }
    apply IH; [done..|]. intros r. exact (step_keeps_shards _ shards w w1 r Hp Hstep (Hst r)). }
  destruct (Hind _ Hrtc Hs (Forall_nil_2 _)) as [Hp Hst].
  { intros r n Hn. unfold shards in Hn. case_decide; naive_solver. }
  split; [rewrite <-Hreq; apply Hst|]. intros x Hpend Hkey. apply hstore_shards_mounts.
  assert (exists r, in_cluster r (shards r) (OStatefulSet x)) as [r Hin].
  { destruct Hpend as [H|H]; destruct (pending_call _ _ _ Hp H) as [r Hc]; exists r; apply Hc. }
  rewrite <-Hreq. by eapply in_cluster_hstore.
Qed.

End Operator.
