(* ===== verification/Queue.v ===== *)
(** * The work queue: [SetupWithManager] of [src/internal/controller/hstreamdb_controller.go]

    The controller library calls [Reconcile] from a work queue: watch events that pass the filter
    add the key of their object, a worker takes a key and runs a pass for it, and the result of the
    pass decides whether the key comes back. The queue is outside the repository and is used
    through its documented contract ([WorkQueue]). Here it runs with the HStreamDB controller, the
    event filter of the repository and the server and its clients of [Server]; the theorems say
    that no change a user makes to a cluster is lost. *)
From S2P Require Import Prelude GoStrings KubeTypes ApiTypes Effects RelyGuarantee Conditions FlagSet Naming Constants Merge Requeue Workload LogDevice Services Admin HMeta AdminServer HStore HServer Gateway Console Bootstrap Server Status Controller Footprint Operator.

(** ** The contract of the queue

    [held q nn]: the key was added and has not been handed out since; [working q nn]: it was
    handed out and is not done. [Get] hands out a key that is not being worked on; a key that is
    added meanwhile is kept for later. [AddLater] stands for [AddAfter] and [AddRateLimited]. *)
Class WorkQueue (Q : Type) := {
  wq_empty : Q;
  held : Q -> NamespacedName -> Prop;
  working : Q -> NamespacedName -> Prop;
  Add : NamespacedName -> Q -> Q;
  AddLater : NamespacedName -> Q -> Q;
  Get : NamespacedName -> Q -> Q -> Prop;
  wq_Done : NamespacedName -> Q -> Q;
  working_empty nn : ~ working wq_empty nn;
  held_Add k q nn : nn = k \/ held q nn -> held (Add k q) nn;
  working_Add k q nn : working (Add k q) nn <-> working q nn;
  held_AddLater k q nn : nn = k \/ held q nn -> held (AddLater k q) nn;
  working_AddLater k q nn : working (AddLater k q) nn <-> working q nn;
  Get_free k q q' : Get k q q' -> ~ working q k;
  held_Get k q q' nn : Get k q q' -> held q nn -> nn = k \/ held q' nn;
  working_Get k q q' nn : Get k q q' -> (working q' nn <-> nn = k \/ working q nn);
  held_Done k q nn : held q nn -> held (wq_Done k q) nn;
  working_Done k q nn : working (wq_Done k q) nn <-> nn <> k /\ working q nn
}.

(** ** Watch events

    What may happen to the stored object of a cluster between two calls of the operator, and
    whether the watch tells the queue. The status belongs to the operator, and the server counts
    the versions of the spec in the generation. *)
Inductive change : option HStreamDB -> option HStreamDB -> bool -> Prop :=
| change_none o : change o o false
| change_create h : change None (Some h) true
| change_delete h : change (Some h) None true
| change_update h h' :
    hdb_Status h' = hdb_Status h ->
    (meta_Generation (hdb_Meta h') = meta_Generation (hdb_Meta h) -> hdb_Spec h' = hdb_Spec h) ->
    change (Some h) (Some h') (UpdateFunc h h').

(** The keys [new] are among those the watch delivers for a change of the store. *)
Definition watched (s s' : store) (new : list NamespacedName) : Prop :=
  forall nn, exists b, change (st_hdb s !! nn) (st_hdb s' !! nn) b /\ (b = true -> nn ∈ new).

(** The events of the initial list, when the operator starts. *)
Definition stored_keys (s : store) : list NamespacedName := (map_to_list (st_hdb s)).*1.

(** ** The system *)

(** A pass in progress: its key, the calls it has made with their answers, and what is left. *)
Record job := { job_req : NamespacedName; job_trace : list event; job_prog : prog Result }.

(** [sy_seen] remembers, for each key, the object that the last finished pass had read. *)
Record system {Q : Type} := {
  sy_store : store;
  sy_events : list NamespacedName;
  sy_queue : Q;
  sy_jobs : list job;
  sy_seen : gmap NamespacedName HStreamDB
}.
Arguments system : clear implicits.
Arguments Build_system {_}.

(** The answer of the read a pass begins with. *)
Definition hdb_read (e : event) : option (go_error + HStreamDB) :=
  match e with
  | Ev c r =>
      match c return resp c -> option (go_error + HStreamDB) with
      | CGet k _ =>
          match k return go_error + obj_of k -> option (go_error + HStreamDB) with
          | KHStreamDB => fun r => Some r
          | _ => fun _ => None
          end
      | _ => fun _ => None
      end r
  end.

Definition job_read (j : job) : option (go_error + HStreamDB) := head (job_trace j) ≫= hdb_read.

Definition note (j : job) (seen : gmap NamespacedName HStreamDB) : gmap NamespacedName HStreamDB :=
  match job_read j with Some (inr h) => <[job_req j := h]> seen | _ => seen end.

#[export] Instance retried_dec r : Decision (retried r).
Proof. unfold retried. apply _. Defined.

(** What the controller library does with the result of a pass. *)
Definition finish {Q} `{WorkQueue Q} (req : NamespacedName) (r : Result) (q : Q) : Q :=
  wq_Done req (if decide (retried r) then AddLater req q else q).

Section Queue.
Context {KL : KubeLib} {G : Gabs} {SS : SortSlice} {AJ : AdminJson} {Q : Type} {WQ : WorkQueue Q}.
Implicit Types sy : system Q.

Definition start (req : NamespacedName) : job :=
  {| job_req := req; job_trace := []; job_prog := Reconcile (P := adminClientProvider) req |}.

(** The operator starts, or starts again. *)
Definition boot_system (s : store) (seen : gmap NamespacedName HStreamDB) : system Q :=
  {| sy_store := s; sy_events := stored_keys s; sy_queue := wq_empty; sy_jobs := []; sy_seen := seen |}.

(** [queue_step P sy sy']: one step, in which a call of a pass meets [P]: others change the store,
    an event reaches the queue, a worker takes a key, a pass makes a call, a pass is finished, or
    the process dies, as it does when a pass panics, and starts again. *)
Inductive queue_step (P : event -> Prop) : system Q -> system Q -> Prop :=
| queue_env s s' evs new q js seen :
    env_step s s' -> watched s s' new ->
    queue_step P (Build_system s evs q js seen) (Build_system s' (evs ++ new) q js seen)
| queue_deliver s evs1 k evs2 q js seen :
    queue_step P (Build_system s (evs1 ++ k :: evs2) q js seen) (Build_system s (evs1 ++ evs2) (Add k q) js seen)
| queue_start s evs k q q' js seen :
    Get k q q' -> queue_step P (Build_system s evs q js seen) (Build_system s evs q' (start k :: js) seen)
| queue_call s s' evs q js1 req tr c k js2 seen r :
    serves s (Ev c r) s' -> P (Ev c r) ->
    queue_step P
      (Build_system s evs q (js1 ++ {| job_req := req; job_trace := tr; job_prog := Do c k |} :: js2) seen)
      (Build_system s' evs q
        (js1 ++ {| job_req := req; job_trace := tr ++ [Ev c r]; job_prog := k r |} :: js2) seen)
| queue_finish s evs q js1 req tr r js2 seen :
    let j := {| job_req := req; job_trace := tr; job_prog := Ret r |} in
    queue_step P (Build_system s evs q (js1 ++ j :: js2) seen)
      (Build_system s evs (finish req r q) (js1 ++ js2) (note j seen))
| queue_restart s evs q js seen :
    queue_step P (Build_system s evs q js seen) (boot_system s seen).

Inductive queue_reachable : system Q -> Prop :=
| queue_init s : env_step empty_store s -> queue_reachable (boot_system s ∅)
| queue_next sy sy' : queue_reachable sy -> queue_step (fun _ => True) sy sy' -> queue_reachable sy'.

(** The key will be handed out again. *)
Definition waiting sy (nn : NamespacedName) : Prop := nn ∈ sy_events sy \/ held (sy_queue sy) nn.

(** A pass for the key is in progress. *)
Definition in_progress sy (nn : NamespacedName) : Prop := nn ∈ job_req <$> sy_jobs sy.

(** The cluster is ready, for the spec that the last finished pass has read. *)
Definition up_to_date sy (nn : NamespacedName) (h : HStreamDB) : Prop :=
  IsConditionTrue h Ready = true /\
  exists h0, sy_seen sy !! nn = Some h0 /\ hdb_Spec h = hdb_Spec h0 /\
    meta_Generation (hdb_Meta h) = meta_Generation (hdb_Meta h0).

(** The same without the queue: the world of [Operator]. *)
Definition forget sy : world := {| w_store := sy_store sy; w_passes := job_prog <$> sy_jobs sy |}.

(** ** Lemmas *)

(** *** The queue only adds an order of work *)

Lemma rtc_steps_end P s ps1 ps2 ps : rtc (step P) {| w_store := s; w_passes := ps1 ++ ps ++ ps2 |}
  {| w_store := s; w_passes := ps1 ++ ps2 |}.
Proof.
  induction ps as [|p ps IH]; [done|]. eapply rtc_l; [apply (step_end _ s ps1 (ps ++ ps2) p)|]. exact IH.
Qed.

Lemma queue_step_forget P sy sy' : queue_step P sy sy' -> rtc (step P) (forget sy) (forget sy').
Proof.
  intros Hstep. destruct Hstep; unfold forget; cbn [sy_store sy_jobs]; try done.
  - by apply rtc_once, step_env.
  - by apply rtc_once, step_start.
  - rewrite !fmap_app. by apply rtc_once, step_call.
  - rewrite !fmap_app. by apply rtc_once, step_end.
  - rewrite <-(app_nil_r (job_prog <$> js)). apply (rtc_steps_end P s [] []).
Qed.

Lemma queue_reachable_forget sy : queue_reachable sy -> reachable (forget sy).
Proof.
  induction 1 as [s Hs|sy sy' _ IH Hstep%queue_step_forget]; [by apply reachable_init|].
  clear -IH Hstep. induction Hstep as [|w1 w2 w3 H12 _ IH2]; [done|]. apply IH2. by eapply reachable_step.
Qed.

(** *** What a call does to the objects of the clusters *)

(** What an event tells about the stored status of the cluster: a stored one, or nothing. *)
Definition status_answer (e : event) : option (option HStreamDB) :=
  match e with
  | Ev c r =>
      match c return resp c -> option (option HStreamDB) with
      | CStatusUpdate _ => fun r => Some (match r with inr h => Some h | inl _ => None end)
      | _ => fun _ => None
      end r
  end.

(** The object that the last status update of a pass has stored, if it is known. *)
Definition last_status (tr : list event) : option HStreamDB := last (omap status_answer tr) ≫= id.

Lemma last_status_snoc tr e :
  last_status (tr ++ [e]) = match status_answer e with Some o => o | None => last_status tr end.
Proof.
  unfold last_status. rewrite omap_app. simpl. destruct (status_answer e) as [o|]; [by rewrite last_snoc|].
  by rewrite app_nil_r.
Qed.

(** A call of a pass for [req] leaves the objects of the clusters alone, or stores the status of
    its own cluster. *)
Lemma served_hdb s s' c r req :
  store_ok s -> serves s (Ev c r) s' -> pass_call req None c ->
  (st_hdb s' = st_hdb s /\ forall h, status_answer (Ev c r) <> Some (Some h)) \/
  (exists h old, st_hdb s !! req = Some old /\ st_hdb s' = <[req := with_status h old]> (st_hdb s) /\
     (status_answer (Ev c r) = Some None \/ status_answer (Ev c r) = Some (Some (with_status h old)))).
Proof.
  unfold serves. cbn [ev_call ev_resp]. intros Hs Hserved Hc.
  assert (forall o, creates o s s' \/ updates o s s' -> st_hdb s' = st_hdb s) as Hput.
  { by intros o [(_ & o' & _ & ->)|(_ & o' & _ & ->)]. }
  destruct c as [k nn|o|o|h|owner m| | | | | | | |]; simpl in Hserved;
    try (left; subst s'; done); try (left; destruct Hserved as [-> _]; done).
  - left. split; [|done]. destruct r; [destruct Hserved as [->|]|]; eauto.
  - left. split; [|done]. destruct r; [destruct Hserved as [->|]|]; eauto.
  - simpl in Hc. assert (forall h', status_updates h h' s s' -> exists old, h' = with_status h old /\
     st_hdb s !! req = Some old /\ st_hdb s' = <[req := with_status h old]> (st_hdb s)) as Hup.
    { intros h' (old & Hold & -> & ->). rewrite Hc in Hold. exists old. split_and!; try done. simpl.
      f_equal. by apply (ok_hdb _ Hs). }
    destruct r as [err|h'].
    + destruct Hserved as [->|[h' (old & -> & Hold & Hst)%Hup]]; [by left|].
      right. exists h, old. auto.
    + destruct (Hup _ Hserved) as (old & -> & Hold & Hst). right. exists h, old. auto.
Qed.

(** *** Passes in progress *)

(** The pass, up to now, is a pass of the controller for its key, and keeps to its footprint. *)
Definition job_ok (j : job) : Prop :=
  (forall tr o, exec (job_prog j) tr o ->
     exec (Reconcile (P := adminClientProvider) (job_req j)) (job_trace j ++ tr) o) /\
  (job_trace j = [] -> job_prog j = Reconcile (P := adminClientProvider) (job_req j)) /\
  guarantees (answered (job_req j) None) (pass_call (job_req j) None) (job_prog j).

Lemma start_ok req : job_ok (start req).
Proof. do 2 (split; [done|]). by apply rg_Reconcile. Qed.

Lemma job_ok_call s s' req tr c k r :
  store_ok s -> serves s (Ev c r) s' ->
  job_ok {| job_req := req; job_trace := tr; job_prog := Do c k |} ->
  pass_call req None c /\ job_ok {| job_req := req; job_trace := tr ++ [Ev c r]; job_prog := k r |}.
Proof.
  intros Hs Hserved (He & _ & Hc & Hk). split; [done|]. split_and!; simpl in *.
  - intros tr' o H. rewrite <-app_assoc. apply He. by exists r, tr'.
  - by destruct tr.
  - apply Hk. eapply served_answered; [done|done| |by right]. by intros N.
Qed.

(** What a pass that nobody has overtaken knows: the spec it has read is the stored one, and so is
    the status it has stored. *)
Definition abreast (o : option HStreamDB) (j : job) : Prop :=
  match job_read j with
  | None => job_trace j = []
  | Some (inl err) => IsNotFound err = true -> o = None
  | Some (inr h0) => exists h, o = Some h /\ hdb_Spec h = hdb_Spec h0 /\
      meta_Generation (hdb_Meta h) = meta_Generation (hdb_Meta h0) /\
     forall h', last_status (job_trace j) = Some h' -> hdb_Status h = hdb_Status h'
  end.

(** Other clients leave it abreast as long as the watch has nothing to tell. *)
Lemma change_quiet h o' : change (Some h) o' false -> exists h', o' = Some h' /\
  hdb_Status h' = hdb_Status h /\ hdb_Spec h' = hdb_Spec h /\
     meta_Generation (hdb_Meta h') = meta_Generation (hdb_Meta h).
Proof.
  intros H. inversion H as [| | |? h' Hst Hsp Heq Heq' Hu]; subst; [by exists h|].
  exists h'. unfold UpdateFunc in Hu. apply negb_false_iff, Z.eqb_eq in Hu. auto.
Qed.

Lemma change_quiet_none o' : change None o' false -> o' = None.
Proof. by inversion 1. Qed.

Lemma abreast_change o o' j : change o o' false -> abreast o j -> abreast o' j.
Proof.
  unfold abreast. intros Hc. destruct (job_read j) as [[err|h0]|]; [|intros (h & -> & Hs & Hg & Hst)|done].
  - intros H Herr. rewrite (H Herr) in Hc. by apply change_quiet_none.
  - apply change_quiet in Hc as (h' & -> & Hst' & Hs' & Hg'). exists h'. split; [done|].
    rewrite Hst', Hs', Hg'. auto.
Qed.

(** A pass that is finished and not retried has left the cluster ready. *)
Lemma abreast_done o req tr r :
  let j := {| job_req := req; job_trace := tr; job_prog := Ret r |} in
  job_ok j -> abreast o j -> ~ retried r -> forall h, o = Some h ->
  IsConditionTrue h Ready = true /\ exists h0, job_read j = Some (inr h0) /\ hdb_Spec h = hdb_Spec h0 /\
     meta_Generation (hdb_Meta h) = meta_Generation (hdb_Meta h0).
Proof.
  intros j (He & _ & _) Ha Hr h ->. specialize (He [] (Done r)). simpl in He. rewrite app_nil_r in He.
  specialize (He ltac:(done)). destruct (Reconcile_never_lost _ _ _ He) as [?|[(err & Herr & Htr)|Hready]]; [done| |].
  - unfold abreast, j in Ha. unfold job_read in Ha. simpl in Ha. rewrite Htr in Ha. simpl in Ha.
    by specialize (Ha Herr).
  - destruct Hready as (tr' & hdb0 & hdb' & Hready & Htr).
    destruct He as (r1 & tr1 & Htr1 & He). destruct r1 as [err|h0].
    { exfalso. cbn [prog_bind] in He. assert (tr1 = []) as -> by (destruct (IsNotFound err); apply He).
      rewrite Htr1 in Htr. by destruct tr' as [|? [|]]. }
    clear He. unfold abreast, job_read in Ha |- *. cbn [j job_trace] in Ha |- *. rewrite Htr1 in Ha |- *. simpl in Ha |- *.
    destruct Ha as (h1 & [= <-] & Hs & Hg & Hst). split; [|by exists h0].
    assert (hdb_Status h = hdb_Status hdb') as Heq.
    { apply Hst. rewrite <-Htr1, Htr. change [?a; ?b] with ([a] ++ [b]). by rewrite app_assoc, !last_status_snoc. }
    clear -Heq Hready. unfold IsConditionTrue, GetCondition, conds in *. by rewrite Heq.
Qed.

(** *** The invariant *)

Record queue_inv sy : Prop := {
  qi_jobs : Forall job_ok (sy_jobs sy);
  qi_nodup : NoDup (job_req <$> sy_jobs sy);
  qi_working nn : in_progress sy nn -> working (sy_queue sy) nn;
  qi_stored nn h : st_hdb (sy_store sy) !! nn = Some h -> waiting sy nn \/ in_progress sy nn \/ up_to_date sy nn h;
  qi_abreast j : j ∈ sy_jobs sy -> waiting sy (job_req j) \/ abreast (st_hdb (sy_store sy) !! job_req j) j
}.

Lemma boot_inv s seen : queue_inv (boot_system s seen).
Proof.
  split; simpl; try constructor.
  - by intros nn ?%elem_of_nil.
  - left. simpl. unfold stored_keys. apply list_elem_of_fmap. exists (nn, h). split; [done|].
    by apply elem_of_map_to_list.
  - by apply elem_of_nil in H.
Qed.

Lemma up_to_date_change s s' evs evs' q js seen nn h h' :
  change (Some h) (Some h') false -> up_to_date (Build_system s evs q js seen) nn h ->
  up_to_date (Build_system s' evs' q js seen) nn h'.
Proof.
  intros (h1 & [= <-] & Hst & Hs & Hg)%change_quiet [Hr (h0 & H0 & Hs0 & Hg0)]. split.
  - clear -Hr Hst. unfold IsConditionTrue, GetCondition, conds in *. by rewrite Hst.
  - exists h0. rewrite Hs, Hg. auto.
Qed.

Lemma env_inv s s' evs new q js seen :
  watched s s' new -> queue_inv (Build_system s evs q js seen) -> queue_inv (Build_system s' (evs ++ new) q js seen).
Proof.
  intros Hw [Hj Hnd Hwk Hst Ha]. split; try done; simpl in *.
  - intros nn h Hh. destruct (Hw nn) as (b & Hc & Hnew). rewrite Hh in Hc. destruct b.
    { left. left. simpl. apply elem_of_app. auto. }
    destruct (st_hdb s !! nn) as [h0|] eqn:E; [|by apply change_quiet_none in Hc].
    destruct (Hst nn h0 E) as [[H|H]|[H|H]]; [left; left; apply elem_of_app; auto|left; by right|right; by left|].
    right. right. by eapply up_to_date_change.
  - intros j Hin. destruct (Hw (job_req j)) as (b & Hc & Hnew). destruct b.
    { left. left. simpl. apply elem_of_app. auto. }
    destruct (Ha j Hin) as [[H|H]|H]; [left; left; apply elem_of_app; auto|left; by right|].
    right. by eapply abreast_change.
Qed.

(** A step of the queue that keeps every key that waits. *)
Lemma waiting_inv s evs evs' q q' js seen :
  (forall nn, waiting (Build_system s evs q js seen) nn -> waiting (Build_system s evs' q' js seen) nn) ->
  (forall nn, working q nn -> working q' nn) ->
  queue_inv (Build_system s evs q js seen) -> queue_inv (Build_system s evs' q' js seen).
Proof.
  intros Hw Hwk [Hj Hnd Hwk' Hst Ha]. split; try done; simpl in *.
  - intros nn H. by apply Hwk, Hwk'.
  - intros nn h Hh. destruct (Hst nn h Hh) as [H|[H|H]]; auto.
  - intros j Hin. destruct (Ha j Hin); auto.
Qed.

Lemma start_inv s evs q q' k js seen :
  Get k q q' -> queue_inv (Build_system s evs q js seen) -> queue_inv (Build_system s evs q' (start k :: js) seen).
Proof.
  intros Hget [Hj Hnd Hwk Hst Ha].
  assert (forall nn, waiting (Build_system s evs q js seen) nn ->
    nn = k \/ waiting (Build_system s evs q' (start k :: js) seen) nn) as Hw.
  { intros nn [H|H]; [by right; left|]. destruct (held_Get _ _ _ _ Hget H); [auto|by right; right]. }
  split; simpl in *.
  - constructor; [apply start_ok|done].
  - constructor; [|done]. intros Hin. by apply (Get_free _ _ _ Hget), Hwk.
  - intros nn [->|H]%elem_of_cons; apply (working_Get _ _ _ _ Hget); auto.
  - intros nn h Hh. destruct (Hst nn h Hh) as [[->|H]%Hw|[H|H]]; [|auto| |auto].
    + right. left. apply list_elem_of_here.
    + right. left. by apply list_elem_of_further.
  - intros j [->|Hin]%elem_of_cons; [by right|]. destruct (Ha j Hin) as [[Hk|H]%Hw|H]; [|auto|auto].
    exfalso. apply (Get_free _ _ _ Hget), Hwk. rewrite <-Hk. apply list_elem_of_fmap. by exists j.
Qed.

(** The call of one pass. *)
Lemma served_abreast s s' req tr c k r :
  store_ok s -> serves s (Ev c r) s' ->
  job_ok {| job_req := req; job_trace := tr; job_prog := Do c k |} ->
  abreast (st_hdb s !! req) {| job_req := req; job_trace := tr; job_prog := Do c k |} ->
  abreast (st_hdb s' !! req) {| job_req := req; job_trace := tr ++ [Ev c r]; job_prog := k r |}.
Proof.
  intros Hs Hserved Hjob Ha. destruct (job_ok_call _ _ _ _ _ _ _ Hs Hserved Hjob) as [Hc _].
  destruct tr as [|e tr].
  - destruct Hjob as (_ & Hfirst & _). specialize (Hfirst eq_refl). unfold Reconcile, kube_Get in Hfirst.
    apply (f_equal (fun p => match p with Do c _ => Some c | _ => None end)) in Hfirst. injection Hfirst as ->.
    destruct Hserved as [-> Hr]. unfold abreast, job_read. cbn. destruct r as [err|h0]; [done|].
    exists h0. by split_and!.
  - unfold abreast, job_read in *. cbn [job_trace app head] in *.
    destruct (served_hdb _ _ _ _ _ Hs Hserved Hc) as [[-> Hq]|(h & old & Hold & -> & Hans)].
    + destruct (Some e ≫= hdb_read) as [[err|h0]|]; [done| |done].
      destruct Ha as (h & Hh & ? & ? & Hl). exists h. split_and!; try done. intros h'.
      rewrite app_comm_cons, last_status_snoc. destruct (status_answer _) as [[h1|]|] eqn:E; [|done|apply Hl].
      by destruct (Hq h1).
    + rewrite lookup_insert_eq. destruct (Some e ≫= hdb_read) as [[err|h0]|]; [| |done].
      * intros Herr. by rewrite (Ha Herr) in Hold.
      * rewrite Hold in Ha. destruct Ha as (? & [= <-] & ? & ? & _). exists (with_status h old).
        split_and!; try done. intros h'. rewrite app_comm_cons, last_status_snoc. by destruct Hans as [->| ->]; [|intros [= <-]].
Qed.

(** The order of the workers does not matter. *)
Lemma jobs_perm s evs q js js' seen :
  js ≡ₚ js' -> queue_inv (Build_system s evs q js seen) -> queue_inv (Build_system s evs q js' seen).
Proof.
  intros Hperm [Hj Hnd Hwk Hst Ha]. split; unfold in_progress in *; cbn [sy_store sy_jobs sy_queue] in *.
  - by rewrite <-Hperm.
  - by rewrite <-Hperm.
  - intros nn. rewrite <-Hperm. apply Hwk.
  - intros nn h Hh. destruct (Hst nn h Hh) as [H|[H|H]]; [by left|right; left; by rewrite <-Hperm|by right; right].
  - intros j Hin. rewrite <-Hperm in Hin. by destruct (Ha j Hin); [left|right].
Qed.

Lemma job_first (js1 js2 : list job) j : js1 ++ j :: js2 ≡ₚ j :: js1 ++ js2.
Proof. by rewrite Permutation_middle. Qed.

Lemma call_inv s s' evs q req tr c k js seen r :
  store_ok s -> serves s (Ev c r) s' ->
  queue_inv (Build_system s evs q ({| job_req := req; job_trace := tr; job_prog := Do c k |} :: js) seen) ->
  queue_inv (Build_system s' evs q ({| job_req := req; job_trace := tr ++ [Ev c r]; job_prog := k r |} :: js) seen).
Proof.
  intros Hs Hserved [[Hj Hjs]%Forall_cons Hnd Hwk Hst Ha]. unfold in_progress in *. simpl in *.
  destruct (job_ok_call _ _ _ _ _ _ _ Hs Hserved Hj) as [Hc Hj'].
  assert (forall nn, nn <> req -> st_hdb s' !! nn = st_hdb s !! nn) as Hother.
  { intros nn Hn. destruct (served_hdb _ _ _ _ _ Hs Hserved Hc) as [[-> _]|(h & old & _ & -> & _)]; [done|].
    by rewrite lookup_insert_ne. }
  split; unfold in_progress; simpl; [by constructor|done|done| |].
  - intros nn h Hh. destruct (decide (nn = req)) as [->|Hn]; [right; left; apply list_elem_of_here|].
    rewrite Hother in Hh by done. destruct (Hst nn h Hh) as [H|[H|H]]; auto.
  - intros j [->|Hin]%elem_of_cons.
    + destruct (Ha _ (list_elem_of_here _ _)) as [H|H]; [by left|right]. by eapply served_abreast.
    + destruct (Ha j (list_elem_of_further _ _ _ Hin)) as [H|H]; [by left|right]. rewrite Hother; [done|].
      intros Heq. apply NoDup_cons in Hnd as [Hnot _]. apply Hnot. rewrite <-Heq. apply list_elem_of_fmap. by exists j.
Qed.

Lemma held_finish req r q nn : held q nn -> held (finish req r q) nn.
Proof. intros H. unfold finish. apply held_Done. case_decide; [|done]. apply held_AddLater. auto. Qed.

Lemma held_retried req r q : retried r -> held (finish req r q) req.
Proof. intros H. unfold finish. rewrite decide_True by done. apply held_Done, held_AddLater. auto. Qed.

Lemma working_finish req r q nn : nn <> req -> working q nn -> working (finish req r q) nn.
Proof. intros Hn H. unfold finish. apply working_Done. split; [done|]. case_decide; [by apply working_AddLater|done]. Qed.

Lemma finish_inv s evs q req tr r js seen :
  let j := {| job_req := req; job_trace := tr; job_prog := Ret r |} in
  queue_inv (Build_system s evs q (j :: js) seen) ->
  queue_inv (Build_system s evs (finish req r q) js (note j seen)).
Proof.
  intros j [[Hj Hjs]%Forall_cons [Hnot Hnd]%NoDup_cons Hwk Hst Ha]. unfold in_progress in *. simpl in *.
  assert (forall nn, waiting (Build_system s evs q (j :: js) seen) nn ->
    waiting (Build_system s evs (finish req r q) js (note j seen)) nn) as Hw.
  { intros nn [H|H]; [by left|]. right. by apply held_finish. }
  split; unfold in_progress; simpl; try done.
  - intros nn Hin. apply working_finish; [by intros ->|]. apply Hwk. by apply list_elem_of_further.
  - intros nn h Hh. destruct (decide (nn = req)) as [->|Hn].
    + destruct (decide (retried r)) as [Hr|Hr]; [left; right; by apply held_retried|].
      destruct (Ha j (list_elem_of_here _ _)) as [H|H]; [by auto|]. right. right.
      destruct (abreast_done _ req tr r Hj H Hr h Hh) as [Hready (h0 & Hread & Hup)]. split; [done|].
      exists h0. split; [|done]. cbn [sy_seen]. unfold note. fold j in Hread. rewrite Hread. apply lookup_insert_eq.
    + destruct (Hst nn h Hh) as [H|[[->|H]%elem_of_cons|[Hr (h0 & Hseen & Hup)]]]; [by auto|done|by auto|].
      right. right. split; [done|]. exists h0. split; [|done]. cbn [sy_seen] in *. unfold note.
      destruct (job_read j) as [[|h1]|]; [done| |done]. simpl. by rewrite lookup_insert_ne.
  - intros j' Hin. destruct (Ha j' (list_elem_of_further _ _ _ Hin)); auto.
Qed.

Lemma queue_reachable_inv sy : queue_reachable sy -> queue_inv sy.
Proof.
  induction 1 as [s Hs|sy sy' Hreach IH Hstep]; [apply boot_inv|].
  apply queue_reachable_forget, reachable_ok in Hreach as [Hok _].
  destruct Hstep; unfold forget in Hok; cbn [w_store sy_store] in Hok.
  - by eapply env_inv.
  - eapply waiting_inv; [| |exact IH]; [|intros nn; apply working_Add].
    intros nn [H|H]; simpl in H; [|right; apply held_Add; auto].
    apply elem_of_app in H as [H|[->|H]%elem_of_cons]; [left; apply elem_of_app; auto|right; apply held_Add; auto|].
    left. apply elem_of_app. auto.
  - by eapply start_inv.
  - eapply jobs_perm; [symmetry; apply job_first|]. eapply jobs_perm in IH; [|apply job_first]. by eapply call_inv.
  - eapply finish_inv. by eapply jobs_perm, IH; apply job_first.
  - apply boot_inv.
Qed.

(** What happens to workloads, services and config maps reaches no queue: the controller of the
    clusters watches clusters only. *)
Lemma owned_objects_unwatched s s' q js seen :
  st_hdb s' = st_hdb s -> env_step s s' ->
  queue_step (fun _ => True) (Build_system s [] q js seen) (Build_system s' [] q js seen).
Proof.
  intros Hh He. apply (queue_env _ s s' [] [] q js seen He). intros nn. exists false. rewrite Hh.
  split; [apply change_none|done].
Qed.

(** *** Properties *)

(** C4: no change to a cluster is lost: at every moment, whatever users, the controllers of
    Kubernetes and the passes for other clusters do, however many workers there are, and wherever
    the process was killed or a pass panicked, each cluster on the server waits for a pass, or a
    pass for it is in progress, or its stored status says [Ready] and its spec is the one that the
    last finished pass has read. *)
Theorem no_lost_wakeup sy nn h :
  queue_reachable sy -> st_hdb (sy_store sy) !! nn = Some h ->
  waiting sy nn \/ in_progress sy nn \/ up_to_date sy nn h.
Proof. intros Hr. by apply (qi_stored _ (queue_reachable_inv _ Hr)). Qed.

(** Two passes for one cluster never overlap, and each pass in progress is a prefix of a run of
    [Reconcile] for its key that stays inside the footprint of its cluster. *)
Theorem passes_exclusive sy :
  queue_reachable sy ->
  NoDup (job_req <$> sy_jobs sy) /\
  forall j, j ∈ sy_jobs sy -> forall tr o, exec (job_prog j) tr o ->
    exec (Reconcile (P := adminClientProvider) (job_req j)) (job_trace j ++ tr) o /\
    (Forall (answered (job_req j) None) tr -> Forall (fun e => pass_call (job_req j) None (ev_call e)) tr).
Proof.
  intros [Hj Hnd _ _ _]%queue_reachable_inv. split; [done|]. rewrite Forall_forall in Hj.
  intros j Hin tr o He. destruct (Hj j Hin) as (Hex & _ & Hrg). split; [by apply Hex|].
  intros Ha. by apply (rg_exec _ _ _ _ _ _ Hrg He Ha).
Qed.

(** The queue adds an order of work and nothing else: every run of the operator with its queue
    is one of the operator of [Operator], so what holds of every reachable world holds here: no
    pass is about to make a write that the server must reject for its wiring. *)
Theorem queue_writes_wired sy j c k o :
  queue_reachable sy -> j ∈ sy_jobs sy -> job_prog j = Do c k -> c = CCreate o \/ c = CUpdate o ->
  wired (sy_store sy) o /\ (c = CUpdate o -> kobj_kind o <> KConfigMap).
Proof.
  intros Hr%queue_reachable_forget Hin Hj Hc.
  assert (pending (forget sy) c) as Hp.
  { exists k. unfold forget. simpl. rewrite <-Hj. apply list_elem_of_fmap. by exists j. }
  apply reachable_ok in Hr as [Hok Hps]. destruct (pending_call _ _ _ Hps Hp) as [req Hcall].
  split; [|intros ->; apply Hcall]. apply (in_cluster_wired _ _ req Hok). destruct Hc as [->| ->]; apply Hcall.
Qed.

End Queue.
