(* ===== verification/Ideal.v ===== *)
(** * A server that does what it is told

    [ideal] stores every object it is given and answers with what it has stored, the pods of a
    stateful set become ready, and the commands run in the cluster succeed. [runs] is a run of a
    program against it, [changes] what a run may have changed, [reads] a run that changes nothing
    and depends on few objects: such a run is the same again after other objects have changed. *)
From S2P Require Import Prelude GoStrings KubeTypes ApiTypes Effects Conditions FlagSet Naming Constants Merge Requeue Workload LogDevice Services Admin HMeta AdminServer HStore HServer Gateway Console Bootstrap Server Status Controller Footprint.

(** ** The ideal server *)

(** The pods of a stateful set become ready. *)
Definition rollout (o : kobj) : kobj :=
  match o with
  | OStatefulSet x =>
      OStatefulSet {| sts_Meta := sts_Meta x; sts_Spec := sts_Spec x;
                      sts_readyReplicas := default 0%Z (sts_Replicas (sts_Spec x)) |}
  | _ => o
  end.

Definition not_found : go_error := {| err_reason := ReasonNotFound; err_msg := "not found" |}.
Definition already_exists : go_error := {| err_reason := ReasonOther; err_msg := "already exists" |}.

#[export] Instance exists_at_dec o s : Decision (exists_at o s).
Proof. destruct o; apply _. Defined.

(** The answers that do not come from the store: the clock, the visiting order of maps, and what
    the node list of HMeta says. *)
Record weather := { wx_now : Z; wx_order : list nat; wx_nodes : string }.

(** The call that sets an owner does not carry the kind of the owner, which is left empty here. *)
Definition ideal (wx : weather) : handler store := fun c s =>
  match c return resp c * store with
  | CGet k nn => (match objs k s !! nn with Some o => inr o | None => inl not_found end, s)
  | CCreate o => if decide (exists_at o s) then (Some already_exists, s) else (None, put (rollout o) s)
  | CUpdate o => if decide (exists_at o s) then (None, put (rollout o) s) else (Some not_found, s)
  | CStatusUpdate h =>
      match st_hdb s !! ObjectKey (hdb_Meta h) with
      | Some old => (inr (with_status h old), put_hdb (with_status h old) s)
      | None => (inl not_found, s)
      end
  | CSetOwner owner m =>
      (inr (append (meta_OwnerReferences m)
              [{| owner_Kind := ""; owner_Name := meta_Name owner; owner_Controller := true |}]), s)
  | CEvent _ _ => (tt, s)
  | CNow => (wx_now wx, s)
  | CRange _ => (wx_order wx, s)
  | CNewClientset => (None, s)
  | CListPods _ _ => (inr ["pod"], s)
  | CNewExecutor _ _ => (None, s)
  | CStream _ _ _ => ((None, "", ""), s)
  | CServiceProxy _ _ _ => (inr (wx_nodes wx), s)
  end.

(** It is one of the servers [Server.serves] allows: what holds for every server holds for it. *)
Lemma stored_as_rollout o : stored_as o (rollout o).
Proof. by destruct o. Qed.

Lemma ideal_serves wx c s : serves s (Ev c (fst (ideal wx c s))) (snd (ideal wx c s)).
Proof.
  unfold serves. cbn [ev_call ev_resp]. destruct c as [k nn|o|o|h|owner m| | | | | | | |]; try done.
  - cbn. split; [done|]. by destruct (objs k s !! nn).
  - cbn [ideal]. case_decide; cbn; [by left|]. split; [done|]. exists (rollout o). split; [apply stored_as_rollout|done].
  - cbn [ideal]. case_decide; cbn; [|by left]. split; [done|]. exists (rollout o). split; [apply stored_as_rollout|done].
  - cbn [ideal]. destruct (st_hdb s !! ObjectKey (hdb_Meta h)) as [old|] eqn:E; cbn; [by exists old|by left].
  - cbn. split; [done|]. eexists. split; [apply elem_of_app; right; apply list_elem_of_here|done].
Qed.

(** ** Runs on the ideal server *)

Section Runs.
Variable wx : weather.

Definition runs {A} (p : prog A) (s : store) (a : A) (tr : list event) (s' : store) : Prop :=
  run (ideal wx) p s = (Done a, tr, s').

Lemma runs_ret {A} (a : A) s : runs (Ret a) s a [] s.
Proof. done. Qed.

Lemma runs_do {A} c (k : resp c -> prog A) s r s1 a tr s' :
  ideal wx c s = (r, s1) -> runs (k r) s1 a tr s' -> runs (Do c k) s a (Ev c r :: tr) s'.
Proof. unfold runs. cbn [run]. by intros -> ->. Qed.

Lemma runs_create {A} o (k : option go_error -> prog A) s a tr s' :
  ~ exists_at o s -> runs (k None) (put (rollout o) s) a tr s' -> runs (Do (CCreate o) k) s a (Ev (CCreate o) None :: tr) s'.
Proof. intros Ho H. eapply runs_do; [|exact H]. cbn [ideal]. by rewrite decide_False. Qed.

Lemma runs_update {A} o (k : option go_error -> prog A) s a tr s' :
  exists_at o s -> runs (k None) (put (rollout o) s) a tr s' -> runs (Do (CUpdate o) k) s a (Ev (CUpdate o) None :: tr) s'.
Proof. intros Ho H. eapply runs_do; [|exact H]. cbn [ideal]. by rewrite decide_True. Qed.

Lemma runs_bind {A B} (p : prog A) (f : A -> prog B) s a tr1 s1 b tr2 s2 :
  runs p s a tr1 s1 -> runs (f a) s1 b tr2 s2 -> runs (prog_bind p f) s b (tr1 ++ tr2) s2.
Proof.
  unfold runs. revert s tr1. induction p as [a'|msg|c k IH]; intros s tr1; cbn [run prog_bind].
  - by intros [= -> <- ->] ->.
  - done.
  - destruct (ideal wx c s) as [r s']. destruct (run (ideal wx) (k r) s') as [[o tr] s''] eqn:E.
    intros [= -> <- ->] H2. by rewrite (IH r s' tr E H2).
Qed.

Lemma runs_lift {A} (m : go A) a s : m = Done a -> runs (lift m) s a [] s.
Proof. by intros ->. Qed.

Lemma runs_lift_bind {A B} (m : go A) (f : A -> prog B) s a b tr s' :
  m = Done a -> runs (f a) s b tr s' -> runs (prog_bind (lift m) f) s b tr s'.
Proof. by intros ->. Qed.

Lemma runs_get {A} k nn (f : go_error + obj_of k -> prog A) s a tr s' :
  runs (f (match objs k s !! nn with Some o => inr o | None => inl not_found end)) s a tr s' ->
  exists e, mutates (ev_call e) = false /\ runs (prog_bind (kube_Get k nn) f) s a (e :: tr) s'.
Proof. intros H. eexists. split; [|eapply runs_do; [done|exact H]]. done. Qed.

End Runs.

(** ** What a run changes *)

Definition changes (K : list (Kind * NamespacedName)) (s s' : store) : Prop :=
  forall k nn, (k, nn) ∉ K -> objs k s' !! nn = objs k s !! nn.

Lemma changes_refl K s : changes K s s.
Proof. done. Qed.

Lemma changes_trans K1 K2 s1 s2 s3 : changes K1 s1 s2 -> changes K2 s2 s3 -> changes (K1 ++ K2) s1 s3.
Proof. intros H1 H2 k nn Hin. rewrite elem_of_app in Hin. rewrite H2, H1; naive_solver. Qed.

Lemma changes_put o s : changes [(kobj_kind o, ObjectKey (kobj_meta o))] s (put o s).
Proof.
  intros k nn Hin. rewrite list_elem_of_singleton in Hin.
  destruct o as [x|x|x|x], k; simpl in *; try done; rewrite lookup_insert_ne; congruence.
Qed.

Lemma changes_put_hdb h s : changes [(KHStreamDB, ObjectKey (hdb_Meta h))] s (put_hdb h s).
Proof.
  intros k nn Hin. rewrite list_elem_of_singleton in Hin.
  destruct k; simpl in *; try done. rewrite lookup_insert_ne; congruence.
Qed.

Lemma rollout_meta o : kobj_meta (rollout o) = kobj_meta o /\ kobj_kind (rollout o) = kobj_kind o.
Proof. by destruct o. Qed.

(** ** Stored objects *)

(** An object of the given kind is stored at a key and carries the hash [h]. *)
Definition has (k : Kind) (nn : NamespacedName) (h : string) (s : store) : Prop :=
  exists o : obj_of k, objs k s !! nn = Some o /\ last_spec (obj_meta k o) = h.

Lemma has_changes k nn h K s s' : changes K s s' -> (k, nn) ∉ K -> has k nn h s -> has k nn h s'.
Proof. intros Hc Hn (o & Ho & Hl). exists o. by rewrite (Hc k nn Hn). Qed.

(** The same as an object that can be written. *)
Definition as_kobj (k : Kind) : obj_of k -> option kobj :=
  match k with
  | KStatefulSet => fun x => Some (OStatefulSet x)
  | KDeployment => fun x => Some (ODeployment x)
  | KService => fun x => Some (OService x)
  | KConfigMap => fun x => Some (OConfigMap x)
  | _ => fun _ => None
  end.

Definition find (key : Kind * NamespacedName) (s : store) : option kobj := objs (fst key) s !! snd key ≫= as_kobj (fst key).

Lemma find_same key s s' : objs (fst key) s' !! snd key = objs (fst key) s !! snd key -> find key s' = find key s.
Proof. unfold find. by intros ->. Qed.

Lemma find_put o s : find (kobj_kind o, ObjectKey (kobj_meta o)) (put o s) = Some o.
Proof. destruct o as [x|x|x|x]; unfold find; cbn [fst snd objs put kobj_kind kobj_meta st_sts st_dep st_svc st_cm]; by rewrite lookup_insert_eq. Qed.

(** The kinds of object whose storage is that of the shared pattern. *)
Class Stored (k : Kind) {M : Managed k} := {
  stored_meta o : mg_meta o = obj_meta k o;
  stored_kind o : kobj_kind (mg_obj o) = k;
  stored_kobj o : as_kobj k o = Some (mg_obj o);
  stored_exists o s : exists_at (mg_obj o) s <-> is_Some (objs k s !! ObjectKey (mg_meta o));
  stored_put o s : exists o', objs k (put (rollout (mg_obj o)) s) !! ObjectKey (mg_meta o) = Some o' /\ mg_meta o' = mg_meta o
}.

#[export] Instance Stored_StatefulSet : Stored KStatefulSet.
Proof. split; [done|done|done|done|]. intros o s. eexists. split; [apply lookup_insert_eq|done]. Qed.
#[export] Instance Stored_Deployment : Stored KDeployment.
Proof. split; [done|done|done|done|]. intros o s. eexists. split; [apply lookup_insert_eq|done]. Qed.
#[export] Instance Stored_Service : Stored KService.
Proof. split; [done|done|done|done|]. intros o s. eexists. split; [apply lookup_insert_eq|done]. Qed.

Section Ensure.
Variable wx : weather.
Context {k : Kind} {M : Managed k} {St : Stored k}.

(** The write of an object of which [P] holds, at the key [nn]. *)
Definition wrote (P : kobj -> Prop) (nn : NamespacedName) (s s' : store) : Prop :=
  exists o, P o /\ kobj_kind o = k /\ ObjectKey (kobj_meta o) = nn /\ s' = put (rollout o) s.

Lemma wrote_intro (P : kobj -> Prop) (o : obj_of k) nn s :
  P (mg_obj o) -> ObjectKey (mg_meta o) = nn -> wrote P nn s (put (rollout (mg_obj o)) s).
Proof. intros HP Hk. exists (mg_obj o). rewrite mg_obj_meta, stored_kind. done. Qed.

(** The pattern on the ideal server: afterwards the object is there, with the desired hash; the
    store changes only at its key, by the write of an object of which [P] holds. *)
Lemma runs_ensureOwned (P : kobj -> Prop) owner (desired : obj_of k) update s :
  (forall m, meta_Labels m = meta_Labels (mg_meta desired) -> meta_Annotations m = meta_Annotations (mg_meta desired) ->
     P (mg_obj (mg_set_meta m desired))) ->
  (forall existing, objs k s !! ObjectKey (mg_meta desired) = Some existing ->
     exists tr o, runs wx (update existing) s None tr (put (rollout (mg_obj o)) s) /\ P (mg_obj o) /\
       ObjectKey (mg_meta o) = ObjectKey (mg_meta desired) /\ last_spec (mg_meta o) = last_spec (mg_meta desired)) ->
  let nn := ObjectKey (mg_meta desired) in
  let h := last_spec (mg_meta desired) in
  exists tr s', runs wx (ensureOwned owner desired update) s None tr s' /\ has k nn h s' /\
    changes [(k, nn)] s s' /\ (s' = s \/ wrote P nn s s').
Proof.
  intros Hc Hu nn h. unfold ensureOwned.
  assert (forall o, ObjectKey (mg_meta o) = nn -> last_spec (mg_meta o) = h ->
    has k nn h (put (rollout (mg_obj o)) s) /\ changes [(k, nn)] s (put (rollout (mg_obj o)) s)) as Hput.
  { intros o <- Hl. split.
    - destruct (stored_put o s) as (o' & Ho' & Hm). exists o'. split; [done|]. by rewrite <-stored_meta, Hm.
    - pose proof (changes_put (rollout (mg_obj o)) s) as Hch.
      destruct (rollout_meta (mg_obj o)) as [-> ->] in Hch. by rewrite mg_obj_meta, stored_kind in Hch. }
  destruct (objs k s !! nn) as [existing|] eqn:He.
  - destruct (isHashChanged (mg_meta existing) (mg_meta desired)) eqn:Hh.
    + destruct (Hu existing He) as (tr & o & Hr & HP & Hk & Hl). destruct (Hput o Hk Hl) as [Hhas Hch].
      eexists _, _. split; [|split; [exact Hhas|split; [exact Hch|right; by apply wrote_intro]]].
      eapply runs_do; [cbn [ideal]; fold nn; by rewrite He|]. cbn [prog_bind]. rewrite Hh. exact Hr.
    + apply isHashChanged_false in Hh. eexists _, s. split_and!; [|by exists existing; rewrite <-stored_meta|done|by left].
      eapply runs_do; [cbn [ideal]; fold nn; by rewrite He|]. cbn [prog_bind].
      rewrite (proj2 (isHashChanged_false _ _) Hh). apply runs_ret.
  - set (d := mg_set_meta (meta_set_OwnerReferences (append (meta_OwnerReferences (mg_meta desired))
      [{| owner_Kind := ""; owner_Name := meta_Name owner; owner_Controller := true |}])
      (mg_meta desired)) desired).
    eexists _, (put (rollout (mg_obj d)) s). destruct (Hput d) as [Hhas Hch];
      [unfold d; by rewrite mg_set_meta_meta|unfold d; by rewrite mg_set_meta_meta|].
    split; [|split; [exact Hhas|split; [exact Hch|]]].
    + eapply runs_do; [cbn [ideal]; fold nn; by rewrite He|]. cbn [prog_bind IsNotFound not_found err_reason].
      eapply runs_do; [done|]. cbn [prog_bind]. eapply runs_create; [|apply runs_ret].
      fold d. rewrite stored_exists. unfold d. rewrite mg_set_meta_meta.
      change (ObjectKey (meta_set_OwnerReferences _ (mg_meta desired))) with nn. rewrite He. by intros [? ?].
    + right. apply wrote_intro; [by apply Hc|unfold d; by rewrite mg_set_meta_meta].
Qed.

Lemma runs_ensureWorkload (P : kobj -> Prop) hdb reason (desired : obj_of k) copy s :
  (forall m, meta_Labels m = meta_Labels (mg_meta desired) -> meta_Annotations m = meta_Annotations (mg_meta desired) ->
     P (mg_obj (mg_set_meta m desired))) ->
  (forall existing, objs k s !! ObjectKey (mg_meta desired) = Some existing ->
     P (mg_obj (copy existing)) /\ ObjectKey (mg_meta (copy existing)) = ObjectKey (mg_meta desired) /\
     last_spec (mg_meta (copy existing)) = last_spec (mg_meta desired)) ->
  let nn := ObjectKey (mg_meta desired) in
  let h := last_spec (mg_meta desired) in
  exists tr s', runs wx (ensureWorkload hdb reason desired copy) s (None, hdb) tr s' /\ has k nn h s' /\
    changes [(k, nn)] s s' /\ (s' = s \/ wrote P nn s s').
Proof.
  intros Hc Hu nn h.
  destruct (runs_ensureOwned P (hdb_Meta hdb) desired (updateWorkload reason copy) s Hc) as (tr & s' & Hr & H1 & H2 & H3).
  { intros existing He. destruct (Hu existing He) as (HP & Hk & Hl). eexists _, (copy existing).
    split_and!; [|done|done|done]. eapply runs_do; [done|]. eapply runs_update; [|apply runs_ret].
    by rewrite stored_exists, Hk, He. }
  eexists _, s'. split_and!; [eapply runs_bind; [exact Hr|apply runs_ret]|done|done|done].
Qed.

End Ensure.

(** ** Runs that only read *)

(** The objects a run has read. *)
Definition get_key (e : event) : option (Kind * NamespacedName) :=
  match ev_call e with CGet k nn => Some (k, nn) | _ => None end.
Definition gets (tr : list event) : list (Kind * NamespacedName) := omap get_key tr.

(** A run that changes nothing, and reads only the objects [K]. *)
Definition reads {A} (wx : weather) (K : list (Kind * NamespacedName)) (p : prog A) (s : store) (a : A) : Prop :=
  exists tr, runs wx p s a tr s /\ quiet tr /\ gets tr ⊆ K.

Section Reads.
Variable wx : weather.

Lemma ideal_quiet c s : mutates c = false -> snd (ideal wx c s) = s.
Proof. by destruct c. Qed.

(** It is the same wherever those objects are the same. *)
Lemma ideal_agree c s s2 :
  mutates c = false -> (forall k nn, c = CGet k nn -> objs k s2 !! nn = objs k s !! nn) ->
  fst (ideal wx c s2) = fst (ideal wx c s).
Proof. intros Hm Hk. destruct c; try done. simpl. by rewrite (Hk _ _ eq_refl). Qed.

Lemma runs_agree {A} (p : prog A) s s2 a tr :
  runs wx p s a tr s -> quiet tr -> (forall k nn, (k, nn) ∈ gets tr -> objs k s2 !! nn = objs k s !! nn) ->
  runs wx p s2 a tr s2.
Proof.
  unfold runs. revert tr. induction p as [a'|msg|c k IH]; intros tr; cbn [run]; [by intros [= -> <-]|done|].
  destruct (ideal wx c s) as [r s1] eqn:Ei. destruct (run (ideal wx) (k r) s1) as [[o tr1] s'] eqn:Er.
  intros [= -> <- ->] [Hm Hq]%Forall_cons Hg. simpl in Hm.
  assert (s1 = s) as -> by (by rewrite <-(ideal_quiet c s Hm), Ei).
  assert (ideal wx c s2 = (r, s2)) as ->.
  { rewrite (surjective_pairing (ideal wx c s2)), (ideal_quiet c s2 Hm). f_equal.
    rewrite (ideal_agree c s s2 Hm); [by rewrite Ei|].
    intros k' nn ->. apply Hg. simpl. apply list_elem_of_here. }
  rewrite (IH r tr1 Er Hq); [done|]. intros k' nn Hin. apply Hg. unfold gets in *. simpl.
  destruct (get_key (Ev c r)); [by apply list_elem_of_further|done].
Qed.

(** The same, for a store that agrees on what is read. *)
Lemma reads_same {A} R (p : prog A) s s2 a :
  reads wx R p s a -> (forall key, key ∈ R -> objs (fst key) s2 !! snd key = objs (fst key) s !! snd key) -> reads wx R p s2 a.
Proof.
  intros (tr & Hr & Hq & Hg) Hs. exists tr. split; [|done]. eapply runs_agree; [exact Hr|exact Hq|].
  intros k nn Hin. by apply (Hs (k, nn)), Hg.
Qed.

Lemma reads_changes {A} R K (p : prog A) s s2 a :
  reads wx R p s a -> (forall key, key ∈ R -> key ∉ K) -> changes K s s2 -> reads wx R p s2 a.
Proof. intros Hr HR Hc. eapply reads_same; [exact Hr|]. intros [k nn] Hin. by apply Hc, HR. Qed.

Lemma reads_ret {A} (a : A) s : reads wx [] (Ret a) s a.
Proof. exists []. split; [done|]. split; [constructor|]. set_solver. Qed.

Lemma reads_bind {A B} R1 R2 (p : prog A) (f : A -> prog B) s a b :
  reads wx R1 p s a -> reads wx R2 (f a) s b -> reads wx (R1 ++ R2) (prog_bind p f) s b.
Proof.
  intros (tr1 & H1 & Hq1 & Hg1) (tr2 & H2 & Hq2 & Hg2). exists (tr1 ++ tr2).
  split; [by eapply runs_bind|]. split; [by apply Forall_app_2|]. unfold gets in *. rewrite omap_app. set_solver.
Qed.

Lemma reads_weaken {A} R R' (p : prog A) s a : R ⊆ R' -> reads wx R p s a -> reads wx R' p s a.
Proof. intros HR (tr & ? & ? & ?). exists tr. set_solver. Qed.

Lemma reads_do {A} R c (k : resp c -> prog A) s a :
  mutates c = false -> (forall kd nn, c = CGet kd nn -> (kd, nn) ∈ R) ->
  reads wx R (k (fst (ideal wx c s))) s a -> reads wx R (Do c k) s a.
Proof.
  intros Hm HR (tr & Hr & Hq & Hg). exists (Ev c (fst (ideal wx c s)) :: tr). split_and!.
  - eapply runs_do; [|exact Hr]. by rewrite (surjective_pairing (ideal wx c s)), (ideal_quiet c s Hm).
  - by constructor.
  - unfold gets. simpl. destruct (get_key _) as [key|] eqn:Hk; [|done].
    intros x [->|Hx]%elem_of_cons; [|by apply Hg]. destruct c; try done.
    injection Hk as <-. by apply HR.
Qed.

Lemma reads_lift {A B} R (m : go A) (f : A -> prog B) s a b :
  m = Done a -> reads wx R (f a) s b -> reads wx R (prog_bind (lift m) f) s b.
Proof. by intros ->. Qed.

(** The pattern only reads when the desired object is stored. *)
Lemma reads_ensureOwned {k} {M : Managed k} {St : Stored k} owner (desired : obj_of k) update s :
  has k (ObjectKey (mg_meta desired)) (last_spec (mg_meta desired)) s ->
  reads wx [(k, ObjectKey (mg_meta desired))] (ensureOwned owner desired update) s None.
Proof.
  intros (o & Ho & Hl). apply reads_do; [done|intros ? ? [= <- <-]; apply list_elem_of_here|].
  simpl. rewrite Ho. cbn [prog_bind]. rewrite (proj2 (isHashChanged_false _ _)); [|by rewrite stored_meta].
  eapply reads_weaken; [|apply reads_ret]. set_solver.
Qed.

Lemma reads_ensureWorkload {k} {M : Managed k} {St : Stored k} hdb reason (desired : obj_of k) copy s :
  has k (ObjectKey (mg_meta desired)) (last_spec (mg_meta desired)) s ->
  reads wx [(k, ObjectKey (mg_meta desired))] (ensureWorkload hdb reason desired copy) s (None, hdb).
Proof.
  intros H. eapply reads_weaken; [|eapply reads_bind; [by apply reads_ensureOwned|apply reads_ret]]. set_solver.
Qed.

End Reads.

