(* ===== verification/Desired.v ===== *)
(** * What a cluster asks for

    The objects of a cluster ([tag]), what the builders of the operator make of its spec
    ([desired]), and when the stored object is up to date with it ([current]). *)
From S2P Require Import Prelude GoStrings KubeTypes ApiTypes Effects Conditions FlagSet Naming Constants Merge Requeue Workload LogDevice Services Admin HMeta AdminServer HStore HServer Gateway Console Totality Bootstrap Server Status Controller Footprint Ideal.

(** ** The objects of a cluster *)

Inductive tag :=
| TSts (ct : ComponentType) | TDep (ct : ComponentType) | TSvc (ct : ComponentType) | TConfig | TShards.

#[export] Instance tag_eq_dec : EqDecision tag.
Proof. solve_decision. Defined.

Definition workload_key (hdb : HStreamDB) (ct : ComponentType) : NamespacedName :=
  {| nn_Namespace := hdb_Namespace hdb; nn_Name := GetResName ct hdb |}.
Definition internal_key (hdb : HStreamDB) (ct : ComponentType) : NamespacedName :=
  {| nn_Namespace := hdb_Namespace hdb; nn_Name := GetInternalResName ct hdb |}.

Definition key_of (hdb : HStreamDB) (t : tag) : Kind * NamespacedName :=
  match t with
  | TSts ct => (KStatefulSet, workload_key hdb ct)
  | TDep ct => (KDeployment, workload_key hdb ct)
  | TSvc ct => (KService, if decide (ct = ComponentTypeAdminServer) then workload_key hdb ct else internal_key hdb ct)
  | TConfig => (KConfigMap, GetLogDeviceConfigMapNamespacedName hdb)
  | TShards => (KConfigMap, GetNShardsConfigMapNamespacedName hdb)
  end.

#[export] Instance key_of_inj hdb : Inj (=) (=) (key_of hdb).
Proof.
  intros t t' H. pose proof (f_equal fst H) as Hk. pose proof (f_equal (fun key => nn_Name (snd key)) H) as Hn.
  clear H. destruct t as [ct|ct|ct| |], t' as [ct'|ct'|ct'| |]; cbn [key_of fst snd] in *; try done.
  - f_equal. exact (GetResName_inj _ _ _ Hn).
  - f_equal. exact (GetResName_inj _ _ _ Hn).
  - f_equal. destruct (decide _) as [->|], (decide _) as [->|]; try done; cbn [nn_Name workload_key internal_key] in Hn.
    + by apply GetResName_internal in Hn.
    + symmetry in Hn. by apply GetResName_internal in Hn.
    + unfold GetInternalResName in Hn. apply string_app_cancel in Hn. simpl in Hn. injection Hn as Hn.
      by apply ct_string_inj.
  - by apply string_app_cancel in Hn.
  - by apply string_app_cancel in Hn.
Qed.

Definition keys (hdb : HStreamDB) (T : list tag) : list (Kind * NamespacedName) := key_of hdb <$> T.

Lemma keys_disjoint hdb T1 T2 :
  forallb (fun t => bool_decide (t ∉ T2)) T1 = true -> forall key, key ∈ keys hdb T1 -> key ∉ keys hdb T2.
Proof.
  rewrite forallb_forall. intros H key (t & -> & Ht)%list_elem_of_fmap (t' & Heq & Ht')%list_elem_of_fmap.
  apply key_of_inj in Heq as <-. specialize (H t (proj1 (list_elem_of_In _ _) Ht)).
  by apply bool_decide_eq_true in H.
Qed.

(** An object of the cluster is stored. *)
Definition present (hdb : HStreamDB) (t : tag) (s : store) : Prop :=
  is_Some (objs (fst (key_of hdb t)) s !! snd (key_of hdb t)).

(** The components the user asks for. *)
Definition asked (hdb : HStreamDB) (ct : ComponentType) : Prop :=
  match ct with
  | ComponentTypeHMeta => spec_ExternalHMeta (hdb_Spec hdb) = None
  | ComponentTypeGateway => spec_Gateway (hdb_Spec hdb) <> None
  | ComponentTypeConsole => spec_Console (hdb_Spec hdb) <> None
  | _ => True
  end.

Definition tag_asked (hdb : HStreamDB) (t : tag) : Prop :=
  match t with TSts ct | TDep ct | TSvc ct => asked hdb ct | _ => True end.

(** ** What the builders make *)

Section Desired.
Context {KL : KubeLib} {G : Gabs}.

(** The stateful sets and the deployments, by the programs that build them: those of HStore and of
    the gateway read another object first. *)
Definition sts_builder (hdb : HStreamDB) (ct : ComponentType) : prog StatefulSet :=
  match ct with
  | ComponentTypeHMeta => lift (addHMeta.getSts hdb)
  | ComponentTypeHStore =>
      let* nshards := addHStore.getNShardFromExistingConfigMap hdb in lift (addHStore.getSts hdb nshards)
  | ComponentTypeHServer => lift (addHServer.getSts hdb)
  | _ => Crash "no stateful set"
  end.

Definition dep_builder (hdb : HStreamDB) (ct : ComponentType) : prog Deployment :=
  match ct, spec_Gateway (hdb_Spec hdb), spec_Console (hdb_Spec hdb) with
  | ComponentTypeAdminServer, _, _ => lift (addAdminServer.getDeployment hdb)
  | ComponentTypeGateway, Some gateway, _ => addGateway.getDeployment hdb gateway
  | ComponentTypeConsole, _, Some console =>
      let* r := lift (addConsole.getDeployment hdb console) in
      match r with inr deploy => Ret deploy | inl _ => Crash "refused" end
  | _, _, _ => Crash "no deployment"
  end.

Definition svc_builder (hdb : HStreamDB) (ct : ComponentType) : go Service :=
  let container comp := comp_Container comp in
  match ct with
  | ComponentTypeHMeta =>
      let c := container (spec_HMeta (hdb_Spec hdb)) in
      '(port, _) ← parseHMetaPort (elems (ctr_Args c));
      service ← GetHeadlessService hdb ComponentTypeHMeta (convertToServicePort (elems (extendPorts (ctr_Ports c) [port])));
      Done (svc_set_PublishNotReadyAddresses true service)
  | ComponentTypeAdminServer =>
      ports ← getPorts (container (spec_AdminServer (hdb_Spec hdb))) [DefaultAdminServerPort];
      Done (Naming.GetService hdb ComponentTypeAdminServer ports)
  | ComponentTypeHStore =>
      ports ← getPorts (container (spec_HStore (hdb_Spec hdb))) DefaultHStorePorts;
      GetHeadlessService hdb ComponentTypeHStore ports
  | ComponentTypeHServer =>
      ports ← getPorts (container (spec_HServer (hdb_Spec hdb))) [DefaultHServerPort; DefaultHServerInternalPort];
      service ← GetHeadlessService hdb ComponentTypeHServer ports;
      Done (svc_set_PublishNotReadyAddresses true service)
  | _ => Panic "no service"
  end.

(** The config maps, when they are created. *)
Definition config_data (hdb : HStreamDB) (t : tag) : gmap string string :=
  match t with
  | TConfig => {[LogDeviceConfigKey :=
      match GetLogDeviceConfig (comp_Replicas (spec_HStore (hdb_Spec hdb))) (GetHMetaAddr hdb)
              (cfg_LogDeviceConfig (spec_Config (hdb_Spec hdb))) with
      | inl _ => "" | inr config => config end]}
  | _ => {[NShardsConfigKey := Itoa (GetMinNShards hdb)]}
  end.

(** The objects a builder reads. *)
Definition deps (t : tag) : list tag :=
  match t with
  | TSts ComponentTypeHStore => [TShards]
  | TDep ComponentTypeGateway => [TSts ComponentTypeHServer]
  | _ => []
  end.

(** What is built from the spec, and from what the store holds. *)
Definition desired (hdb : HStreamDB) (s : store) (t : tag) (d : kobj) : Prop :=
  match t with
  | TSts ct => exists x, d = OStatefulSet x /\ forall wx, reads wx (keys hdb (deps t)) (sts_builder hdb ct) s x
  | TDep ct => exists x, d = ODeployment x /\ forall wx, reads wx (keys hdb (deps t)) (dep_builder hdb ct) s x
  | TSvc ct => exists x, d = OService (stamped x) /\ svc_builder hdb ct = Done x
  | TConfig | TShards => d = config_map (config_data hdb t) (config_map_meta (snd (key_of hdb t)))
  end.

(** The stored object [o] carries the hash of the desired object [d]; a config map carries none. *)
Definition recorded (d o : kobj) : Prop :=
  match d with OConfigMap _ => True | _ => last_spec (kobj_meta o) = last_spec (kobj_meta d) end.

(** The stored object [o] has what the operator decides of [d]: of a stateful set the template, the
    replicas, the update strategy and the seconds (its identity was decided at its creation), of a
    deployment and a service the whole spec, of a config map the data; and the labels and
    annotations, to which others may have added those of a service. *)
Definition conforms (d o : kobj) : Prop :=
  match d, o with
  | OStatefulSet d, OStatefulSet x =>
      meta_Labels (sts_Meta x) = meta_Labels (sts_Meta d) /\ meta_Annotations (sts_Meta x) = meta_Annotations (sts_Meta d) /\
      sts_Template (sts_Spec x) = sts_Template (sts_Spec d) /\ sts_Replicas (sts_Spec x) = sts_Replicas (sts_Spec d) /\
      sts_UpdateStrategy (sts_Spec x) = sts_UpdateStrategy (sts_Spec d) /\
      sts_MinReadySeconds (sts_Spec x) = sts_MinReadySeconds (sts_Spec d)
  | ODeployment d, ODeployment x =>
      meta_Labels (dep_Meta x) = meta_Labels (dep_Meta d) /\ meta_Annotations (dep_Meta x) = meta_Annotations (dep_Meta d) /\
      dep_Spec x = dep_Spec d
  | OService d, OService x =>
      (forall k, is_Some (mget (meta_Labels (svc_Meta d)) k) -> mstr (meta_Labels (svc_Meta x)) k = mstr (meta_Labels (svc_Meta d)) k) /\
      (forall k, is_Some (mget (meta_Annotations (svc_Meta d)) k) ->
         mstr (meta_Annotations (svc_Meta x)) k = mstr (meta_Annotations (svc_Meta d)) k) /\
      svc_Spec x = svc_Spec d
  | OConfigMap d, OConfigMap x => cm_Data x = cm_Data d
  | _, _ => False
  end.

(** The object is stored with the hash of the desired one; and unless it had that hash in the store
    [s0] and is as it was there, it has been written as desired. *)
Definition current (hdb : HStreamDB) (s0 s : store) (t : tag) : Prop :=
  exists d o, desired hdb s t d /\ find (key_of hdb t) s = Some o /\ recorded d o /\
    (find (key_of hdb t) s0 = Some o \/ conforms d o).

(** ** Lemmas *)

Lemma conforms_rollout d o : conforms d o -> conforms d (rollout o).
Proof. by destruct d, o. Qed.

Lemma current_present hdb s0 s t : current hdb s0 s t -> present hdb t s.
Proof.
  intros (d & o & _ & Hf & _). unfold present. unfold find in Hf. by destruct (objs _ s !! _); [eexists|].
Qed.

(** What is desired depends on few objects. *)
Lemma desired_same hdb s s' t d :
  (forall t', t' ∈ deps t -> objs (fst (key_of hdb t')) s' !! snd (key_of hdb t') = objs (fst (key_of hdb t')) s !! snd (key_of hdb t')) ->
  desired hdb s t d -> desired hdb s' t d.
Proof.
  intros Hs. destruct t as [ct|ct|ct| |]; try done; intros (x & Hd & Hr); exists x; (split; [exact Hd|]);
    intros wx; by eapply reads_same; [apply Hr|intros key (t' & -> & Ht')%list_elem_of_fmap; by apply Hs].
Qed.

Lemma current_same hdb s0 s s' t :
  (forall t', t' ∈ t :: deps t -> objs (fst (key_of hdb t')) s' !! snd (key_of hdb t') = objs (fst (key_of hdb t')) s !! snd (key_of hdb t')) ->
  current hdb s0 s t -> current hdb s0 s' t.
Proof.
  intros Hs (d & o & Hd & Hf & Hr). exists d, o. split; [|split; [|done]].
  - eapply desired_same; [|exact Hd]. intros t' Ht'. apply Hs. by right.
  - rewrite <-Hf. apply find_same, Hs. by left.
Qed.

(** It counts from any store that has the same object. *)
Lemma current_from hdb s0 s1 s t :
  find (key_of hdb t) s1 = find (key_of hdb t) s0 -> current hdb s1 s t -> current hdb s0 s t.
Proof. intros Hs (d & o & Hd & Hf & Hr & Hor). exists d, o. by rewrite <-Hs. Qed.

End Desired.
