(* ===== verification/Settle.v ===== *)
(** * Settled sub-reconcilers

    On the ideal server each of the eight sub-reconcilers that manage objects settles: it succeeds,
    and afterwards it only reads, for this and every later version of the cluster's object, and
    reads only certain objects of the cluster ([settles]). *)
From S2P Require Import Prelude GoStrings KubeTypes ApiTypes Effects Conditions FlagSet Naming Constants Merge Requeue Workload LogDevice Services Admin HMeta AdminServer HStore HServer Gateway Console Totality Bootstrap Server Status Controller Footprint Ideal Desired.

(** ** Later versions of the object

    A pass and its successors work on versions of the object that differ in the status alone, and
    in which the components recorded as ready stay so. *)
Record later (hdb hdb2 : HStreamDB) : Prop := {
  lt_meta : hdb_Meta hdb2 = hdb_Meta hdb;
  lt_spec : hdb_Spec hdb2 = hdb_Spec hdb;
  lt_cond t : t <> Ready -> IsConditionTrue hdb t = true -> IsConditionTrue hdb2 t = true
}.

#[export] Instance later_PreOrder : PreOrder later.
Proof.
  split; [done|]. intros h1 h2 h3 [M1 S1 C1] [M2 S2 C2]. split; [congruence|congruence|auto].
Qed.

Definition with_new_status (st : HStreamDBStatus) (hdb : HStreamDB) : HStreamDB :=
  {| hdb_Meta := hdb_Meta hdb; hdb_Spec := hdb_Spec hdb; hdb_Status := st |}.

Lemma later_status hdb hdb2 : later hdb hdb2 -> hdb2 = with_new_status (hdb_Status hdb2) hdb.
Proof. intros [Hm Hs _]. destruct hdb, hdb2. simpl in *. by subst. Qed.

(** ** Healthy clusters *)

Section Cluster.
Context {KL : KubeLib} {G : Gabs} {SS : SortSlice} {AJ : AdminJson}.

(** What the user must have got right: everything can be built, with at least one replica. *)
Record buildable (hdb : HStreamDB) : Prop := {
  vs_hmeta : spec_ExternalHMeta (hdb_Spec hdb) = None ->
    (exists f, Parse FlagSet_zero (elems (ctr_Args (comp_Container (spec_HMeta (hdb_Spec hdb))))) = Done (f, None)) /\
    (exists d, addHMeta.getSts hdb = Done d) /\ (1 <= comp_Replicas (spec_HMeta (hdb_Spec hdb)))%Z;
  vs_admin_ports : exists ports, getPorts (comp_Container (spec_AdminServer (hdb_Spec hdb))) [DefaultAdminServerPort] = Done ports;
  vs_hstore_ports : exists ports, getPorts (comp_Container (spec_HStore (hdb_Spec hdb))) DefaultHStorePorts = Done ports;
  vs_hserver_ports : exists ports, getPorts (comp_Container (spec_HServer (hdb_Spec hdb)))
    [DefaultHServerPort; DefaultHServerInternalPort] = Done ports;
  vs_admin : exists d, addAdminServer.getDeployment hdb = Done d;
  vs_hstore n : exists d, addHStore.getSts hdb n = Done d;
  vs_hstore_replicas : (1 <= comp_Replicas (spec_HStore (hdb_Spec hdb)))%Z;
  vs_hserver : exists d, addHServer.getSts hdb = Done d;
  vs_hserver_replicas : (1 <= comp_Replicas (spec_HServer (hdb_Spec hdb)))%Z;
  vs_console console : spec_Console (hdb_Spec hdb) = Some console ->
    exists d, addConsole.getDeployment hdb console = Done (inr d)
}.

Lemma buildable_later hdb hdb2 : later hdb hdb2 -> buildable hdb -> buildable hdb2.
Proof. intros ->%later_status [? ? ? ? ? ? ? ? ? ?]. by split. Qed.

(** The stored object is the one at hand; objects are stored under their keys; the stateful sets
    of the cluster run, its services have maps of labels and annotations, and the config map of
    the shards says one thing. *)
Record healthy (hdb : HStreamDB) (s : store) : Prop := {
  he_hdb : st_hdb s !! ObjectKey (hdb_Meta hdb) = Some hdb;
  he_ok : conditions_ok hdb;
  he_keys k nn (o : obj_of k) : objs k s !! nn = Some o -> ObjectKey (obj_meta k o) = nn;
  he_sts ct x : st_sts s !! workload_key hdb ct = Some x -> sts_running x;
  he_svc ct x : objs KService s !! snd (key_of hdb (TSvc ct)) = Some x ->
    meta_Labels (svc_Meta x) <> None /\ meta_Annotations (svc_Meta x) <> None;
  he_shards x : st_cm s !! GetNShardsConfigMapNamespacedName hdb = Some x -> size (entries (cm_Data x)) <= 1
}.

(** An object whose write keeps the cluster healthy. *)
Definition good (o : kobj) : Prop :=
  match o with
  | OStatefulSet x => exists n, sts_Replicas (sts_Spec x) = Some n /\ (1 <= n)%Z
  | OService x => meta_Labels (svc_Meta x) <> None /\ meta_Annotations (svc_Meta x) <> None
  | OConfigMap x => size (entries (cm_Data x)) <= 1
  | _ => True
  end.

Lemma healthy_put hdb o s : good o -> healthy hdb s -> healthy hdb (put (rollout o) s).
Proof.
  intros Hgood [H1 H2 Hk H3 H4 H5].
  assert (forall k nn (x : obj_of k), objs k (put (rollout o) s) !! nn = Some x -> ObjectKey (obj_meta k x) = nn) as Hk'.
  { intros k nn x Hx. destruct k; try exact (Hk _ nn x Hx); destruct o as [y|y|y|y]; try exact (Hk _ nn x Hx);
      simpl in Hx; rewrite lookup_insert_Some in Hx; destruct Hx as [[<- <-]|[_ Hx]]; try done;
      first [exact (Hk KStatefulSet nn x Hx) | exact (Hk KDeployment nn x Hx)
            | exact (Hk KService nn x Hx) | exact (Hk KConfigMap nn x Hx)]. }
  destruct o as [x|x|x|x]; split; try done; simpl.
  - intros ct y. rewrite lookup_insert_Some. intros [[_ <-]|[_ Hy]]; [|exact (H3 ct y Hy)].
    destruct Hgood as (n & Hn & Hpos). exists n. simpl. rewrite Hn. simpl. split_and!; [done|lia|lia].
  - intros ct y. rewrite lookup_insert_Some. intros [[_ <-]|[_ Hy]]; [done|exact (H4 ct y Hy)].
  - intros y. rewrite lookup_insert_Some. intros [[_ <-]|[_ Hy]]; [done|exact (H5 y Hy)].
Qed.

Lemma healthy_write {k} hdb P nn s s' :
  (forall o, P o -> good o) -> s' = s \/ wrote (k := k) P nn s s' -> healthy hdb s -> healthy hdb s'.
Proof. intros HP [->|(o & Ho & _ & _ & ->)] H; [done|]. apply healthy_put; auto. Qed.

(** What the pattern leaves behind is up to date. *)
Lemma ensured_current {k} {M : Managed k} {St : Stored k} t (d : obj_of k) hdb s s' :
  let nn := ObjectKey (mg_meta d) in
  key_of hdb t = (k, nn) -> desired hdb s' t (mg_obj d) -> has k nn (last_spec (mg_meta d)) s' ->
  s' = s \/ wrote (k := k) (fun o => good o /\ conforms (mg_obj d) o) nn s s' -> current hdb s s' t.
Proof.
  intros nn Hkey Hd (o & Ho & Hl) Hw. exists (mg_obj d), (mg_obj o).
  assert (find (key_of hdb t) s' = Some (mg_obj o)) as Hf.
  { rewrite Hkey. unfold find. cbn [fst snd]. rewrite Ho. apply stored_kobj. }
  split_and!; [done|done| |].
  - assert (last_spec (kobj_meta (mg_obj o)) = last_spec (kobj_meta (mg_obj d))) as Hr
      by by rewrite !mg_obj_meta, stored_meta.
    by destruct (mg_obj d).
  - destruct Hw as [->|(o' & [_ Hc] & Hk & Hn & ->)]; [by left|right].
    pose proof (find_put (rollout o') s) as Hp. destruct (rollout_meta o') as [Hm1 Hm2]. rewrite Hm1, Hm2, Hk, Hn, <-Hkey, Hf in Hp.
    apply Some_inj in Hp. rewrite Hp. by apply conforms_rollout.
Qed.

Lemma desired_later hdb hdb2 s t d : later hdb hdb2 -> desired hdb2 s t d <-> desired hdb s t d.
Proof. by intros ->%later_status. Qed.

(** A status update: the object at hand becomes the stored one. *)
Lemma healthy_status hdb hdb2 s :
  later hdb hdb2 -> conditions_ok hdb2 -> healthy hdb s -> healthy hdb2 (put_hdb hdb2 s).
Proof.
  intros Hl Hok [H1 H2 Hk H3 H4 H5]. rewrite (later_status _ _ Hl) in *. split; try done; simpl.
  - apply lookup_insert_eq.
  - intros k nn x. destruct k; try apply (Hk _ nn x). simpl. rewrite lookup_insert_Some.
    intros [[<- <-]|[_ Hx]]; [done|]. exact (Hk KHStreamDB nn x Hx).
Qed.

(** ** Settled programs *)

Variable wx : weather.

Section Settled.
Context {B : Type}.
Implicit Types (p : HStreamDB -> prog B) (res : HStreamDB -> B).

(** On this store the program only reads, whatever the clock says, for this and every later version
    of the object; and what it reads are the objects [R] of the cluster. *)
Definition settled p res (R : list tag) (hdb : HStreamDB) (s : store) : Prop :=
  forall wx hdb2, later hdb hdb2 -> reads wx (keys hdb R) (p hdb2) s (res hdb2).

(** The program ends with the result and is settled afterwards; it has changed at most the objects
    [K], and those that are asked for are up to date. *)
Definition settles p res (R K : list tag) (hdb : HStreamDB) (s : store) : Prop :=
  exists tr s', runs wx (p hdb) s (res hdb) tr s' /\ healthy hdb s' /\ changes (keys hdb K) s s' /\
    settled p res R hdb s' /\ forall t, t ∈ K -> tag_asked hdb t -> current hdb s s' t.

Lemma settled_changes p res R K hdb s s' :
  forallb (fun t => bool_decide (t ∉ K)) R = true -> changes (keys hdb K) s s' ->
  settled p res R hdb s -> settled p res R hdb s'.
Proof.
  intros HRK Hc Hs wx' hdb2 Hl. eapply reads_changes; [by apply Hs| |exact Hc]. by apply keys_disjoint.
Qed.

Lemma current_changes hdb s0 K s s' t :
  (forall t', t' ∈ t :: deps t -> t' ∉ K) -> changes (keys hdb K) s s' -> current hdb s0 s t -> current hdb s0 s' t.
Proof.
  intros Ht Hc. apply current_same. intros t' Ht'. apply Hc. rewrite <-surjective_pairing.
  intros (t'' & Heq%(inj _) & Hin)%list_elem_of_fmap. subst t''. by apply (Ht t').
Qed.

Lemma find_changes hdb K s s' t : t ∉ K -> changes (keys hdb K) s s' -> find (key_of hdb t) s' = find (key_of hdb t) s.
Proof.
  intros Ht Hc. apply find_same, Hc. rewrite <-surjective_pairing.
  intros (t' & Heq%(inj _) & Hin)%list_elem_of_fmap. by subst t'.
Qed.

Lemma settles_ext p p' res R K hdb s :
  (forall wx hdb2 s, later hdb hdb2 -> run (ideal wx) (p hdb2) s = run (ideal wx) (p' hdb2) s) ->
  settles p' res R K hdb s -> settles p res R K hdb s.
Proof.
  intros He (tr & s' & H1 & H2 & H3 & H4 & H5). exists tr, s'. split_and!; try done.
  - unfold runs. by rewrite He.
  - intros wx' hdb2 Hl. destruct (H4 wx' hdb2 Hl) as (tr' & Hr & ?). exists tr'. unfold runs. by rewrite He.
Qed.

(** A program with nothing to do. *)
Lemma settles_idle p res R K hdb s :
  (forall hdb2, later hdb hdb2 -> p hdb2 = Ret (res hdb2)) -> (forall t, t ∈ K -> ~ tag_asked hdb t) ->
  healthy hdb s -> settles p res R K hdb s.
Proof.
  intros He Hn Hh. eapply settles_ext; [intros wx' hdb2 s2 Hl; by rewrite (He hdb2 Hl)|].
  exists [], s. split_and!; try done.
  - intros wx' hdb2 _. eapply reads_weaken; [|apply reads_ret]. set_solver.
  - intros t Ht Ha. by destruct (Hn t Ht).
Qed.

End Settled.

(** Lists of objects that have nothing in common. *)
Definition apart (T K : list tag) : bool := forallb (fun t => bool_decide (t ∉ K)) T.

Lemma apart_elem T K t : apart T K = true -> t ∈ T -> t ∉ K.
Proof.
  unfold apart. rewrite forallb_forall. intros H Ht. specialize (H t (proj1 (list_elem_of_In _ _) Ht)).
  by apply bool_decide_eq_true in H.
Qed.

(** Objects with what their builders read. *)
Definition with_deps (K : list tag) : list tag := K ≫= (fun t => t :: deps t).

Lemma with_deps_elem K t t' : t ∈ K -> t' ∈ t :: deps t -> t' ∈ with_deps K.
Proof. intros Ht Ht'. apply list_elem_of_bind. by exists t. Qed.

(** One program after another. *)
Lemma settles_bind {A B} (p : HStreamDB -> prog A) (f : HStreamDB -> A -> prog B) res1 res2 R1 R2 K1 K2 hdb s :
  settles p res1 R1 K1 hdb s ->
  (forall s', healthy hdb s' -> settles (fun h => f h (res1 h)) res2 R2 K2 hdb s') ->
  apart R1 K2 = true -> apart (with_deps K1) K2 = true ->
  settles (fun h => prog_bind (p h) (f h)) res2 (R1 ++ R2) (K1 ++ K2) hdb s.
Proof.
  intros (tr1 & s1 & Hr1 & Hh1 & Hc1 & Hs1 & Hp1) H2 HR HK.
  destruct (H2 s1 Hh1) as (tr2 & s2 & Hr2 & Hh2 & Hc2 & Hs2 & Hp2).
  exists (tr1 ++ tr2), s2. split_and!.
  - by eapply runs_bind.
  - done.
  - unfold keys. rewrite fmap_app. by eapply changes_trans.
  - intros wx' hdb2 Hl. unfold keys. rewrite fmap_app. eapply reads_bind; [|by apply Hs2].
    by apply (settled_changes p res1 R1 K2 hdb s1 s2).
  - intros t [Ht|Ht]%elem_of_app Ha.
    + eapply current_changes; [|exact Hc2|by apply Hp1].
      intros t' Ht'. eapply apart_elem; [exact HK|by eapply with_deps_elem].
    + apply (current_from hdb s s1); [|by apply Hp2]. eapply find_changes; [|exact Hc1].
      intros Ht1. apply (apart_elem _ _ t HK); [|done]. eapply with_deps_elem; [exact Ht1|left].
Qed.

Lemma run_bind_assoc {A B C W} (h : handler W) (p : prog A) (f : A -> prog B) (g : B -> prog C) w :
  run h (prog_bind (prog_bind p f) g) w = run h (prog_bind p (fun a => prog_bind (f a) g)) w.
Proof.
  revert w. induction p as [a|msg|c k IH]; intros w; [done|done|]. cbn [prog_bind run].
  destruct (h c w) as [r w1]. by rewrite IH.
Qed.

(** The same for a sub-reconciler: it hands on the object. *)
Abbreviation sub_settled sub := (settled sub (fun h => (None, h))).
Abbreviation sub_settles sub := (settles sub (fun h => (None, h))).

(** ** Workloads *)

(** The workloads: what is desired is computed by reads of other objects. *)
Lemma settles_workload {k} {M : Managed k} {St : Stored k} (get : HStreamDB -> prog (obj_of k)) reason
    (copy : obj_of k -> obj_of k -> obj_of k) R t hdb s d :
  (forall wx hdb2, later hdb hdb2 -> reads wx (keys hdb R) (get hdb2) s d) ->
  key_of hdb t = (k, ObjectKey (mg_meta d)) -> t ∉ R ->
  (forall s', (forall wx, reads wx (keys hdb R) (get hdb) s' d) -> desired hdb s' t (mg_obj d)) ->
  (forall m, meta_Labels m = meta_Labels (mg_meta d) -> meta_Annotations m = meta_Annotations (mg_meta d) ->
     good (mg_obj (mg_set_meta m d)) /\ conforms (mg_obj d) (mg_obj (mg_set_meta m d))) ->
  (forall existing, (good (mg_obj (copy d existing)) /\ conforms (mg_obj d) (mg_obj (copy d existing))) /\
     mg_meta (copy d existing) = copy_meta (mg_meta d) (mg_meta existing)) ->
  healthy hdb s ->
  sub_settles (fun h => let* d := get h in ensureWorkload h reason d (copy d)) (R ++ [t]) [t] hdb s.
Proof.
  intros Hget Hkey HR Hdes Hgood Hcopy Hh. destruct (Hget wx hdb ltac:(done)) as (tr1 & Hr1 & _).
  destruct (runs_ensureWorkload wx (fun o => good o /\ conforms (mg_obj d) o) hdb reason d (copy d) s)
    as (tr2 & s' & Hr2 & Hhas & Hch & Hs'); [by auto| |].
  { intros existing He. destruct (Hcopy existing) as [Hg Hm]. split; [done|]. rewrite Hm, copy_meta_key. split; [|done].
    rewrite stored_meta. by apply (he_keys _ _ Hh). }
  rewrite <-Hkey in Hch.
  assert (forall wx' hdb2, later hdb hdb2 -> reads wx' (keys hdb R) (get hdb2) s' d) as Hget'.
  { intros wx' hdb2 Hl. eapply reads_changes; [by apply Hget| |exact Hch].
    intros key (t' & -> & Ht')%list_elem_of_fmap ->%list_elem_of_singleton%(inj _). done. }
  exists (tr1 ++ tr2), s'. split_and!.
  - by eapply runs_bind.
  - eapply healthy_write; [|exact Hs'|done]. by intros o [].
  - exact Hch.
  - intros wx' hdb2 Hl. unfold keys. rewrite fmap_app. eapply reads_bind; [by apply Hget'|].
    simpl. rewrite Hkey. by apply reads_ensureWorkload.
  - intros t' ->%list_elem_of_singleton _. eapply ensured_current; [done| |done|done].
    apply Hdes. intros wx'. by apply Hget'.
Qed.

Lemma settles_sts (get : HStreamDB -> prog StatefulSet) reason copy R ct hdb s d :
  (forall wx hdb2, later hdb hdb2 -> reads wx (keys hdb R) (get hdb2) s d) ->
  built_sts hdb ct d -> (exists n, sts_Replicas (sts_Spec d) = Some n /\ (1 <= n)%Z) -> TSts ct ∉ R ->
  R = deps (TSts ct) -> get hdb = sts_builder hdb ct ->
  copy = copy_sts_fields \/ copy = copy_sts_spec -> healthy hdb s ->
  sub_settles (fun h => let* d := get h in ensureWorkload (k := KStatefulSet) h reason d (copy d)) (R ++ [TSts ct]) [TSts ct] hdb s.
Proof.
  intros Hget [Hkey _] Hn HR -> Hb Hcopy Hh.
  eapply (settles_workload (k := KStatefulSet)); [exact Hget|simpl; by rewrite Hkey|done| | | |done].
  - intros s' Hr. rewrite Hb in Hr. by exists d.
  - intros m Hl Ha. by split.
  - intros existing. by destruct Hcopy as [->| ->].
Qed.

Lemma settles_dep (get : HStreamDB -> prog Deployment) reason R ct hdb s d :
  (forall wx hdb2, later hdb hdb2 -> reads wx (keys hdb R) (get hdb2) s d) ->
  built_dep hdb ct d -> TDep ct ∉ R -> R = deps (TDep ct) ->
  (forall wx s', reads wx (keys hdb R) (get hdb) s' d -> reads wx (keys hdb R) (dep_builder hdb ct) s' d) -> healthy hdb s ->
  sub_settles (fun h => let* d := get h in ensureWorkload (k := KDeployment) h reason d (copy_dep_spec d)) (R ++ [TDep ct]) [TDep ct] hdb s.
Proof.
  intros Hget [Hkey _] HR -> Hb Hh.
  eapply (settles_workload (k := KDeployment)); [exact Hget|simpl; by rewrite Hkey|done| | |done|done].
  - intros s' Hr. exists d. split; [done|]. intros wx'. by apply Hb.
  - intros m Hl Ha. by split.
Qed.

Lemma reads_done {A} wx' (m : go A) a s : m = Done a -> reads wx' [] (lift m) s a.
Proof. intros ->. apply reads_ret. Qed.

(** The replicas of what is built. *)
Lemma GetStatefulSet_replicas hdb comp tpl ct x :
  GetStatefulSet hdb comp tpl ct = Done x -> sts_Replicas (sts_Spec x) = Some (comp_Replicas comp).
Proof.
  intros H. destruct (GetStatefulSet_done hdb comp tpl ct) as (x' & Hx & _ & Hs).
  rewrite H in Hx. apply Done_inj in Hx as <-. by rewrite Hs.
Qed.

Lemma settles_addHMeta hdb s : buildable hdb -> healthy hdb s ->
  sub_settles addHMeta.reconcile [TSts ComponentTypeHMeta] [TSts ComponentTypeHMeta] hdb s.
Proof.
  intros Hv Hh. destruct (spec_ExternalHMeta (hdb_Spec hdb)) as [ext|] eqn:E.
  { apply settles_idle; [|by intros t ->%list_elem_of_singleton; simpl; congruence|done].
    intros hdb2 Hl. unfold addHMeta.reconcile. by rewrite (lt_spec _ _ Hl), E. }
  destruct (vs_hmeta _ Hv E) as (_ & (d & Hd) & Hn).
  eapply settles_ext; [intros wx' hdb2 s2 Hl; unfold addHMeta.reconcile; rewrite (lt_spec _ _ Hl), E; reflexivity|].
  eapply (settles_sts (fun h => lift (addHMeta.getSts h)) _ copy_sts_fields []); [|by apply addHMeta_built| |set_solver|done|done|by left|done].
  - intros wx' hdb2 ->%later_status. by apply reads_done.
  - exists (comp_Replicas (spec_HMeta (hdb_Spec hdb))). split; [|done].
    unfold addHMeta.getSts in Hd. apply go_bind_done in Hd as (tpl & _ & Hd).
    apply go_bind_done in Hd as (y & Hy%GetStatefulSet_replicas & <-%Done_inj). done.
Qed.

Lemma settles_addHServer hdb s : buildable hdb -> healthy hdb s ->
  sub_settles addHServer.reconcile [TSts ComponentTypeHServer] [TSts ComponentTypeHServer] hdb s.
Proof.
  intros Hv Hh. destruct (vs_hserver _ Hv) as (d & Hd).
  eapply (settles_sts (fun h => lift (addHServer.getSts h)) _ copy_sts_spec []); [|by apply addHServer_built| |set_solver|done|done|by right|done].
  - intros wx' hdb2 ->%later_status. by apply reads_done.
  - exists (comp_Replicas (spec_HServer (hdb_Spec hdb))). split; [|apply Hv].
    unfold addHServer.getSts in Hd. apply go_bind_done in Hd as (tpl & _ & Hd). by eapply GetStatefulSet_replicas.
Qed.

Lemma settles_addAdminServer hdb s : buildable hdb -> healthy hdb s ->
  sub_settles addAdminServer.reconcile [TDep ComponentTypeAdminServer] [TDep ComponentTypeAdminServer] hdb s.
Proof.
  intros Hv Hh. destruct (vs_admin _ Hv) as (d & Hd).
  eapply (settles_dep (fun h => lift (addAdminServer.getDeployment h)) _ []); [|by apply addAdminServer_built|set_solver|done|done|done].
  intros wx' hdb2 ->%later_status. by apply reads_done.
Qed.

Lemma settles_addConsole hdb s : buildable hdb -> healthy hdb s ->
  sub_settles addConsole.reconcile [TDep ComponentTypeConsole] [TDep ComponentTypeConsole] hdb s.
Proof.
  intros Hv Hh. destruct (spec_Console (hdb_Spec hdb)) as [console|] eqn:E.
  2:{ apply settles_idle; [|by intros t ->%list_elem_of_singleton; simpl; rewrite E; naive_solver|done].
      intros hdb2 Hl. unfold addConsole.reconcile. by rewrite (lt_spec _ _ Hl), E. }
  destruct (vs_console _ Hv _ E) as (d & Hd).
  eapply (settles_ext _ (fun h => let* d := lift (Done d) in
    ensureWorkload (k := KDeployment) h "UpdatingConsole" d (copy_dep_spec d))).
  { intros wx' hdb2 s2 Hl. unfold addConsole.reconcile. rewrite (lt_spec _ _ Hl), E.
    assert (addConsole.getDeployment hdb2 console = Done (inr d)) as -> by by rewrite (later_status _ _ Hl). done. }
  eapply (settles_dep (fun _ => lift (Done d)) _ []); [|by eapply addConsole_built|set_solver|done| |done].
  - intros wx' hdb2 _. by apply reads_done.
  - intros wx' s' _. unfold dep_builder. rewrite E, Hd. destruct (spec_Gateway (hdb_Spec hdb)); apply reads_ret.
Qed.

(** *** HStore: the number of shards is read first *)

Lemma reads_getNShard hdb s : healthy hdb s ->
  exists n, forall wx hdb2, later hdb hdb2 ->
    reads wx (keys hdb [TShards]) (addHStore.getNShardFromExistingConfigMap hdb2) s n.
Proof.
  intros Hh. pose (nn := GetNShardsConfigMapNamespacedName hdb).
  exists (match st_cm s !! nn with
     | Some cm => foldl read_nshard (cfg_NShards (spec_Config (hdb_Spec hdb))) (map_to_list (entries (cm_Data cm)))
     | None => cfg_NShards (spec_Config (hdb_Spec hdb)) end).
  intros wx' hdb2 Hl. unfold addHStore.getNShardFromExistingConfigMap. rewrite (lt_spec _ _ Hl).
  unfold GetNShardsConfigMapNamespacedName, hdb_Namespace, hdb_Name. rewrite (lt_meta _ _ Hl).
  apply reads_do; [done|intros ? ? [= <- <-]; apply list_elem_of_here|]. simpl.
  change {| nn_Namespace := _; nn_Name := _ |} with nn.
  destruct (st_cm s !! nn) as [cm|] eqn:E; cbn [prog_bind]; [|eapply reads_weaken; [|apply reads_ret]; set_solver].
  apply reads_do; [done|done|]. simpl. eapply reads_weaken; [|assert (permute (wx_order wx') (map_to_list (entries (cm_Data cm))) = map_to_list (entries (cm_Data cm))) as ->; [|apply reads_ret]]; [set_solver|].
  pose proof (he_shards _ _ Hh _ E) as Hsize. rewrite <-length_map_to_list in Hsize.
  destruct (map_to_list _) as [|x [|y l]]; simpl in Hsize; [| |lia].
  - apply Permutation_nil_r. by rewrite permute_Permutation.
  - apply Permutation_singleton_r. by rewrite permute_Permutation.
Qed.

Lemma settles_addHStore hdb s : buildable hdb -> healthy hdb s ->
  sub_settles addHStore.reconcile [TShards; TSts ComponentTypeHStore] [TSts ComponentTypeHStore] hdb s.
Proof.
  intros Hv Hh. destruct (reads_getNShard hdb s Hh) as [n Hn]. destruct (vs_hstore _ Hv n) as (d & Hd).
  eapply settles_ext.
  { intros wx' hdb2 s2 _. unfold addHStore.reconcile. symmetry.
    apply (run_bind_assoc _ _ (fun n => lift (addHStore.getSts hdb2 n))). }
  eapply (settles_sts (fun h => let* n := addHStore.getNShardFromExistingConfigMap h in lift (addHStore.getSts h n))
    _ copy_sts_fields [TShards]); [|by eapply addHStore_built| |set_solver|done|done|by left|done].
  - intros wx' hdb2 Hl. eapply reads_weaken; [|eapply reads_bind; [by apply Hn|apply reads_done]].
    + set_solver.
    + by rewrite (later_status _ _ Hl).
  - exists (comp_Replicas (spec_HStore (hdb_Spec hdb))). split; [|apply Hv].
    unfold addHStore.getSts in Hd. apply go_bind_done in Hd as (tpl & _ & Hd).
    apply go_bind_done in Hd as (y & Hy%GetStatefulSet_replicas & <-%Done_inj). done.
Qed.

(** *** The gateway: the port of HServer is read first *)

Lemma reads_gateway hdb gateway s : exists d, built_dep hdb ComponentTypeGateway d /\
  forall wx hdb2, later hdb hdb2 ->
    reads wx (keys hdb [TSts ComponentTypeHServer]) (addGateway.getDeployment hdb2 gateway) s d.
Proof.
  assert (exists n, forall wx,
    reads wx (keys hdb [TSts ComponentTypeHServer]) (addGateway.findHServerPort hdb) s n) as [n Hn].
  { eexists. intros wx'. unfold addGateway.findHServerPort.
    apply reads_do; [done|intros ? ? [= <- <-]; apply list_elem_of_here|]. cbn [ideal fst].
    eapply reads_weaken; [|apply reads_ret]. set_solver. }
  assert (exists cs, forall wx,
    reads wx (keys hdb [TSts ComponentTypeHServer]) (addGateway.getContainer hdb gateway) s cs) as [cs Hcs].
  { eexists. intros wx'. unfold addGateway.getContainer.
    eapply reads_weaken; [|eapply reads_bind; [by apply Hn|rewrite GetHeadlessService_done; apply reads_ret]].
    set_solver. }
  assert (exists d, forall wx,
    reads wx (keys hdb [TSts ComponentTypeHServer]) (addGateway.getDeployment hdb gateway) s d /\
    built_dep hdb ComponentTypeGateway d) as [d Hd].
  { eexists. intros wx'. unfold addGateway.getDeployment, addGateway.getPodTemplate. split.
    - eapply reads_weaken; [|eapply reads_bind; [eapply reads_bind; [by apply Hcs|apply reads_ret]|]].
      2:{ apply reads_done. reflexivity. }
      set_solver.
    - by eapply GetDeployment_built; [|reflexivity]. }
  exists d. split; [by apply (Hd wx)|]. intros wx' hdb2 ->%later_status. by apply (Hd wx').
Qed.

Lemma settles_addGateway hdb s : IsConditionTrue hdb HServerReady = true -> healthy hdb s ->
  sub_settles addGateway.reconcile [TSts ComponentTypeHServer; TDep ComponentTypeGateway] [TDep ComponentTypeGateway] hdb s.
Proof.
  intros Hready Hh. destruct (spec_Gateway (hdb_Spec hdb)) as [gateway|] eqn:E.
  2:{ apply settles_idle; [|by intros t ->%list_elem_of_singleton; simpl; rewrite E; naive_solver|done].
      intros hdb2 Hl. unfold addGateway.reconcile. by rewrite (lt_spec _ _ Hl), E. }
  destruct (reads_gateway hdb gateway s) as (d & Hb & Hd).
  eapply settles_ext.
  { intros wx' hdb2 s2 Hl. unfold addGateway.reconcile. rewrite (lt_spec _ _ Hl), E.
    rewrite (lt_cond _ _ Hl HServerReady) by done. cbn [negb]. reflexivity. }
  eapply (settles_dep (fun h => addGateway.getDeployment h gateway) _ [TSts ComponentTypeHServer]); [done|done|set_solver|done| |done].
  intros wx' s' Hr. unfold dep_builder. by rewrite E.
Qed.

(** *** Services *)

Lemma stamped_hash svc : last_spec (svc_Meta (stamped svc)) = GetObjectHash (OService svc).
Proof. unfold last_spec, stamped. cbn [svc_Meta svc_set_Meta meta_Annotations meta_set_Annotations]. by rewrite mstr_Some, lookup_insert_eq. Qed.

(** A merged service has what is desired of it. *)
Lemma merged_conforms svc meta la an l' a' (l a : string -> string) :
  meta_Labels (svc_Meta svc) = Some la -> meta_Annotations (svc_Meta svc) = Some an ->
  (forall k, mstr (Some l') k = default (l k) (la !! k)) -> (forall k, mstr (Some a') k = default (a k) (an !! k)) ->
  conforms (OService svc) (OService {| svc_Meta := meta_set_Annotations (Some a') (meta_set_Labels (Some l') meta);
                                       svc_Spec := svc_Spec svc |}).
Proof.
  intros Hla Han Hl Ha. unfold conforms. cbn [svc_Meta svc_Spec]. rewrite Hla, Han.
  assert (forall (m m' : gmap string string) (f : string -> string) k,
    (forall k, mstr (Some m') k = default (f k) (m !! k)) -> is_Some (mget (Some m) k) -> mstr (Some m') k = mstr (Some m) k) as Hkey.
  { intros m m' f k Hm [v Hv]. rewrite Hm, mstr_Some. rewrite mget_Some in Hv. by rewrite Hv. }
  split_and!; [intros k; by apply (Hkey la l' l k)|intros k; by apply (Hkey an a' a k)|done].
Qed.

Lemma settles_service ct svc la an hdb s :
  svc_builder hdb ct = Done svc ->
  key_of hdb (TSvc ct) = (KService, ObjectKey (svc_Meta svc)) ->
  meta_Labels (svc_Meta svc) = Some la -> meta_Annotations (svc_Meta svc) = Some an -> healthy hdb s ->
  settles (fun h => createOrUpdate h svc) (fun _ => None) [TSvc ct] [TSvc ct] hdb s.
Proof.
  intros Hb Hkey Hla Han Hh.
  eapply settles_ext; [intros wx' hdb2 s2 _; by rewrite createOrUpdate_stamped by (by rewrite Han)|].
  destruct (runs_ensureOwned wx (k := KService) (fun o => good o /\ conforms (OService (stamped svc)) o) (hdb_Meta hdb) (stamped svc) (fun existing =>
    let* merged := lift (mergeService existing (stamped svc)) in kube_Update (OService merged)) s)
    as (tr & s' & Hr & Hhas & Hch & Hs').
  - intros m Hl Ha. cbn [mg_obj mg_set_meta Managed_Service svc_set_Meta svc_Meta good conforms]. rewrite Hl, Ha. simpl.
    by rewrite Hla.
  - intros existing He. destruct (he_svc _ _ Hh ct existing) as [Hl Ha]; [by rewrite Hkey|].
    destruct (meta_Labels (svc_Meta existing)) as [l|] eqn:El; [|done].
    destruct (meta_Annotations (svc_Meta existing)) as [a|] eqn:Ea; [|done].
    destruct (mergeService_done existing (stamped svc) l a la _ El Ea Hla eq_refl) as (l' & a' & Hm & Hl' & Ha').
    pose proof (he_keys _ _ Hh KService _ _ He) as Hk.
    eexists _, ({| svc_Meta := meta_set_Annotations (Some a') (meta_set_Labels (Some l') (svc_Meta existing));
                   svc_Spec := svc_Spec (stamped svc) |} : obj_of KService). split_and!.
    + rewrite Hm. eapply runs_update; [|apply runs_ret].
      exists existing. cbn [svc_Meta]. unfold ObjectKey. cbn. by rewrite <-Hk in He.
    + done.
    + exact (merged_conforms (stamped svc) (svc_Meta existing) la _ l' a' _ _ Hla eq_refl Hl' Ha').
    + exact Hk.
    + trans (GetObjectHash (OService svc)); [|symmetry; exact (stamped_hash svc)].
      etrans; [exact (Ha' LastSpecKey)|]. by rewrite lookup_insert_eq.
  - change (mg_meta (k := KService) (stamped svc)) with (svc_Meta (stamped svc)) in *.
    change (ObjectKey (svc_Meta (stamped svc))) with (ObjectKey (svc_Meta svc)) in *.
    rewrite <-Hkey in Hch. exists tr, s'. split_and!.
    + exact Hr.
    + eapply (healthy_write (k := KService)); [|exact Hs'|done]. by intros o [].
    + exact Hch.
    + intros wx' hdb2 Hl. simpl. cbn [key_of] in Hkey. rewrite Hkey.
      exact (reads_ensureOwned wx' (k := KService) (hdb_Meta hdb2) (stamped svc) _ s' Hhas).
    + intros t ->%list_elem_of_singleton _. eapply (ensured_current (k := KService) _ (stamped svc)); [done| |done|done].
      by exists svc.
Qed.

(** The service that is built, from the fact that its ports are. *)
Ltac built H := unfold svc_builder; rewrite H; cbn [mbind go_bind]; rewrite ?GetHeadlessService_done; reflexivity.

Lemma settles_addServices hdb s : buildable hdb -> healthy hdb s ->
  sub_settles addServices_reconcile
    (map TSvc [ComponentTypeHMeta; ComponentTypeAdminServer; ComponentTypeHStore; ComponentTypeHServer])
    (map TSvc [ComponentTypeHMeta; ComponentTypeAdminServer; ComponentTypeHStore; ComponentTypeHServer]) hdb s.
Proof.
  intros Hv Hh.
  assert (forall (add : HStreamDB -> prog (option go_error)) ct svc hdb s la an, healthy hdb s ->
    (forall hdb2, later hdb hdb2 -> add hdb2 = createOrUpdate hdb2 svc) ->
    svc_builder hdb ct = Done svc ->
    key_of hdb (TSvc ct) = (KService, ObjectKey (svc_Meta svc)) ->
    meta_Labels (svc_Meta svc) = Some la -> meta_Annotations (svc_Meta svc) = Some an ->
    settles add (fun _ => None) [TSvc ct] [TSvc ct] hdb s) as Hone.
  { intros add ct svc h s1 la an Hh1 Hadd Hb Hkey Hla Han.
    eapply settles_ext; [intros wx' h2 s2 Hl; by rewrite (Hadd h2 Hl)|]. by eapply settles_service. }
  unfold addServices_reconcile.
  eapply (settles_bind addHMetaService _ (fun _ => None) _
    [TSvc ComponentTypeHMeta] _ [TSvc ComponentTypeHMeta]); [| |done|done].
  { destruct (spec_ExternalHMeta (hdb_Spec hdb)) as [ext|] eqn:E.
    { apply settles_idle; [|by intros t ->%list_elem_of_singleton; simpl; congruence|done].
      intros hdb2 Hl. unfold addHMetaService. by rewrite (lt_spec _ _ Hl), E. }
    destruct (vs_hmeta _ Hv E) as ((f & Hf) & _ & _).
    destruct (parseHMetaPort (elems (ctr_Args (comp_Container (spec_HMeta (hdb_Spec hdb)))))) as [[port err]|msg] eqn:Ep.
    2:{ unfold parseHMetaPort in Ep. rewrite Hf in Ep. cbn [mbind go_bind] in Ep. by repeat case_match. }
    eapply (Hone _ _ (svc_set_PublishNotReadyAddresses true (headless hdb ComponentTypeHMeta (convertToServicePort
      (elems (extendPorts (ctr_Ports (comp_Container (spec_HMeta (hdb_Spec hdb)))) [port])))))); [done| |built Ep|done..].
    intros hdb2 Hl. unfold addHMetaService. rewrite (lt_spec _ _ Hl), E, Hf, Ep. cbn [lift prog_bind].
      rewrite GetHeadlessService_done, (later_status _ _ Hl). reflexivity. }
  intros s1 Hh1.
  eapply (settles_bind addAdminServerService _ (fun _ => None) _
    [TSvc ComponentTypeAdminServer] _ [TSvc ComponentTypeAdminServer]); [| |done|done].
  { destruct (vs_admin_ports _ Hv) as (ports & Hp). eapply (Hone _ _ (Naming.GetService hdb ComponentTypeAdminServer ports)); [done| |built Hp|done..].
    intros hdb2 Hl. unfold addAdminServerService. rewrite (lt_spec _ _ Hl), Hp. cbn [lift prog_bind].
      rewrite (later_status _ _ Hl). reflexivity. }
  intros s2 Hh2.
  eapply (settles_bind addHStoreService _ (fun _ => None) _
    [TSvc ComponentTypeHStore] _ [TSvc ComponentTypeHStore]); [| |done|done].
  { destruct (vs_hstore_ports _ Hv) as (ports & Hp). eapply (Hone _ _ (headless hdb ComponentTypeHStore ports)); [done| |built Hp|done..].
    intros hdb2 Hl. unfold addHStoreService. rewrite (lt_spec _ _ Hl), Hp. cbn [lift prog_bind].
      rewrite GetHeadlessService_done, (later_status _ _ Hl). reflexivity. }
  intros s3 Hh3.
  eapply (settles_bind addHServerService _ (fun _ => None) _
    [TSvc ComponentTypeHServer] [] [TSvc ComponentTypeHServer] []); [| |done|done].
  { destruct (vs_hserver_ports _ Hv) as (ports & Hp). eapply (Hone _ _ (svc_set_PublishNotReadyAddresses true (headless hdb ComponentTypeHServer ports))); [done| |built Hp|done..].
    intros hdb2 Hl. unfold addHServerService. rewrite (lt_spec _ _ Hl), Hp. cbn [lift prog_bind].
      rewrite GetHeadlessService_done, (later_status _ _ Hl). reflexivity. }
  intros s4 Hh4. apply settles_idle; [done| |done]. intros t Ht. by apply elem_of_nil in Ht.
Qed.

(** *** Config maps *)

Lemma settles_config_map t (other : go_error -> option requeue) data hdb s :
  t = TConfig \/ t = TShards -> data = config_data hdb t -> healthy hdb s ->
  settles (fun h =>
    let* existing := kube_Get KConfigMap (snd (key_of hdb t)) in
    match existing with
    | inr _ => Ret None
    | inl err =>
        if IsNotFound err then
          let* r := createOwned (hdb_Meta h) (config_map_meta (snd (key_of hdb t))) (config_map data) in
          Ret (requeue_error <$> r)
        else Ret (other err)
    end) (fun _ => None) [t] [t] hdb s.
Proof.
  intros Ht -> Hh. set (data := config_data hdb t).
  assert (size data <= 1) as Hd by (unfold data, config_data; destruct Ht as [->| ->]; by rewrite map_size_singleton).
  set (nn := snd (key_of hdb t)).
  assert (key_of hdb t = (KConfigMap, nn)) as Hkey by (unfold nn; by destruct Ht as [->| ->]).
  assert (forall s', desired hdb s' t (config_map data (config_map_meta nn))) as Hdes by (intros s'; by destruct Ht as [->| ->]).
  clearbody nn data. destruct nn as [ns name]. set (nn := {| nn_Namespace := ns; nn_Name := name |}) in *.
  assert (forall s' cm, st_cm s' !! nn = Some cm -> forall wx (k : go_error -> prog (option requeue)),
    reads wx (keys hdb [t]) (let* existing := kube_Get KConfigMap nn in
      match existing with inr _ => Ret None | inl err => k err end) s' None) as Hread.
  { intros s' cm Hcm wx' k. apply reads_do; [done|intros ? ? [= <- <-]; rewrite <-Hkey; apply list_elem_of_here|].
    simpl. rewrite Hcm. eapply reads_weaken; [|apply reads_ret]. set_solver. }
  destruct (st_cm s !! nn) as [cm|] eqn:E.
  - destruct (Hread s cm E wx (fun err => if IsNotFound err then
      let* r := createOwned (hdb_Meta hdb) (config_map_meta nn) (config_map data) in Ret (requeue_error <$> r)
      else Ret (other err))) as (tr & Hr & _).
    exists tr, s. split_and!; [exact Hr|done|done| |].
    + intros wx' hdb2 _. by eapply Hread.
    + intros t' ->%list_elem_of_singleton _. exists (config_map data (config_map_meta nn)), (OConfigMap cm).
      assert (find (key_of hdb t) s = Some (OConfigMap cm)) as Hf by (rewrite Hkey; unfold find; simpl; by rewrite E).
      split_and!; [done..|by left].
  - eexists _, (put (config_map data _) s). split_and!.
    + eapply runs_do; [simpl; by rewrite E|]. cbn [prog_bind IsNotFound not_found err_reason].
      eapply runs_do; [done|]. cbn [prog_bind]. eapply runs_create; [|apply runs_ret].
      intros [cm Hcm]. change (st_cm s !! nn = Some cm) in Hcm. congruence.
    + by apply (healthy_put hdb (config_map data _)).
    + pose proof (changes_put (config_map data (meta_set_OwnerReferences (append (meta_OwnerReferences (config_map_meta nn))
        [{| owner_Kind := ""; owner_Name := meta_Name (hdb_Meta hdb); owner_Controller := true |}]) (config_map_meta nn))) s) as Hc.
      unfold keys. simpl fmap. rewrite Hkey. exact Hc.
    + intros wx' hdb2 _. eapply Hread. simpl. apply lookup_insert_eq.
    + intros t' ->%list_elem_of_singleton _. eexists (config_map data (config_map_meta nn)), _.
      split_and!; [done|rewrite Hkey; exact (find_put (config_map data _) s)|done|by right].
Qed.

Lemma settles_LogDeviceConfig hdb s : healthy hdb s ->
  sub_settles LogDeviceConfigReconciler_reconcile [TConfig; TShards] [TConfig; TShards] hdb s.
Proof.
  intros Hh. unfold LogDeviceConfigReconciler_reconcile.
  eapply (settles_bind ensureLogDeviceConfig _ (fun _ => None) _ [TConfig] [TShards] [TConfig] [TShards]);
    [| |done|done].
  - eapply settles_ext; [|eapply (settles_config_map TConfig (fun err => Some (requeue_error err))
      {[LogDeviceConfigKey := match GetLogDeviceConfig (comp_Replicas (spec_HStore (hdb_Spec hdb))) (GetHMetaAddr hdb)
         (cfg_LogDeviceConfig (spec_Config (hdb_Spec hdb))) with inl _ => "" | inr config => config end]});
         [by left|done|done]].
    intros wx' hdb2 s2 ->%later_status. reflexivity.
  - intros s1 Hh1.
    eapply (settles_bind ensureNShards (fun h rq => Ret (rq, h)) (fun _ => None) _ [TShards] [] [TShards] []);
      [| |done|done].
    + eapply settles_ext; [|eapply (settles_config_map TShards (fun _ => None)
        {[NShardsConfigKey := Itoa (GetMinNShards hdb)]}); [by right|done|done]].
      intros wx' hdb2 s2 ->%later_status. reflexivity.
    + intros s2 Hh2. apply settles_idle; [done| |done]. intros t Ht. by apply elem_of_nil in Ht.
Qed.

End Cluster.
