(* ===== verification/Convergence.v ===== *)
(** * Convergence

    What passes achieve on a server that does what it is told ([Ideal.ideal]): from any healthy
    store, two passes make the cluster ready and bring its objects up to date with the spec, and
    every further pass creates and updates no object: it only stores the status again. *)
From S2P Require Import Prelude GoStrings KubeTypes ApiTypes Effects Conditions FlagSet Naming Constants Merge Requeue Workload LogDevice Services Admin HMeta AdminServer HStore HServer Gateway Console Totality Bootstrap Server Status Controller Footprint Ideal Desired Settle.

Section Cluster.
Context {KL : KubeLib} {G : Gabs} {SS : SortSlice} {AJ : AdminJson}.
Variable wx : weather.
Abbreviation sub_settled sub := (settled sub (fun h => (None, h))).
Abbreviation sub_settles sub := (settles wx sub (fun h => (None, h))).

(** ** Status *)

(** HMeta reports its nodes, all reachable. *)
Definition nodes_ready (wx : weather) : Prop :=
  exists nodes, unmarshal_nodes (wx_nodes wx) = inr nodes /\ admin.IsAllReady {| admin.Nodes := nodes |} = true.

(** A run that creates and updates no object. *)
Definition silent {A} (p : prog A) (s : store) (a : A) (s' : store) : Prop :=
  exists tr, runs wx p s a tr s' /\ writes tr = [].

Lemma silent_bind {A B} (p : prog A) (f : A -> prog B) s a s1 b s2 :
  silent p s a s1 -> silent (f a) s1 b s2 -> silent (prog_bind p f) s b s2.
Proof.
  intros (tr1 & H1 & W1) (tr2 & H2 & W2). exists (tr1 ++ tr2). split; [by eapply runs_bind|].
  by rewrite writes_app, W1, W2.
Qed.

Lemma silent_ret {A} (a : A) s : silent (Ret a) s a s.
Proof. by exists []. Qed.

Lemma silent_do {A} c (k : resp c -> prog A) s r s1 a s' :
  ideal wx c s = (r, s1) -> written (Ev c r) = None -> silent (k r) s1 a s' -> silent (Do c k) s a s'.
Proof.
  intros Hi Hw (tr & Hr & W). exists (Ev c r :: tr). split; [by eapply runs_do|].
  unfold writes in *. cbn [omap list_omap]. by rewrite Hw.
Qed.

Lemma silent_reads {A} R (p : prog A) s a : reads wx R p s a -> silent p s a s.
Proof. intros (tr & Hr & Hq & _). exists tr. split; [done|]. by apply quiet_writes. Qed.

Lemma put_hdb_id hdb s : healthy hdb s -> put_hdb hdb s = s.
Proof.
  intros Hh. destruct s. unfold put_hdb. simpl. f_equal. apply insert_id. apply (he_hdb _ _ Hh).
Qed.

Lemma silent_StatusUpdate {A} hdb hdb2 s (k : go_error + HStreamDB -> prog A) a s' :
  healthy hdb s -> later hdb hdb2 -> silent (k (inr hdb2)) (put_hdb hdb2 s) a s' ->
  silent (prog_bind (kube_StatusUpdate hdb2) k) s a s'.
Proof.
  intros Hh Hl. apply silent_do; [|done]. cbn [ideal].
  rewrite (lt_meta _ _ Hl), (he_hdb _ _ Hh).
  assert (with_status hdb2 hdb = hdb2) as -> by (destruct Hl as [Hm Hs _], hdb, hdb2; simpl in *; by subst).
  done.
Qed.

Lemma later_SetCondition now hdb c :
  conditions_ok hdb -> cond_Status c = ConditionTrue \/ cond_Type c = Ready -> later hdb (SetCondition_at now hdb c).
Proof.
  intros Hok Hc. split; [apply SetCondition_at_meta|apply SetCondition_at_spec|].
  intros t Ht Hct. rewrite IsConditionTrue_set by done. case_decide; [|done].
  destruct Hc as [->|Hc]; [done|congruence].
Qed.

(** The sub-reconciler makes the condition true, on the object and on the server, or finds it so. *)
Definition records (sub : subReconciler) (t : string) (hdb : HStreamDB) (s : store) : Prop :=
  exists hdb2, silent (sub hdb) s (None, hdb2) (put_hdb hdb2 s) /\ later hdb hdb2 /\
    conditions_ok hdb2 /\ IsConditionTrue hdb2 t = true.

Lemma records_already sub t hdb s :
  sub hdb = Ret (None, hdb) -> IsConditionTrue hdb t = true -> healthy hdb s -> records sub t hdb s.
Proof.
  intros Hs Ht Hh. exists hdb. rewrite Hs, put_hdb_id by done. split_and!; [apply silent_ret|done|apply Hh|done].
Qed.

Lemma silent_updateCondition prefix hdb hdb1 c s :
  healthy hdb s -> later hdb hdb1 -> conditions_ok hdb1 -> cond_Status c = ConditionTrue ->
  exists hdb2, silent (updateCondition prefix hdb1 c) s (None, hdb2) (put_hdb hdb2 s) /\ later hdb hdb2 /\
    conditions_ok hdb2 /\ IsConditionTrue hdb2 (cond_Type c) = true.
Proof.
  intros Hh Hl Hok Hc. exists (SetCondition_at (wx_now wx) hdb1 c).
  assert (later hdb (SetCondition_at (wx_now wx) hdb1 c)) as Hl2.
  { etrans; [exact Hl|]. apply later_SetCondition; auto. }
  split_and!; [|done|by apply SetCondition_at_ok|by rewrite IsConditionTrue_set, decide_True, Hc].
  unfold updateCondition, SetCondition, clock_Now. apply (silent_do CNow _ s (wx_now wx) s); [done|done|].
  cbn [prog_bind]. eapply silent_StatusUpdate; [exact Hh|exact Hl2|]. apply silent_ret.
Qed.

Lemma silent_checkPods ct hdb s :
  healthy hdb s -> present hdb (TSts ct) s -> silent (checkPodRunningStatus hdb KStatefulSet (GetResName ct hdb)) s None s.
Proof.
  intros Hh Hp. assert (exists x, st_sts s !! workload_key hdb ct = Some x) as [x Hx] by exact Hp.
  destruct (he_sts _ _ Hh ct x Hx) as (n & Hn & Hle & Hnz).
  unfold checkPodRunningStatus, getReadyReplicasInService.
  eapply silent_bind; [eapply silent_do; [done|done|]|].
  - unfold workload_key in Hx. cbn [objs obj_of]. rewrite Hx. cbn [prog_bind json_readyReplicas]. rewrite decide_False by done. apply silent_ret.
  - cbn [spec_replicas]. rewrite Hn, bool_decide_false by done.
    rewrite (proj2 (Z.ltb_ge _ _)) by done. apply silent_ret.
Qed.

Lemma silent_admin_call hdb args s : silent (admin_call hdb args) s (inr "") s.
Proof. eexists. split; reflexivity. Qed.

Lemma silent_GetHMetaStatus hdb nodes s :
  unmarshal_nodes (wx_nodes wx) = inr nodes ->
  silent (AdminClient_GetHMetaStatus hdb) s (inr {| admin.Nodes := nodes |}) s.
Proof.
  intros Hn. unfold AdminClient_GetHMetaStatus.
  destruct (spec_ExternalHMeta (hdb_Spec hdb)); [|rewrite GetHeadlessService_done];
    cbn [lift prog_bind]; (eapply silent_do; [done|done|]); cbn [prog_bind]; rewrite Hn; apply silent_ret.
Qed.

(** *** The sub-reconcilers of the status *)

Lemma records_updateHMetaStatus hdb s :
  nodes_ready wx -> healthy hdb s -> (asked hdb ComponentTypeHMeta -> present hdb (TSts ComponentTypeHMeta) s) ->
  records (updateHMetaStatus_reconcile (P := adminClientProvider)) HMetaReady hdb s.
Proof.
  intros (nodes & Hn & Hready) Hh Hp.
  set (order := permute (wx_order wx) (map_to_list (entries nodes))).
  destruct (silent_updateCondition "update HMeta status failed: " hdb
    (hdb_set_Nodes (Some (status_node <$> order)) hdb) (ready_condition HMetaReady "HMeta is ready") s)
    as (hdb2 & Hs & Hl & Hok & Ht); [done|done|apply Hh|done|].
  exists hdb2. split_and!; [|done|done|done]. unfold updateHMetaStatus_reconcile.
  eapply (silent_bind _ _ s None).
  { destruct (spec_ExternalHMeta (hdb_Spec hdb)) eqn:E; [apply silent_ret|]. by apply silent_checkPods; [|apply Hp]. }
  eapply silent_bind; [eapply silent_do; [done|done|apply silent_ret]|].
  eapply silent_bind; [by apply silent_GetHMetaStatus|]. cbn beta iota. rewrite Hready. cbn [negb].
  eapply silent_bind; [eapply silent_do; [done|done|apply silent_ret]|]. exact Hs.
Qed.

Lemma records_bootstrapHServer hdb s :
  healthy hdb s -> present hdb (TSts ComponentTypeHServer) s ->
  records (bootstrapHServer_reconcile (P := adminClientProvider)) HServerReady hdb s.
Proof.
  intros Hh Hp. destruct (IsConditionTrue hdb HServerReady) eqn:E.
  { apply records_already; [|done|done]. unfold bootstrapHServer_reconcile. by rewrite E. }
  destruct (silent_updateCondition "update HStore status failed: " hdb hdb
    (ready_condition HServerReady "HServer has been bootstrapped") s) as (hdb2 & Hs & Hl & Hok & Ht);
    [done|done|apply Hh|done|].
  exists hdb2. split_and!; [|done|done|done]. unfold bootstrapHServer_reconcile. rewrite E.
  eapply silent_bind; [by apply silent_checkPods|].
  eapply silent_bind; [eapply silent_do; [done|done|apply silent_ret]|].
  rewrite GetHeadlessService_done. eapply silent_bind; [apply silent_ret|].
  eapply silent_bind; [apply silent_admin_call|]. exact Hs.
Qed.

Lemma records_bootstrapHStore hdb s :
  healthy hdb s -> IsConditionTrue hdb HStoreReady = true ->
  records (bootstrapHStore_reconcile (P := adminClientProvider)) HStoreReady hdb s.
Proof. intros Hh E. apply records_already; [|done|done]. unfold bootstrapHStore_reconcile. by rewrite E. Qed.

(** The first bootstrap ends the pass. *)
Lemma bootstrapHStore_stops_pass hdb s :
  healthy hdb s -> present hdb (TSts ComponentTypeHStore) s -> IsConditionTrue hdb HStoreReady = false ->
  exists hdb2, silent (bootstrapHStore_reconcile (P := adminClientProvider) hdb) s
      (Some (requeue_after Second), hdb2) (put_hdb hdb2 s) /\
    later hdb hdb2 /\ conditions_ok hdb2 /\ IsConditionTrue hdb2 HStoreReady = true.
Proof.
  intros Hh Hp E.
  destruct (silent_updateCondition "update HStore status failed: " hdb hdb
    (ready_condition HStoreReady "HStore has been bootstrapped") s) as (hdb2 & Hs & Hl & Hok & Ht);
    [done|done|apply Hh|done|].
  exists hdb2. split_and!; [|done|done|done]. unfold bootstrapHStore_reconcile. rewrite E.
  eapply silent_bind; [by apply silent_checkPods|].
  eapply silent_bind; [eapply silent_do; [done|done|apply silent_ret]|].
  eapply silent_bind; [apply silent_admin_call|]. cbn beta iota.
  eapply silent_bind; [exact Hs|]. apply silent_ret.
Qed.

Lemma silent_check_components order hdb s :
  (forall ct, ct ∈ order.*1 -> present hdb (TDep ct) s) -> exists hdb2, silent (check_components order hdb) s (None, hdb2) s.
Proof.
  revert hdb. induction order as [|[ct t] order IH]; intros hdb Hp; [by exists hdb; apply silent_ret|].
  assert (exists d, st_dep s !! workload_key hdb ct = Some d) as [d Hd] by apply Hp, list_elem_of_here.
  set (hdb1 := SetCondition_at (wx_now wx) hdb (mkCondition t ConditionTrue t (ct_string ct +:+ " is ready"))).
  destruct (IH hdb1) as [hdb2 Hs].
  { intros ct' Hct'. unfold present. cbn. unfold workload_key, GetResName, hdb_Namespace, hdb_Name, hdb1.
    rewrite SetCondition_at_meta. by apply Hp, list_elem_of_further. }
  exists hdb2. eapply silent_do; [done|done|]. cbn [ideal fst prog_bind].
  change (objs KDeployment s !! ObjectKey (GetObjectMetadata hdb None ct)) with (st_dep s !! workload_key hdb ct).
  rewrite Hd. cbn [prog_bind]. eapply silent_do; [done|done|exact Hs].
Qed.

Lemma records_updateStatus hdb s :
  healthy hdb s -> (forall ct, ct ∈ [ComponentTypeGateway; ComponentTypeConsole] -> asked hdb ct -> present hdb (TDep ct) s) ->
  IsConditionTrue hdb HMetaReady = true -> IsConditionTrue hdb HStoreReady = true -> IsConditionTrue hdb HServerReady = true ->
  records updateStatus_reconcile Ready hdb s.
Proof.
  intros Hh Hp H1 H2 H3. set (order := permute (wx_order wx) (componentsMap hdb)).
  assert (order ≡ₚ componentsMap hdb) as Hperm by apply permute_Permutation.
  destruct (silent_check_components order hdb s) as [hdb1 Hs1].
  { intros ct Hct. rewrite Hperm in Hct. unfold componentsMap in Hct. destruct (spec_Console (hdb_Spec hdb)) eqn:Ec, (spec_Gateway (hdb_Spec hdb)) eqn:Eg;
      simpl in Hct; apply Hp; first [set_solver|simpl]; 
      repeat (apply elem_of_cons in Hct as [->|Hct]; [simpl; congruence|]); by apply elem_of_nil in Hct. }
  destruct Hs1 as (tr1 & Hr1 & W1).
  pose proof (check_components_wp order hdb (he_ok _ _ Hh)) as Hw. rewrite wp_exec in Hw.
  destruct (Hw _ _ (run_exec _ _ _ _ _ _ Hr1)) as [_ Hck].
  pose proof (conditionList_all _ _ _ _ Hperm Hck) as Hall. rewrite H1, H2, H3 in Hall.
  destruct Hck as (Hok1 & Hm1 & Hsp1 & Ht1 & _).
  assert (later hdb hdb1) as Hl1.
  { split; [done|done|]. intros t _ Ht. rewrite Ht1, Ht. apply orb_true_r. }
  set (hdb2 := SetCondition_at (wx_now wx) hdb1 (mkCondition Ready ConditionTrue "AllComponentsReady" "All components are ready")).
  assert (later hdb hdb2) as Hl2 by (etrans; [exact Hl1|]; apply later_SetCondition; [done|by left]).
  assert (IsConditionTrue hdb2 Ready = true) as Hr by (unfold hdb2; by rewrite IsConditionTrue_set).
  exists hdb2. split_and!; [|done|by apply SetCondition_at_ok|done].
  unfold updateStatus_reconcile, checkComponentsReady. eapply silent_do; [done|done|]. cbn [prog_bind].
  eapply silent_bind; [by exists tr1|]. cbn beta iota. unfold checkAllReady. rewrite Hall. cbn [andb].
  eapply silent_bind; [eapply silent_do; [done|done|apply silent_ret]|].
  eapply silent_StatusUpdate; [done|exact Hl2|]. change (SetCondition_at _ _ _) with hdb2. rewrite Hr. apply silent_ret.
Qed.

(** ** A pass *)

(** What passes have achieved since the store was [s0]: settled sub-reconcilers with what they read,
    objects that are up to date; the other objects of the cluster are as they were. *)
Record progress (s0 : store) (L : list (subReconciler * list tag)) (P : list tag) (hdb : HStreamDB) (s : store) : Prop := {
  pg_healthy : healthy hdb s;
  pg_settled sub R : (sub, R) ∈ L -> sub_settled sub R hdb s;
  pg_current t : t ∈ P -> tag_asked hdb t -> current hdb s0 s t;
  pg_rest t : t ∉ P -> find (key_of hdb t) s = find (key_of hdb t) s0
}.

Lemma pg_present s0 L P hdb s t : progress s0 L P hdb s -> t ∈ P -> tag_asked hdb t -> present hdb t s.
Proof. intros Hp Ht Ha. by eapply current_present, pg_current. Qed.

Lemma progress_start hdb s : healthy hdb s -> progress s [] [] hdb s.
Proof. intros Hh. split; [done|set_solver..|done]. Qed.

Lemma progress_settles s0 sub R K L P hdb s tr s' :
  runs wx (sub hdb) s (None, hdb) tr s' -> healthy hdb s' -> changes (keys hdb K) s s' ->
  sub_settled sub R hdb s' -> (forall t, t ∈ K -> tag_asked hdb t -> current hdb s s' t) ->
  progress s0 L P hdb s -> forallb (fun x => apart (snd x) K) L = true -> apart (with_deps P) K = true ->
  progress s0 ((sub, R) :: L) (K ++ P) hdb s'.
Proof.
  intros Hr Hh Hc Hs Hp [_ HL HP Hrest] HLK HPK. split; [done| | |].
  - intros sub' R' [[= -> ->]|Hin]%elem_of_cons; [done|]. eapply settled_changes; [|exact Hc|by apply HL].
    rewrite forallb_forall in HLK. by apply (HLK (sub', R')), list_elem_of_In.
  - intros t [Ht|Ht]%elem_of_app Ha.
    + apply (current_from hdb s0 s); [|by apply Hp]. apply Hrest. intros HtP.
      apply (apart_elem _ _ t HPK); [|done]. eapply with_deps_elem; [exact HtP|left].
    + eapply current_changes; [|exact Hc|by apply HP].
      intros t' Ht'. eapply apart_elem; [exact HPK|by eapply with_deps_elem].
  - intros t Ht. rewrite elem_of_app in Ht. rewrite (find_changes hdb K s s' t) by tauto. apply Hrest. tauto.
Qed.

Lemma key_of_later hdb hdb2 t : later hdb hdb2 -> key_of hdb2 t = key_of hdb t.
Proof. by intros ->%later_status. Qed.

Lemma tag_asked_later hdb hdb2 t : later hdb hdb2 -> tag_asked hdb2 t <-> tag_asked hdb t.
Proof. intros ->%later_status. by destruct t as [ct|ct|ct| |]; try destruct ct. Qed.

Lemma current_later hdb hdb2 s0 s t : later hdb hdb2 -> current hdb s0 s t -> current hdb2 s0 s t.
Proof.
  intros Hl (d & o & Hd & Ho). exists d, o. rewrite (key_of_later _ _ _ Hl). split; [by eapply desired_later|done].
Qed.

Lemma put_hdb_tag h hdb t s : objs (fst (key_of hdb t)) (put_hdb h s) !! snd (key_of hdb t) = objs (fst (key_of hdb t)) s !! snd (key_of hdb t).
Proof. by destruct t. Qed.

Lemma progress_later s0 L P hdb hdb2 s :
  later hdb hdb2 -> conditions_ok hdb2 -> progress s0 L P hdb s -> progress s0 L P hdb2 (put_hdb hdb2 s).
Proof.
  intros Hl Hok [Hh HL HP Hrest].
  assert (forall T, keys hdb2 T = keys hdb T) as Hkeys.
  { intros T. apply list_fmap_ext. intros i t _. by apply key_of_later. }
  split; [by eapply healthy_status| | |].
  - intros sub R Hin wx' hdb3 Hl3. rewrite Hkeys.
    eapply reads_changes; [apply (HL sub R Hin wx' hdb3); by etrans| |apply changes_put_hdb].
    intros key (t & -> & _)%list_elem_of_fmap [= Hk]%list_elem_of_singleton. by destruct t.
  - intros t Ht Ha. rewrite (tag_asked_later _ _ _ Hl) in Ha. eapply current_same; [|by eapply current_later, HP].
    intros t' _. apply put_hdb_tag.
  - intros t Ht. rewrite (key_of_later _ _ _ Hl), <-Hrest by done. apply find_same, put_hdb_tag.
Qed.

(** The rest of a pass ends with a result and in a store of which [Post] holds. *)
Definition ends (subs : list subReconciler) (hdb : HStreamDB) (s : store) (Post : Result -> store -> Prop) : Prop :=
  exists r tr s', runs wx (subReconcile_loop subs hdb false) s r tr s' /\ Post r s'.

Lemma ends_step (sub : subReconciler) subs hdb s tr hdb2 s1 Post :
  runs wx (sub hdb) s (None, hdb2) tr s1 -> ends subs hdb2 s1 Post -> ends (sub :: subs) hdb s Post.
Proof.
  intros H1 (r & tr2 & s2 & H2 & HP). exists r, (tr ++ tr2), s2. split; [|done]. cbn [subReconcile_loop].
  eapply runs_bind; [exact H1|]. exact H2.
Qed.

Lemma ends_steady (sub : subReconciler) R K s0 L P subs hdb s Post :
  sub_settles sub R K hdb s -> progress s0 L P hdb s ->
  forallb (fun x => apart (snd x) K) L = true -> apart (with_deps P) K = true ->
  (forall s', progress s0 ((sub, R) :: L) (K ++ P) hdb s' -> ends subs hdb s' Post) ->
  ends (sub :: subs) hdb s Post.
Proof.
  intros (tr & s' & Hr & Hh & Hc & Hs & Hp) Hpg HLK HPK Hk. eapply ends_step; [exact Hr|].
  apply Hk. by eapply progress_settles.
Qed.

(** A sub-reconciler that is settled already. *)
Lemma ends_settled (sub : subReconciler) R s0 L P subs hdb s Post :
  progress s0 L P hdb s -> (sub, R) ∈ L -> ends subs hdb s Post -> ends (sub :: subs) hdb s Post.
Proof.
  intros Hp Hin Hk. destruct (pg_settled _ _ _ _ _ Hp sub R Hin wx hdb) as (tr & Hr & _); [done|]. by eapply ends_step.
Qed.

Lemma ends_status (sub : subReconciler) t s0 L P subs hdb s Post :
  records sub t hdb s -> progress s0 L P hdb s ->
  (forall hdb2, later hdb hdb2 -> IsConditionTrue hdb2 t = true -> progress s0 L P hdb2 (put_hdb hdb2 s) ->
     ends subs hdb2 (put_hdb hdb2 s) Post) ->
  ends (sub :: subs) hdb s Post.
Proof.
  intros (hdb2 & (tr & Hr & _) & Hl & Hok & Ht) Hpg Hk. eapply ends_step; [exact Hr|].
  apply Hk; [done|done|]. by eapply progress_later.
Qed.

Definition complete : Result := {| res_RequeueAfter := 0; res_err := None |}.

(** The steady sub-reconcilers with what they read, up to [bootstrapHStore] and in all; and what
    they store. *)
Definition plan1 : list (subReconciler * list tag) :=
  [(addHStore.reconcile, [TShards; TSts ComponentTypeHStore]);
   (addAdminServer.reconcile, [TDep ComponentTypeAdminServer]);
   (addHMeta.reconcile, [TSts ComponentTypeHMeta]);
   (addServices_reconcile, map TSvc [ComponentTypeHMeta; ComponentTypeAdminServer; ComponentTypeHStore; ComponentTypeHServer]);
   (LogDeviceConfigReconciler_reconcile, [TConfig; TShards])].

Definition plan : list (subReconciler * list tag) :=
  [(addConsole.reconcile, [TDep ComponentTypeConsole]);
   (addGateway.reconcile, [TSts ComponentTypeHServer; TDep ComponentTypeGateway]);
   (addHServer.reconcile, [TSts ComponentTypeHServer])] ++ plan1.

Definition tags1 : list tag :=
  [TSts ComponentTypeHStore; TDep ComponentTypeAdminServer; TSts ComponentTypeHMeta] ++
  map TSvc [ComponentTypeHMeta; ComponentTypeAdminServer; ComponentTypeHStore; ComponentTypeHServer] ++
  [TConfig; TShards].

Definition all_tags : list tag :=
  [TDep ComponentTypeConsole; TDep ComponentTypeGateway; TSts ComponentTypeHServer] ++ tags1.

(** The first six sub-reconcilers, for a cluster of which nothing is known. *)
Lemma ends_first s0 hdb s Post :
  buildable hdb -> nodes_ready wx -> progress s0 [] [] hdb s ->
  (forall hdb2 s', later hdb hdb2 -> progress s0 plan1 tags1 hdb2 s' -> IsConditionTrue hdb2 HMetaReady = true ->
     ends (drop 6 (subReconcilers (P := adminClientProvider))) hdb2 s' Post) ->
  ends (subReconcilers (P := adminClientProvider)) hdb s Post.
Proof.
  intros Hv Hn Hp Hk.
  eapply ends_steady; [apply settles_LogDeviceConfig, (pg_healthy _ _ _ _ _ Hp)|exact Hp|done|done|]. clear s Hp. intros s Hp.
  eapply ends_steady; [apply settles_addServices; [done|apply Hp]|exact Hp|done|done|]. clear s Hp. intros s Hp.
  eapply ends_steady; [apply settles_addHMeta; [done|apply Hp]|exact Hp|done|done|]. clear s Hp. intros s Hp.
  eapply ends_status; [apply records_updateHMetaStatus; [done|apply Hp|]|exact Hp|].
  { intros Ha. apply (pg_present _ _ _ _ _ _ Hp); [apply list_elem_of_here|exact Ha]. }
  intros hdb2 Hl Ht Hp2. assert (buildable hdb2) as Hv2 by (by eapply buildable_later). clear Hp.
  eapply ends_steady; [apply settles_addAdminServer; [done|apply Hp2]|exact Hp2|done|done|]. clear s Hp2. intros s Hp.
  eapply ends_steady; [apply settles_addHStore; [done|apply Hp]|exact Hp|done|done|]. clear s Hp. intros s Hp.
  by apply Hk.
Qed.

(** Proves that a settled sub-reconciler is in the plan. *)
Ltac in_plan := unfold plan, plan1; repeat first [apply list_elem_of_here | apply list_elem_of_further].

(** The same for a cluster of which an earlier pass has settled them. *)
Lemma ends_again s0 hdb s Post :
  nodes_ready wx -> progress s0 plan1 tags1 hdb s ->
  (forall hdb2 s', later hdb hdb2 -> progress s0 plan1 tags1 hdb2 s' -> IsConditionTrue hdb2 HMetaReady = true ->
     ends (drop 6 (subReconcilers (P := adminClientProvider))) hdb2 s' Post) ->
  ends (subReconcilers (P := adminClientProvider)) hdb s Post.
Proof.
  intros Hn Hp Hk. do 3 (eapply ends_settled; [exact Hp|in_plan|]).
  eapply ends_status; [apply records_updateHMetaStatus; [done|apply Hp|]|exact Hp|].
  { intros Ha. apply (pg_present _ _ _ _ _ _ Hp); [set_solver|exact Ha]. }
  intros hdb2 Hl Ht Hp2. do 2 (eapply ends_settled; [exact Hp2|in_plan|]). by apply Hk.
Qed.

(** A cluster that has converged since [s0]: stored, ready, complete, up to date, and settled. *)
Definition converged (s0 : store) (hdb : HStreamDB) (s : store) : Prop :=
  progress s0 plan all_tags hdb s /\ Forall (fun t => IsConditionTrue hdb t = true) [HMetaReady; HStoreReady; HServerReady; Ready].

(** A cluster whose HStore was bootstrapped by the pass before. *)
Definition bootstrapped (s0 : store) (hdb : HStreamDB) (s : store) : Prop :=
  progress s0 plan1 tags1 hdb s /\ IsConditionTrue hdb HStoreReady = true.

(** What a pass leaves: it is complete and has converged, or it asks to come back, which happens only
    as long as HStore was not ready. *)
Definition pass_post (s0 : store) (hdb : HStreamDB) (r : Result) (s' : store) : Prop :=
  exists hdb2, later hdb hdb2 /\
    ((r = complete /\ converged s0 hdb2 s') \/
     (r = {| res_RequeueAfter := Second; res_err := None |} /\ IsConditionTrue hdb HStoreReady = false /\
        bootstrapped s0 hdb2 s')).

Lemma pass_stops s0 hdb hdb1 s1 :
  later hdb hdb1 -> progress s0 plan1 tags1 hdb1 s1 -> IsConditionTrue hdb1 HStoreReady = false ->
  ends (drop 6 (subReconcilers (P := adminClientProvider))) hdb1 s1 (pass_post s0 hdb).
Proof.
  intros Hl1 Hp1 E.
  destruct (bootstrapHStore_stops_pass hdb1 s1) as (hdb2 & (tr & Hr & _) & Hl2 & Hok & Ht);
    [apply Hp1|apply (pg_present _ _ _ _ _ _ Hp1); [apply list_elem_of_here|done]|done|].
  eexists _, _, _. split.
  - cbn [drop subReconcilers subReconcile_loop]. eapply runs_bind; [exact Hr|]. cbn beta iota.
    eapply runs_do; [done|apply runs_ret].
  - exists hdb2. split; [by etrans|]. right. split_and!; [done| |split; [by eapply progress_later|done]].
    destruct (IsConditionTrue hdb HStoreReady) eqn:E'; [|done].
    by rewrite (lt_cond _ _ Hl1 HStoreReady) in E.
Qed.

(** The other six. *)
Lemma pass_rest s0 hdb hdb1 s1 :
  buildable hdb1 -> later hdb hdb1 -> progress s0 plan1 tags1 hdb1 s1 -> IsConditionTrue hdb1 HMetaReady = true ->
  ends (drop 6 (subReconcilers (P := adminClientProvider))) hdb1 s1 (pass_post s0 hdb).
Proof.
  intros Hv Hl1 Hp1 H1. destruct (IsConditionTrue hdb1 HStoreReady) eqn:Hr1; [|by apply pass_stops].
  eapply ends_status; [apply records_bootstrapHStore; [exact (pg_healthy _ _ _ _ _ Hp1)|exact Hr1]|exact Hp1|]. intros hdb2 Hl2 Hr2 Hp2.
  assert (IsConditionTrue hdb2 HMetaReady = true) as H2 by (by apply (lt_cond _ _ Hl2)).
  assert (buildable hdb2) as Hv2 by (by apply (buildable_later hdb1)). assert (later hdb hdb2) as Hl by (by etrans).
  clear Hp1 Hl1 Hl2 Hr1 H1 Hv. set (s2 := put_hdb hdb2 s1) in *. clearbody s2.
  eapply ends_steady; [apply settles_addHServer; [done|apply Hp2]|exact Hp2|done|done|]. clear s2 Hp2. intros s2 Hp2.
  eapply ends_status; [apply records_bootstrapHServer; [apply Hp2|]|exact Hp2|].
  { apply (pg_present _ _ _ _ _ _ Hp2); [apply list_elem_of_here|done]. }
  intros hdb3 Hl3 Hr3 Hp3. assert (buildable hdb3) as Hv3 by (by apply (buildable_later hdb2)).
  eapply ends_steady; [apply settles_addGateway; [done|apply Hp3]|exact Hp3|done|done|]. clear s2 Hp2 Hp3. intros s3 Hp3.
  eapply ends_steady; [apply settles_addConsole; [done|apply Hp3]|exact Hp3|done|done|]. clear s3 Hp3. intros s3 Hp3.
  eapply ends_status; [apply records_updateStatus|exact Hp3|].
  - apply Hp3.
  - intros ct Hct Ha. apply (pg_present _ _ _ _ _ _ Hp3); [|done].
    repeat (apply elem_of_cons in Hct as [->|Hct]; [set_solver|]). by apply elem_of_nil in Hct.
  - by apply (lt_cond _ _ Hl3).
  - by apply (lt_cond _ _ Hl3).
  - done.
  - intros hdb4 Hl4 Hr4 Hp4. eexists _, _, _. split; [eapply runs_do; [done|apply runs_ret]|].
    exists hdb4. split; [by do 2 (etrans; [eassumption|])|]. left. split; [done|]. split; [exact Hp4|].
    repeat (apply Forall_cons_2); try apply Forall_nil_2; try done; apply (lt_cond _ _ Hl4); try done; by apply (lt_cond _ _ Hl3).
Qed.

Lemma pass_ends s0 hdb s :
  buildable hdb -> nodes_ready wx -> progress s0 [] [] hdb s ->
  ends (subReconcilers (P := adminClientProvider)) hdb s (pass_post s0 hdb).
Proof.
  intros Hv Hn Hp. apply (ends_first s0); [done..|]. intros hdb1 s1 Hl1 Hp1 H1.
  apply pass_rest; [by eapply buildable_later|done..].
Qed.

(** The pass after the bootstrap converges. *)
Lemma pass_completes s0 hdb s :
  buildable hdb -> nodes_ready wx -> bootstrapped s0 hdb s ->
  ends (subReconcilers (P := adminClientProvider)) hdb s (fun r s' => r = complete /\
    exists hdb2, later hdb hdb2 /\ converged s0 hdb2 s').
Proof.
  intros Hv Hn [Hp Hr].
  destruct (ends_again s0 hdb s (pass_post s0 hdb) Hn Hp) as (r & tr & s' & Hrun & hdb2 & Hl2 & H).
  { intros hdb1 s1 Hl1 Hp1 H1. apply pass_rest; [by eapply buildable_later|done..]. }
  exists r, tr, s'. split; [done|]. destruct H as [[-> H]|(_ & Hf & _)]; [|congruence]. split; [done|by exists hdb2].
Qed.

(** ** A settled cluster *)

Lemma put_hdb_put hdb1 hdb2 s : later hdb1 hdb2 -> put_hdb hdb2 (put_hdb hdb1 s) = put_hdb hdb2 s.
Proof. intros Hl. unfold put_hdb. simpl. rewrite (lt_meta _ _ Hl). f_equal. apply insert_insert_eq. Qed.

(** The rest of a pass writes no object: it only stores a later version of the object. *)
Definition quietly (subs : list subReconciler) (hdb : HStreamDB) (s : store) (Post : HStreamDB -> Prop) : Prop :=
  exists hdb3, silent (subReconcile_loop subs hdb false) s complete (put_hdb hdb3 s) /\ later hdb hdb3 /\ Post hdb3.

Lemma silent_loop (sub : subReconciler) subs hdb s hdb2 s1 r s2 :
  silent (sub hdb) s (None, hdb2) s1 -> silent (subReconcile_loop subs hdb2 false) s1 r s2 ->
  silent (subReconcile_loop (sub :: subs) hdb false) s r s2.
Proof. intros H1 H2. cbn [subReconcile_loop]. by apply (silent_bind (sub hdb) _ s (None, hdb2) s1 r s2). Qed.

Lemma quietly_steady (sub : subReconciler) R subs s0 L P hdb s Post :
  progress s0 L P hdb s -> (sub, R) ∈ L -> quietly subs hdb s Post -> quietly (sub :: subs) hdb s Post.
Proof.
  intros Hp Hin (hdb3 & Hs & Hl & HP). exists hdb3. split; [|done]. eapply silent_loop; [|exact Hs].
  eapply silent_reads. by apply (pg_settled _ _ _ _ _ Hp sub R Hin wx hdb).
Qed.

Lemma quietly_status (sub : subReconciler) t subs s0 L P hdb s Post :
  records sub t hdb s -> progress s0 L P hdb s ->
  (forall hdb2 s', later hdb hdb2 -> IsConditionTrue hdb2 t = true -> progress s0 L P hdb2 s' -> quietly subs hdb2 s' Post) ->
  quietly (sub :: subs) hdb s Post.
Proof.
  intros (hdb2 & Hs & Hl & Hok & Ht) Hp Hk.
  destruct (Hk hdb2 (put_hdb hdb2 s)) as (hdb3 & Hs3 & Hl3 & HP); [done|done|by eapply progress_later|].
  exists hdb3. split; [|split; [by etrans|done]]. eapply silent_loop; [exact Hs|].
  by rewrite <-(put_hdb_put hdb2 hdb3 s).
Qed.

(** The next step of a settled pass: a settled sub-reconciler of the plan. *)
Ltac quiet_step Hp :=
  eapply quietly_steady; [exact Hp|in_plan|].

Lemma quiet_pass s0 hdb s :
  nodes_ready wx -> progress s0 plan all_tags hdb s ->
  Forall (fun t => IsConditionTrue hdb t = true) [HMetaReady; HStoreReady; HServerReady] ->
  quietly (subReconcilers (P := adminClientProvider)) hdb s (fun hdb3 =>
    IsConditionTrue hdb3 Ready = true /\ conditions_ok hdb3).
Proof.
  intros Hn Hp Hc. rewrite !Forall_cons in Hc. destruct Hc as (_ & H2 & H3 & _).
  quiet_step Hp. quiet_step Hp. quiet_step Hp.
  eapply quietly_status; [apply records_updateHMetaStatus; [done|apply Hp|]|exact Hp|].
  { intros Ha. apply (pg_present _ _ _ _ _ _ Hp); [set_solver|exact Ha]. }
  intros hdb1 s1 Hl1 Hr1 Hp1. apply (lt_cond _ _ Hl1) in H2, H3; [|done..]. clear s Hp.
  quiet_step Hp1. quiet_step Hp1.
  eapply quietly_status; [by apply records_bootstrapHStore; [apply Hp1|]|exact Hp1|].
  intros hdb2 s2 Hl2 Hr2 Hp2. apply (lt_cond _ _ Hl2) in Hr1, H3; [|done..]. clear s1 H2 Hp1.
  quiet_step Hp2.
  eapply quietly_status; [apply records_bootstrapHServer; [apply Hp2|]|exact Hp2|].
  { apply (pg_present _ _ _ _ _ _ Hp2); [set_solver|done]. }
  intros hdb4 s4 Hl4 Hr4 Hp4. apply (lt_cond _ _ Hl4) in Hr1, Hr2; [|done..]. clear s2 H3 Hp2.
  quiet_step Hp4. quiet_step Hp4.
  eapply quietly_status; [apply records_updateStatus; [apply Hp4| |done..]|exact Hp4|].
  { intros ct Hct Ha. apply (pg_present _ _ _ _ _ _ Hp4); [|done].
    repeat (apply elem_of_cons in Hct as [->|Hct]; [set_solver|]). by apply elem_of_nil in Hct. }
  intros hdb5 s5 Hl5 Hr5 Hp5. exists hdb5. split; [|split; [done|split; [done|apply Hp5]]].
  rewrite put_hdb_id by apply Hp5. eapply silent_do; [done|done|]. apply silent_ret.
Qed.

End Cluster.

(** ** Sequences of passes *)

Section Passes.
Context {KL : KubeLib} {G : Gabs} {SS : SortSlice} {AJ : AdminJson}.

(** One pass after another, each in its weather: how each ended, what it did, and the store. *)
Fixpoint passes (wxs : list weather) (req : NamespacedName) (s : store) : list (go Result * list event) * store :=
  match wxs with
  | [] => ([], s)
  | wx :: wxs' =>
      let '(o, tr, s1) := run (ideal wx) (Reconcile (P := adminClientProvider) req) s in
      let '(rest, s2) := passes wxs' req s1 in
      ((o, tr) :: rest, s2)
  end.

Lemma Reconcile_run wx hdb s r tr s' :
  healthy hdb s -> runs wx (subReconcile_loop (subReconcilers (P := adminClientProvider)) hdb false) s r tr s' ->
  run (ideal wx) (Reconcile (P := adminClientProvider) (ObjectKey (hdb_Meta hdb))) s =
    (Done r, Ev (CGet KHStreamDB (ObjectKey (hdb_Meta hdb))) (inr hdb) :: tr, s').
Proof.
  intros Hh Hr. unfold Reconcile. apply (runs_do wx (CGet KHStreamDB (ObjectKey (hdb_Meta hdb))) _ s (inr hdb) s).
  - cbn [ideal objs obj_of]. by rewrite (he_hdb _ _ Hh).
  - exact Hr.
Qed.

Lemma converged_current s0 hdb h s t :
  later hdb h -> converged s0 h s -> t ∈ all_tags -> tag_asked hdb t -> current hdb s0 s t.
Proof.
  intros Hl [Hp _] Ht Ha. apply (tag_asked_later _ _ t Hl) in Ha.
  destruct (pg_current _ _ _ _ _ Hp t Ht Ha) as (d & o & Hd & Ho). exists d, o. rewrite (key_of_later _ _ _ Hl) in Ho.
  split; [by apply (desired_later hdb h)|done].
Qed.

(** A converged cluster stays converged, and a pass only stores its status again. *)
Lemma converged_pass wx s0 hdb s :
  nodes_ready wx -> converged s0 hdb s ->
  exists tr hdb2, run (ideal wx) (Reconcile (P := adminClientProvider) (ObjectKey (hdb_Meta hdb))) s =
      (Done complete, tr, put_hdb hdb2 s) /\
    writes tr = [] /\ later hdb hdb2 /\ converged s0 hdb2 (put_hdb hdb2 s).
Proof.
  intros Hn [Hp Hc]. rewrite !Forall_cons in Hc. destruct Hc as (H1 & H2 & H3 & H4 & _).
  destruct (quiet_pass wx s0 hdb s Hn Hp) as (hdb2 & (tr & Hr & Hw) & Hl & Ht & Hok).
  { repeat (apply Forall_cons_2; [done|]). apply Forall_nil_2. }
  eexists _, hdb2. split; [apply Reconcile_run; [apply Hp|exact Hr]|]. split; [exact Hw|]. split; [done|].
  split; [by eapply progress_later|]. repeat (apply Forall_cons_2); try apply Forall_nil_2; try done; by apply (lt_cond _ _ Hl).
Qed.

Lemma converged_passes wxs s0 hdb s :
  Forall nodes_ready wxs -> converged s0 hdb s ->
  exists rest hdb2, passes wxs (ObjectKey (hdb_Meta hdb)) s = (rest, put_hdb hdb2 s) /\
    Forall (fun x => fst x = Done complete /\ writes (snd x) = []) rest /\ later hdb hdb2 /\ converged s0 hdb2 (put_hdb hdb2 s).
Proof.
  intros Hn. revert hdb s. induction Hn as [|wx wxs Hwx _ IH]; intros hdb s Hc.
  { exists [], hdb. rewrite put_hdb_id by apply Hc. by split_and!. }
  destruct (converged_pass wx s0 hdb s Hwx Hc) as (tr & hdb2 & Hr & Hw & Hl & Hc2).
  destruct (IH hdb2 _ Hc2) as (rest & hdb3 & Hp & Hf & Hl3 & Hc3). rewrite put_hdb_put in Hp, Hc3 by done.
  rewrite (lt_meta _ _ Hl) in Hp. cbn [passes]. rewrite Hr, Hp.
  eexists _, hdb3. split; [done|]. split; [by constructor|]. split; [by etrans|done].
Qed.

(** Two passes converge. *)
Lemma two_passes wx1 wx2 hdb s :
  buildable hdb -> nodes_ready wx1 -> nodes_ready wx2 -> healthy hdb s ->
  exists r1 tr1 tr2 s1 s2 hdb2,
    run (ideal wx1) (Reconcile (P := adminClientProvider) (ObjectKey (hdb_Meta hdb))) s = (Done r1, tr1, s1) /\
    run (ideal wx2) (Reconcile (P := adminClientProvider) (ObjectKey (hdb_Meta hdb))) s1 = (Done complete, tr2, s2) /\
    res_err r1 = None /\ later hdb hdb2 /\ converged s hdb2 s2.
Proof.
  intros Hv Hn1 Hn2 Hh.
  destruct (pass_ends wx1 s hdb s Hv Hn1 (progress_start _ _ Hh)) as (r1 & tr1 & s1 & Hr1 & hdb1 & Hl1 & H1).
  apply (Reconcile_run _ _ _ _ _ _ Hh) in Hr1.
  assert (ObjectKey (hdb_Meta hdb1) = ObjectKey (hdb_Meta hdb)) as Hk by by rewrite (lt_meta _ _ Hl1).
  destruct H1 as [(-> & Hc)|(-> & _ & Hb)].
  - destruct (converged_pass wx2 s hdb1 s1 Hn2 Hc) as (tr2 & hdb2 & Hr2 & _ & Hl2 & Hc2). rewrite Hk in Hr2.
    eexists _, _, _, _, _, hdb2. split_and!; [exact Hr1|exact Hr2|done|by etrans|done].
  - destruct (pass_completes wx2 s hdb1 s1) as (r2 & tr2 & s2 & Hr2 & -> & hdb2 & Hl2 & H2); [by eapply buildable_later|done|done|].
    apply (Reconcile_run _ _ _ _ _ _ (pg_healthy _ _ _ _ _ (proj1 Hb))) in Hr2. rewrite Hk in Hr2.
    eexists _, _, _, _, _, hdb2. split_and!; [exact Hr1|exact Hr2|done|by etrans|done].
Qed.

(** What the user must have got right: arguments that can be read, at least one replica of what
    is waited for, and a console port, if any is chosen, that is a number. *)
Record valid_spec (hdb : HStreamDB) : Prop := {
  va_readable : readable_spec hdb;
  va_hmeta : spec_ExternalHMeta (hdb_Spec hdb) = None ->
    (exists f, Parse FlagSet_zero (container_args (spec_HMeta (hdb_Spec hdb))) = Done (f, None)) /\
    (1 <= comp_Replicas (spec_HMeta (hdb_Spec hdb)))%Z;
  va_hstore : (1 <= comp_Replicas (spec_HStore (hdb_Spec hdb)))%Z;
  va_hserver : (1 <= comp_Replicas (spec_HServer (hdb_Spec hdb)))%Z;
  va_console console flags p : spec_Console (hdb_Spec hdb) = Some console ->
    parsed_flags (container_args console) = Done flags ->
    chosen_port flags (comp_Container console) = Some p -> Atoi p <> None
}.

Lemma valid_buildable hdb : valid_spec hdb -> buildable hdb.
Proof.
  intros [[H1 H2 H3 H4 H5 H6] Hm Hst Hse Hc]. split; try done.
  - intros Hext. destruct (Hm Hext) as [Hf Hr]. split_and!; [done|by apply addHMeta_total|done].
  - by apply getPorts_total.
  - by apply getPorts_total.
  - by apply getPorts_total.
  - by apply addAdminServer_total.
  - intros n. by apply addHStore_total.
  - by apply addHServer_total.
  - intros console Hco. destruct (addConsole_total hdb console) as [?|(err & flags & p & _ & Hp & Hch & Ha)]; [by eauto|done|done|].
    by destruct (Hc console flags p Hco Hp Hch).
Qed.

Lemma valid_later hdb hdb2 : later hdb hdb2 -> valid_spec hdb -> valid_spec hdb2.
Proof. intros ->%later_status [[? ? ? ? ? ?] ? ? ? ?]. by split; [split|..]. Qed.

(** *** Properties *)

(** The controller converges. On a server that does what it is told, from any healthy store (a
    new cluster, one that is partly there, one whose spec the user has just changed) and whatever
    the clock and the visiting order of maps: the first pass is complete or asks to come back
    without an error; the second is complete; every further pass is complete and creates and
    updates no object, it only stores the status again. Then the stored status says that the cluster
    and each of its parts are ready, the spec is the user's, and every workload, service and config
    map that the user asks for is up to date with it. *)
Theorem passes_converge hdb s wx1 wx2 wxs :
  valid_spec hdb -> healthy hdb s -> Forall nodes_ready (wx1 :: wx2 :: wxs) ->
  exists r1 tr1 tr2 rest s' hdb',
    passes (wx1 :: wx2 :: wxs) (ObjectKey (hdb_Meta hdb)) s = ((Done r1, tr1) :: (Done complete, tr2) :: rest, s') /\
    res_err r1 = None /\
    Forall (fun x => fst x = Done complete /\ writes (snd x) = []) rest /\
    st_hdb s' !! ObjectKey (hdb_Meta hdb) = Some hdb' /\
    hdb_Meta hdb' = hdb_Meta hdb /\ hdb_Spec hdb' = hdb_Spec hdb /\
    Forall (fun t => IsConditionTrue hdb' t = true) [HMetaReady; HStoreReady; HServerReady; Ready] /\
    forall t, t ∈ all_tags -> tag_asked hdb t -> current hdb s s' t.
Proof.
  intros Hv Hh Hn. apply Forall_cons in Hn as [Hn1 Hn]. apply Forall_cons in Hn as [Hn2 Hn].
  destruct (two_passes wx1 wx2 hdb s (valid_buildable _ Hv) Hn1 Hn2 Hh) as (r1 & tr1 & tr2 & s1 & s2 & hdb2 & H1 & H2 & Hr1 & Hl & Hc).
  destruct (converged_passes wxs s hdb2 s2 Hn Hc) as (rest & hdb3 & Hp & Hf & Hl3 & Hc3).
  rewrite (lt_meta _ _ Hl) in Hp. exists r1, tr1, tr2, rest, (put_hdb hdb3 s2), hdb3.
  assert (later hdb hdb3) as Hl4 by by etrans.
  split_and!; [cbn [passes]; by rewrite H1, H2, Hp|done|done| |apply Hl4|apply Hl4|apply Hc3|].
  - destruct Hc3 as [Hp3 _]. pose proof (he_hdb _ _ (pg_healthy _ _ _ _ _ Hp3)) as Hs. by rewrite (lt_meta _ _ Hl4) in Hs.
  - intros t Ht Ha. by eapply converged_current.
Qed.

End Passes.
