(* ===== verification/Connector.v ===== *)
(** * Connectors: [src/internal/controller/connector_controller.go],
      [connectortemplate_controller.go] and [src/pkg/connectorgen]

    A connector runs one deployment per stream. Its configuration is the one of a template,
    overlaid with the stream's name and with the user's patches for that stream, and is stored in
    a config map per stream; a stream whose config map exists is left alone. *)
From S2P Require Import Prelude GoStrings KubeTypes ApiTypes Effects Naming Merge Requeue Workload LogDevice.

(** [encoding/json] on the types the controller uses; [jval] is a JSON value ([interface{}]). *)
Class ConnectorJson := {
  jval : Type;
  jstring : string -> jval;
  unmarshal_config : string -> go_error + gomap jval;
  unmarshal_patches : string -> go_error + gomap (gomap jval);
  marshal_config : gmap string jval -> string -> string (* the connector's map and the service URL *)
}.

(** ** [pkg/connectorgen] *)

Definition addImageRegistry (image : string) (registry : option string) : string :=
  match registry with
  | None => image
  | Some registry => registry +:+ "/" +:+ image
  end.

Definition data_mount (name path : string) : VolumeMount :=
  {| vm_Name := name; vm_ReadOnly := false; vm_MountPath := path; vm_SubPath := ""; vm_rest := None |}.

Definition DefaultSinkElasticsearchContainer (connector : Connector) (name configMapName : string) : Container :=
  ctr_with name
    (addImageRegistry (default "" (ConnectorImageMap !! con_Type (con_Spec connector)))
       (con_ImageRegistry (con_Spec connector)))
    "" None (Some ["run"; "--config /data/config/config.json"]) None None
    (Some [data_mount configMapName "/data/config"; data_mount "data" "/data"]) None None ctr_zero.

(** ** [connector_controller.go] *)

Definition con_Name (c : Connector) : string := meta_Name (con_Meta c).
Definition con_Namespace (c : Connector) : string := meta_Namespace (con_Meta c).

Definition getPromAnnotations (connector : Connector) : gomap string :=
  Some (filter (fun kv => HasPrefix (fst kv) "prometheus.io" = true) (entries (meta_Annotations (con_Meta connector)))).

(** The ports of one deployment: that of the connector type, then those of the spec. *)
Definition connector_ports (connector : Connector) : list ContainerPort :=
  [mkPort "" (default 0%Z (ConnectorContainerPortMap !! con_Type (con_Spec connector))) ""] ++
  elems (ctr_Ports (con_Container (con_Spec connector))) ++
  elems (con_ContainerPorts (con_Spec connector)).

Definition connector_labels (connector : Connector) : gmap string string :=
  <[ComponentKey := ComponentTypeConnector]> {[InstanceKey := con_Name connector]}.

(** [labels] and the stream *)
Definition stream_labels (connector : Connector) (stream : string) : gomap string :=
  Some (<["stream" := stream]> (connector_labels connector)).

Definition connector_deployment (connector : Connector) (stream configMapName : string) : Deployment :=
  let name := GenConnectorDeploymentName (con_Name connector) stream in
  let preconfiguredContainer :=
    structAssign (DefaultSinkElasticsearchContainer connector name configMapName)
      (con_Container (con_Spec connector)) in {|
  dep_Meta := meta_set_Labels (Some (connector_labels connector))
    (meta_set_Namespace (con_Namespace connector) (meta_set_Name name meta_zero));
  dep_Spec := {|
    dep_Replicas := None;
    dep_Selector := stream_labels connector stream;
    dep_Template := {|
      tpl_Meta := meta_set_Annotations (getPromAnnotations connector)
        (meta_set_Labels (stream_labels connector stream) meta_zero);
      tpl_Spec := {|
        pod_TerminationGracePeriodSeconds := None; pod_Affinity := None; pod_Tolerations := None;
        pod_NodeName := ""; pod_NodeSelector := None; pod_SecurityContext := None;
        pod_InitContainers := None;
        pod_Containers := Some (preconfiguredContainer :: elems (con_Containers (con_Spec connector)));
        pod_Volumes := Some [{| vol_Name := configMapName; vol_Source := ConfigMapSource configMapName [] |};
                             {| vol_Name := "data"; vol_Source := EmptyDir |}];
        pod_rest := None |} |};
    dep_rest := None |};
  dep_readyReplicas := 0 |}.

(** The ports are stored in the connector the loop goes on with. *)
Definition createConnectorDeployment (connector : Connector) (stream configMapName : string)
    : prog (option go_error * Connector) :=
  let containerPorts := connector_ports connector in
  let connector := con_set_Container
    (ctr_set_Ports (Some containerPorts) (con_Container (con_Spec connector))) connector in
  let deployment := connector_deployment connector stream configMapName in
  let* err := createOwned (con_Meta connector) (dep_Meta deployment)
                (fun m => ODeployment (dep_set_Meta m deployment)) in
  Ret (err, connector).

Section Connector.
Context {J : ConnectorJson}.

(** The configuration of one stream, with the patches parsed again for each. *)
Definition stream_config (templateConfig : gomap jval) (patches : option string) (stream : string)
    : go_error + gmap string jval :=
  let config := <["stream" := jstring stream]> (entries templateConfig) in
  match patches with
  | None => inr config
  | Some raw =>
      match unmarshal_patches raw with
      | inl err => inl err
      | inr patches =>
          match mget patches stream with
          | Some val => inr (entries val ∪ config)
          | None => inr config
          end
      end
  end.

Fixpoint stream_configs (templateConfig : gomap jval) (patches : option string) (streams : list string)
    : go_error + list (gmap string jval) :=
  match streams with
  | [] => inr []
  | stream :: streams' =>
      match stream_config templateConfig patches stream with
      | inl err => inl err
      | inr config =>
          match stream_configs templateConfig patches streams' with
          | inl err => inl err
          | inr configs => inr (config :: configs)
          end
      end
  end.

Definition mergePatchesIntoConfigs (connector : Connector) : prog (go_error + list (gmap string jval)) :=
  let* r := kube_Get KConfigMap
    {| nn_Namespace := con_Namespace connector;
       nn_Name := GenConnectorConfigMapName (con_TemplateName (con_Spec connector)) true |} in
  match r with
  | inl err => Ret (inl err)
  | inr templateConfigMap =>
      match unmarshal_config (mstr (cm_Data templateConfigMap) "config") with
      | inl err => Ret (inl err)
      | inr templateConfig =>
          Ret (stream_configs templateConfig (con_Patches (con_Spec connector))
                 (elems (con_Streams (con_Spec connector))))
      end
  end.

Definition result (err : option go_error) : Result := {| res_RequeueAfter := 0; res_err := err |}.

(** The loop over the streams, with the configuration of each. *)
Fixpoint connector_loop (connector : Connector) (todo : list (string * gmap string jval)) : prog Result :=
  match todo with
  | [] => Ret (result None)
  | (stream, config) :: todo' =>
      let name := GenConnectorConfigMapNameForStream (con_Name connector) stream in
      let nn := {| nn_Namespace := con_Namespace connector; nn_Name := name |} in
      let* r := kube_Get KConfigMap nn in
      match r with
      | inr _ => connector_loop connector todo'
      | inl err =>
          if negb (IsNotFound err) then Ret (result (Some err))
          else
            let configJson := marshal_config config
              ("hstream://" +:+ con_HServerEndpoint (con_Spec connector)) in
            let* err := createOwned (con_Meta connector) (config_map_meta nn)
                          (config_map {["config.json" := configJson]}) in
            match err with
            | Some err => Ret (result (Some err))
            | None =>
                let* (err, connector) := createConnectorDeployment connector stream name in
                match err with
                | Some err => Ret (result (Some err))
                | None => connector_loop connector todo'
                end
            end
      end
  end.

Definition ConnectorReconciler_Reconcile (req : NamespacedName) : prog Result :=
  let* r := kube_Get KConnector req in
  match r with
  | inl err => Ret (result (if IsNotFound err then None else Some err))
  | inr connector =>
      if meta_Deleted (con_Meta connector) then Ret (result None)
      else
        let* cfgs := mergePatchesIntoConfigs connector in
        match cfgs with
        | inl err => Ret (result (Some err))
        | inr configs => connector_loop connector (zip (elems (con_Streams (con_Spec connector))) configs)
        end
  end.

End Connector.

(** ** [connectortemplate_controller.go] *)

Definition ConnectorTemplateReconciler_Reconcile (req : NamespacedName) : prog Result :=
  let* r := kube_Get KConnectorTemplate req in
  match r with
  | inl err => Ret (result (if IsNotFound err then None else Some err))
  | inr connectorTemplate =>
      if meta_Deleted (ctpl_Meta connectorTemplate) then Ret (result None)
      else
        let nn := {| nn_Namespace := nn_Namespace req; nn_Name := GenConnectorConfigMapName (nn_Name req) true |} in
        let* r := kube_Get KConfigMap nn in
        match r with
        | inr _ => Ret (result None)
        | inl err =>
            if negb (IsNotFound err) then Ret (result (Some err))
            else
              let* err := createOwned (ctpl_Meta connectorTemplate) (config_map_meta nn)
                (config_map {["config" := ctpl_Config (ctpl_Spec connectorTemplate)]}) in
              Ret (result err)
        end
  end.

(** ** Lemmas *)

(** The config map of a template. *)
Definition template_key (ns template : string) : NamespacedName :=
  {| nn_Namespace := ns; nn_Name := GenConnectorConfigMapName template true |}.

(** The config map and the deployment of a stream share their key. *)
Definition stream_key (con : Connector) (stream : string) : NamespacedName :=
  {| nn_Namespace := con_Namespace con; nn_Name := GenConnectorConfigMapNameForStream (con_Name con) stream |}.

Lemma deployment_name name stream :
  GenConnectorDeploymentName name stream = GenConnectorConfigMapNameForStream name stream.
Proof.
  unfold GenConnectorDeploymentName, GenConnectorConfigMapNameForStream, GenConnectorConfigMapName.
  by rewrite !string_app_assoc.
Qed.

Lemma con_set_Container_Name c con : con_Name (con_set_Container c con) = con_Name con.
Proof. done. Qed.

(** A config map of a stream, as the loop creates it. *)
Definition stream_map {J : ConnectorJson} (connector : Connector) (stream : string) (config : gmap string jval)
    (cm : ConfigMap) : Prop :=
  ObjectKey (cm_Meta cm) = {| nn_Namespace := con_Namespace connector;
                              nn_Name := GenConnectorConfigMapNameForStream (con_Name connector) stream |} /\
  cm_Data cm = Some {["config.json" := marshal_config config ("hstream://" +:+ con_HServerEndpoint (con_Spec connector))]}.

(** The container of the connector itself. Where the user says nothing it has the image of the
    connector type, is started with the configuration at [/data/config/config.json], and mounts the
    config map of the stream at [/data/config]; mounts that the user gives replace that one. *)
Definition stream_container (connector : Connector) (stream : string) (c : Container) : Prop :=
  let own := con_Container (con_Spec connector) in
  (ctr_Image own = "" ->
     ctr_Image c = addImageRegistry (default "" (ConnectorImageMap !! con_Type (con_Spec connector)))
       (con_ImageRegistry (con_Spec connector))) /\
  (ctr_Args own = None -> ctr_Args c = Some ["run"; "--config /data/config/config.json"]) /\
  (ctr_VolumeMounts own = None ->
     data_mount (GenConnectorConfigMapNameForStream (con_Name connector) stream) "/data/config" ∈ elems (ctr_VolumeMounts c)) /\
  (forall mounts, ctr_VolumeMounts own = Some mounts -> ctr_VolumeMounts c = Some mounts).

(** A deployment of a stream: its name, its labels, the config map among the volumes of the pod, and
    the connector's container. *)
Definition stream_deployment (connector : Connector) (stream : string) (d : Deployment) : Prop :=
  let name := GenConnectorConfigMapNameForStream (con_Name connector) stream in
  let pod := tpl_Spec (dep_Template (dep_Spec d)) in
  ObjectKey (dep_Meta d) = {| nn_Namespace := con_Namespace connector;
                              nn_Name := GenConnectorDeploymentName (con_Name connector) stream |} /\
  dep_Selector (dep_Spec d) = meta_Labels (tpl_Meta (dep_Template (dep_Spec d))) /\
  {| vol_Name := name; vol_Source := ConfigMapSource name [] |} ∈ elems (pod_Volumes pod) /\
  exists c sidecars, elems (pod_Containers pod) = c :: sidecars /\ stream_container connector stream c.

(** The same connector but for the ports the loop piles up. *)
Definition connector_core (con : Connector) :=
  (con_Meta con, con_HServerEndpoint (con_Spec con), con_Type (con_Spec con), con_ImageRegistry (con_Spec con),
   (ctr_Image (con_Container (con_Spec con)), ctr_Args (con_Container (con_Spec con)),
    ctr_VolumeMounts (con_Container (con_Spec con)))).

Definition same_connector (con con' : Connector) : Prop := connector_core con' = connector_core con.

#[export] Instance same_connector_PreOrder : PreOrder same_connector.
Proof. split; [done|]. intros c1 c2 c3 H1 H2. unfold same_connector in *. congruence. Qed.

Lemma same_connector_names con con' : same_connector con con' ->
  con_Meta con' = con_Meta con /\ con_HServerEndpoint (con_Spec con') = con_HServerEndpoint (con_Spec con).
Proof. by intros [= ? ? _]. Qed.

Lemma stream_deployment_same con con' stream d :
  same_connector con con' -> stream_deployment con' stream d -> stream_deployment con stream d.
Proof.
  intros [= Hm _ Ht Hr Hi Ha Hv]. unfold stream_deployment, stream_container, con_Name, con_Namespace.
  by rewrite Hm, Ht, Hr, Hi, Ha, Hv.
Qed.

Lemma stream_map_same {J : ConnectorJson} con con' stream config cm :
  same_connector con con' -> stream_map con' stream config cm -> stream_map con stream config cm.
Proof. intros [Hm He]%same_connector_names. unfold stream_map, con_Name, con_Namespace. by rewrite Hm, He. Qed.

Lemma connector_deployment_stream con stream :
  stream_deployment con stream
    (connector_deployment con stream (GenConnectorConfigMapNameForStream (con_Name con) stream)).
Proof.
  split; [done|]. split; [done|]. split; [apply list_elem_of_here|]. eexists _, _. split; [reflexivity|].
  unfold stream_container. cbn -[data_mount addImageRegistry]. split_and!.
  - intros ->. done.
  - intros ->. done.
  - intros ->. apply list_elem_of_here.
  - by intros mounts ->.
Qed.

(** Owners do not matter. *)
Lemma stream_deployment_owned con stream d refs :
  stream_deployment con stream d -> stream_deployment con stream (dep_set_Meta (meta_set_OwnerReferences refs (dep_Meta d)) d).
Proof. done. Qed.

Section Facts.
Context {J : ConnectorJson}.

(** What a run of the loop may write. *)
Definition connector_writes (connector : Connector) (todo : list (string * gmap string jval)) (tr : list event)
    (e : event) : Prop :=
  match ev_call e with
  | CCreate (OConfigMap cm) => exists stream config, (stream, config) ∈ todo /\ stream_map connector stream config cm /\
      exists err, IsNotFound err = true /\ Ev (CGet KConfigMap (ObjectKey (cm_Meta cm))) (inl err) ∈ tr
  | CCreate (ODeployment d) => exists stream config cm, (stream, config) ∈ todo /\ stream_map connector stream config cm /\
      stream_deployment connector stream d /\ Ev (CCreate (OConfigMap cm)) None ∈ tr
  | CCreate _ | CUpdate _ | CStatusUpdate _ => False
  | _ => True
  end.

Lemma connector_writes_weaken connector connector' todo todo' tr tr' e :
  same_connector connector connector' ->
  (forall x, x ∈ todo -> x ∈ todo') -> (forall e, e ∈ tr -> e ∈ tr') ->
  connector_writes connector' todo tr e -> connector_writes connector todo' tr' e.
Proof.
  intros Hsame Htodo Htr. unfold connector_writes.
  destruct (ev_call e) as [| [] | | | | | | | | | | |]; try done.
  - intros (st & cfg & cm & ? & Hm%(stream_map_same _ _ _ _ _ Hsame) & Hd%(stream_deployment_same _ _ _ _ Hsame) & ?).
    exists st, cfg, cm. auto.
  - intros (st & cfg & ? & Hm%(stream_map_same _ _ _ _ _ Hsame) & err & ? & ?). exists st, cfg. eauto 10.
Qed.

Lemma connector_loop_writes connector todo :
  wp (connector_loop connector todo) (fun tr _ => Forall (connector_writes connector todo tr) tr).
Proof.
  revert connector. induction todo as [|[stream config] todo IH]; intros connector; [constructor|].
  cbn [connector_loop]. intros [err|cm]; cbn [prog_bind].
  2:{ eapply wp_mono; [apply IH|]. intros tr o H. apply Forall_cons_2; [done|].
      eapply Forall_impl; [exact H|]. intros e. apply connector_writes_weaken; try done.
      - intros x Hx. by right.
      - intros e' He'. by right. }
  destruct (IsNotFound err) eqn:Herr; cbn [negb]; [|by repeat constructor].
  set (nn := {| nn_Namespace := _; nn_Name := _ |}). set (data := {["config.json" := _]}).
  assert (forall refs r tr, let cm := {| cm_Meta := meta_set_OwnerReferences refs (config_map_meta nn); cm_Data := Some data |} in
    Ev (CGet KConfigMap nn) (inl err) ∈ tr ->
    connector_writes connector ((stream, config) :: todo) tr (Ev (CCreate (OConfigMap cm)) r)) as Hmap.
  { intros refs r tr cm Hget. exists stream, config. split; [apply list_elem_of_here|]. split; [done|].
    by exists err. }
  unfold createConnectorDeployment. set (connector' := con_set_Container _ connector).
  unfold createOwned. wp_run.
  all: try (eapply wp_mono; [apply IH|]; intros tr o' H; apply (Forall_app_2 _ [_; _; _; _; _]);
    [|eapply Forall_impl; [exact H|]; intros e; apply connector_writes_weaken;
      [done..|by right|intros e' He'; by do 5 apply list_elem_of_further]]).
  all: repeat (apply Forall_cons_2; [first [exact I | apply Hmap; apply list_elem_of_here | idtac]|]);
    try apply Forall_nil_2.
  all: subst; eexists stream, config, {| cm_Meta := meta_set_OwnerReferences o (config_map_meta nn); cm_Data := Some data |}.
  all: split; [apply list_elem_of_here|]; (split; [split; reflexivity|]).
  all: split; [exact (stream_deployment_same connector (con_set_Container (ctr_set_Ports (Some (connector_ports connector))
    (con_Container (con_Spec connector))) connector) stream _ eq_refl
    (stream_deployment_owned _ stream _ _ (connector_deployment_stream _ stream)))|].
  all: do 2 apply list_elem_of_further; apply list_elem_of_here.
Qed.

(** The ports of the connector's own container in a deployment. *)
Definition main_ports (d : Deployment) : list ContainerPort :=
  from_option (fun c => elems (ctr_Ports c)) [] (head (elems (pod_Containers (tpl_Spec (dep_Template (dep_Spec d)))))).

(** A stream whose config map exists is skipped. *)
Lemma connector_loop_skip connector stream config todo cm tr o :
  let name := GenConnectorConfigMapNameForStream (con_Name connector) stream in
  exec (connector_loop connector ((stream, config) :: todo))
    (Ev (CGet KConfigMap {| nn_Namespace := con_Namespace connector; nn_Name := name |}) (inr cm) :: tr) o ->
  exec (connector_loop connector todo) tr o.
Proof.
  intros name (r & tr' & Heq & H). pose proof (f_equal head Heq) as He. apply Some_inj in He.
  apply Ev_get_inj in He as [_ <-]. apply (f_equal tail) in Heq. cbn [tail] in Heq. by subst tr'.
Qed.

(** *** Properties *)

(** C33: the configuration of a stream is, key by key, the patch of the user for that stream, else
    the stream's name under ["stream"], else the template's; there is one configuration per stream,
    in the order of the streams. *)
Theorem stream_configs_precedence templateConfig patches streams configs :
  stream_configs templateConfig patches streams = inr configs ->
  Forall2 (fun stream config =>
    exists patch : gmap string jval,
      match patches with
      | Some raw => exists parsed, unmarshal_patches raw = inr parsed /\
                      patch = entries (default None (mget parsed stream))
      | None => patch = ∅
      end /\
      forall key, config !! key =
        match patch !! key with
        | Some v => Some v
        | None => if decide (key = "stream") then Some (jstring stream) else entries templateConfig !! key
        end) streams configs.
Proof.
  revert configs. induction streams as [|stream streams IH]; intros configs; cbn [stream_configs].
  { intros [= <-]. constructor. }
  destruct (stream_config templateConfig patches stream) as [err|config] eqn:Hc; [done|].
  destruct (stream_configs templateConfig patches streams) as [err|rest]; [done|]. intros [= <-].
  constructor; [|by apply IH].
  set (base := <["stream" := jstring stream]> (entries templateConfig)).
  assert (forall key, base !! key =
    if decide (key = "stream") then Some (jstring stream) else entries templateConfig !! key) as Hbase.
  { intros key. subst base. case_decide as Hk; [subst; apply lookup_insert_eq|by apply lookup_insert_ne]. }
  unfold stream_config in Hc. fold base in Hc. destruct patches as [raw|].
  2:{ injection Hc as <-. exists ∅. split; [done|]. intros key. by rewrite lookup_empty, Hbase. }
  destruct (unmarshal_patches raw) as [err|parsed]; [done|].
  destruct (mget parsed stream) as [val|] eqn:Hv; injection Hc as <-.
  - exists (entries val). split; [exists parsed; by rewrite Hv|]. intros key. rewrite lookup_union, Hbase.
    by destruct (entries val !! key), (decide (key = "stream")), (entries templateConfig !! key).
  - exists ∅. split; [exists parsed; by rewrite Hv|]. intros key. by rewrite lookup_empty, Hbase.
Qed.

(** C34: what a connector writes: only config maps and deployments of its streams; a config map
    only after the server has answered that it does not exist, with the configuration of the
    stream; and a deployment only after the config map has been created in the same run that its pod
    has as a volume and that its container mounts and is started with, unless the user gives mounts
    or arguments. Nothing that exists is ever changed. *)
Theorem connector_loop_safe connector todo tr o :
  exec (connector_loop connector todo) tr o -> Forall (connector_writes connector todo tr) tr.
Proof.
  intros H. pose proof (connector_loop_writes connector todo) as Hw. rewrite wp_exec in Hw. by eapply Hw.
Qed.

(** C37: a deployment whose creation fails is never created: the run ends with the error, and every
    later run finds the config map of the stream, skips the stream and reports success. *)
Theorem connector_deployment_not_retried connector stream config err missing refs refs' cm tr o :
  let name := GenConnectorConfigMapNameForStream (con_Name connector) stream in
  let get := CGet KConfigMap {| nn_Namespace := con_Namespace connector; nn_Name := name |} in
  IsNotFound missing = true ->
  (exists tr1 d m m', exec (connector_loop connector [(stream, config)])
     (Ev get (inl missing) :: tr1) (Done (result (Some err))) /\
     tr1 = [Ev (CSetOwner (con_Meta connector) m) (inr refs);
            Ev (CCreate (OConfigMap {| cm_Meta := meta_set_OwnerReferences refs m; cm_Data := Some
               {["config.json" := marshal_config config ("hstream://" +:+ con_HServerEndpoint (con_Spec connector))]} |})) None;
            Ev (CSetOwner (con_Meta connector) m') (inr refs');
            Ev (CCreate (ODeployment d)) (Some err)]) /\
  (exec (connector_loop connector [(stream, config)]) (Ev get (inr cm) :: tr) o ->
   tr = [] /\ o = Done (result None)).
Proof.
  intros name get Hm. split.
  - eexists _, _, _, _. split; [|reflexivity]. unfold connector_loop, createConnectorDeployment, createOwned.
    eexists (inl missing), _. split; [reflexivity|]. cbn [prog_bind]. rewrite Hm. cbn [negb prog_bind exec].
    eexists (inr refs), _. split; [reflexivity|]. cbn [prog_bind exec kube_Create].
    eexists None, _. split; [reflexivity|]. cbn [prog_bind exec SetControllerReference].
    eexists (inr refs'), _. split; [reflexivity|]. cbn [prog_bind exec kube_Create].
    eexists (Some err), []. split; [reflexivity|]. done.
  - intros H%connector_loop_skip. exact H.
Qed.

(** C36: the ports of the deployments of one connector pile up: when a run deploys two streams, the
    second deployment has the ports of the first one, the port of the connector type once more and
    the ports of the deprecated field once more. *)
Theorem connector_ports_accumulate connector s1 c1 s2 c2 tr o cm1 d1 cm2 d2 :
  exec (connector_loop connector [(s1, c1); (s2, c2)]) tr o ->
  writes tr = [OConfigMap cm1; ODeployment d1; OConfigMap cm2; ODeployment d2] ->
  main_ports d1 = connector_ports connector /\
  main_ports d2 = [mkPort "" (default 0%Z (ConnectorContainerPortMap !! con_Type (con_Spec connector))) ""] ++
    main_ports d1 ++ elems (con_ContainerPorts (con_Spec connector)).
Proof.
  intros He. revert tr o He cm1 d1 cm2 d2.
  apply (proj1 (wp_exec _ (fun tr _ => forall cm1 d1 cm2 d2, writes tr = _ -> _))).
  cbn [connector_loop]. unfold createConnectorDeployment, createOwned. wp_run; try done.
  all: intros cm1 d1 cm2 d2 [= <- <- <- <-]; done.
Qed.

(** Volume mounts that a user gives to the connector's container replace the operator's, also the
    one of the configuration: the container is still started with [/data/config/config.json], which
    nothing provides then unless the user mounts the config map of the stream. *)
Theorem connector_mounts_replaced con stream mounts :
  ctr_VolumeMounts (con_Container (con_Spec con)) = Some mounts -> ctr_Args (con_Container (con_Spec con)) = None ->
  let d := connector_deployment con stream (GenConnectorConfigMapNameForStream (con_Name con) stream) in
  exists c sidecars, elems (pod_Containers (tpl_Spec (dep_Template (dep_Spec d)))) = c :: sidecars /\
    ctr_Args c = Some ["run"; "--config /data/config/config.json"] /\ ctr_VolumeMounts c = Some mounts.
Proof.
  intros Hm Ha d. destruct (connector_deployment_stream con stream) as (_ & _ & _ & c & sidecars & Hc & _ & H1 & _ & H2).
  exists c, sidecars. auto.
Qed.

(** Two streams of one connector share their config map and their deployment exactly when
    their names differ only in underscores and dashes. *)
Theorem connector_names name s1 s2 :
  (GenConnectorConfigMapNameForStream name s1 = GenConnectorConfigMapNameForStream name s2 <->
   Replace s1 underscore dash = Replace s2 underscore dash) /\
  (GenConnectorDeploymentName name s1 = GenConnectorDeploymentName name s2 <->
   Replace s1 underscore dash = Replace s2 underscore dash) /\
  (cut s1 underscore = None -> cut s2 underscore = None ->
   GenConnectorConfigMapNameForStream name s1 = GenConnectorConfigMapNameForStream name s2 -> s1 = s2).
Proof.
  assert (GenConnectorConfigMapNameForStream name s1 = GenConnectorConfigMapNameForStream name s2 <->
   Replace s1 underscore dash = Replace s2 underscore dash) as H.
  { unfold GenConnectorConfigMapNameForStream. split; [|by intros ->].
    intros H%string_app_cancel. by apply (string_app_cancel "-"). }
  split; [done|]. split.
  - unfold GenConnectorDeploymentName. split; [|by intros ->].
    intros Hd%string_app_cancel. by apply (string_app_cancel "-hc-").
  - intros H1 H2 Heq%H. by rewrite !Replace_id in Heq.
Qed.

End Facts.
