(* ===== verification/Main.v ===== *)
(** * The process: [src/cmd/main.go] and the three [SetupWithManager]

    [main] registers the API groups, makes a manager from the command line, hands it the three
    controllers and the two health checks, and starts it. The manager is outside the repository:
    [boot] is the program over its calls, each of which answers an error or nil. *)
From S2P Require Import Prelude GoStrings KubeTypes ApiTypes Effects Conditions FlagSet Naming Merge Requeue Workload LogDevice Services Admin HMeta AdminServer HStore HServer Gateway Console Bootstrap Status Controller Connector.

(** ** Registrations *)

(** The objects whose events a controller handles, and the events it ignores. *)
Record registration := {
  reg_For : Kind;
  reg_Owns : list Kind;
  reg_UpdateFunc : option (HStreamDB -> HStreamDB -> bool);
  reg_Reconcile : NamespacedName -> prog Result
}.

(** The options of the manager. *)
Record manager_options := {
  opt_MetricsBindAddress : string;
  opt_Port : Z;
  opt_HealthProbeBindAddress : string;
  opt_LeaderElection : bool;
  opt_LeaderElectionID : string
}.

(** The command line, after [flag.Parse]. *)
Record main_flags := { metricsAddr : string; probeAddr : string; enableLeaderElection : bool }.

Definition default_flags : main_flags :=
  {| metricsAddr := ":8080"; probeAddr := ":8081"; enableLeaderElection := false |}.

(** ** The calls of a start *)

Inductive boot_call :=
| BAddToScheme (group : string)
| BGetConfigOrDie
| BNewManager (opts : manager_options)
| BComplete (r : registration)
| BAddHealthzCheck (name : string)
| BAddReadyzCheck (name : string)
| BStart.

Inductive boot :=
| BExit (code : Z)
| BPanic
| BCall (c : boot_call) (k : option go_error -> boot).

Section Main.
Context {KL : KubeLib} {G : Gabs} {SS : SortSlice} {AJ : AdminJson} {J : ConnectorJson}.

Definition HStreamDBReconciler_SetupWithManager : registration := {|
  reg_For := KHStreamDB; reg_Owns := []; reg_UpdateFunc := Some UpdateFunc;
  reg_Reconcile := Reconcile (P := adminClientProvider) |}.

Definition ConnectorReconciler_SetupWithManager : registration := {|
  reg_For := KConnector; reg_Owns := [KConfigMap]; reg_UpdateFunc := None;
  reg_Reconcile := ConnectorReconciler_Reconcile |}.

Definition ConnectorTemplateReconciler_SetupWithManager : registration := {|
  reg_For := KConnectorTemplate; reg_Owns := [KConfigMap]; reg_UpdateFunc := None;
  reg_Reconcile := ConnectorTemplateReconciler_Reconcile |}.

(** [ctrl.Options] *)
Definition options (flags : main_flags) : manager_options := {|
  opt_MetricsBindAddress := metricsAddr flags; opt_Port := 9443;
  opt_HealthProbeBindAddress := probeAddr flags;
  opt_LeaderElection := enableLeaderElection flags; opt_LeaderElectionID := "8f62a9aa.hstream.io" |}.

(** [func init]: [utilruntime.Must] panics on an error. *)
Definition init (k : boot) : boot :=
  BCall (BAddToScheme "client-go") (fun err =>
    if err is Some _ then BPanic else
  BCall (BAddToScheme "v1alpha2") (fun err =>
    if err is Some _ then BPanic else
  BCall (BAddToScheme "v1beta1") (fun err =>
    if err is Some _ then BPanic else k))).

(** [func main], with the flags that were parsed; it returns after the manager has stopped.
    [ctrl.GetConfigOrDie] exits by itself when it finds no configuration. *)
Definition main (flags : main_flags) : boot :=
  BCall BGetConfigOrDie (fun err =>
    if err is Some _ then BExit 1 else
  BCall (BNewManager (options flags)) (fun err =>
    if err is Some _ then BExit 1 else
  BCall (BComplete HStreamDBReconciler_SetupWithManager) (fun err =>
    if err is Some _ then BExit 1 else
  BCall (BComplete ConnectorReconciler_SetupWithManager) (fun err =>
    if err is Some _ then BExit 1 else
  BCall (BComplete ConnectorTemplateReconciler_SetupWithManager) (fun err =>
    if err is Some _ then BExit 1 else
  BCall (BAddHealthzCheck "healthz") (fun err =>
    if err is Some _ then BExit 1 else
  BCall (BAddReadyzCheck "readyz") (fun err =>
    if err is Some _ then BExit 1 else
  BCall BStart (fun err =>
    if err is Some _ then BExit 1 else BExit 0)))))))).

(** ** Runs *)

Inductive boot_end := Exited (code : Z) | Panicked.

(** The calls of a start with their answers, and how it ends. *)
Fixpoint boots (p : boot) (tr : list (boot_call * option go_error)) (e : boot_end) : Prop :=
  match p with
  | BExit code => tr = [] /\ e = Exited code
  | BPanic => tr = [] /\ e = Panicked
  | BCall c k => exists err tr', tr = (c, err) :: tr' /\ boots (k err) tr' e
  end.

Definition schemes : list boot_call := [BAddToScheme "client-go"; BAddToScheme "v1alpha2"; BAddToScheme "v1beta1"].

(** The whole start, in order. *)
Definition startup (flags : main_flags) : list boot_call :=
  schemes ++
  [BGetConfigOrDie; BNewManager (options flags);
   BComplete HStreamDBReconciler_SetupWithManager;
   BComplete ConnectorReconciler_SetupWithManager;
   BComplete ConnectorTemplateReconciler_SetupWithManager;
   BAddHealthzCheck "healthz"; BAddReadyzCheck "readyz"; BStart].

(** A program that makes the calls [cs] in order, and ends with [fail] at the first error. *)
Fixpoint in_order (cs : list boot_call) (fail : boot) (k : boot) : boot :=
  match cs with
  | [] => k
  | c :: cs' => BCall c (fun err => if err is Some _ then fail else in_order cs' fail k)
  end.

Lemma init_main_in_order flags :
  init (main flags) = in_order schemes BPanic (in_order (drop 3 (startup flags)) (BExit 1) (BExit 0)).
Proof. reflexivity. Qed.

(** Up to the first error, or to the end. *)
Lemma boots_in_order cs fail k tr e :
  boots (in_order cs fail k) tr e ->
  (exists tr', tr = ((fun c => (c, None)) <$> cs) ++ tr' /\ boots k tr' e) \/
  (exists cs1 c cs2 err tr', cs = cs1 ++ c :: cs2 /\ tr = ((fun c => (c, None)) <$> cs1) ++ (c, Some err) :: tr' /\
     boots fail tr' e).
Proof.
  revert tr. induction cs as [|c cs IH]; intros tr; [left; by exists tr|].
  cbn [in_order boots]. intros ([err|] & tr' & -> & H).
  - right. by exists [], c, cs, err, tr'.
  - destruct (IH tr' H) as [(tr'' & -> & H')|(cs1 & c' & cs2 & err & tr'' & -> & -> & H')]; [left; by exists tr''|].
    right. by exists (c :: cs1), c', cs2, err, tr''.
Qed.

(** *** Properties *)

(** C32: the start of the process: the calls are made in one fixed order and stop at the first one
    that fails, so the manager is started only after the three controllers and both health checks
    were accepted; the process exits with 0 exactly when every call succeeds, panics when an API
    group cannot be registered, and exits with 1 at any other failure. *)
Theorem main_exit flags tr e :
  boots (init (main flags)) tr e ->
  tr.*1 `prefix_of` startup flags /\
  match e with
  | Exited 0 => tr = (fun c => (c, None)) <$> startup flags
  | Exited code => code = 1%Z /\ exists cs c err,
      tr = ((fun c => (c, None)) <$> schemes ++ cs) ++ [(c, Some err)] /\ c ∉ schemes
  | Panicked => exists cs c err, tr = ((fun c => (c, None)) <$> cs) ++ [(c, Some err)] /\ c ∈ schemes
  end.
Proof.
  assert (forall l : list boot_call, ((fun c => (c, @None go_error)) <$> l).*1 = l) as Hfst.
  { intros l. rewrite <-list_fmap_compose. by apply list_fmap_id. }
  rewrite init_main_in_order.
  intros [(tr' & -> & H)|(cs1 & c & cs2 & err & tr' & Hcs & -> & [-> ->])]%boots_in_order; [|split].
  - apply boots_in_order in H as [(tr'' & -> & [-> ->])|(cs1 & c & cs2 & err & tr'' & Hcs & -> & [-> ->])].
    + rewrite app_nil_r, <-fmap_app, Hfst. done.
    + rewrite app_assoc, <-fmap_app, fmap_app, Hfst. split.
      * exists cs2. unfold startup. rewrite <-!app_assoc. f_equal. exact Hcs.
      * split; [done|]. exists cs1, c, err. split; [done|].
        assert (c ∈ drop 3 (startup flags)) as Hin by (rewrite Hcs; apply elem_of_app; right; left).
        clear -Hin. intros Hs. unfold schemes in Hs. cbn [drop startup schemes app] in Hin.
        repeat (apply elem_of_cons in Hs as [->|Hs];
          [repeat (apply elem_of_cons in Hin as [Hin|Hin]; [discriminate|]); by apply elem_of_nil in Hin|]).
        by apply elem_of_nil in Hs.
  - rewrite fmap_app, Hfst. exists (cs2 ++ drop 3 (startup flags)).
    change (startup flags) with (schemes ++ drop 3 (startup flags)) at 1. rewrite Hcs. cbn [fmap list_fmap fst].
    by rewrite <-!app_assoc.
  - exists cs1, c, err. split; [done|]. rewrite Hcs. apply elem_of_app. right. left.
Qed.

End Main.
