(* ===== verification/Fleet.v ===== *)
(** * The three controllers together

    The process runs the controllers of clusters, connectors and connector templates against one
    server. They share its namespaces, and their objects are told apart by name only. Here passes
    of all three run against the server of [Server] and its other clients; as long as no stream is
    named like a component, the invariants of [Operator] survive, and without that they do not. *)
From S2P Require Import Prelude GoStrings KubeTypes ApiTypes Effects RelyGuarantee Conditions FlagSet Naming Constants Merge Requeue Workload LogDevice Services Admin HMeta AdminServer HStore HServer Gateway Console Bootstrap Server Status Controller Footprint Operator Ideal Connector Main.

(** ** Names *)

(** The stream, as it appears in names, is no component and ends in no ["-<component>"]. *)
Definition harmless_stream (stream : string) : Prop :=
  forall ct u, "-" +:+ Replace stream underscore dash <> u +:+ component_suffix ct.

Definition harmless_connector (con : Connector) : Prop := Forall harmless_stream (elems (con_Streams (con_Spec con))).

(** Users name the streams of their connectors so. *)
Definition harmless_store (s : store) : Prop := forall nn con, st_con s !! nn = Some con -> harmless_connector con.

Section Fleet.
Context {KL : KubeLib} {G : Gabs} {SS : SortSlice} {AJ : AdminJson} {J : ConnectorJson}.

(** ** The system *)

(** The controllers that [main] hands to the manager. *)
Definition controllers : list registration :=
  [HStreamDBReconciler_SetupWithManager; ConnectorReconciler_SetupWithManager;
   ConnectorTemplateReconciler_SetupWithManager].

Inductive fleet_step (P : event -> Prop) : world -> world -> Prop :=
| fleet_env s s' ps :
    env_step s s' -> harmless_store s' ->
    fleet_step P {| w_store := s; w_passes := ps |} {| w_store := s'; w_passes := ps |}
| fleet_start s ps r req :
    r ∈ controllers ->
    fleet_step P {| w_store := s; w_passes := ps |} {| w_store := s; w_passes := reg_Reconcile r req :: ps |}
| fleet_call s s' ps1 ps2 c k r :
    serves s (Ev c r) s' -> P (Ev c r) ->
    fleet_step P {| w_store := s; w_passes := ps1 ++ Do c k :: ps2 |} {| w_store := s'; w_passes := ps1 ++ k r :: ps2 |}
| fleet_end s ps1 ps2 p :
    fleet_step P {| w_store := s; w_passes := ps1 ++ p :: ps2 |} {| w_store := s; w_passes := ps1 ++ ps2 |}.

Inductive fleet_reachable : world -> Prop :=
| fleet_init s : env_step empty_store s -> harmless_store s -> fleet_reachable {| w_store := s; w_passes := [] |}
| fleet_next w w' : fleet_reachable w -> fleet_step (fun _ => True) w w' -> fleet_reachable w'.

(** ** What the connector controllers may do *)

(** They create config maps with one entry, and deployments whose selector matches the pods, under
    keys of which [K] holds; a created object is controlled by a connector or a template. *)
Definition controlled (m : ObjectMeta) : Prop :=
  exists r, r ∈ elems (meta_OwnerReferences m) /\ owner_Controller r = true.

Definition connector_call (K : Kind * NamespacedName -> Prop) (c : call) : Prop :=
  match c with
  | CGet _ _ | CSetOwner _ _ => True
  | CCreate (OConfigMap cm) =>
      K (KConfigMap, ObjectKey (cm_Meta cm)) /\ size (entries (cm_Data cm)) <= 1 /\ controlled (cm_Meta cm)
  | CCreate (ODeployment d) =>
      K (KDeployment, ObjectKey (dep_Meta d)) /\
      dep_Selector (dep_Spec d) = meta_Labels (tpl_Meta (dep_Template (dep_Spec d))) /\ controlled (dep_Meta d)
  | _ => False
  end.

(** A connector that is read under a key meets [C]. *)
Definition connector_answer (C : NamespacedName -> Connector -> Prop) (e : event) : Prop :=
  match e with
  | Ev c r =>
      match c return resp c -> Prop with
      | CGet k nn =>
          match k return go_error + obj_of k -> Prop with
          | KConnector => fun r => forall con, r = inr con -> C nn con
          | _ => fun _ => True
          end
      | CSetOwner owner _ => fun r => forall refs, r = inr refs -> owned_by owner refs
      | _ => fun _ => True
      end r
  end.

(** ** Lemmas *)

(** A harmless stream's deployment is nobody's component. *)
Lemma harmless_name name stream n ct :
  harmless_stream stream -> GenConnectorDeploymentName name stream <> component_name n ct.
Proof.
  intros Hs H. unfold GenConnectorDeploymentName, component_name in H.
  set (t := Replace stream underscore dash) in *. change ("-hc-" +:+ t) with ("-hc" +:+ ("-" +:+ t)) in H.
  rewrite <-string_app_assoc in H.
  apply string_app_split in H as (u & [[_ H]|[Heq H]]); [by apply (Hs ct u)|].
  destruct u as [|a u]; [by apply (Hs ct "")|].
  assert (String a u = "-admin") as Hu.
  { clear -H. destruct ct; simpl in H; injection H as <- H;
      repeat (destruct u as [|? u]; simpl in H; [try done|first [discriminate H|injection H as <- H]; try done]). }
  rewrite Hu in Heq. apply string_app_split in Heq as (v & [[_ Hv]|[_ Hv]]); clear -Hv;
    repeat (destruct v as [|? v]; simpl in Hv; [done|first [discriminate Hv|injection Hv as ? Hv]; try done]).
Qed.

(** *** The passes of the connector controllers *)

Section Passes.
Context (C : NamespacedName -> Connector -> Prop) (K : Kind * NamespacedName -> Prop).

Abbreviation rgc p := (rg (connector_answer C) (connector_call K) p).

(** The keys of a connector's streams. *)
Definition streams_in (con : Connector) (streams : list string) : Prop :=
  forall stream, stream ∈ streams -> K (KConfigMap, stream_key con stream) /\ K (KDeployment, stream_key con stream).

Lemma rgc_createOwned owner meta (obj : ObjectMeta -> kobj) :
  (forall refs, owned_by owner refs -> connector_call K (CCreate (obj (meta_set_OwnerReferences refs meta)))) ->
  rgc (createOwned owner meta obj) (fun _ => True).
Proof. intros H. split; [done|]. intros [err|refs] Ho; [done|]. cbn [prog_bind]. split; [|done]. by apply H, Ho. Qed.

Lemma rgc_config_map owner nn key value :
  K (KConfigMap, nn) -> rgc (createOwned owner (config_map_meta nn) (config_map {[key := value]})) (fun _ => True).
Proof.
  intros Hnn. apply rgc_createOwned. intros refs (r & Hr & _ & Hc). split; [by destruct nn|]. split; [|by exists r].
  change (size ({[key := value]} : gmap string string) <= 1). by rewrite map_size_singleton.
Qed.

Lemma rgc_loop con todo : streams_in con todo.*1 -> rgc (connector_loop con todo) (fun _ => True).
Proof.
  revert con. induction todo as [|[stream config] todo IH]; intros con Hk; [done|]. cbn [connector_loop].
  destruct (Hk stream) as [Hcm Hdep]; [left|].
  assert (streams_in con todo.*1) as Hk' by (intros st Hst; apply Hk; by right).
  split; [done|]. intros [err|cm] _; cbn [prog_bind]; [|by apply IH]. destruct (negb _); [done|].
  apply rg_any; [by apply rgc_config_map|]. intros [err'|]; [done|].
  eapply (rg_bind _ _ _ _ (fun r => con_Meta (snd r) = con_Meta con)).
  - unfold createConnectorDeployment. apply rg_any; [|done]. apply rgc_createOwned.
    intros refs (r & Hr & _ & Hc). split; [|split; [done|by exists r]].
    unfold stream_key in Hdep. by rewrite <-deployment_name in Hdep.
  - intros [[err'|] con'] Hm; [done|]. apply IH. intros st Hst. unfold stream_key, con_Name, con_Namespace.
    simpl in Hm. rewrite Hm. by apply Hk'.
Qed.

Lemma rgc_connector req :
  (forall con, C req con -> streams_in con (elems (con_Streams (con_Spec con)))) ->
  rgc (ConnectorReconciler_Reconcile req) (fun _ => True).
Proof.
  intros HC. unfold ConnectorReconciler_Reconcile. split; [done|]. intros [err|con] Hr; cbn [prog_bind]; [done|].
  destruct (meta_Deleted _); [done|]. apply rg_any.
  { split; [done|]. intros [err|cm] _; cbn [prog_bind]; [done|]. by destruct (unmarshal_config _). }
  intros [err|configs]; [done|]. apply rgc_loop. specialize (HC con (Hr con eq_refl)).
  intros st ([st' config] & -> & Hin)%list_elem_of_fmap. apply HC. by eapply elem_of_zip_l.
Qed.

Lemma rgc_template req :
  K (KConfigMap, template_key (nn_Namespace req) (nn_Name req)) ->
  rgc (ConnectorTemplateReconciler_Reconcile req) (fun _ => True).
Proof.
  intros Hk. unfold ConnectorTemplateReconciler_Reconcile. split; [done|]. intros [err|t] _; cbn [prog_bind]; [done|].
  destruct (meta_Deleted _); [done|]. split; [done|]. intros [err|cm] _; cbn [prog_bind]; [|done].
  destruct (negb _); [done|]. apply rg_any; [by apply rgc_config_map|done].
Qed.

End Passes.

(** ** Invariants *)

(** The key is not that of the deployment of a component. *)
Definition no_component (key : Kind * NamespacedName) : Prop :=
  fst key = KDeployment -> forall name ct, nn_Name (snd key) <> component_name name ct.

Lemma harmless_streams con : harmless_connector con -> streams_in no_component con (elems (con_Streams (con_Spec con))).
Proof.
  intros Hc stream Hin. split; intros Hk; [done|]. intros name ct. cbn [snd stream_key nn_Name].
  rewrite <-deployment_name. apply harmless_name. unfold harmless_connector in Hc. rewrite Forall_forall in Hc. by apply Hc.
Qed.

Abbreviation connector_pass p := (guarantees (connector_answer (fun _ => harmless_connector)) (connector_call no_component) p).

Definition fleet_ok (shards : NamespacedName -> option Z) (p : prog Result) : Prop :=
  pass_ok shards p \/ connector_pass p.

Lemma controllers_ok shards r req :
  (forall q N, shards q = Some N -> int32_ok N) -> r ∈ controllers -> fleet_ok shards (reg_Reconcile r req).
Proof.
  intros HN Hr. unfold controllers in Hr. rewrite !elem_of_cons in Hr.
  destruct Hr as [->|[->|[->|[]%elem_of_nil]]]; [left|right..].
  - exists req. apply rg_Reconcile. apply HN.
  - apply rgc_connector, harmless_streams.
  - by apply rgc_template.
Qed.

Lemma served_con s s' c r : serves s (Ev c r) s' -> st_con s' = st_con s.
Proof.
  unfold serves. cbn [ev_call ev_resp]. intros Hserved.
  assert (forall o, creates o s s' \/ updates o s s' -> st_con s' = st_con s) as Hput.
  { by intros o [(_ & o' & _ & ->)|(_ & o' & _ & ->)]. }
  destruct c as [k nn|o|o|h|owner m| | | | | | | |]; simpl in Hserved;
    try (by subst s'); try (by destruct Hserved as [-> _]).
  - destruct r; [destruct Hserved as [->|]|]; eauto.
  - destruct r; [destruct Hserved as [->|]|]; eauto.
  - by destruct r; [destruct Hserved as [->|(h' & old & _ & _ & ->)]|destruct Hserved as (old & _ & _ & ->)].
Qed.

Lemma served_connector s s' c r :
  store_ok s -> harmless_store s -> serves s (Ev c r) s' -> connector_call no_component c ->
  store_ok s' /\ connector_answer (fun _ => harmless_connector) (Ev c r) /\
  forall nn cm, st_cm s !! nn = Some cm -> st_cm s' !! nn = Some cm.
Proof.
  unfold serves. cbn [ev_call ev_resp]. intros Hs Hh Hserved Hc.
  destruct c as [k nn|o|o|h|owner m| | | | | | | |]; simpl in Hserved; try done.
  - destruct Hserved as [-> Hr]. split_and!; [done| |done]. destruct k; simpl; try done.
    intros con ->. by eapply Hh.
  - assert (creates o s s' -> store_ok s') as Hcreate.
    { intros (_ & o' & (Hk & _ & _ & _ & Ho) & ->). destruct o as [x|x|x|x], o' as [y|y|y|y]; try done; simpl in *.
      - destruct Hc as (Hname & _ & _). specialize (Hname eq_refl). destruct Hs as [H1 H2 H3 H4 H5]. split; try done. simpl. intros nn z.
        rewrite lookup_insert_Some. intros [[<- <-]|[_ Hz]]; [|by apply H3]. split; [done|].
        intros name ct Hn. rewrite Hk in Hn. by destruct (Hname name ct).
      - destruct Hs as [H1 H2 H3 H4 H5]. split; try done. simpl. intros nn z.
        rewrite lookup_insert_Some. intros [[<- <-]|[_ Hz]]; [done|by apply H5]. }
    assert (s' = s \/ creates o s s') as [->|Hcr] by (destruct r; tauto); [done|].
    split_and!; [auto|done|]. intros nn cm. by apply creates_keeps_cm with o.
  - destruct Hserved as [-> Hr]. split_and!; [done| |done]. by intros refs ->.
Qed.

Lemma fleet_step_ok P shards w w' :
  (forall req N, shards req = Some N -> int32_ok N) ->
  (forall req err, P (Ev (CGet KConfigMap (nshards_key req)) (inl err)) -> shards req = None) ->
  fleet_step P w w' ->
  store_ok (w_store w) /\ harmless_store (w_store w) /\ Forall (fleet_ok shards) (w_passes w) /\
    (forall req, shards_stored (w_store w) req (shards req)) ->
  store_ok (w_store w') /\ harmless_store (w_store w') /\ Forall (fleet_ok shards) (w_passes w') /\
    (forall req, shards_stored (w_store w') req (shards req)).
Proof.
  intros HN HP Hstep (Hs & Hh & Hp & Hsh).
  destruct Hstep as [s s' ps He Hh'|s ps r req Hr|s s' ps1 ps2 c k r Hserved HPe|s ps1 ps2 p]; cbn [w_store w_passes] in *.
  - split_and!; [by eapply env_step_ok|done|done|]. intros req N HreqN. destruct (Hsh req N HreqN) as (cm & Hcm & Hd).
    destruct (env_nshards _ _ He _ _ _ Hcm) as (cm' & Hcm' & Hd'). exists cm'. split; [done|]. by rewrite Hd'.
  - split_and!; [done|done| |done]. constructor; [by apply controllers_ok|done].
  - apply Forall_app in Hp as [Hp1 [Hpc Hp2]%Forall_cons].
    assert (harmless_store s') as Hh'. { unfold harmless_store. by rewrite (served_con _ _ _ _ Hserved). }
    assert (store_ok s' /\ fleet_ok shards (k r) /\
      forall nn cm, st_cm s !! nn = Some cm -> st_cm s' !! nn = Some cm) as (Hs' & Hk & Hcm).
    { destruct Hpc as [[req [Hc Hk]]|[Hc Hk]].
      - split_and!; [by eapply served_ok| |by intros nn cm; eapply served_keeps_cm].
        left. exists req. apply Hk. eapply served_answered; [done|done|apply Hsh|].
        destruct (shards req) as [N|] eqn:E; [left|by right]. intros err Heq. rewrite Heq in HPe.
        apply HP in HPe. congruence.
      - destruct (served_connector _ _ _ _ Hs Hh Hserved Hc) as (Hs' & Ha & Hcm). split_and!; [done| |done].
        right. by apply Hk. }
    split_and!; [done|done|apply Forall_app; by split; [|constructor]|].
    intros req N HreqN. destruct (Hsh req N HreqN) as (cm & Hcm' & Hd). exists cm. auto.
  - split_and!; [done|done| |done]. apply Forall_app in Hp as [Hp1 [_ Hp2]%Forall_cons]. by apply Forall_app.
Qed.

Lemma fleet_reachable_ok w :
  fleet_reachable w -> store_ok (w_store w) /\ Forall (fleet_ok (fun _ => None)) (w_passes w).
Proof.
  intros H. assert (store_ok (w_store w) /\ harmless_store (w_store w) /\ Forall (fleet_ok (fun _ => None)) (w_passes w) /\
    forall req, shards_stored (w_store w) req None) as (? & _ & ? & _); [|done].
  induction H as [s Hs Hh|w w' _ IH Hstep]; [|by eapply fleet_step_ok].
  split_and!; [by apply initial_ok|done|constructor|done].
Qed.

Lemma fleet_pending shards w c : Forall (fleet_ok shards) (w_passes w) -> pending w c ->
  (exists req, pass_call req (shards req) c) \/ connector_call no_component c.
Proof.
  intros Hp [k Hin]. rewrite Forall_forall in Hp. destruct (Hp _ Hin) as [[req [Hc _]]|[Hc _]]; [left; by exists req|by right].
Qed.

(** The first half of [wired]: the selector of a workload matches its pods. *)
Definition matches (o : kobj) : Prop :=
  match o with
  | OStatefulSet x => sts_Selector (sts_Spec x) = meta_Labels (tpl_Meta (sts_Template (sts_Spec x)))
  | ODeployment x => dep_Selector (dep_Spec x) = meta_Labels (tpl_Meta (dep_Template (dep_Spec x)))
  | _ => True
  end.

Lemma wired_matches s o : wired s o -> matches o.
Proof. by destruct o; [intros []|intros []|..]. Qed.

(** *** Properties *)

(** C7: the number of shards is fixed for the life of the cluster: once it is stored, and from a
    moment at which no pass is running, every storage node that any later pass is about to create
    or update mounts exactly that many shards, whatever number users have put into the spec since
    and whatever the three controllers do for other resources, and the stored number itself stays.
    The one exception the code makes is a pass whose read of the stored number fails. Of the other
    clients this assumes that they leave the config map with the number alone ([env_step]), and that
    at the start and after each of their steps no stream of a connector is named like a component. *)
Theorem fleet_shards_fixed req N s w' :
  int32_ok N -> store_ok s -> harmless_store s -> shards_stored s req (Some N) ->
  rtc (fleet_step (fun e => forall err, e <> Ev (CGet KConfigMap (nshards_key req)) (inl err)))
    {| w_store := s; w_passes := [] |} w' ->
  shards_stored (w_store w') req (Some N) /\
  forall x, pending w' (CCreate (OStatefulSet x)) \/ pending w' (CUpdate (OStatefulSet x)) ->
    ObjectKey (sts_Meta x) =
      {| nn_Namespace := nn_Namespace req; nn_Name := component_name (nn_Name req) ComponentTypeHStore |} ->
    mounts_shards req N x.
Proof.
  intros HN Hs Hh Hsh Hrtc. set (shards r := if decide (r = req) then Some N else None).
  assert (Hreq : shards req = Some N) by (unfold shards; by rewrite decide_True).
  assert (Forall (fleet_ok shards) (w_passes w') /\ forall r, shards_stored (w_store w') r (shards r)) as [Hp Hst].
  { cut (store_ok (w_store w') /\ harmless_store (w_store w') /\ Forall (fleet_ok shards) (w_passes w') /\
      forall r, shards_stored (w_store w') r (shards r)); [tauto|].
    eapply (rtc_ind_r (fun w => store_ok (w_store w) /\ harmless_store (w_store w) /\ Forall (fleet_ok shards) (w_passes w) /\
      forall r, shards_stored (w_store w) r (shards r))); [| |exact Hrtc].
    - split_and!; [done|done|constructor|]. intros r n Hn. unfold shards in Hn. case_decide; naive_solver.
    - intros w1 w2 _ Hstep IH. eapply fleet_step_ok; [| |exact Hstep|exact IH].
      + intros r n. unfold shards. case_decide; naive_solver.
      + intros r err HP. unfold shards. rewrite decide_False; [done|]. intros ->. by apply (HP err). }
  split; [rewrite <-Hreq; apply Hst|]. intros x Hpend Hkey. apply hstore_shards_mounts.
  assert (exists r, in_cluster r (shards r) (OStatefulSet x)) as [r Hin].
  { destruct Hpend as [[[r Hc]|Hc]%(fleet_pending _ _ _ Hp)|[[r Hc]|Hc]%(fleet_pending _ _ _ Hp)];
      try done; exists r; apply Hc. }
  rewrite <-Hreq. by eapply in_cluster_hstore.
Qed.

(** C35: a stream that is named like a component takes the place of that component in the cluster
    called [<connector>-hc]: the deployment of the stream has the very key of the component's
    deployment; a pass for the cluster finds it there and, whatever it builds for the component, the
    update it then makes changes the selector, which the server rejects. *)
Theorem stream_takes_component hdb con stream ct configMapName d :
  hdb_Namespace hdb = con_Namespace con -> hdb_Name hdb = con_Name con +:+ "-hc" ->
  Replace stream underscore dash = ct_string ct -> built_dep hdb ct d ->
  let taken := connector_deployment con stream configMapName in
  ObjectKey (dep_Meta taken) = ObjectKey (dep_Meta d) /\
  forall s, st_dep s !! ObjectKey (dep_Meta d) = Some taken ->
    ~ acceptable s (ODeployment (copy_dep_spec d taken)).
Proof.
  intros Hns Hname Hstream (Hk & Hsel & _) taken.
  assert (ObjectKey (dep_Meta taken) = ObjectKey (dep_Meta d)) as Hkey.
  { rewrite Hk, Hns. change (ObjectKey (dep_Meta taken)) with
      {| nn_Namespace := con_Namespace con; nn_Name := GenConnectorDeploymentName (con_Name con) stream |}.
    unfold GetResName, GenConnectorDeploymentName. by rewrite Hname, Hstream, string_app_assoc. }
  split; [done|]. intros s Hs [_ Hid]. specialize (Hid taken).
  change (dep_Meta (copy_dep_spec d taken)) with (copy_meta (dep_Meta d) (dep_Meta taken)) in Hid.
  rewrite copy_meta_key, Hkey in Hid. specialize (Hid Hs).
  unfold dep_identity, dep_canonical in *. change (dep_Spec (copy_dep_spec d taken)) with (dep_Spec d) in Hid.
  rewrite Hsel in Hid. apply (f_equal (fun m => mstr m ComponentKey)) in Hid.
  change (dep_Selector (dep_Spec taken)) with (stream_labels con stream) in Hid.
  unfold component_labels, stream_labels, connector_labels in Hid.
  rewrite !mstr_Some, lookup_insert_eq, lookup_insert_ne, lookup_insert_eq in Hid by done.
  by destruct ct.
Qed.

(** A stream [nshards] takes the place of the config map with the number of shards of the cluster
    called [<connector>-hc]. A pass for the cluster finds the stream's map and stores none of its
    own; the map holds the configuration of the stream, which is no number, so from then on the
    storage nodes get the number of the spec of the day, and 0 when the spec has none. *)
Theorem stream_takes_shards hdb con stream config cm :
  hdb_Namespace hdb = con_Namespace con -> hdb_Name hdb = con_Name con +:+ "-hc" ->
  Replace stream underscore dash = "nshards" -> stream_map con stream config cm ->
  Forall (fun kv => Atoi (snd kv) = None) (map_to_list (entries (cm_Data cm))) ->
  ObjectKey (cm_Meta cm) = GetNShardsConfigMapNamespacedName hdb /\
  (forall s o tr s', st_cm s !! ObjectKey (cm_Meta cm) = Some cm ->
     forall wx, run (ideal wx) (ensureNShards hdb) s = (o, tr, s') -> o = Done None /\ writes tr = []) /\
  (forall tr n, exec (addHStore.getNShardFromExistingConfigMap hdb)
       (Ev (CGet KConfigMap (GetNShardsConfigMapNamespacedName hdb)) (inr cm) :: tr) (Done n) ->
     n = cfg_NShards (spec_Config (hdb_Spec hdb))).
Proof.
  intros Hns Hname Hstream [Hk _] Hdata.
  assert (ObjectKey (cm_Meta cm) = GetNShardsConfigMapNamespacedName hdb) as Hkey.
  { rewrite Hk. unfold GetNShardsConfigMapNamespacedName, GenConnectorConfigMapNameForStream, GenConnectorConfigMapName.
    by rewrite Hns, Hname, Hstream, !string_app_assoc. }
  split; [done|]. split.
  - intros s o tr s' Hs wx. unfold ensureNShards. cbn [prog_bind kube_Get run ideal objs obj_of].
    rewrite Hkey in Hs. rewrite Hs. cbn [prog_bind run]. by intros [= <- <- _].
  - intros tr n (r & tr' & Heq & H). pose proof (f_equal head Heq) as He. apply Some_inj in He. apply Ev_get_inj in He as [_ <-].
    cbn [prog_bind] in H. unfold range_map in H. cbn [prog_bind range_order] in H.
    destruct H as (code & tr2 & _ & _ & [= ->]).
    assert (forall l, Forall (fun kv : string * string => Atoi (snd kv) = None) l ->
      forall z, foldl read_nshard z l = z) as Hfold.
    { induction 1 as [|kv l Hkv _ IH]; intros z; [done|]. cbn [foldl]. rewrite IH. unfold read_nshard. by rewrite Hkv. }
    apply Hfold. by rewrite permute_Permutation.
Qed.

End Fleet.
