(* ===== verification/Claims.v ===== *)
(** * Updates and the claims of the stateful sets

    The server rejects an update that changes the identity of a stateful set: its wiring, which the
    invariants of [Fleet] fix by the name of the set, and its volume claims, which come from the
    spec of the day on which the set was created. A pass that updates a set therefore has to keep
    the claims that it has read, and here it is shown that it does, beside any other pass, as long
    as the set it has read has not been deleted in between. *)
From S2P Require Import Prelude GoStrings KubeTypes ApiTypes Effects RelyGuarantee Conditions FlagSet Naming Constants Merge Requeue Workload LogDevice Services Admin HMeta AdminServer HStore HServer Gateway Console Bootstrap Server Status Controller Passes Footprint Operator Ideal Connector Main Fleet.

Section Claims.
Context {KL : KubeLib} {G : Gabs} {SS : SortSlice} {AJ : AdminJson} {J : ConnectorJson}.

(** ** One set *)

Section Key.
Variable key : NamespacedName.

(** A step of the fleet in which the set is not deleted. *)
Definition kept_step (w w' : world) : Prop :=
  fleet_step (fun _ => True) w w' /\
  (is_Some (st_sts (w_store w) !! key) -> is_Some (st_sts (w_store w') !! key)).

(** The rely condition: the set is read with the claims [c]; and what the passes of connectors
    rely on. *)
Definition claims_answer (c : slice PersistentVolumeClaim) (e : event) : Prop :=
  connector_answer (fun _ _ => True) e /\
  forall nn x, e = Ev (CGet KStatefulSet nn) (inr x) ->
    ObjectKey (sts_Meta x) = nn /\ (nn = key -> sts_VolumeClaimTemplates (sts_Spec x) = c).

(** The guarantee: every update of the set keeps them. *)
Definition claims_call (c : slice PersistentVolumeClaim) (q : call) : Prop :=
  match q with
  | CUpdate (OStatefulSet x) => ObjectKey (sts_Meta x) = key -> sts_VolumeClaimTemplates (sts_Spec x) = c
  | _ => True
  end.

Abbreviation claims_pass c p := (guarantees (claims_answer c) (claims_call c) p).

(** The set of the servers claims no volumes. *)
Definition claims_free (c : slice PersistentVolumeClaim) : Prop :=
  forall name, nn_Name key = component_name name ComponentTypeHServer -> c = None.

Lemma fields_keep_claims c desired existing :
  claims_answer c (Ev (CGet KStatefulSet (ObjectKey (sts_Meta desired))) (inr existing)) ->
  claims_call c (CUpdate (OStatefulSet (copy_sts_fields desired existing))).
Proof.
  intros [_ Ha] Hk. destruct (Ha _ _ eq_refl) as [Hx Hc]. apply Hc. rewrite <-Hx, <-Hk. symmetry. apply copy_meta_key.
Qed.

Lemma servers_claim_nothing c hdb desired existing :
  claims_free c -> addHServer.getSts hdb = Done desired ->
  claims_answer c (Ev (CGet KStatefulSet (ObjectKey (sts_Meta desired))) (inr existing)) ->
  claims_call c (CUpdate (OStatefulSet (copy_sts_spec desired existing))).
Proof.
  intros Hfree (Hk & (_ & _ & _ & Hnone) & _)%addHServer_built [_ Ha] Hkey.
  destruct (Ha _ _ eq_refl) as [Hx _]. simpl. rewrite (Hnone eq_refl). symmetry. apply (Hfree (hdb_Name hdb)).
  rewrite <-Hkey. change (nn_Name (ObjectKey (copy_meta (sts_Meta desired) (sts_Meta existing))) = component_name (hdb_Name hdb) ComponentTypeHServer).
  by rewrite copy_meta_key, Hx, Hk.
Qed.

Lemma Reconcile_claims c req : claims_free c -> claims_pass c (Reconcile (P := adminClientProvider) req).
Proof.
  intros Hfree. apply rg_Reconcile_keeps with (fun _ => True); try done.
  - by intros hdb [].
  - apply objects_walk.
    + by intros [| |[]| | | | | | | | | |].
    + apply fields_keep_claims.
    + intros hdb desired existing. by apply servers_claim_nothing.
Qed.

(** The passes of connectors and templates update nothing. *)
Lemma connector_claims c (p : prog Result) :
  guarantees (connector_answer (fun _ _ => True)) (connector_call (fun _ => True)) p -> claims_pass c p.
Proof. intros Hp. eapply rg_mono; [exact Hp|by intros e []|by intros [| |[]| | | | | | | | | |]|done]. Qed.

Lemma controllers_claims c r req : claims_free c -> r ∈ controllers -> claims_pass c (reg_Reconcile r req).
Proof.
  intros Hfree Hr. unfold controllers in Hr. rewrite !elem_of_cons in Hr.
  destruct Hr as [->|[->|[->|[]%elem_of_nil]]].
  - by apply Reconcile_claims.
  - by apply connector_claims, rgc_connector.
  - by apply connector_claims, rgc_template.
Qed.

(** ** The invariant

    While the set is absent, no pass has read it, whatever claims it will be created with; once it
    is there, no pass has read it with other claims. *)
Definition claims_inv (w : world) : Prop :=
  match st_sts (w_store w) !! key with
  | Some x => Forall (fun p => claims_pass (sts_VolumeClaimTemplates (sts_Spec x)) p) (w_passes w)
  | None => forall c, claims_free c -> Forall (fun p => claims_pass c p) (w_passes w)
  end.

(** The claims the invariant speaks of. *)
Definition stored_claims (s : store) (c : slice PersistentVolumeClaim) : Prop :=
  match st_sts s !! key with Some x => sts_VolumeClaimTemplates (sts_Spec x) = c | None => claims_free c end.

Lemma claims_inv_alt w : claims_inv w <->
  forall c, stored_claims (w_store w) c -> Forall (fun p => claims_pass c p) (w_passes w).
Proof. unfold claims_inv, stored_claims. destruct (st_sts _ !! _); naive_solver. Qed.

Lemma stored_claims_free s c : store_ok s -> stored_claims s c -> claims_free c.
Proof.
  unfold stored_claims. intros Hs. destruct (st_sts s !! key) as [x|] eqn:E; [|done]. intros <- name Hname.
  destruct (ok_sts _ Hs _ _ E) as [_ Hc]. by apply (Hc name ComponentTypeHServer Hname).
Qed.

(** A change of the store that invents no claims: a set that stays keeps its own. *)
Definition claims_stay (s s' : store) : Prop :=
  forall x x', st_sts s !! key = Some x -> st_sts s' !! key = Some x' ->
    sts_VolumeClaimTemplates (sts_Spec x') = sts_VolumeClaimTemplates (sts_Spec x).

Lemma stored_claims_back s s' c :
  store_ok s' -> (is_Some (st_sts s !! key) -> is_Some (st_sts s' !! key)) -> claims_stay s s' ->
  stored_claims s' c -> stored_claims s c.
Proof.
  intros Hs' Hkept Hstay Hc. pose proof (stored_claims_free _ _ Hs' Hc) as Hfree. unfold stored_claims in *.
  destruct (st_sts s !! key) as [x|] eqn:E; [|done]. destruct (Hkept ltac:(eauto)) as [x' E'].
  rewrite E' in Hc. rewrite <-Hc. symmetry. by apply Hstay.
Qed.

Lemma env_claims_stay s s' :
  (exists name ct, nn_Name key = component_name name ct) -> env_step s s' -> claims_stay s s'.
Proof.
  intros (name & ct & Hname) He x x' Hx Hx'. destruct (env_sts _ _ He _ _ Hx') as [_ [(x0 & H0 & _ & Hc)|Hn]].
  - rewrite Hx in H0. by injection H0 as ->.
  - by destruct (Hn name ct).
Qed.

Lemma served_claims_stay s s' q r c :
  store_ok s -> serves s (Ev q r) s' -> stored_claims s c -> claims_call c q -> claims_stay s s'.
Proof.
  intros Hs Hserved Hc Hq x x' Hx Hx'.
  assert (st_sts s' = st_sts s -> sts_VolumeClaimTemplates (sts_Spec x') = sts_VolumeClaimTemplates (sts_Spec x)) as Hsame.
  { intros Heq. rewrite Heq, Hx in Hx'. by injection Hx' as ->. }
  unfold stored_claims in Hc. rewrite Hx in Hc.
  assert (forall o, q = CCreate o \/ q = CUpdate o -> (q = CCreate o -> creates o s s') -> (q = CUpdate o -> updates o s s') ->
    sts_VolumeClaimTemplates (sts_Spec x') = sts_VolumeClaimTemplates (sts_Spec x)) as Hput.
  { intros o [-> | ->] Hcr Hup.
    - destruct (Hcr eq_refl) as (Hn & o' & (Hk & _ & _ & _ & Ho) & ->). destruct o as [y|y|y|y], o' as [z|z|z|z]; try done; auto.
      simpl in Hk, Hx'. rewrite lookup_insert_Some in Hx'. destruct Hx' as [[Hz _]|[_ Hx']]; [|by rewrite Hx in Hx'; injection Hx' as ->].
      destruct Hn. simpl. rewrite <-Hk, Hz. eauto.
    - destruct (Hup eq_refl) as (_ & o' & (Hk & _ & _ & _ & Ho) & ->). destruct o as [y|y|y|y], o' as [z|z|z|z]; try done; auto.
      simpl in Hk, Hx', Hq, Ho. rewrite lookup_insert_Some in Hx'.
      destruct Hx' as [[Hz <-]|[_ Hx']]; [|by rewrite Hx in Hx'; injection Hx' as ->].
      destruct Ho as [_ Ho]. rewrite Ho, Hc. apply Hq. by rewrite <-Hk. }
  unfold serves in Hserved. cbn [ev_call ev_resp] in Hserved.
  destruct q as [k nn|o|o|h|owner m| | | | | | | |]; simpl in Hserved;
    try (by apply Hsame; subst s'); try (by apply Hsame; destruct Hserved as [-> _]).
  - assert (s' = s \/ creates o s s') as [->|?] by (destruct r; tauto); [by apply Hsame|]. by eapply (Hput o); [left|..].
  - assert (s' = s \/ updates o s s') as [->|?] by (destruct r; tauto); [by apply Hsame|]. by eapply (Hput o); [right|..].
  - apply Hsame. by destruct r; [destruct Hserved as [->|(h' & old & _ & _ & ->)]|destruct Hserved as (old & _ & _ & ->)].
Qed.

(** The server's answers meet the rely condition. *)
Lemma served_claims s s' q r c : store_ok s -> serves s (Ev q r) s' -> stored_claims s c -> claims_answer c (Ev q r).
Proof.
  intros Hs Hserved Hc. split.
  - unfold serves in Hserved. cbn [ev_call ev_resp] in Hserved.
    destruct q as [k nn|o|o|h|owner m| | | | | | | |]; try done; [by destruct k|].
    destruct Hserved as [_ Hr]. by intros refs ->.
  - intros nn x Heq. assert (serves s (Ev (CGet KStatefulSet nn) (inr x)) s') as [_ Hx] by by rewrite <-Heq.
    simpl in Hx. split; [by apply (ok_sts _ Hs)|]. intros ->. unfold stored_claims in Hc. by rewrite Hx in Hc.
Qed.

Lemma claims_inv_step w w' :
  (exists name ct, nn_Name key = component_name name ct) ->
  store_ok (w_store w) -> store_ok (w_store w') -> kept_step w w' -> claims_inv w -> claims_inv w'.
Proof.
  intros Hname Hs Hs' [Hstep Hkept]. rewrite !claims_inv_alt. intros Hinv c Hc.
  destruct Hstep as [s s' ps He Hh|s ps r req Hr|s s' ps1 ps2 q k r Hserved _|s ps1 ps2 p]; cbn [w_store w_passes] in *.
  - apply Hinv. eapply stored_claims_back; [exact Hs'|exact Hkept|by apply env_claims_stay|exact Hc].
  - constructor; [|by apply Hinv]. apply controllers_claims; [|done]. by apply (stored_claims_free s).
  - assert (stored_claims s c) as Hc0.
    { eapply stored_claims_back; [exact Hs'|exact Hkept| |exact Hc]. intros x x' Hx Hx'.
      assert (stored_claims s (sts_VolumeClaimTemplates (sts_Spec x))) as Hcx by (unfold stored_claims; by rewrite Hx).
      specialize (Hinv _ Hcx). apply Forall_app in Hinv as [_ [[Hq _] _]%Forall_cons].
      by apply (served_claims_stay s s' q r _ Hs Hserved Hcx Hq). }
    specialize (Hinv c Hc0). apply Forall_app in Hinv as [H1 [[_ Hk] H2]%Forall_cons].
    apply Forall_app; split; [done|]. constructor; [|done]. apply Hk. by apply (served_claims s s').
  - specialize (Hinv c Hc). apply Forall_app in Hinv as [H1 [_ H2]%Forall_cons]. by apply Forall_app.
Qed.

Lemma kept_claims w0 w :
  (exists name ct, nn_Name key = component_name name ct) ->
  fleet_reachable w0 -> w_passes w0 = [] -> rtc kept_step w0 w -> claims_inv w.
Proof.
  intros Hname Hr H0 Hrtc. assert (claims_inv w0) as Hinv.
  { apply claims_inv_alt. intros c _. rewrite H0. constructor. }
  clear H0. induction Hrtc as [w|w0 w1 w Hstep _ IH]; [done|].
  assert (fleet_reachable w1) as Hr1 by (eapply fleet_next, Hstep; exact Hr). apply IH; [done|].
  apply (claims_inv_step w0 w1 Hname); [apply fleet_reachable_ok, Hr|apply fleet_reachable_ok, Hr1|done|done].
Qed.

End Key.

(** An update that is pending keeps the claims of the stored set. *)
Lemma kept_acceptable w o :
  wired (w_store w) o -> pending w (CUpdate o) -> claims_inv (ObjectKey (kobj_meta o)) w -> acceptable (w_store w) o.
Proof.
  intros Hw [k Hin] Hinv. destruct o as [x|x|x|x]; [|exact Hw..]. destruct Hw as [Hsel Hold]. split; [exact Hsel|].
  intros old Hs. split; [by apply Hold|]. unfold claims_inv in Hinv. cbn [kobj_meta] in Hinv. rewrite Hs in Hinv.
  rewrite Forall_forall in Hinv. by apply (Hinv _ Hin).
Qed.

(** *** Properties *)


End Claims.
