(* ===== verification/Access.v ===== *)
(** * What the operator may ask of the server

    The API groups and their registration ([src/api/v1alpha2/groupversion_info.go],
    [src/api/v1beta1/groupversion_info.go] and the [init] functions of the types and of
    [src/cmd/main.go]), the [+kubebuilder:rbac] markers of the controllers and of [main], and the
    two roles that are deployed from them: [src/config/rbac/role.yaml], which is generated from the
    markers, and the one of the Helm chart,
    [src/deploy/charts/hstream-operator/templates/rbac.yaml], which is written by hand. *)
From S2P Require Import Prelude GoStrings KubeTypes ApiTypes Effects RelyGuarantee Conditions FlagSet Naming Constants Merge Requeue Workload LogDevice Services Admin HMeta AdminServer HStore HServer Gateway Console Bootstrap Server Status Controller Passes Connector Main.

(** ** API groups *)

Record group_version := { gv_Group : string; gv_Version : string }.

#[export] Instance group_version_eq_dec : EqDecision group_version.
Proof. solve_decision. Defined.

Module v1alpha2.
Definition GroupVersion : group_version := {| gv_Group := "apps.hstream.io"; gv_Version := "v1alpha2" |}.
(** What [SchemeBuilder.Register] is given by the [init] function of the types. *)
Definition registered : list string := ["HStreamDB"; "HStreamDBList"].
End v1alpha2.

Module v1beta1.
Definition GroupVersion : group_version := {| gv_Group := "apps.hstream.io"; gv_Version := "v1beta1" |}.
Definition connector_init : list string := ["Connector"; "ConnectorList"].
Definition connectortemplate_init : list string := ["ConnectorTemplate"; "ConnectorTemplateList"].
Definition registered : list string := connector_init ++ connectortemplate_init.
End v1beta1.

(** A scheme: the kinds it knows. *)
Abbreviation scheme := (list (group_version * string)).

(** [SchemeBuilder.AddToScheme] *)
Definition AddToScheme (gv : group_version) (kinds : list string) (s : scheme) : scheme :=
  ((fun kind => (gv, kind)) <$> kinds) ++ s.

(** The scheme after [init] of [main]; [clientgoscheme] is that of the client library. *)
Definition init_scheme (clientgoscheme : scheme) : scheme :=
  AddToScheme v1beta1.GroupVersion v1beta1.registered
    (AddToScheme v1alpha2.GroupVersion v1alpha2.registered clientgoscheme).

Definition core_v1 : group_version := {| gv_Group := ""; gv_Version := "v1" |}.
Definition apps_v1 : group_version := {| gv_Group := "apps"; gv_Version := "v1" |}.

(** The Go type of an object, in a scheme. *)
Definition kind_gvk (k : Kind) : group_version * string :=
  match k with
  | KHStreamDB => (v1alpha2.GroupVersion, "HStreamDB")
  | KConnector => (v1beta1.GroupVersion, "Connector")
  | KConnectorTemplate => (v1beta1.GroupVersion, "ConnectorTemplate")
  | KStatefulSet => (apps_v1, "StatefulSet")
  | KDeployment => (apps_v1, "Deployment")
  | KService => (core_v1, "Service")
  | KConfigMap => (core_v1, "ConfigMap")
  end.

(** ** Rules *)

Record rule := { rule_groups : list string; rule_resources : list string; rule_verbs : list string }.

(** A request: the API group, the resource and the verb. *)
Abbreviation request := (string * string * string)%type.

Definition rule_grants (q : request) (r : rule) : bool :=
  let '(group, resource, verb) := q in
  bool_decide (group ∈ rule_groups r) && bool_decide (resource ∈ rule_resources r) && bool_decide (verb ∈ rule_verbs r).

Definition grants (rules : list rule) (q : request) : bool := existsb (rule_grants q) rules.

(** The marker [+kubebuilder:rbac:groups=group,resources=resource,verbs=verbs]. *)
Definition marker (group resource : string) (verbs : list string) : rule :=
  {| rule_groups := [group]; rule_resources := [resource]; rule_verbs := verbs |}.

Definition all_but_delete : list string := ["get"; "list"; "watch"; "create"; "update"; "patch"].
Definition all_verbs : list string := all_but_delete ++ ["delete"].

Definition main_markers : list rule :=
  [marker "" "configmaps" all_but_delete;
   marker "" "events" all_but_delete;
   marker "" "pods" all_but_delete;
   marker "" "pods/exec" all_but_delete;
   marker "" "services" all_but_delete;
   marker "" "services/proxy" ["get"; "list"; "create"; "update"; "patch"];
   marker "apps" "statefulsets" all_but_delete;
   marker "apps" "deployments" all_but_delete;
   marker "" "persistentvolumeclaims" all_but_delete].

Definition hstreamdb_markers : list rule :=
  [marker "apps.hstream.io" "hstreamdbs" all_verbs;
   marker "apps.hstream.io" "hstreamdbs/status" ["get"; "update"; "patch"];
   marker "apps.hstream.io" "hstreamdbs/finalizers" ["update"]].

Definition connector_markers : list rule :=
  [marker "apps.hstream.io" "connectors" all_verbs;
   marker "apps.hstream.io" "connectors/status" ["get"; "update"; "patch"];
   marker "apps.hstream.io" "connectors/finalizers" ["update"];
   marker "" "configmaps" ["get"; "create"; "update"; "patch"; "delete"];
   marker "" "deployments" ["create"; "update"; "patch"; "delete"]].

Definition connectortemplate_markers : list rule :=
  [marker "apps.hstream.io" "connectortemplates" all_verbs;
   marker "apps.hstream.io" "connectortemplates/status" ["get"; "update"; "patch"];
   marker "apps.hstream.io" "connectortemplates/finalizers" ["update"];
   marker "" "configmaps" ["get"; "create"; "update"; "patch"; "delete"]].

Definition markers : list rule := main_markers ++ hstreamdb_markers ++ connector_markers ++ connectortemplate_markers.

(** ** The deployed roles *)

Definition listed_all_but_delete : list string := ["create"; "get"; "list"; "patch"; "update"; "watch"].
Definition listed_all : list string := ["create"; "delete"; "get"; "list"; "patch"; "update"; "watch"].

Definition manager_role : list rule :=
  [marker "" "configmaps" listed_all;
   marker "" "deployments" ["create"; "delete"; "patch"; "update"];
   marker "" "events" listed_all_but_delete;
   marker "" "persistentvolumeclaims" listed_all_but_delete;
   marker "" "pods" listed_all_but_delete;
   marker "" "pods/exec" listed_all_but_delete;
   marker "" "services" listed_all_but_delete;
   marker "" "services/proxy" ["create"; "get"; "list"; "patch"; "update"];
   marker "apps" "deployments" listed_all_but_delete;
   marker "apps" "statefulsets" listed_all_but_delete;
   marker "apps.hstream.io" "connectors" listed_all;
   marker "apps.hstream.io" "connectors/finalizers" ["update"];
   marker "apps.hstream.io" "connectors/status" ["get"; "patch"; "update"];
   marker "apps.hstream.io" "connectortemplates" listed_all;
   marker "apps.hstream.io" "connectortemplates/finalizers" ["update"];
   marker "apps.hstream.io" "connectortemplates/status" ["get"; "patch"; "update"];
   marker "apps.hstream.io" "hstreamdbs" listed_all;
   marker "apps.hstream.io" "hstreamdbs/finalizers" ["update"];
   marker "apps.hstream.io" "hstreamdbs/status" ["get"; "patch"; "update"]].

Definition chart_role : list rule :=
  [marker "" "configmaps" listed_all_but_delete;
   marker "" "events" listed_all_but_delete;
   marker "" "persistentvolumeclaims" listed_all_but_delete;
   marker "" "pods" listed_all_but_delete;
   marker "" "pods/exec" listed_all_but_delete;
   marker "" "services" listed_all_but_delete;
   marker "" "services/proxy" ["create"; "get"; "list"; "patch"; "update"];
   marker "apps" "deployments" listed_all_but_delete;
   marker "apps" "statefulsets" listed_all_but_delete;
   {| rule_groups := ["apps.hstream.io"]; rule_resources := ["hstreamdbs"; "connectortemplates"; "connectors"];
      rule_verbs := listed_all |};
   marker "apps.hstream.io" "hstreamdbs/finalizers" ["update"];
   marker "apps.hstream.io" "hstreamdbs/status" ["get"; "patch"; "update"]].

(** ** Requests

    The client of the manager reads from a cache, which lists and watches the kinds that are read;
    an object read without its type is read directly. An owner reference that blocks the deletion
    of the owner needs [update] on the owner's finalizers on servers that enforce this; the server
    is asked when the object is created. Event recorders create and patch events. *)
Definition kind_resource (k : Kind) : string :=
  match k with
  | KHStreamDB => "hstreamdbs"
  | KConnector => "connectors"
  | KConnectorTemplate => "connectortemplates"
  | KStatefulSet => "statefulsets"
  | KDeployment => "deployments"
  | KService => "services"
  | KConfigMap => "configmaps"
  end.

Definition kind_group (k : Kind) : string := gv_Group (fst (kind_gvk k)).

Definition on_kind (k : Kind) (verb : string) : request := (kind_group k, kind_resource k, verb).

Definition requests (c : call) : list request :=
  match c with
  | CGet k _ => on_kind k <$> ["get"; "list"; "watch"]
  | CCreate o => [on_kind (kobj_kind o) "create"]
  | CUpdate o => [on_kind (kobj_kind o) "update"]
  | CStatusUpdate _ => [("apps.hstream.io", "hstreamdbs/status", "update")]
  | CEvent _ _ => [("", "events", "create"); ("", "events", "patch")]
  | CListPods _ _ => [("", "pods", "list")]
  | CStream _ _ _ => [("", "pods/exec", "create")]
  | CServiceProxy _ _ _ => [("", "services/proxy", "get")]
  | CSetOwner _ _ | CNow | CRange _ | CNewClientset | CNewExecutor _ _ => []
  end.

Definition authorised (rules : list rule) (c : call) : Prop := forallb (grants rules) (requests c) = true.

(** The requests of a controller's own: what its informers list and watch, and, for the objects it
    owns, the finalizers of their owner. *)
Definition watch_requests (r : registration) : list request :=
  (reg_For r :: reg_Owns r) ≫= fun k => [on_kind k "list"; on_kind k "watch"].

Definition owner_request (r : registration) : request :=
  (kind_group (reg_For r), kind_resource (reg_For r) +:+ "/finalizers", "update").

Section Access.
Context {KL : KubeLib} {G : Gabs} {SS : SortSlice} {AJ : AdminJson} {J : ConnectorJson}.

(** Each controller with the markers that are meant for it: its own, and those of [main]. *)
Definition granted : list (registration * list rule) :=
  [(HStreamDBReconciler_SetupWithManager, main_markers ++ hstreamdb_markers);
   (ConnectorReconciler_SetupWithManager, main_markers ++ connector_markers);
   (ConnectorTemplateReconciler_SetupWithManager, main_markers ++ connectortemplate_markers)].

(** ** Lemmas *)

(** *** Rules as sets of requests *)

Definition rule_requests (r : rule) : list request :=
  g ← rule_groups r; res ← rule_resources r; v ← rule_verbs r; [(g, res, v)].

Definition all_requests (rules : list rule) : list request := rules ≫= rule_requests.

Lemma rule_grants_elem q r : rule_grants q r = true <-> q ∈ rule_requests r.
Proof.
  destruct q as [[g res] v]. unfold rule_grants, rule_requests. rewrite !andb_true_iff, !bool_decide_eq_true. split.
  - intros [[Hg Hr] Hv]. apply list_elem_of_bind. exists g. split; [|done]. apply list_elem_of_bind. exists res.
    split; [|done]. apply list_elem_of_bind. exists v. split; [apply list_elem_of_here|done].
  - intros (g' & (res' & (v' & Hin & Hv)%list_elem_of_bind & Hr)%list_elem_of_bind & Hg)%list_elem_of_bind.
    apply list_elem_of_singleton in Hin. by injection Hin as -> -> ->.
Qed.

Lemma grants_elem rules q : grants rules q = true <-> q ∈ all_requests rules.
Proof.
  unfold grants, all_requests. rewrite existsb_exists, list_elem_of_bind. split; intros (r & H1 & H2); exists r.
  - split; [by apply rule_grants_elem|by apply list_elem_of_In].
  - split; [by apply list_elem_of_In|by apply rule_grants_elem].
Qed.

(** Rules that grant every request of a list. *)
Definition covers (rules : list rule) (qs : list request) : bool := forallb (grants rules) qs.

Lemma covers_grants rules rules' : covers rules (all_requests rules') = true ->
  forall q, grants rules' q = true -> grants rules q = true.
Proof. unfold covers. rewrite forallb_forall. intros H q Hq%grants_elem%list_elem_of_In. by apply H. Qed.

Lemma grants_same rules rules' :
  covers rules (all_requests rules') = true -> covers rules' (all_requests rules) = true ->
  forall q, grants rules q = grants rules' q.
Proof.
  intros H1 H2 q. apply eq_bool_prop_intro. split; intros Hq; apply Is_true_true in Hq; apply Is_true_true;
    by eapply covers_grants.
Qed.

(** *** The calls of the controllers *)

(** Calls that both the markers and the chart allow. *)
Definition allowed (rules : list rule) (c : call) : Prop := authorised rules c /\ authorised chart_role c.

Definition hstreamdb_rules : list rule := main_markers ++ hstreamdb_markers.

Abbreviation rga p := (guarantees (fun _ => True) (allowed hstreamdb_rules) p).

Lemma observes_allowed hdb c : observes hdb c -> allowed hstreamdb_rules c.
Proof.
  destruct c as [k nn| | | | | | | | | | | |]; try done. intros [_ Hk]. destruct k; try done; exfalso; set_solver.
Qed.

Lemma objects_allowed : keeps_objects (fun _ => True) (allowed hstreamdb_rules) (fun _ => True).
Proof.
  apply objects_walk; [|done..]. intros [k nn|[]|[]| | | | | | | | | |]; try done.
  destruct k; try done; intros Hk; exfalso; set_solver.
Qed.

Lemma Reconcile_allowed req : rga (Reconcile (P := adminClientProvider) req).
Proof. apply rg_Reconcile_keeps with (fun _ => True); try done. - intros hdb c _. apply observes_allowed. - apply objects_allowed. Qed.

(** *** Connectors and templates *)

Definition connector_rules : list rule := main_markers ++ connector_markers.
Definition connectortemplate_rules : list rule := main_markers ++ connectortemplate_markers.

Lemma createOwned_allowed rules owner meta (obj : ObjectMeta -> kobj) :
  (forall c, allowed rules (CSetOwner owner c)) -> (forall m, allowed rules (CCreate (obj m))) ->
  guarantees (fun _ => True) (allowed rules) (createOwned owner meta obj).
Proof. intros Hs Ho. split; [done|]. intros [err|refs] _; [done|]. cbn [prog_bind]. by split. Qed.

Lemma connector_allowed req : guarantees (fun _ => True) (allowed connector_rules) (ConnectorReconciler_Reconcile req).
Proof.
  unfold ConnectorReconciler_Reconcile. split; [done|]. intros [err|con] _; cbn [prog_bind]; [done|].
  destruct (meta_Deleted _); [done|]. apply rg_any.
  { split; [done|]. intros [err|cm] _; cbn [prog_bind]; [done|]. by destruct (unmarshal_config _). }
  intros [err|configs]; [done|]. generalize (zip (elems (con_Streams (con_Spec con))) configs). intros todo.
  revert con. induction todo as [|[stream config] todo IH]; intros con; [done|]. cbn [connector_loop].
  split; [done|]. intros [err|cm] _; cbn [prog_bind]; [|apply IH]. destruct (negb _); [done|].
  apply rg_any; [by apply createOwned_allowed|]. intros [err'|]; [done|]. apply rg_any.
  - unfold createConnectorDeployment. apply rg_any; [by apply createOwned_allowed|done].
  - intros [[err'|] con']; [done|]. apply IH.
Qed.

Lemma template_allowed req :
  guarantees (fun _ => True) (allowed connectortemplate_rules) (ConnectorTemplateReconciler_Reconcile req).
Proof.
  unfold ConnectorTemplateReconciler_Reconcile. split; [done|]. intros [err|t] _; cbn [prog_bind]; [done|].
  destruct (meta_Deleted _); [done|]. split; [done|]. intros [err|cm] _; cbn [prog_bind]; [|done].
  destruct (negb _); [done|]. apply rg_any; [by apply createOwned_allowed|done].
Qed.

(** *** Properties *)

(** The role in [config/rbac] grants exactly what the markers ask for; the role of the Helm
    chart grants nothing more, and less in just these respects: config maps may not be deleted,
    the core group has no deployments, and of connectors and templates neither the status nor the
    finalizers are covered. *)
Theorem roles_agree q :
  grants manager_role q = grants markers q /\
  (grants chart_role q = true <->
   grants markers q = true /\
   q ∉ [("", "configmaps", "delete");
        ("", "deployments", "create"); ("", "deployments", "update"); ("", "deployments", "patch"); ("", "deployments", "delete");
        ("apps.hstream.io", "connectors/status", "get"); ("apps.hstream.io", "connectors/status", "update");
        ("apps.hstream.io", "connectors/status", "patch"); ("apps.hstream.io", "connectors/finalizers", "update");
        ("apps.hstream.io", "connectortemplates/status", "get"); ("apps.hstream.io", "connectortemplates/status", "update");
        ("apps.hstream.io", "connectortemplates/status", "patch"); ("apps.hstream.io", "connectortemplates/finalizers", "update")]).
Proof.
  split; [by apply grants_same; vm_compute|]. set (missing := [_; _; _; _; _; _; _; _; _; _; _; _; _]).
  rewrite !grants_elem. split.
  - intros Hq. assert (forallb (fun q => bool_decide (q ∈ all_requests markers) && bool_decide (q ∉ missing))
      (all_requests chart_role) = true) as H by by vm_compute.
    rewrite forallb_forall in H. specialize (H q (proj1 (list_elem_of_In _ _) Hq)).
    by apply andb_true_iff in H as [?%bool_decide_eq_true ?%bool_decide_eq_true].
  - intros [Hq Hm]. assert (forallb (fun q => bool_decide (q ∈ all_requests chart_role) || bool_decide (q ∈ missing))
      (all_requests markers) = true) as H by by vm_compute.
    rewrite forallb_forall in H. specialize (H q (proj1 (list_elem_of_In _ _) Hq)).
    apply orb_true_iff in H as [?%bool_decide_eq_true|?%bool_decide_eq_true]; done.
Qed.

(** C31: every controller may do what it does: for each of the three, every request behind every
    call of every run of its [Reconcile], and what its informers list and watch, is granted by its
    own markers together with those of [main], and by the role of the Helm chart. The finalizers of
    the owner, which servers that enforce the blocking of deletion ask for when an owned object is
    created, are granted by the markers to all three, but by the chart to clusters only. The
    markers of the connector alone would not do: they name deployments in the core group. *)
Theorem controllers_authorised r rules req tr o :
  (r, rules) ∈ granted ->
  (exec (reg_Reconcile r req) tr o ->
   Forall (fun e => authorised rules (ev_call e) /\ authorised chart_role (ev_call e)) tr) /\
  covers rules (watch_requests r) = true /\ covers chart_role (watch_requests r) = true /\
  grants rules (owner_request r) = true /\
  (grants chart_role (owner_request r) = true <-> reg_For r = KHStreamDB) /\
  forall d, ~ authorised connector_markers (CCreate (ODeployment d)).
Proof.
  intros Hr. assert (guarantees (fun _ => True) (allowed rules) (reg_Reconcile r req)) as Hrg.
  { unfold granted in Hr. rewrite !elem_of_cons in Hr. destruct Hr as [[= -> ->]|[[= -> ->]|[[= -> ->]|[]%elem_of_nil]]].
    - apply Reconcile_allowed.
    - apply connector_allowed.
    - apply template_allowed. }
  split.
  { intros He. by apply (rg_exec _ _ _ _ _ _ Hrg He), Forall_true. }
  clear Hrg. unfold granted in Hr. rewrite !elem_of_cons in Hr.
  destruct Hr as [[= -> ->]|[[= -> ->]|[[= -> ->]|[]%elem_of_nil]]]; split_and!; by vm_compute.
Qed.

(** The scheme of the manager knows every kind that the operator reads and writes, when that of the
    client library knows the workloads, the services and the config maps. *)
Lemma kinds_registered clientgoscheme k :
  (forall k', k' ∈ [KStatefulSet; KDeployment; KService; KConfigMap] -> kind_gvk k' ∈ clientgoscheme) ->
  kind_gvk k ∈ init_scheme clientgoscheme.
Proof.
  intros H. unfold init_scheme, AddToScheme. rewrite !elem_of_app.
  destruct k; first [right; right; apply H; set_solver | right; left; cbn; set_solver | left; cbn; set_solver].
Qed.

End Access.
