(* ===== verification/Pipeline.v ===== *)
(** * From a template to running connectors

    The template controller stores a template's configuration in a config map, the connector
    controller reads it and deploys every stream. On the ideal server the two compose: whatever is
    deployed already is left alone, everything else is deployed with its configuration, and a
    second round does nothing. *)
From S2P Require Import Prelude GoStrings KubeTypes ApiTypes Effects Naming Merge Requeue Workload LogDevice Bootstrap Server Connector Ideal.

Section Pipeline.
Context {J : ConnectorJson}.
Variable wx : weather.

(** A stream with its configuration and its deployment. *)
Definition deployed (con : Connector) (stream : string) (config : gmap string jval) (s : store) : Prop :=
  (exists cm, st_cm s !! stream_key con stream = Some cm /\ stream_map con stream config cm) /\
  (exists d, st_dep s !! stream_key con stream = Some d /\ stream_deployment con stream d).

(** What one round does to a stream: it deploys it unless its config map is there. *)
Definition rolled_out (con : Connector) (stream : string) (config : gmap string jval) (s s' : store) : Prop :=
  match st_cm s !! stream_key con stream with
  | Some cm => st_cm s' !! stream_key con stream = Some cm /\
      st_dep s' !! stream_key con stream = st_dep s !! stream_key con stream
  | None => deployed con stream config s'
  end.

(** The objects of some streams. *)
Definition stream_objects (con : Connector) (streams : list string) : list (Kind * NamespacedName) :=
  streams ≫= fun stream => [(KConfigMap, stream_key con stream); (KDeployment, stream_key con stream)].

Lemma stream_objects_cons con stream streams :
  stream_objects con (stream :: streams) =
    [(KConfigMap, stream_key con stream); (KDeployment, stream_key con stream)] ++ stream_objects con streams.
Proof. done. Qed.

Lemma stream_objects_elem con streams k nn :
  (k, nn) ∈ stream_objects con streams -> exists stream, stream ∈ streams /\ nn = stream_key con stream.
Proof.
  unfold stream_objects. intros (stream & Hin & Hs)%list_elem_of_bind. exists stream. split; [done|].
  rewrite !elem_of_cons, elem_of_nil in Hin. naive_solver.
Qed.

(** Streams whose names differ in more than underscores have different objects. *)
Lemma stream_key_inj con s1 s2 : stream_key con s1 = stream_key con s2 -> Replace s1 underscore dash = Replace s2 underscore dash.
Proof.
  intros [= H]. unfold GenConnectorConfigMapNameForStream in H. apply string_app_cancel in H.
  by apply (string_app_cancel "-").
Qed.

Definition distinct (streams : list string) : Prop := NoDup ((fun stream => Replace stream underscore dash) <$> streams).

Lemma distinct_head con stream streams k :
  distinct (stream :: streams) -> (k, stream_key con stream) ∉ stream_objects con streams.
Proof.
  unfold distinct. rewrite fmap_cons. intros [Hn _]%NoDup_cons (st & Hst & Heq)%stream_objects_elem. apply Hn.
  apply stream_key_inj in Heq. rewrite Heq. by apply (list_elem_of_fmap_2 (fun stream => Replace stream underscore dash)).
Qed.

Lemma rolled_out_same con con' stream config s s' :
  same_connector con con' -> rolled_out con' stream config s s' -> rolled_out con stream config s s'.
Proof.
  intros Hsame. pose proof (same_connector_names _ _ Hsame) as [Hm _].
  assert (stream_key con' stream = stream_key con stream) as Hk by (unfold stream_key, con_Name, con_Namespace; by rewrite Hm).
  unfold rolled_out, deployed. rewrite Hk. destruct (st_cm s !! _); [done|].
  intros [(cm & ? & ?%(stream_map_same _ _ _ _ _ Hsame)) (d & ? & ?%(stream_deployment_same _ _ _ _ Hsame))]. eauto 10.
Qed.

(** One stream that is not deployed yet. *)
Lemma runs_deploy con stream config todo s :
  st_cm s !! stream_key con stream = None -> st_dep s !! stream_key con stream = None ->
  exists s1 con1, same_connector con con1 /\ deployed con stream config s1 /\
    changes [(KConfigMap, stream_key con stream); (KDeployment, stream_key con stream)] s s1 /\
    (forall a tr s', runs wx (connector_loop con1 todo) s1 a tr s' ->
     exists tr', runs wx (connector_loop con ((stream, config) :: todo)) s a tr' s').
Proof.
  intros Hcm Hdep. set (nn := stream_key con stream) in *.
  set (con1 := con_set_Container (ctr_set_Ports (Some (connector_ports con)) (con_Container (con_Spec con))) con).
  set (ref := {| owner_Kind := ""; owner_Name := meta_Name (con_Meta con); owner_Controller := true |}).
  set (cm := {| cm_Meta := meta_set_OwnerReferences (append (meta_OwnerReferences (config_map_meta nn)) [ref]) (config_map_meta nn);
    cm_Data := Some {["config.json" := marshal_config config ("hstream://" +:+ con_HServerEndpoint (con_Spec con))]} |}).
  set (d0 := connector_deployment con1 stream (GenConnectorConfigMapNameForStream (con_Name con) stream)).
  set (d := dep_set_Meta (meta_set_OwnerReferences (append (meta_OwnerReferences (dep_Meta d0)) [ref]) (dep_Meta d0)) d0).
  assert (ObjectKey (dep_Meta d) = nn) as Hdk.
  { unfold d, d0, nn, stream_key, ObjectKey. cbn. f_equal. apply deployment_name. }
  exists (put (ODeployment d) (put (OConfigMap cm) s)), con1. split; [done|]. split_and!.
  - split; [exists cm|exists d].
    + split; [apply lookup_insert_eq|done].
    + split; [cbn; fold nn; rewrite <-Hdk; apply lookup_insert_eq|].
      apply (stream_deployment_same con con1), (stream_deployment_owned con1 stream d0), (connector_deployment_stream con1); done.
  - eapply (changes_trans [_] [_]); [apply (changes_put (OConfigMap cm))|].
    pose proof (changes_put (ODeployment d) (put (OConfigMap cm) s)) as Hc. cbn [kobj_kind kobj_meta] in Hc. by rewrite Hdk in Hc.
  - intros a tr s' Hr. eexists. cbn [connector_loop]. eapply runs_do; [cbn [ideal objs obj_of]; change {| nn_Namespace := _; nn_Name := _ |} with nn; by rewrite Hcm|].
    cbn [prog_bind IsNotFound not_found err_reason]. eapply runs_do; [done|]. cbn [prog_bind].
    apply runs_create; [intros [x Hx]; change (st_cm s !! nn = Some x) in Hx; congruence|]. cbn [prog_bind].
    eapply runs_do; [done|]. cbn [prog_bind].
    apply runs_create; [|exact Hr]. intros [x Hx]. 
    change (st_dep s !! ObjectKey (dep_Meta d) = Some x) in Hx. rewrite Hdk in Hx. congruence.
Qed.

(** The loop over the streams. *)
Lemma runs_connector_loop con todo s :
  distinct todo.*1 ->
  (forall stream, stream ∈ todo.*1 -> st_cm s !! stream_key con stream = None -> st_dep s !! stream_key con stream = None) ->
  exists tr s', runs wx (connector_loop con todo) s (result None) tr s' /\
    changes (stream_objects con todo.*1) s s' /\
    Forall (fun x => rolled_out con (fst x) (snd x) s s') todo.
Proof.
  revert con s. induction todo as [|[stream config] todo IH]; intros con s Hd Habs.
  { exists [], s. split_and!; [apply runs_ret|done|constructor]. }
  rewrite fmap_cons in Hd. cbn [fst] in Hd. pose proof (fun k => distinct_head con stream todo.*1 k Hd) as Hhead.
  assert (distinct todo.*1) as Hd' by (by apply NoDup_cons in Hd as [_ ?]).
  destruct (st_cm s !! stream_key con stream) as [cm|] eqn:Hcm.
  - destruct (IH con s Hd') as (tr & s' & Hr & Hc & Hf).
    { intros st Hst. apply Habs. rewrite fmap_cons. by right. }
    eexists _, s'. split_and!.
    + cbn [connector_loop]. eapply runs_do; [cbn [ideal objs obj_of]; change {| nn_Namespace := _; nn_Name := _ |} with (stream_key con stream); by rewrite Hcm|].
      exact Hr.
    + intros k nn Hn. apply Hc. intros Hin. apply Hn. rewrite fmap_cons, stream_objects_cons. apply elem_of_app. by right.
    + constructor; [|done]. unfold rolled_out. cbn [fst snd]. rewrite Hcm.
      pose proof (Hc KConfigMap _ (Hhead KConfigMap)) as H1. pose proof (Hc KDeployment _ (Hhead KDeployment)) as H2.
      split; [rewrite <-Hcm; exact H1|exact H2].
  - assert (st_dep s !! stream_key con stream = None) as Hdep by (apply Habs; [left|done]).
    destruct (runs_deploy con stream config todo s Hcm Hdep) as (s1 & con1 & Hsame & Hdep1 & Hc1 & Hrun).
    assert (forall st, stream_key con1 st = stream_key con st) as Hkeys.
    { intros st. unfold stream_key, con_Name, con_Namespace. by destruct (same_connector_names _ _ Hsame) as [-> _]. }
    assert (forall st, st ∈ todo.*1 -> st_cm s1 !! stream_key con st = st_cm s !! stream_key con st /\
      st_dep s1 !! stream_key con st = st_dep s !! stream_key con st) as Hrest.
    { intros st Hst. assert (stream_key con st <> stream_key con stream) as Hne.
      { intros Heq. apply (Hhead KConfigMap). rewrite <-Heq. apply list_elem_of_bind. exists st. split; [left|done]. }
      split; [apply (Hc1 KConfigMap)|apply (Hc1 KDeployment)]; rewrite !elem_of_cons, elem_of_nil; naive_solver. }
    destruct (IH con1 s1 Hd') as (tr & s' & Hr & Hc & Hf).
    { intros st Hst. rewrite Hkeys. destruct (Hrest st Hst) as [-> ->]. apply Habs. rewrite fmap_cons. by right. }
    assert (stream_objects con1 todo.*1 = stream_objects con todo.*1) as Hobjs.
    { apply list_bind_ext; [|done]. intros st. by rewrite Hkeys. }
    rewrite Hobjs in Hc. destruct (Hrun _ _ _ Hr) as (tr' & Hr'). exists tr', s'. split_and!; [exact Hr'| |].
    + rewrite fmap_cons, stream_objects_cons. by eapply changes_trans.
    + constructor.
      * unfold rolled_out. cbn [fst snd]. rewrite Hcm. destruct Hdep1 as [(cm & H1 & H1') (d & H2 & H2')].
        pose proof (Hc KConfigMap _ (Hhead KConfigMap)) as K1. pose proof (Hc KDeployment _ (Hhead KDeployment)) as K2.
        split; [exists cm; split; [etrans; [exact K1|exact H1]|done]|exists d; split; [etrans; [exact K2|exact H2]|done]].
      * rewrite Forall_forall in Hf |- *. intros [st cfg] Hin. apply (rolled_out_same _ _ _ _ _ _ Hsame).
        specialize (Hf _ Hin). cbn [fst snd] in *. unfold rolled_out in *. rewrite Hkeys in *.
        destruct (Hrest st) as [-> ->] in Hf; [by apply (list_elem_of_fmap_2 fst _ (st, cfg))|]. exact Hf.
Qed.

(** When every config map is there, the loop only reads. *)
Lemma reads_connector_loop con todo s :
  (forall stream, stream ∈ todo.*1 -> is_Some (st_cm s !! stream_key con stream)) ->
  exists tr, runs wx (connector_loop con todo) s (result None) tr s /\ writes tr = [].
Proof.
  induction todo as [|[stream config] todo IH]; intros H; [by exists []|].
  destruct (H stream) as [cm Hcm]; [left|]. destruct IH as (tr & Hr & Hw); [intros st Hst; apply H; by right|].
  eexists. split.
  - cbn [connector_loop]. eapply runs_do; [cbn [ideal objs obj_of]; change {| nn_Namespace := _; nn_Name := _ |} with (stream_key con stream); by rewrite Hcm|].
    exact Hr.
  - exact Hw.
Qed.

(** *** The two controllers *)

(** The template's config map, after a round of its controller. *)
Lemma runs_template req t s :
  st_ctpl s !! req = Some t -> meta_Deleted (ctpl_Meta t) = false ->
  exists tr s', runs wx (ConnectorTemplateReconciler_Reconcile req) s (result None) tr s' /\
    changes [(KConfigMap, template_key (nn_Namespace req) (nn_Name req))] s s' /\
    exists cm, st_cm s' !! template_key (nn_Namespace req) (nn_Name req) = Some cm /\
      match st_cm s !! template_key (nn_Namespace req) (nn_Name req) with
      | Some old => s' = s /\ cm = old /\ writes tr = []
      | None => cm_Data cm = Some {["config" := ctpl_Config (ctpl_Spec t)]}
      end.
Proof.
  intros Ht Hdel. set (nn := template_key _ _).
  destruct (st_cm s !! nn) as [old|] eqn:E.
  - eexists _, s. split_and!.
    + unfold ConnectorTemplateReconciler_Reconcile.
      eapply runs_do; [cbn [ideal objs obj_of]; by rewrite Ht|]. cbn [prog_bind]. rewrite Hdel.
      eapply runs_do; [cbn [ideal objs obj_of]; change {| nn_Namespace := _; nn_Name := _ |} with nn; by rewrite E|].
      apply runs_ret.
    + done.
    + by exists old.
  - set (cm := {| cm_Meta := meta_set_OwnerReferences (append (meta_OwnerReferences (config_map_meta nn))
        [{| owner_Kind := ""; owner_Name := meta_Name (ctpl_Meta t); owner_Controller := true |}]) (config_map_meta nn);
      cm_Data := Some {["config" := ctpl_Config (ctpl_Spec t)]} |}).
    eexists _, (put (OConfigMap cm) s). split_and!.
    + unfold ConnectorTemplateReconciler_Reconcile.
      eapply runs_do; [cbn [ideal objs obj_of]; by rewrite Ht|]. cbn [prog_bind]. rewrite Hdel.
      eapply runs_do; [cbn [ideal objs obj_of]; change {| nn_Namespace := _; nn_Name := _ |} with nn; by rewrite E|]. cbn [prog_bind IsNotFound not_found err_reason].
      eapply runs_do; [done|]. cbn [prog_bind]. eapply runs_create; [|apply runs_ret].
      intros [x Hx]. change (st_cm s !! nn = Some x) in Hx. congruence.
    + apply (changes_put (OConfigMap cm)).
    + exists cm. split; [apply lookup_insert_eq|done].
Qed.

(** The connector, when its template's configuration is stored. *)
Definition connector_ready (req : NamespacedName) (con : Connector) (config : string) (s : store) : Prop :=
  st_con s !! req = Some con /\ meta_Deleted (con_Meta con) = false /\
  exists cm, st_cm s !! template_key (con_Namespace con) (con_TemplateName (con_Spec con)) = Some cm /\
    mstr (cm_Data cm) "config" = config.

Lemma runs_connector req con config parsed configs s a tr s' :
  connector_ready req con config s -> unmarshal_config config = inr parsed ->
  stream_configs parsed (con_Patches (con_Spec con)) (elems (con_Streams (con_Spec con))) = inr configs ->
  runs wx (connector_loop con (zip (elems (con_Streams (con_Spec con))) configs)) s a tr s' ->
  exists tr', runs wx (ConnectorReconciler_Reconcile req) s a tr' s' /\ writes tr' = writes tr.
Proof.
  intros (Hc & Hdel & cm & Hcm & Hcfg) Hp Hcs Hr.
  eexists. split.
  - unfold ConnectorReconciler_Reconcile. eapply runs_do; [cbn [ideal objs obj_of]; by rewrite Hc|]. cbn [prog_bind].
    rewrite Hdel. unfold mergePatchesIntoConfigs. cbn [prog_bind kube_Get].
    eapply runs_do; [cbn [ideal objs obj_of]; change {| nn_Namespace := _; nn_Name := _ |} with
      (template_key (con_Namespace con) (con_TemplateName (con_Spec con))); by rewrite Hcm|].
    cbn [prog_bind]. rewrite Hcfg, Hp, Hcs. exact Hr.
  - done.
Qed.

Lemma stream_configs_length parsed patches streams configs :
  stream_configs parsed patches streams = inr configs -> length configs = length streams.
Proof.
  revert configs. induction streams as [|st streams IH]; intros configs; cbn [stream_configs]; [by intros [= <-]|].
  destruct (stream_config parsed patches st); [done|]. destruct (stream_configs parsed patches streams); [done|].
  intros [= <-]. cbn [length]. f_equal. by apply IH.
Qed.

Lemma connector_ready_changes req con config K s s' :
  changes K s s' -> (forall nn, (KConnector, nn) ∉ K) ->
  (KConfigMap, template_key (con_Namespace con) (con_TemplateName (con_Spec con))) ∉ K ->
  connector_ready req con config s -> connector_ready req con config s'.
Proof.
  intros Hc H1 H2 (Hcon & Hdel & cm & Hcm & Hcfg). split; [|split; [done|]].
  - etrans; [exact (Hc KConnector req (H1 req))|exact Hcon].
  - exists cm. split; [|done]. etrans; [exact (Hc KConfigMap _ H2)|exact Hcm].
Qed.

End Pipeline.

(** *** Properties *)

(** Templates and connectors compose: for a stored template and a stored connector that names
    it, with configurations that parse and streams whose names differ in more than underscores, one
    round of the template controller and one of the connector controller succeed. The template's
    configuration is stored under the name the connector looks for. Every stream that had no config
    map then has one, with the template's configuration overlaid by the stream's name and patches,
    and a deployment for it ([stream_deployment]); a stream that had one is untouched; and a second round of both
    controllers changes nothing. *)
Theorem template_connector_pipeline {J : ConnectorJson} wx treq creq t con parsed configs s :
  st_ctpl s !! treq = Some t -> meta_Deleted (ctpl_Meta t) = false ->
  st_con s !! creq = Some con -> meta_Deleted (con_Meta con) = false ->
  con_Namespace con = nn_Namespace treq -> con_TemplateName (con_Spec con) = nn_Name treq ->
  st_cm s !! template_key (nn_Namespace treq) (nn_Name treq) = None ->
  unmarshal_config (ctpl_Config (ctpl_Spec t)) = inr parsed ->
  let streams := elems (con_Streams (con_Spec con)) in
  stream_configs parsed (con_Patches (con_Spec con)) streams = inr configs ->
  distinct streams ->
  (forall stream, stream ∈ streams -> stream_key con stream <> template_key (nn_Namespace treq) (nn_Name treq) /\
     (st_cm s !! stream_key con stream = None -> st_dep s !! stream_key con stream = None)) ->
  exists tr1 s1 tr2 s2 tr3 tr4,
    run (ideal wx) (ConnectorTemplateReconciler_Reconcile treq) s = (Done (result None), tr1, s1) /\
    run (ideal wx) (ConnectorReconciler_Reconcile creq) s1 = (Done (result None), tr2, s2) /\
    Forall2 (fun stream config => rolled_out con stream config s s2) streams configs /\
    run (ideal wx) (ConnectorTemplateReconciler_Reconcile treq) s2 = (Done (result None), tr3, s2) /\
    run (ideal wx) (ConnectorReconciler_Reconcile creq) s2 = (Done (result None), tr4, s2) /\
    writes tr3 = [] /\ writes tr4 = [].
Proof.
  intros Ht Hdt Hc Hdc Hns Htn Habs Hp streams Hcs Hd Hst.
  set (tk := template_key (nn_Namespace treq) (nn_Name treq)) in *.
  assert (template_key (con_Namespace con) (con_TemplateName (con_Spec con)) = tk) as Htk by (by rewrite Hns, Htn).
  destruct (runs_template wx treq t s Ht Hdt) as (tr1 & s1 & Hr1 & Hc1 & cm & Hcm & Hdata). fold tk in Hc1, Hcm, Hdata.
  rewrite Habs in Hdata.
  assert (connector_ready creq con (ctpl_Config (ctpl_Spec t)) s1) as Hready.
  { split; [|split; [done|]].
    - etrans; [apply (Hc1 KConnector creq); rewrite list_elem_of_singleton; done|exact Hc].
    - exists cm. rewrite Htk. split; [done|]. by rewrite Hdata, mstr_Some, lookup_singleton_eq. }
  assert ((zip streams configs).*1 = streams) as Hzip.
  { apply fst_zip. by rewrite (stream_configs_length _ _ _ _ Hcs). }
  assert (forall stream, stream ∈ streams -> st_cm s1 !! stream_key con stream = st_cm s !! stream_key con stream /\
    st_dep s1 !! stream_key con stream = st_dep s !! stream_key con stream) as Hs1.
  { intros st Hin. destruct (Hst st Hin) as [Hne _].
    split; [apply (Hc1 KConfigMap)|apply (Hc1 KDeployment)]; rewrite list_elem_of_singleton; congruence. }
  destruct (runs_connector_loop wx con (zip streams configs) s1) as (tr2 & s2 & Hr2 & Hc2 & Hf).
  { by rewrite Hzip. }
  { intros st Hin. rewrite Hzip in Hin. destruct (Hs1 st Hin) as [-> ->]. by apply Hst. }
  rewrite Hzip in Hc2.
  assert ((KConfigMap, tk) ∉ stream_objects con streams) as Htk2.
  { intros (st & Hin & Heq)%stream_objects_elem. by destruct (Hst st Hin) as [[] _]. }
  destruct (runs_connector wx creq con _ parsed configs s1 _ tr2 s2 Hready Hp Hcs Hr2) as (tr2' & Hr2' & _).
  assert (connector_ready creq con (ctpl_Config (ctpl_Spec t)) s2) as Hready2.
  { eapply connector_ready_changes; [exact Hc2| |by rewrite Htk|exact Hready].
    intros nn. unfold stream_objects. intros (st & Hin & _)%list_elem_of_bind.
    rewrite !elem_of_cons, elem_of_nil in Hin. naive_solver. }
  assert (st_cm s2 !! tk = Some cm) as Hcm2 by (etrans; [exact (Hc2 KConfigMap tk Htk2)|exact Hcm]).
  assert (Forall2 (fun stream config => rolled_out con stream config s s2) streams configs) as Hroll.
  { apply Forall2_same_length_lookup. split; [by rewrite (stream_configs_length _ _ _ _ Hcs)|].
    intros i st cfg H1 H2. rewrite Forall_forall in Hf.
    specialize (Hf (st, cfg)). cbn [fst snd] in Hf. unfold rolled_out in *.
    destruct (Hs1 st) as [E1 E2]; [by eapply list_elem_of_lookup_2|]. rewrite E1, E2 in Hf. apply Hf.
    eapply list_elem_of_lookup_2. by apply lookup_zip_Some. }
  destruct (runs_template wx treq t s2) as (tr3 & s3 & Hr3 & _ & cm3 & _ & Hd3); [|done|].
  { etrans; [apply (Hc2 KConnectorTemplate treq)|etrans; [apply (Hc1 KConnectorTemplate treq)|exact Ht]].
    - unfold stream_objects. intros (st & Hin & _)%list_elem_of_bind. rewrite !elem_of_cons, elem_of_nil in Hin. naive_solver.
    - by rewrite list_elem_of_singleton. }
  fold tk in Hd3. rewrite Hcm2 in Hd3. destruct Hd3 as (-> & _ & Hw3).
  destruct (reads_connector_loop wx con (zip streams configs) s2) as (tr4 & Hr4 & Hw4).
  { rewrite Hzip. intros st Hin. apply list_elem_of_lookup_1 in Hin as [i Hi].
    destruct (Forall2_lookup_l _ _ _ _ _ Hroll Hi) as (cfg & _ & Hro). unfold rolled_out in Hro.
    destruct (st_cm s !! stream_key con st); [destruct Hro as [-> _]; by eexists|].
    destruct Hro as [(cm' & -> & _) _]. by eexists. }
  destruct (runs_connector wx creq con _ parsed configs s2 _ tr4 s2 Hready2 Hp Hcs Hr4) as (tr4' & Hr4' & Hw4').
  exists tr1, s1, tr2', s2, tr3, tr4'. split_and!; try done. by rewrite Hw4'.
Qed.
