(* ===== verification/Schedule.v ===== *)
(** * Many objects, one worker each

    Each of the three controllers runs its passes one after another, for whatever key its queue
    hands out next. On the ideal server a pass leaves everything alone that is not its own
    ([footprint]), also when it fails or panics; so each cluster with a valid spec converges on its
    own turns, whatever the other clusters, the connectors and the templates are, and however the
    turns are interleaved. *)
From S2P Require Import Prelude GoStrings KubeTypes ApiTypes Effects RelyGuarantee Conditions FlagSet Naming Constants Merge Requeue Workload LogDevice Services Admin HMeta AdminServer HStore HServer Gateway Console Totality Bootstrap Server Status Controller Passes Footprint Operator Ideal Desired Settle Convergence Faults Connector Main Fleet.

(** ** The objects of one cluster *)

(** What a pass for the cluster [req] may write. *)
Definition owns {KL : KubeLib} (req : NamespacedName) (key : Kind * NamespacedName) : Prop :=
  key = (KHStreamDB, req) \/ exists o, in_cluster req None o /\ key = (kobj_kind o, ObjectKey (kobj_meta o)).

Lemma internal_component_name n ct : n +:+ "-internal-" +:+ ct_string ct = component_name (n +:+ "-internal") ct.
Proof. unfold component_name. by rewrite string_app_assoc. Qed.

Lemma config_names n n' : n +:+ "-logdevice-config" <> nshards_name n'.
Proof.
  unfold nshards_name. intros (u & [[_ H]|[_ H]])%string_app_split;
    repeat (destruct u as [|? u]; simpl in H; [done|first [discriminate H|injection H as ? H]; try done]).
Qed.

(** No two clusters share an object. *)
Lemma owns_key {KL : KubeLib} req hdb t : owns req (key_of hdb t) -> ObjectKey (hdb_Meta hdb) = req.
Proof.
  intros [H|(o & [Hns Ho] & H)]; [by destruct t|].
  assert (hdb_Name hdb = nn_Name req -> hdb_Namespace hdb = nn_Namespace req -> ObjectKey (hdb_Meta hdb) = req) as Hreq.
  { destruct req. unfold ObjectKey, hdb_Name, hdb_Namespace. simpl. by intros -> ->. }
  pose proof (f_equal (fun k => nn_Namespace (snd k)) H) as Hk. pose proof (f_equal (fun k => nn_Name (snd k)) H) as Hn.
  assert (nn_Namespace (snd (key_of hdb t)) = hdb_Namespace hdb) as Hkns.
  { destruct t as [ct|ct|ct| |]; try done. simpl. by case_decide. }
  cbn [snd ObjectKey nn_Namespace nn_Name] in Hk, Hn. apply Hreq; [|congruence]. clear Hreq Hk Hkns.
  apply (f_equal fst) in H. destruct t as [ct|ct|ct| |], o as [x|x|x|x]; cbn [fst key_of kobj_kind] in H; try discriminate H;
    cbn [kobj_meta] in *; simpl in Hn.
  - destruct Ho as (ct' & _ & Hx & _). rewrite Hx in Hn. by apply (component_name_inj _ _ ct) in Hn as [? _].
  - destruct Ho as (ct' & _ & Hx & _). rewrite Hx in Hn. by apply (component_name_inj _ _ ct) in Hn as [? _].
  - destruct Ho as (ct' & _ & [[-> Hx]|[Hin Hx]]); rewrite Hx, ?internal_component_name in Hn; case_decide as Hd; simpl in Hn.
    + by apply (component_name_inj _ _ ct) in Hn as [? _].
    + unfold GetInternalResName in Hn. rewrite internal_component_name in Hn. by apply component_name_inj in Hn as [_ ?].
    + apply (component_name_inj _ _ ct) in Hn as [_ ->]. subst ct'. set_solver.
    + unfold GetInternalResName in Hn. rewrite internal_component_name in Hn.
      apply component_name_inj in Hn as [Hn _]. by apply string_app_inj_r in Hn.
  - destruct Ho as [Hx|Hx]; rewrite Hx in Hn; [by apply string_app_inj_r in Hn|]. by apply config_names in Hn.
  - destruct Ho as [Hx|Hx]; rewrite Hx in Hn; [|by apply string_app_inj_r in Hn]. symmetry in Hn. by apply config_names in Hn.
Qed.

(** ** The names of the connectors' objects *)

(** The stream, as it appears in names, ends like no object of a cluster or a template. *)
Definition private_stream (stream : string) : Prop :=
  harmless_stream stream /\
  forall sfx u, sfx ∈ ["-nshards"; "-logdevice-config"; "-hct"] -> "-" +:+ Replace stream underscore dash <> u +:+ sfx.

(** Users name the streams of their connectors so. *)
Definition private_store (s : store) : Prop :=
  forall nn con, st_con s !! nn = Some con -> Forall private_stream (elems (con_Streams (con_Spec con))).

Lemma private_harmless s : private_store s -> harmless_store s.
Proof. intros Hp nn con Hcon. eapply Forall_impl; [by eapply Hp|]. by intros stream []. Qed.

(** What a suffix of a name may leave over. *)
Ltac no_suffix u H := repeat (destruct u as [|? u]; simpl in H; [done|first [discriminate H|injection H as ? H]; try done]).

Lemma private_name con stream n sfx :
  private_stream stream -> sfx ∈ ["-nshards"; "-logdevice-config"; "-hct"] ->
  nn_Name (stream_key con stream) <> n +:+ sfx.
Proof.
  intros [_ Hp] Hsfx H. simpl in H. unfold GenConnectorConfigMapNameForStream, GenConnectorConfigMapName in H.
  specialize (fun u => Hp sfx u Hsfx). set (t := "-" +:+ Replace stream underscore dash) in *.
  change ("-h" +:+ "c") with "-hc" in H. apply string_app_split in H as (u & [[_ H]|[Heq H]]); [by apply (Hp u)|].
  destruct u as [|a u]; [by apply (Hp "")|]. clear Hp. rewrite !elem_of_cons, elem_of_nil in Hsfx.
  destruct Hsfx as [->|[->|[->|[]]]]; subst t; simpl in H; injection H as <- H; [no_suffix u H| |no_suffix u H].
  assert (u = "logdevice") as -> by
    (repeat (destruct u as [|? u]; simpl in H; [first [reflexivity|discriminate H]|first [discriminate H|injection H as <- H]])).
  apply string_app_split in Heq as (v & [[_ Hv]|[_ Hv]]); no_suffix v Hv.
Qed.

(** Names like those of the objects of a cluster. *)
Definition cluster_name (key : Kind * NamespacedName) : Prop :=
  match fst key with
  | KDeployment => exists n ct, nn_Name (snd key) = component_name n ct
  | KConfigMap => exists n, nn_Name (snd key) = n +:+ "-logdevice-config" \/ nn_Name (snd key) = nshards_name n
  | KConnector | KConnectorTemplate => False
  | _ => True
  end.

Lemma owns_cluster_name {KL : KubeLib} req key : owns req key -> cluster_name key.
Proof.
  intros [->|(o & [_ Ho] & ->)]; [done|]. destruct o as [x|x|x|x]; simpl in *; try done.
  - destruct Ho as (ct & _ & Hn & _). unfold cluster_name. simpl. eauto.
  - unfold cluster_name. simpl. by exists (nn_Name req).
Qed.

Lemma key_of_cluster_name hdb t : cluster_name (key_of hdb t).
Proof. destruct t as [ct|ct|ct| |]; unfold cluster_name; simpl; eauto. Qed.

Lemma stream_not_cluster k con stream : k ∈ [KConfigMap; KDeployment] -> private_stream stream -> ~ cluster_name (k, stream_key con stream).
Proof.
  intros Hk Hs. rewrite !elem_of_cons, elem_of_nil in Hk. destruct Hk as [->|[->|[]]]; unfold cluster_name; cbn [fst snd].
  - intros (n & [H|H]); apply private_name in H; [done|done|by repeat constructor|done|done|by repeat constructor].
  - intros (n & ct & H). simpl in H. rewrite <-deployment_name in H. by apply harmless_name in H; [|apply Hs].
Qed.

Lemma template_not_cluster ns name : ~ cluster_name (KConfigMap, template_key ns name).
Proof.
  unfold cluster_name, nshards_name. cbn. intros (n & [H|H]); apply string_app_split in H as (u & [[_ H]|[_ H]]); no_suffix u H.
Qed.

(** ** Frames *)

(** Nothing but objects of [F] has changed. *)
Definition within (F : Kind * NamespacedName -> Prop) (s s' : store) : Prop :=
  exists K, Forall F K /\ changes K s s'.

#[export] Instance within_PreOrder F : PreOrder (within F).
Proof.
  split; [intros s; by exists []|]. intros s1 s2 s3 (K1 & H1 & C1) (K2 & H2 & C2).
  exists (K1 ++ K2). split; [by apply Forall_app|by eapply changes_trans].
Qed.

Lemma within_put (F : Kind * NamespacedName -> Prop) o s : F (kobj_kind o, ObjectKey (kobj_meta o)) -> within F s (put (rollout o) s).
Proof.
  intros Ho. exists [(kobj_kind o, ObjectKey (kobj_meta o))]. split; [by apply Forall_singleton|].
  pose proof (changes_put (rollout o) s) as Hch. by destruct (rollout_meta o) as [-> ->] in Hch.
Qed.

Lemma within_lookup F s s' k nn : within F s s' -> ~ F (k, nn) -> objs k s' !! nn = objs k s !! nn.
Proof. intros (K & HK & Hc) Hn. apply Hc. intros Hin. rewrite Forall_forall in HK. by apply Hn, HK. Qed.

(** ** Recovered stores *)

Record recovered (s : store) : Prop := {
  rc_ok : store_ok s;
  rc_sound : sound s;
  rc_running : running s
}.

Section Schedule.
Context {KL : KubeLib} {G : Gabs} {SS : SortSlice} {AJ : AdminJson} {J : ConnectorJson}.

Lemma recovered_healthy s req hdb : recovered s -> st_hdb s !! req = Some hdb -> healthy hdb s.
Proof. intros [_ Hs Hr] Hhdb. by eapply stored_healthy. Qed.

Lemma rollout_ready o : exists n, rollout o = with_ready n o.
Proof. destruct o as [x|x|x|x]; [by eexists|exists (dep_readyReplicas x); by destruct x|by exists 0%Z..]. Qed.

Lemma ideal_keeps wx c s : keeps c s (snd (ideal wx c s)).
Proof.
  destruct c as [k nn|o|o|h| | | | | | | | |]; try done; cbn [keeps ideal]; case_decide; try (by left); right.
  all: destruct (rollout_ready o) as [n Hn]; exists n; by rewrite <-Hn.
Qed.

Lemma running_put o s : good o -> running s -> running (put (rollout o) s).
Proof.
  intros Hgood Hr nn x name ct. destruct o as [y|y|y|y]; try exact (Hr nn x name ct). simpl.
  rewrite lookup_insert_Some. intros [[_ <-]|[_ Hx]]; [|exact (Hr nn x name ct Hx)]. intros _.
  destruct Hgood as (n & Hn & Hpos). exists n. simpl. rewrite Hn. simpl. split_and!; [done|lia|lia].
Qed.

(** A run of a program that keeps an invariant of the store, and stays within [F]. *)
Lemma ideal_run {A} wx R Gu (I : store -> Prop) F (p : prog A) Q s o tr s' :
  (forall c s, Gu c -> I s -> I (snd (ideal wx c s)) /\ within F s (snd (ideal wx c s)) /\ R (Ev c (fst (ideal wx c s)))) ->
  rg R Gu p Q -> run (ideal wx) p s = (o, tr, s') -> I s -> I s' /\ within F s s'.
Proof.
  intros Hcall. revert s tr. induction p as [a|msg|c k IH]; intros s tr; cbn [run].
  - by intros _ [= _ _ ->].
  - by intros _ [= _ _ ->].
  - intros [Hc Hk] Hrun Hs. destruct (Hcall c s Hc Hs) as (Hs1 & He & Ha).
    destruct (ideal wx c s) as [r s1]. destruct (run (ideal wx) (k r) s1) as [[o1 tr1] s2] eqn:E. injection Hrun as -> _ ->.
    destruct (IH r s1 tr1 (Hk r Ha) E Hs1). split; [done|]. by etrans.
Qed.

(** One call of a pass for a cluster. *)
Lemma ideal_call wx c s req :
  pass_call req None c /\ sound_call c -> recovered s ->
  recovered (snd (ideal wx c s)) /\ within (owns req) s (snd (ideal wx c s)) /\
  (answered req None (Ev c (fst (ideal wx c s))) /\ sound_answer (Ev c (fst (ideal wx c s)))).
Proof.
  intros [Hp Hc] [Hok Hs Hr]. pose proof (ideal_serves wx c s) as Hserve.
  destruct (sound_served _ _ _ _ Hs Hserve (ideal_keeps wx c s) Hc) as [Hs' Ha].
  assert (running (snd (ideal wx c s)) /\ within (owns req) s (snd (ideal wx c s))) as [Hr' He].
  { assert (forall o, in_cluster req None o -> within (owns req) s (put (rollout o) s)) as Hput.
    { intros o Ho. apply within_put. right. by exists o. }
    destruct c as [k nn|o|o|h| | | | | | | | |]; try (by split); cbn [ideal].
    - case_decide; cbn [snd]; [by split|]. split; [by apply running_put|]. apply Hput, Hp.
    - case_decide; cbn [snd]; [|by split]. split; [by apply running_put|]. apply Hput, Hp.
    - destruct (st_hdb s !! ObjectKey (hdb_Meta h)) as [old|] eqn:E; cbn [snd]; [|by split]. split; [done|].
      exists [(KHStreamDB, req)]. split; [apply Forall_singleton; by left|]. rewrite <-Hp, <-(ok_hdb _ Hok _ _ E).
      apply (changes_put_hdb (with_status h old)). }
  split_and!; [|done| |done].
  - split; [by eapply served_ok|done|done].
  - eapply served_answered; [done|exact Hserve|done|by right].
Qed.

(** One call of a pass for a connector or a template. *)
Lemma ideal_connector_call wx K cons c s :
  (forall key, K key -> no_component key) -> (forall nn con, cons !! nn = Some con -> harmless_connector con) ->
  connector_call K c -> recovered s /\ st_con s = cons ->
  (recovered (snd (ideal wx c s)) /\ st_con (snd (ideal wx c s)) = cons) /\ within K s (snd (ideal wx c s)) /\
  connector_answer (fun nn con => cons !! nn = Some con) (Ev c (fst (ideal wx c s))).
Proof.
  intros HK Hh Hc [[Hok Hs Hr] Hcons]. pose proof (ideal_serves wx c s) as Hserve.
  assert (connector_call no_component c) as Hc'.
  { destruct c as [| [] | | | | | | | | | | |]; simpl in *; try done; (split; [apply HK, Hc|apply Hc]). }
  assert (sound_call c) as Hsc by (destruct c as [| [] | | | | | | | | | | |]; simpl in *; try done; apply Hc).
  destruct (served_connector _ _ _ _ Hok ltac:(by unfold harmless_store; rewrite Hcons) Hserve Hc') as (Hok' & _ & _).
  destruct (sound_served _ _ _ _ Hs Hserve (ideal_keeps wx c s) Hsc) as [Hs' _].
  assert (running (snd (ideal wx c s)) /\ within K s (snd (ideal wx c s))) as [Hr' He].
  { destruct c as [k nn|o|o|h| | | | | | | | |]; try (by split); [|done..]. cbn [ideal].
    case_decide; cbn [snd]; [by split|]. split; [by apply running_put|]. apply within_put. by destruct o; try apply Hc. }
  split_and!; [done|by rewrite (served_con _ _ _ _ Hserve)|done|].
  destruct c as [k nn| | | |owner m| | | | | | | |]; try done; simpl.
  - destruct k; try done. intros con. rewrite <-Hcons. cbn. destruct (st_con s !! nn); [by intros [= ->]|done].
  - intros refs [= <-]. apply Hserve.
Qed.

(** ** Turns of the three controllers *)

Inductive controller := Clusters | Connectors | Templates.

#[export] Instance controller_eq_dec : EqDecision controller.
Proof. solve_decision. Defined.

Definition registered (c : controller) : registration :=
  match c with
  | Clusters => HStreamDBReconciler_SetupWithManager
  | Connectors => ConnectorReconciler_SetupWithManager
  | Templates => ConnectorTemplateReconciler_SetupWithManager
  end.

(** They are the ones the process starts. *)
Lemma registered_controllers : registered <$> [Clusters; Connectors; Templates] = controllers.
Proof. done. Qed.

Abbreviation task := (controller * NamespacedName)%type.

Definition pass_for (j : task) : prog Result := reg_Reconcile (registered (fst j)) (snd j).

(** What a pass may write, by the connectors stored when it starts. *)
Definition footprint (cons : gmap NamespacedName Connector) (j : task) (key : Kind * NamespacedName) : Prop :=
  match fst j with
  | Clusters => owns (snd j) key
  | Connectors => exists con stream, cons !! snd j = Some con /\ stream ∈ elems (con_Streams (con_Spec con)) /\
      exists k, k ∈ [KConfigMap; KDeployment] /\ key = (k, stream_key con stream)
  | Templates => key = (KConfigMap, template_key (nn_Namespace (snd j)) (nn_Name (snd j)))
  end.

(** A whole pass, however it ends. *)
Lemma ideal_pass wx j s o tr s' :
  run (ideal wx) (pass_for j) s = (o, tr, s') -> recovered s -> private_store s ->
  recovered s' /\ within (footprint (st_con s) j) s s'.
Proof.
  intros Hrun Hs Hp. assert (forall nn con, st_con s !! nn = Some con -> harmless_connector con) as Hh
    by apply (private_harmless _ Hp).
  destruct j as [[] req]; cbn [pass_for fst snd registered reg_Reconcile] in Hrun.
  - eapply (ideal_run wx (fun e => answered req None e /\ sound_answer e) (fun c => pass_call req None c /\ sound_call c)
      recovered (owns req)); [intros c s1; apply ideal_call| |exact Hrun|done].
    apply rg_conj; [by apply rg_Reconcile|apply rgs_Reconcile].
  - edestruct (ideal_run (A := Result) wx (connector_answer (fun nn con => st_con s !! nn = Some con))
      (connector_call (footprint (st_con s) (Connectors, req))) (fun s1 => recovered s1 /\ st_con s1 = st_con s)
      (footprint (st_con s) (Connectors, req))) as [[? _] ?]; [| |exact Hrun|done|done].
    + intros c s1. apply ideal_connector_call; [|done]. intros key (con & stream & Hcon & Hin & k & _ & ->) Hk name ct.
      cbn [fst snd] in *. cbn [stream_key nn_Name]. rewrite <-deployment_name. apply harmless_name.
      specialize (Hh _ _ Hcon). unfold harmless_connector in Hh. rewrite Forall_forall in Hh. by apply Hh.
    + apply rgc_connector. intros con Hcon stream Hin.
      split; exists con, stream; (split; [exact Hcon|split; [exact Hin|]]); eexists; (split; [|done]); by repeat constructor.
  - edestruct (ideal_run (A := Result) wx (connector_answer (fun nn con => st_con s !! nn = Some con))
      (connector_call (footprint (st_con s) (Templates, req))) (fun s1 => recovered s1 /\ st_con s1 = st_con s)
      (footprint (st_con s) (Templates, req))) as [[? _] ?]; [| |exact Hrun|done|done].
    + intros c s1. by apply ideal_connector_call; [intros key -> Hk|].
    + by apply rgc_template.
Qed.

(** No pass writes the custom resources but the status of a cluster. *)
Lemma footprint_kind cons j key : footprint cons j key -> fst key <> KConnector /\ fst key <> KConnectorTemplate.
Proof.
  destruct j as [[] req]; simpl.
  - intros [->|(o & _ & ->)]; [done|by destruct o].
  - intros (con & stream & _ & _ & k & Hk & ->). set_solver.
  - by intros ->.
Qed.

Lemma within_con cons j s s' : within (footprint cons j) s s' -> st_con s' = st_con s /\ st_ctpl s' = st_ctpl s.
Proof.
  intros Hw. split; apply map_eq; intros nn.
  - apply (within_lookup _ _ _ KConnector nn Hw). by intros []%footprint_kind.
  - apply (within_lookup _ _ _ KConnectorTemplate nn Hw). by intros []%footprint_kind.
Qed.

(** The objects of a cluster are touched by its own passes alone. *)
Lemma footprint_cluster s j hdb key :
  private_store s -> footprint (st_con s) j key ->
  (exists t, key = key_of hdb t) \/ key = (KHStreamDB, ObjectKey (hdb_Meta hdb)) -> j = (Clusters, ObjectKey (hdb_Meta hdb)).
Proof.
  intros Hp Hj Hkey. assert (cluster_name key) as Hcn by (destruct Hkey as [[t ->]| ->]; [by apply key_of_cluster_name|by unfold cluster_name]).
  destruct j as [[] req]; cbn [footprint fst snd] in Hj.
  - f_equal. destruct Hkey as [[t ->]| ->]; [symmetry; by eapply owns_key|].
    destruct Hj as [[= H]|([] & _ & H)]; done.
  - exfalso. destruct Hj as (con & stream & Hcon & Hin & k & Hk & ->).
    specialize (Hp _ _ Hcon). rewrite Forall_forall in Hp. by apply (stream_not_cluster k con stream Hk (Hp _ Hin)).
  - exfalso. rewrite Hj in Hcn. by apply template_not_cluster in Hcn.
Qed.

(** ** Turns *)

(** One pass after another, each for some key of some controller, and in its weather. After a pass
    that panics the restarted process goes on with the store as it is. *)
Fixpoint turns (ts : list (weather * task)) (s : store) : list (go Result * list event) * store :=
  match ts with
  | [] => ([], s)
  | (wx, j) :: ts' =>
      let '(o, tr, s1) := run (ideal wx) (pass_for j) s in
      let '(rest, s2) := turns ts' s1 in
      ((o, tr) :: rest, s2)
  end.

Lemma turns_app ts1 ts2 s out1 s1 out2 s2 :
  turns ts1 s = (out1, s1) -> turns ts2 s1 = (out2, s2) -> turns (ts1 ++ ts2) s = (out1 ++ out2, s2).
Proof.
  revert s out1. induction ts1 as [|[wx j] ts1 IH]; intros s out1; [by intros [= <- <-]|]. cbn [turns app].
  destruct (run (ideal wx) (pass_for j) s) as [[o tr] s']. destruct (turns ts1 s') as [rest s''] eqn:E.
  intros [= <- ->] H2. by rewrite (IH s' rest E H2).
Qed.

(** How many of them are for the key. *)
Definition turns_of (j : task) (ts : list (weather * task)) : nat :=
  length (filter (fun t => snd t = j) ts).

(** Where the cluster [hdb] is [n] turns of its own after the store was [s0]. *)
Definition stands (s0 : store) (n : nat) (h : HStreamDB) (s : store) : Prop :=
  match n with
  | 0 => progress s0 [] [] h s
  | 1 => bootstrapped s0 h s \/ converged s0 h s
  | _ => converged s0 h s
  end.

Definition after_turns (s0 : store) (hdb : HStreamDB) (n : nat) (s : store) : Prop :=
  recovered s /\ private_store s /\
  exists h, later hdb h /\ st_hdb s !! ObjectKey (hdb_Meta hdb) = Some h /\ stands s0 n h s.

(** What others leave alone stays as it is. *)
Lemma progress_same s0 L P h s s' :
  healthy h s' -> (forall t, objs (fst (key_of h t)) s' !! snd (key_of h t) = objs (fst (key_of h t)) s !! snd (key_of h t)) ->
  progress s0 L P h s -> progress s0 L P h s'.
Proof.
  intros Hh Hsame [_ HL HP Hrest]. split; [done| | |].
  - intros sub R Hin wx h2 Hl2. eapply reads_same; [by apply HL|]. by intros key (t & -> & _)%list_elem_of_fmap.
  - intros t Ht Ha. eapply current_same; [|by apply HP]. by intros t' _.
  - intros t Ht. rewrite <-Hrest by done. by apply find_same.
Qed.

Lemma stands_same s0 n h s s' :
  healthy h s' -> (forall t, objs (fst (key_of h t)) s' !! snd (key_of h t) = objs (fst (key_of h t)) s !! snd (key_of h t)) ->
  stands s0 n h s -> stands s0 n h s'.
Proof.
  intros Hh Hsame. assert (forall L P, progress s0 L P h s -> progress s0 L P h s') as Hp by (intros L P; by apply progress_same).
  unfold stands, bootstrapped, converged. destruct n as [|[|n]]; [auto|intros [[? ?]|[? ?]]; [left|right]; auto|intros [? ?]; auto].
Qed.

(** The turn of another key. *)
Lemma other_turn wx j s0 hdb n s o tr s' :
  j <> (Clusters, ObjectKey (hdb_Meta hdb)) -> run (ideal wx) (pass_for j) s = (o, tr, s') ->
  after_turns s0 hdb n s -> after_turns s0 hdb n s'.
Proof.
  intros Hne Hrun (Hs & Hp & h & Hl & Hh & Hst). destruct (ideal_pass _ _ _ _ _ _ Hrun Hs Hp) as [Hs' Hw].
  assert (forall key, (exists t, key = key_of h t) \/ key = (KHStreamDB, ObjectKey (hdb_Meta h)) ->
    ~ footprint (st_con s) j key) as Hfree.
  { intros key Hkey Hj. apply Hne. rewrite <-(lt_meta _ _ Hl). by eapply footprint_cluster. }
  assert (st_hdb s' !! ObjectKey (hdb_Meta hdb) = Some h) as Hh'.
  { rewrite <-Hh. apply (within_lookup _ _ _ KHStreamDB _ Hw), Hfree. right. by rewrite (lt_meta _ _ Hl). }
  split; [done|]. split; [unfold private_store; by rewrite (proj1 (within_con _ _ _ _ Hw))|].
  exists h. split_and!; [done|done|]. eapply stands_same; [by eapply recovered_healthy| |exact Hst].
  intros t. apply (within_lookup _ _ _ _ _ Hw), Hfree. left. exists t. symmetry. apply surjective_pairing.
Qed.

Lemma stands_healthy s0 n h s : stands s0 n h s -> healthy h s.
Proof.
  destruct n as [|[|n]]; [by intros Hp; eapply pg_healthy| |intros [Hp _]; by eapply pg_healthy].
  intros [[Hp _]|[Hp _]]; by eapply pg_healthy.
Qed.

(** A pass of the cluster's own takes it a turn further. *)
Lemma own_pass wx s0 h n s :
  valid_spec h -> nodes_ready wx -> stands s0 n h s ->
  exists r tr h2 s', run (ideal wx) (Reconcile (P := adminClientProvider) (ObjectKey (hdb_Meta h))) s = (Done r, tr, s') /\
    res_err r = None /\ (2 <= n -> r = complete /\ writes tr = []) /\ later h h2 /\ stands s0 (S n) h2 s'.
Proof.
  intros Hv Hwx Hst. pose proof (stands_healthy _ _ _ _ Hst) as Hh. pose proof (valid_buildable _ Hv) as Hb.
  assert (converged s0 h s -> exists r tr h2 s',
    run (ideal wx) (Reconcile (P := adminClientProvider) (ObjectKey (hdb_Meta h))) s = (Done r, tr, s') /\
    res_err r = None /\ (2 <= n -> r = complete /\ writes tr = []) /\ later h h2 /\ converged s0 h2 s') as Hdone.
  { intros Hc. destruct (converged_pass wx s0 h s Hwx Hc) as (tr & h2 & Hrun & Hw & Hl2 & Hc2).
    exists complete, tr, h2, (put_hdb h2 s). by split_and!. }
  destruct n as [|[|n]]; [|destruct Hst as [Hst|Hst]; [|by apply Hdone]|by apply Hdone].
  - destruct (pass_ends wx s0 h s Hb Hwx Hst) as (r & tr & s' & Hrun & h2 & Hl2 & Hpost).
    apply (Reconcile_run _ _ _ _ _ _ Hh) in Hrun. eexists r, _, h2, s'. split; [exact Hrun|].
    destruct Hpost as [(-> & Hc)|(-> & _ & Hbs)]; (split_and!; [done|lia|done|]); [by right|by left].
  - destruct (pass_completes wx s0 h s Hb Hwx Hst) as (r & tr & s' & Hrun & -> & h2 & Hl2 & Hc).
    apply (Reconcile_run _ _ _ _ _ _ Hh) in Hrun. eexists complete, _, h2, s'. split; [exact Hrun|].
    split_and!; [done|lia|done|done].
Qed.

(** The turn of the cluster. *)
Lemma own_turn wx s0 hdb n s :
  valid_spec hdb -> nodes_ready wx -> after_turns s0 hdb n s ->
  exists r tr s', run (ideal wx) (pass_for (Clusters, ObjectKey (hdb_Meta hdb))) s = (Done r, tr, s') /\
    res_err r = None /\ (2 <= n -> r = complete /\ writes tr = []) /\ after_turns s0 hdb (S n) s'.
Proof.
  intros Hv Hwx (Hs & Hpr & h & Hl & Hh & Hst).
  assert (ObjectKey (hdb_Meta h) = ObjectKey (hdb_Meta hdb)) as Hk by by rewrite (lt_meta _ _ Hl).
  destruct (own_pass wx s0 h n s) as (r & tr & h2 & s' & Hrun & He & Hq & Hl2 & Hst2); [by eapply valid_later|done|done|].
  rewrite Hk in Hrun. exists r, tr, s'. split_and!; [exact Hrun|done|done|].
  destruct (ideal_pass wx (Clusters, _) _ _ _ _ Hrun Hs Hpr) as [? Hw]. split; [done|].
  split; [unfold private_store; by rewrite (proj1 (within_con _ _ _ _ Hw))|]. exists h2. split_and!; [by etrans| |done].
  pose proof (he_hdb _ _ (stands_healthy _ _ _ _ Hst2)) as H2. by rewrite (lt_meta _ _ Hl2), Hk in H2.
Qed.

(** A run of turns, seen by one cluster that has had [n] turns before. *)
Lemma turns_after s0 hdb ts n s :
  valid_spec hdb -> Forall (fun t => nodes_ready (fst t)) ts -> after_turns s0 hdb n s ->
  exists out s', turns ts s = (out, s') /\ after_turns s0 hdb (n + turns_of (Clusters, ObjectKey (hdb_Meta hdb)) ts) s' /\
    forall i wx, ts !! i = Some (wx, (Clusters, ObjectKey (hdb_Meta hdb))) ->
      exists r tr, out !! i = Some (Done r, tr) /\ res_err r = None /\
        (2 <= n + turns_of (Clusters, ObjectKey (hdb_Meta hdb)) (take i ts) -> r = complete /\ writes tr = []).
Proof.
  intros Hv Hts. revert n s. induction Hts as [|[wx j] ts Hwx _ IH]; intros n s Hs.
  { exists [], s. split; [done|]. split; [by rewrite Nat.add_0_r|]. intros i wx H. by rewrite lookup_nil in H. }
  unfold turns_of in *. cbn [turns]. destruct (decide (j = (Clusters, ObjectKey (hdb_Meta hdb)))) as [->|Hne].
  - destruct (own_turn wx s0 hdb n s Hv Hwx Hs) as (r & tr & s1 & Hrun & He & Hq & Hs1). rewrite Hrun.
    destruct (IH (S n) s1 Hs1) as (out & s' & -> & Hs' & Hout). eexists _, s'. split; [done|].
    rewrite filter_cons_True by done. split; [cbn [length]; by rewrite Nat.add_succ_r|].
    intros [|i] wx' Hi; [exists r, tr; split_and!; [done|done|]; simpl; intros; apply Hq; lia|].
    destruct (Hout i wx' Hi) as (r' & tr' & Ho & He' & Hq'). exists r', tr'. split_and!; [done|done|].
    cbn [take]. rewrite filter_cons_True by done. cbn [length]. intros Hn. apply Hq'. lia.
  - destruct (run (ideal wx) (pass_for j) s) as [[o tr] s1] eqn:Hrun.
    destruct (IH n s1) as (out & s' & -> & Hs' & Hout); [by eapply (other_turn wx j)|].
    eexists _, s'. split; [done|]. rewrite filter_cons_False by done. split; [done|].
    intros [|i] wx' Hi; [by injection Hi as -> ->|].
    destruct (Hout i wx' Hi) as (r' & tr' & Ho & He' & Hq'). exists r', tr'. split_and!; [done|done|].
    cbn [take]. by rewrite filter_cons_False.
Qed.

Lemma recovered_bring_up s : sound s -> store_ok s -> recovered (bring_up s).
Proof.
  intros Hs [H1 H2 H3 H4 H5]. split; [|by apply sound_bring_up|by apply running_bring_up]. split; try done. simpl.
  intros nn x. rewrite lookup_fmap. intros (y & Hy & ->)%fmap_Some. exact (H2 nn y Hy).
Qed.

(** *** Properties *)


End Schedule.
