(* ===== verification/Rollout.v ===== *)
(** * The connectors of an installation

    Beside the clusters of [Schedule], templates and connectors get their turns: once a template has
    had one and then a connector that names it, every stream of the connector is deployed, and
    nothing that clusters, other connectors and other templates do afterwards changes that. *)
From S2P Require Import Prelude GoStrings KubeTypes ApiTypes Effects RelyGuarantee Conditions FlagSet Naming Constants Merge Requeue Workload LogDevice Services Admin HMeta AdminServer HStore HServer Gateway Console Totality Bootstrap Server Status Controller Passes Footprint Operator Ideal Desired Settle Convergence Faults Connector Main Fleet Pipeline Schedule.

Section Rollout.
Context {KL : KubeLib} {G : Gabs} {SS : SortSlice} {AJ : AdminJson} {J : ConnectorJson}.

(** ** A connector and its template *)

Definition streams_of (con : Connector) : list string := elems (con_Streams (con_Spec con)).

(** The connector [con] at [creq] names the template [t] at [treq]; the configurations of its
    streams are [configs]; and no other stored connector makes a name of one of its objects. *)
Record paired (cons : gmap NamespacedName Connector) (creq treq : NamespacedName) (con : Connector)
    (t : ConnectorTemplate) (configs : list (gmap string jval)) : Prop := {
  pa_con : cons !! creq = Some con;
  pa_con_kept : meta_Deleted (con_Meta con) = false;
  pa_kept : meta_Deleted (ctpl_Meta t) = false;
  pa_namespace : con_Namespace con = nn_Namespace treq;
  pa_name : con_TemplateName (con_Spec con) = nn_Name treq;
  pa_configs : exists parsed, unmarshal_config (ctpl_Config (ctpl_Spec t)) = inr parsed /\
    stream_configs parsed (con_Patches (con_Spec con)) (streams_of con) = inr configs;
  pa_distinct : distinct (streams_of con);
  pa_private nn con' : cons !! nn = Some con' -> Forall private_stream (streams_of con');
  pa_apart nn con' stream' stream : cons !! nn = Some con' -> nn <> creq ->
    stream' ∈ streams_of con' -> stream ∈ streams_of con -> stream_key con' stream' <> stream_key con stream
}.

Context (cons : gmap NamespacedName Connector) (creq treq : NamespacedName) (con : Connector).
Context (t : ConnectorTemplate) (configs : list (gmap string jval)).
Hypothesis Hpaired : paired cons creq treq con t configs.

Definition tkey : NamespacedName := template_key (nn_Namespace treq) (nn_Name treq).

Lemma con_tkey : template_key (con_Namespace con) (con_TemplateName (con_Spec con)) = tkey.
Proof. by rewrite (pa_namespace _ _ _ _ _ _ Hpaired), (pa_name _ _ _ _ _ _ Hpaired). Qed.

(** The objects of the two. *)
Definition ours (key : Kind * NamespacedName) : Prop :=
  key = (KConfigMap, tkey) \/
  exists k stream, k ∈ [KConfigMap; KDeployment] /\ stream ∈ streams_of con /\ key = (k, stream_key con stream).

Lemma template_key_inj r1 r2 :
  template_key (nn_Namespace r1) (nn_Name r1) = template_key (nn_Namespace r2) (nn_Name r2) -> r1 = r2.
Proof.
  intros [= H1 H2]. apply string_app_inj_r in H2. destruct r1, r2. simpl in *. congruence.
Qed.

Lemma private_tkey con' stream r :
  private_stream stream -> stream_key con' stream <> template_key (nn_Namespace r) (nn_Name r).
Proof.
  intros Hs Heq. apply (private_name con' stream (nn_Name r) "-hct" Hs); [by repeat constructor|].
  by rewrite Heq.
Qed.

(** Only their own passes touch them. *)
Lemma footprint_ours j key : footprint cons j key -> ours key -> j = (Connectors, creq) \/ j = (Templates, treq).
Proof.
  intros Hj Hkey.
  assert (Forall private_stream (streams_of con)) as Hpriv by (eapply pa_private; [done|by apply Hpaired]).
  rewrite Forall_forall in Hpriv. destruct j as [[] req]; cbn [footprint fst snd] in Hj.
  - exfalso. apply owns_cluster_name in Hj. destruct Hkey as [->|(k & stream & Hk & Hin & ->)].
    + by apply template_not_cluster in Hj.
    + by apply stream_not_cluster in Hj; [|done|apply Hpriv].
  - left. f_equal. destruct Hj as (con' & stream' & Hcon' & Hin' & k' & _ & ->).
    pose proof (pa_private _ _ _ _ _ _ Hpaired _ _ Hcon') as Hpriv'. rewrite Forall_forall in Hpriv'.
    destruct (decide (req = creq)) as [|Hne]; [done|exfalso].
    destruct Hkey as [H|(k & stream & _ & Hin & H)]; apply (f_equal snd) in H; cbn [snd] in H.
    + by apply (private_tkey con' stream' treq (Hpriv' _ Hin')).
    + by apply (pa_apart _ _ _ _ _ _ Hpaired _ _ _ _ Hcon' Hne Hin' Hin).
  - right. f_equal. subst key. destruct Hkey as [H|(k & stream & _ & Hin & H)]; apply (f_equal snd) in H; cbn [snd] in H.
    + by apply template_key_inj.
    + exfalso. by apply (private_tkey con stream req (Hpriv _ Hin)).
Qed.

(** ** Stages *)

(** A stream is deployed, at the latest when [m], or nothing of it is there. *)
Definition on_way (m : bool) (s : store) (stream : string) (config : gmap string jval) : Prop :=
  deployed con stream config s \/
  m = false /\ st_cm s !! stream_key con stream = None /\ st_dep s !! stream_key con stream = None.

(** The template's config map is stored, at the latest when [n]; the streams are deployed, at the
    latest when [m]. *)
Record stage (n m : bool) (s : store) : Prop := {
  sg_recovered : recovered s;
  sg_con : st_con s = cons;
  sg_template : st_ctpl s !! treq = Some t;
  sg_config : match st_cm s !! tkey with
    | Some cm => mstr (cm_Data cm) "config" = ctpl_Config (ctpl_Spec t)
    | None => n = false
    end;
  sg_streams : Forall2 (on_way m s) (streams_of con) configs
}.

Lemma stage_weaken n m n' m' s :
  (n = true -> n' = true) -> (m = true -> m' = true) -> stage n' m' s -> stage n m s.
Proof.
  intros Hn Hm [H1 H2 H3 H4 H5]. split; try done.
  - destruct (st_cm s !! tkey); [done|]. subst n'. destruct n; [by specialize (Hn eq_refl)|done].
  - eapply Forall2_impl; [exact H5|]. intros stream config [?|[? ?]]; [by left|right]. subst m'.
    split; [|done]. destruct m; [by specialize (Hm eq_refl)|done].
Qed.

Lemma stage_private n m s : stage n m s -> private_store s.
Proof. intros Hs nn con' Hcon. rewrite (sg_con _ _ _ Hs) in Hcon. by eapply pa_private. Qed.

Lemma streams_same m s s' :
  (forall k stream, k ∈ [KConfigMap; KDeployment] -> stream ∈ streams_of con ->
     objs k s' !! stream_key con stream = objs k s !! stream_key con stream) ->
  Forall2 (on_way m s) (streams_of con) configs -> Forall2 (on_way m s') (streams_of con) configs.
Proof.
  intros Hsame [Hlen Hst]%Forall2_same_length_lookup. apply Forall2_same_length_lookup. split; [done|].
  intros i stream config H1 H2. assert (stream ∈ streams_of con) as Hin by by eapply list_elem_of_lookup_2.
  assert (st_cm s' !! stream_key con stream = st_cm s !! stream_key con stream) as E1
    by (apply (Hsame KConfigMap); [by repeat constructor|done]).
  assert (st_dep s' !! stream_key con stream = st_dep s !! stream_key con stream) as E2
    by (apply (Hsame KDeployment); [by repeat constructor|done]).
  specialize (Hst i stream config H1 H2). unfold on_way, deployed in *. by rewrite E1, E2.
Qed.

Lemma stage_pass wx j n m s o tr s' :
  stage n m s -> run (ideal wx) (pass_for j) s = (o, tr, s') ->
  recovered s' /\ st_con s' = cons /\ st_ctpl s' !! treq = Some t /\ within (footprint cons j) s s'.
Proof.
  intros Hs Hrun. destruct (ideal_pass _ _ _ _ _ _ Hrun (sg_recovered _ _ _ Hs) (stage_private _ _ _ Hs)) as [Hr Hw].
  destruct (within_con _ _ _ _ Hw) as [Hc Ht]. rewrite (sg_con _ _ _ Hs) in Hc, Hw. rewrite Hc, Ht.
  split_and!; [done|done|apply Hs|done].
Qed.

(** The turn of another key. *)
Lemma stage_other wx j n m s o tr s' :
  j <> (Connectors, creq) -> j <> (Templates, treq) -> stage n m s -> run (ideal wx) (pass_for j) s = (o, tr, s') ->
  stage n m s'.
Proof.
  intros Hc Ht Hs Hrun. destruct (stage_pass _ _ _ _ _ _ _ _ Hs Hrun) as (Hr & Hcon & Htpl & Hw).
  assert (forall k nn, ours (k, nn) -> objs k s' !! nn = objs k s !! nn) as Hsame.
  { intros k nn Ho. apply (within_lookup _ _ _ k nn Hw). intros Hf. by destruct (footprint_ours _ _ Hf Ho). }
  split; [done|done|done| |].
  - assert (st_cm s' !! tkey = st_cm s !! tkey) as -> by (apply (Hsame KConfigMap tkey); by left). apply Hs.
  - eapply streams_same; [|apply Hs]. intros k stream Hk Hin. apply Hsame. right. by exists k, stream.
Qed.

(** The turn of the template. *)
Lemma stage_template wx n m s :
  stage n m s -> exists tr s', run (ideal wx) (pass_for (Templates, treq)) s = (Done (result None), tr, s') /\
    (n = true -> s' = s /\ writes tr = []) /\ stage true m s'.
Proof.
  intros Hs.
  destruct (runs_template wx treq t s (sg_template _ _ _ Hs) (pa_kept _ _ _ _ _ _ Hpaired)) as (tr & s' & Hrun & Hc & cm & Hcm & Hold).
  fold tkey in Hc, Hcm, Hold.
  destruct (stage_pass wx (Templates, treq) _ _ _ _ _ _ Hs Hrun) as (Hr & Hcon & Htpl & _).
  pose proof (sg_config _ _ _ Hs) as Hcfg. exists tr, s'. split; [exact Hrun|]. split.
  { intros ->. by destruct (st_cm s !! tkey); [destruct Hold as (? & _ & ?)|]. }
  split; [done|done|done| |].
  - rewrite Hcm. destruct (st_cm s !! tkey) as [old|] in Hcfg, Hold |- *; [by destruct Hold as (_ & -> & _)|].
    by rewrite Hold, mstr_Some, lookup_singleton_eq.
  - eapply streams_same; [|apply Hs]. intros k stream _ Hin. apply Hc.
    intros H%list_elem_of_singleton. apply (f_equal snd) in H. cbn [snd] in H.
    assert (Forall private_stream (streams_of con)) as Hp by (eapply pa_private; [done|by apply Hpaired]).
    rewrite Forall_forall in Hp. by apply (private_tkey con stream treq (Hp _ Hin)).
Qed.

(** The turn of the connector before the template is stored: it fails and changes nothing. *)
Lemma connector_waits wx s :
  st_con s !! creq = Some con -> st_cm s !! tkey = None ->
  exists tr, run (ideal wx) (pass_for (Connectors, creq)) s = (Done (result (Some not_found)), tr, s) /\ writes tr = [].
Proof.
  intros Hcon Hcm. eexists. split.
  - cbn [pass_for fst snd registered reg_Reconcile ConnectorReconciler_SetupWithManager]. unfold ConnectorReconciler_Reconcile.
    apply (runs_do wx (CGet KConnector creq) _ s (inr con) s); [cbn [ideal objs obj_of]; by rewrite Hcon|].
    cbn [prog_bind]. rewrite (pa_con_kept _ _ _ _ _ _ Hpaired). unfold mergePatchesIntoConfigs. cbn [prog_bind kube_Get].
    change {| nn_Namespace := con_Namespace con; nn_Name := _ |} with
      (template_key (con_Namespace con) (con_TemplateName (con_Spec con))). rewrite con_tkey.
    apply (runs_do wx (CGet KConfigMap tkey) _ s (inl not_found) s); [cbn [ideal objs obj_of]; by rewrite Hcm|].
    apply runs_ret.
  - done.
Qed.

(** Every stream that is on its way gets deployed. *)
Lemma deployed_after s s' :
  Forall2 (on_way false s) (streams_of con) configs ->
  Forall (fun x => rolled_out con (fst x) (snd x) s s') (zip (streams_of con) configs) ->
  Forall2 (on_way true s') (streams_of con) configs.
Proof.
  intros [Hlen Hst]%Forall2_same_length_lookup Hf. apply Forall2_same_length_lookup. split; [done|].
  intros i stream config H1 H2. left. specialize (Hst i stream config H1 H2).
  rewrite Forall_forall in Hf. specialize (Hf (stream, config)). cbn [fst snd] in Hf.
  assert ((stream, config) ∈ zip (streams_of con) configs) as Hin.
  { eapply list_elem_of_lookup_2. by apply lookup_zip_Some. }
  specialize (Hf Hin). unfold rolled_out in Hf. destruct Hst as [[(cm & Hcm & Hm) Hd]|(_ & Hcm & _)]; rewrite Hcm in Hf; [|done].
  destruct Hf as [E1 E2]. split; [by exists cm|]. by rewrite E2.
Qed.

Lemma configs_length : length configs = length (streams_of con).
Proof. destruct (pa_configs _ _ _ _ _ _ Hpaired) as (parsed & _ & Hcs). by eapply stream_configs_length. Qed.

(** The turn of the connector. *)
Lemma stage_connector wx n m s :
  stage n m s -> exists r tr s', run (ideal wx) (pass_for (Connectors, creq)) s = (Done r, tr, s') /\
    (n = true -> r = result None) /\ (m = true -> s' = s /\ writes tr = []) /\ stage n (m || n) s'.
Proof.
  intros Hs. pose proof (sg_con _ _ _ Hs) as Hcons. pose proof (pa_con _ _ _ _ _ _ Hpaired) as Hcon. rewrite <-Hcons in Hcon.
  pose proof (sg_config _ _ _ Hs) as Hcfg.
  destruct (st_cm s !! tkey) as [cm|] eqn:Hcm.
  2:{ destruct (connector_waits wx s Hcon Hcm) as (tr & Hrun & Hw). subst n. rewrite orb_false_r. by eexists _, tr, s. }
  destruct (pa_configs _ _ _ _ _ _ Hpaired) as (parsed & Hp & Hcs).
  assert (connector_ready creq con (ctpl_Config (ctpl_Spec t)) s) as Hready.
  { split; [done|]. split; [apply Hpaired|]. exists cm. by rewrite con_tkey. }
  assert ((zip (streams_of con) configs).*1 = streams_of con) as Hzip by by (apply fst_zip; rewrite configs_length).
  destruct m.
  - destruct (reads_connector_loop wx con (zip (streams_of con) configs) s) as (tr & Hr & Hw).
    { rewrite Hzip. intros stream [i Hi]%list_elem_of_lookup_1.
      destruct (Forall2_lookup_l _ _ _ _ _ (sg_streams _ _ _ Hs) Hi) as (config & _ & [[(cm' & H & _) _]|[? _]]); [by exists cm'|done]. }
    destruct (runs_connector wx creq con _ parsed configs s _ tr s Hready Hp Hcs Hr) as (tr' & Hr' & Hw').
    eexists _, tr', s. split; [exact Hr'|]. split; [done|]. split; [by rewrite Hw'|done].
  - destruct (runs_connector_loop wx con (zip (streams_of con) configs) s) as (tr & s' & Hr & Hc & Hf).
    { rewrite Hzip. apply Hpaired. }
    { rewrite Hzip. intros stream [i Hi]%list_elem_of_lookup_1.
      destruct (Forall2_lookup_l _ _ _ _ _ (sg_streams _ _ _ Hs) Hi) as (config & _ & [[(cm' & H & _) _]|(_ & _ & ?)]); [|done].
      intros H'. congruence. }
    destruct (runs_connector wx creq con _ parsed configs s _ tr s' Hready Hp Hcs Hr) as (tr' & Hr' & _).
    destruct (stage_pass wx (Connectors, creq) _ _ _ _ _ _ Hs Hr') as (Hrec & Hcon' & Htpl & _).
    eexists _, tr', s'. split; [exact Hr'|]. split; [done|]. split; [done|].
    assert (st_cm s' !! tkey = Some cm) as Hcm'.
    { rewrite <-Hcm. apply (Hc KConfigMap). rewrite Hzip. intros (stream & Hin & H)%stream_objects_elem.
      assert (Forall private_stream (streams_of con)) as Hpr by (eapply pa_private; [done|by apply Hpaired]).
      rewrite Forall_forall in Hpr. by apply (private_tkey con stream treq (Hpr _ Hin)). }
    split; [done|done|done|by rewrite Hcm'|].
    assert (Forall2 (on_way true s') (streams_of con) configs) as Hall by by (eapply deployed_after; [apply Hs|]).
    eapply Forall2_impl; [exact Hall|]. intros stream config [?|[? _]]; [by left|done].
Qed.

(** ** Any turns *)

Lemma stage_turns ts n m s : stage n m s -> stage n m (snd (turns ts s)).
Proof.
  revert s. induction ts as [|[wx j] ts IH]; intros s Hs; [done|]. cbn [turns].
  destruct (run (ideal wx) (pass_for j) s) as [[o tr] s1] eqn:Hrun.
  assert (stage n m s1) as Hs1.
  { destruct (decide (j = (Connectors, creq))) as [->|Hc].
    { destruct (stage_connector wx n m s Hs) as (r & tr' & s' & Hrun' & _ & _ & Hs'). rewrite Hrun in Hrun'.
      injection Hrun' as -> -> ->. eapply stage_weaken; [| |exact Hs']; [done|by intros ->]. }
    destruct (decide (j = (Templates, treq))) as [->|Ht].
    { destruct (stage_template wx n m s Hs) as (tr' & s' & Hrun' & _ & Hs'). rewrite Hrun in Hrun'.
      injection Hrun' as -> -> ->. by eapply stage_weaken; [| |exact Hs']. }
    by eapply stage_other. }
  specialize (IH s1 Hs1). by destruct (turns ts s1).
Qed.

(** A turn of the template, and some time later one of the connector. *)
Lemma stage_rolled_out wx1 wx2 ts1 ts2 ts3 s :
  stage false false s ->
  stage true true (snd (turns (ts1 ++ (wx1, (Templates, treq)) :: ts2 ++ (wx2, (Connectors, creq)) :: ts3) s)).
Proof.
  intros Hs. destruct (turns ts1 s) as [out1 s1] eqn:E1.
  assert (stage false false s1) as Hs1 by (pose proof (stage_turns ts1 _ _ _ Hs) as H; by rewrite E1 in H).
  destruct (stage_template wx1 _ _ _ Hs1) as (tr2 & s2 & E2 & _ & Hs2).
  destruct (turns ts2 s2) as [out3 s3] eqn:E3.
  assert (stage true false s3) as Hs3 by (pose proof (stage_turns ts2 _ _ _ Hs2) as H; by rewrite E3 in H).
  destruct (stage_connector wx2 _ _ _ Hs3) as (r & tr4 & s4 & E4 & _ & _ & Hs4).
  destruct (turns ts3 s4) as [out5 s5] eqn:E5.
  assert (turns ((wx2, (Connectors, creq)) :: ts3) s3 = ((Done r, tr4) :: out5, s5)) as E6 by by (cbn [turns]; rewrite E4, E5).
  pose proof (turns_app _ _ _ _ _ _ _ E3 E6) as E7.
  assert (turns ((wx1, (Templates, treq)) :: ts2 ++ (wx2, (Connectors, creq)) :: ts3) s1 =
    ((Done (result None), tr2) :: out3 ++ (Done r, tr4) :: out5, s5)) as E8 by by (cbn [turns]; rewrite E2, E7).
  rewrite (turns_app _ _ _ _ _ _ _ E1 E8). pose proof (stage_turns ts3 _ _ _ Hs4) as H. by rewrite E5 in H.
Qed.

End Rollout.

(** *** Properties *)

