(* ===== verification/Witnesses.v ===== *)
(** * Concrete runs

    A small cluster, a concrete environment, and for every theorem with hypotheses an instance
    that meets them: the hypotheses can hold together, and the definitions evaluate. *)
From S2P Require Import Prelude GoStrings KubeTypes ApiTypes Effects Conditions FlagSet Naming Constants Merge Requeue Workload LogDevice Services Admin HMeta AdminServer HStore HServer Gateway Console Bootstrap Status Controller Connector.

(** ** Concrete libraries

    The hash of an object is its number of replicas or ports: enough to see some changes of the spec. *)

#[export] Instance sample_KubeLib : KubeLib := {|
  intstr_IntVal s := default 0%Z (Atoi s);
  hashstructure_Hash o :=
    match o with
    | OStatefulSet x => default 0%Z (sts_Replicas (sts_Spec x))
    | ODeployment x => default 0%Z (dep_Replicas (dep_Spec x))
    | OService x => Z.of_nat (length (elems (svc_Ports (svc_Spec x))))
    | OConfigMap _ => 0%Z
    end;
  resource_MustParse _ := 137438953472%Z |}.

#[export] Instance sample_Gabs : Gabs := {|
  gabs_Value := string;
  gabs_ParseJSON s := inr s;
  gabs_MergeFn f a b := inr (f a b);
  gabs_String s := s |}.

#[export] Instance sample_AdminJson : AdminJson := {|
  unmarshal_nodes _ := inr (Some {["1" := {| admin.Reachable := true; admin.Leader := true; admin.Error := "" |}]}) |}.

#[export] Instance sample_ConnectorJson : ConnectorJson := {|
  jval := string; jstring s := s;
  unmarshal_config s := inr (Some {["index" := s]});
  unmarshal_patches _ := inr (Some {["s1" := Some {["index" := "patched"]}]});
  marshal_config _ _ := "{}" |}.

(** ** A cluster *)

Definition sample_meta (name : string) : ObjectMeta := meta_set_Namespace "ns" (meta_set_Name name meta_zero).

Definition sample_component (replicas : Z) (args : slice string) : Component := {|
  comp_Image := "image"; comp_ImagePullPolicy := ""; comp_Replicas := replicas; comp_Volumes := None;
  comp_InitContainers := None; comp_SidecarContainers := None; comp_Container := ctr_set_Args args ctr_zero;
  comp_NodeSelector := None; comp_NodeName := ""; comp_PodSecurityContext := None; comp_Affinity := None;
  comp_Tolerations := None; comp_VolumeClaimTemplate := None |}.

Definition sample_gateway : Gateway :=
  {| gw_Component := sample_component 1 None; gw_Endpoint := "example.com"; gw_Port := 14789; gw_SecretRef := None |}.

Definition sample_hdb (hmetaArgs : slice string) (conditions : list Condition) : HStreamDB := {|
  hdb_Meta := sample_meta "db";
  hdb_Spec := {|
    spec_ExternalHMeta := None;
    spec_Config := {| cfg_MetadataReplicateAcross := None; cfg_NShards := 2; cfg_LogDeviceConfig := "" |};
    spec_Gateway := None; spec_Console := None;
    spec_AdminServer := sample_component 1 None; spec_HServer := sample_component 3 (Some ["--port"; "7000"]);
    spec_HStore := sample_component 3 None; spec_HMeta := sample_component 1 hmetaArgs |};
  hdb_Status := {| status_Conditions := Some conditions; status_HMeta := {| hms_Nodes := None; hms_Version := "" |} |} |}.

(** A new cluster, and one that is past its bootstrap. *)
Definition new_hdb : HStreamDB := sample_hdb None [].
Definition up_hdb : HStreamDB :=
  sample_hdb None [ready_condition HStoreReady ""; ready_condition HServerReady ""].

Definition sample_sts (nn : NamespacedName) : StatefulSet := {|
  sts_Meta := meta_set_Namespace (nn_Namespace nn) (meta_set_Name (nn_Name nn) meta_zero);
  sts_Spec := {|
    sts_Replicas := Some 3%Z; sts_ServiceName := ""; sts_Selector := None; sts_PodManagementPolicy := "";
    sts_Template := {| tpl_Meta := meta_zero; tpl_Spec := pod_spec None (sample_component 1 None) None None |};
    sts_VolumeClaimTemplates := None; sts_UpdateStrategy := None; sts_MinReadySeconds := 0; sts_rest := None |};
  sts_readyReplicas := 3 |}.

Definition missing_error : go_error := {| err_reason := ReasonNotFound; err_msg := "not found" |}.
Definition other_error : go_error := new_error "timeout".

(** An environment in which the cluster [hdb] comes up: its stateful sets run, everything else
    does not exist yet, and every write is accepted. *)
Definition answer (hdb : HStreamDB) (c : call) : resp c :=
  match c with
  | CGet k nn =>
      match k return go_error + obj_of k with
      | KHStreamDB => inr hdb
      | KStatefulSet => inr (sample_sts nn)
      | _ => inl missing_error
      end
  | CCreate _ => None
  | CUpdate _ => None
  | CStatusUpdate hdb => inr hdb
  | CSetOwner _ m => inr (meta_OwnerReferences m)
  | CEvent _ _ => tt
  | CNow => 5%Z
  | CRange _ => []
  | CNewClientset => None
  | CListPods _ _ => inr ["pod"]
  | CNewExecutor _ _ => None
  | CStream _ _ _ => (None, "ok", "")
  | CServiceProxy _ _ _ => inr "nodes"
  end.

Definition environment (hdb : HStreamDB) : handler unit := fun c w => (answer hdb c, w).

Definition sample_key : NamespacedName := {| nn_Namespace := "ns"; nn_Name := "db" |}.

(** ** The controller *)

Lemma Reconcile_never_lost_witness :
  let p := Reconcile (P := adminClientProvider) sample_key in
  let tr := run_trace (environment up_hdb) p tt in
  exists r, run_result (environment up_hdb) p tt = Done r /\
  (retried r \/
   (exists err, IsNotFound err = true /\ tr = [Ev (CGet KHStreamDB sample_key) (inl err)]) \/
   (exists tr' hdb0 hdb', IsConditionTrue hdb' Ready = true /\
      tr = tr' ++ [Ev (CStatusUpdate hdb0) (inr hdb'); Ev (CEvent "ReconciliationComplete" "") tt])).
Proof.
  intros p tr. pose proof (run_self (environment up_hdb) p tt) as H.
  assert (run_result (environment up_hdb) p tt = Done (result None)) as Hr by (vm_compute; reflexivity).
  exists (result None). split; [exact Hr|]. apply (Reconcile_never_lost (P := adminClientProvider) sample_key).
  rewrite Hr in H. exact H.
Defined.


(** ** The status *)

Definition ready_false : Condition := mkCondition Ready ConditionFalse "AllComponentsNotReady" "".

Lemma up_hdb_ok : conditions_ok up_hdb.
Proof. apply (bool_decide_unpack _). vm_compute. exact I. Qed.

Lemma new_hdb_ok : conditions_ok new_hdb.
Proof. apply (bool_decide_unpack _). vm_compute. exact I. Qed.

Lemma updateStatus_records_witness :
  let hdb' := SetCondition_at 5 up_hdb ready_false in
  let tr := [Ev (CRange 0) []; Ev CNow 5%Z; Ev (CStatusUpdate hdb') (inr hdb')] in
  conditions_ok hdb' /\
  IsConditionTrue hdb' Ready =
    IsConditionTrue up_hdb HMetaReady && IsConditionTrue up_hdb HStoreReady && IsConditionTrue up_hdb HServerReady /\
  (forall t, t <> Ready ->
     IsConditionTrue hdb' t = bool_decide (t ∈ (componentsMap up_hdb).*2) || IsConditionTrue up_hdb t) /\
  (forall ct, ct ∈ (componentsMap up_hdb).*1 ->
     exists d, Ev (CGet KDeployment (deployment_key ct up_hdb)) (inr d) ∈ tr).
Proof.
  intros hdb' tr.
  apply (updateStatus_records up_hdb tr (run_result (environment up_hdb) (updateStatus_reconcile up_hdb) tt)
           hdb' (inr hdb')).
  - exact up_hdb_ok.
  - exact (run_self (environment up_hdb) (updateStatus_reconcile up_hdb) tt).
  - apply list_elem_of_In. right. right. left. reflexivity.
Defined.


(** ** The pattern of the workloads *)

Definition desired_sts : StatefulSet :=
  sts_set_Meta (meta_set_Annotations (Some {[LastSpecKey := "7"]}) (sts_Meta (sample_sts sample_key)))
    (sample_sts sample_key).

(** One update of the stateful set: it carries no hash yet. *)
Definition ensure_sample : prog (option requeue * HStreamDB) :=
  ensureWorkload (k := KStatefulSet) new_hdb "Updating" desired_sts (copy_sts_fields desired_sts).

Lemma ensureWorkload_contract_witness :
  exists r, run_result (environment new_hdb) ensure_sample tt = Done (requeue_error <$> r, new_hdb) /\
    ensured (k := KStatefulSet) (hdb_Meta new_hdb) desired_sts
      (fun existing o => o = mg_obj (k := KStatefulSet) (copy_sts_fields desired_sts existing))
      (run_trace (environment new_hdb) ensure_sample tt) r /\
    length (writes (run_trace (environment new_hdb) ensure_sample tt)) <= 1 /\
    Forall (fun o => last_spec (kobj_meta o) = last_spec (mg_meta (k := KStatefulSet) desired_sts))
      (writes (run_trace (environment new_hdb) ensure_sample tt)).
Proof.
  apply (ensureWorkload_contract (k := KStatefulSet) new_hdb "Updating" desired_sts (copy_sts_fields desired_sts)).
  - intros existing. reflexivity.
  - apply run_self.
Defined.

(** The first run updates a stale object; the second finds what it wrote. *)
Lemma ensureWorkload_idempotent_witness :
  let written := copy_sts_fields desired_sts (sample_sts sample_key) in
  let tr := run_trace (environment new_hdb) ensure_sample tt in
  let found := Ev (CGet KStatefulSet (ObjectKey (mg_meta (k := KStatefulSet) desired_sts))) (inr written) in
  writes tr = [OStatefulSet written] /\ Ev (CUpdate (OStatefulSet written)) None ∈ tr /\
  exec ensure_sample [found] (Done (None, new_hdb)) /\
  (forall tr2 o2, exec ensure_sample (found :: tr2) o2 -> tr2 = [] /\ o2 = Done (None, new_hdb)).
Proof.
  intros written tr found.
  assert (OStatefulSet written ∈ writes tr) as Hw by (apply list_elem_of_In; vm_compute; left; reflexivity).
  split; [vm_compute; reflexivity|]. split; [apply list_elem_of_In; vm_compute; tauto|].
  split; [exists (inr written), []; split; [reflexivity|split; reflexivity]|].
  intros tr2 o2 H.
  exact (ensureWorkload_idempotent (k := KStatefulSet) new_hdb "Updating" desired_sts (copy_sts_fields desired_sts)
           tr (run_result (environment new_hdb) ensure_sample tt) (OStatefulSet written) written tr2 o2
           (brings_fields desired_sts) (run_self _ _ _) Hw eq_refl H).
Defined.

(** ** HStore *)

Lemma sts_updates_keep_identity_witness :
  let p := addHStore.reconcile new_hdb in
  exists n, forall desired, addHStore.getSts new_hdb n = Done desired ->
    identity_kept (run_trace (environment new_hdb) p tt) desired.
Proof.
  intros p. apply (sts_updates_keep_identity new_hdb _ (run_result (environment new_hdb) p tt)). apply run_self.
Defined.

Definition nshards_map : ConfigMap :=
  {| cm_Meta := sample_meta "db-nshards"; cm_Data := Some {[NShardsConfigKey := Itoa (GetMinNShards new_hdb)]} |}.

Lemma nshards_stable_witness : 2%Z = GetMinNShards new_hdb /\ 2%Z <> 0%Z.
Proof.
  apply (nshards_stable up_hdb new_hdb nshards_map [Ev (CRange 1) []] 2).
  - split; vm_compute; [intros H; discriminate H|reflexivity].
  - reflexivity.
  - exists (inr nshards_map), [Ev (CRange 1) []]. split; [reflexivity|].
    exists [], []. split; [reflexivity|]. split; [reflexivity|]. vm_compute. reflexivity.
Defined.

Lemma shard_mounts_witness :
  exists sts, addHStore.getSts new_hdb 2 = Done sts /\
  exists c rest shards,
    elems (pod_Containers (tpl_Spec (sts_Template (sts_Spec sts)))) = c :: rest /\
    elems (ctr_VolumeMounts c) = elems (ctr_VolumeMounts (comp_Container (spec_HStore (hdb_Spec new_hdb)))) ++
      [GetLogDeviceConfigVolumeMount new_hdb; GetNShardsConfigVolumeMount new_hdb] ++ shards /\
    shards = addHStore.shard_mount new_hdb <$> seqZ 0 2 /\
    NoDup (vm_MountPath <$> shards) /\
    Forall (fun m =>
      match comp_VolumeClaimTemplate (spec_HStore (hdb_Spec new_hdb)) with
      | Some _ => vm_Name m ∈ (fun pvc => meta_Name (pvc_Meta pvc)) <$> elems (sts_VolumeClaimTemplates (sts_Spec sts))
      | None => {| vol_Name := vm_Name m; vol_Source := EmptyDir |} ∈
                  elems (pod_Volumes (tpl_Spec (sts_Template (sts_Spec sts))))
      end) shards.
Proof.
  destruct (addHStore.getSts new_hdb 2) as [sts|msg] eqn:E.
  - exists sts. split; [reflexivity|]. apply (shard_mounts new_hdb 2 sts). exact E.
  - exfalso. vm_compute in E. discriminate E.
Defined.

(** ** HServer, the gateway and the services *)

Definition port_args : gmap string string := {["--port" := "7000"]}.

Lemma HServer_command_line_witness :
  exists defaults ports,
    addHServer.defaultCommandArgsAndPorts new_hdb =
      Done (Some ["bash"; "-c"],
            Some [Join ("/usr/local/bin/hstream-server" :: defaults ++ user_args new_hdb) " "], Some ports) /\
    defaults = concat ((fun flag => [fst flag; snd flag]) <$>
      filter (fun flag => port_args !! fst flag = None) (hserver_defaults new_hdb "db-internal-hmeta.ns:4001")).
Proof.
  apply (HServer_command_line new_hdb port_args "db-internal-hmeta.ns:4001" None).
  - reflexivity.
  - vm_compute. reflexivity.
  - vm_compute. reflexivity.
  - vm_compute. intros H. discriminate H.
Defined.

Lemma HServer_ports_agree_witness :
  exists command args ports sports,
    addHServer.defaultCommandArgsAndPorts new_hdb = Done (command, args, ports) /\
    getPorts (user_container new_hdb) [DefaultHServerPort; DefaultHServerInternalPort] = Done sports /\
    sports = convertToServicePort (elems ports).
Proof.
  destruct (addHServer.defaultCommandArgsAndPorts new_hdb) as [[[command args] ports]|msg] eqn:E.
  2:{ exfalso. vm_compute in E. discriminate E. }
  destruct (getPorts (user_container new_hdb) [DefaultHServerPort; DefaultHServerInternalPort]) as [sports|msg] eqn:E'.
  2:{ exfalso. vm_compute in E'. discriminate E'. }
  exists command, args, ports, sports. split; [reflexivity|]. split; [reflexivity|].
  apply (HServer_ports_agree new_hdb port_args command args ports sports).
  - vm_compute. reflexivity.
  - right. left. vm_compute. intros H. discriminate H.
  - exact E.
  - exact E'.
Defined.

Definition sample_service : Service := headless new_hdb ComponentTypeHServer [].

Lemma createOrUpdate_contract_witness :
  let p := createOrUpdate new_hdb sample_service in
  let tr := run_trace (environment new_hdb) p tt in
  exists r, run_result (environment new_hdb) p tt = Done r /\
  ensured (k := KService) (hdb_Meta new_hdb) (stamped sample_service) (fun existing o =>
      exists l a l' a',
        meta_Labels (svc_Meta existing) = Some l /\ meta_Annotations (svc_Meta existing) = Some a /\
        o = OService {| svc_Meta := meta_set_Annotations (Some a') (meta_set_Labels (Some l') (svc_Meta existing));
                        svc_Spec := svc_Spec sample_service |} /\
        (forall k, mstr (Some l') k =
           default (mstr (Some l) k) ((<[ComponentKey := "hserver"]> {[InstanceKey := "db"]} : gmap string string) !! k)) /\
        (forall k, mstr (Some a') k =
           default (mstr (Some a) k) ((<[LastSpecKey := GetObjectHash (OService sample_service)]> ∅ : gmap string string) !! k)))
    tr r.
Proof.
  intros p tr. pose proof (run_self (environment new_hdb) p tt) as H.
  assert (run_result (environment new_hdb) p tt = Done None) as Hr by reflexivity.
  exists None. split; [exact Hr|]. rewrite Hr in H.
  apply (createOrUpdate_contract new_hdb sample_service (<[ComponentKey := "hserver"]> {[InstanceKey := "db"]}) ∅ tr (Done None)).
  - reflexivity.
  - reflexivity.
  - exists ComponentKey, "hserver". split; [reflexivity|]. intros Hn. discriminate Hn.
  - exact H.
Defined.

Lemma gateway_service_url_witness :
  exists desired cs, addHServer.getSts new_hdb = Done desired /\
  exists g rest c rest' p,
    cs = Some (g :: rest) /\
    elems (pod_Containers (tpl_Spec (sts_Template (sts_Spec desired)))) = c :: rest' /\
    p ∈ elems (ctr_Ports c) /\ port_Name p = "port" /\
    mkEnv "HSTREAM_SERVICE_URL" (service_url new_hdb (port_ContainerPort p)) ∈ elems (ctr_Env g).
Proof.
  destruct (addHServer.getSts new_hdb) as [desired|msg] eqn:E.
  2:{ exfalso. vm_compute in E. discriminate E. }
  exists desired. eexists. split; [reflexivity|].
  apply (gateway_service_url new_hdb sample_gateway desired desired []).
  - exact E.
  - reflexivity.
  - intros H. apply elem_of_nil in H. exact H.
  - unfold addGateway.getContainer. apply exec_bind. left.
    eexists _, [_], []. split; [reflexivity|]. split; [exists (inr desired), []; split; [reflexivity|split; reflexivity]|].
    split; reflexivity.
Defined.

(** ** Flags and arguments *)

Definition sample_flags : gmap string string := {["--port" := "7000"]}.
Definition sample_set : FlagSet := {| fs_actual := Some sample_flags; fs_args := []; fs_lastName := "" |}.
Definition parsed_sample : FlagSet := {| fs_actual := Some sample_flags; fs_args := []; fs_lastName := "" |}.

Lemma Parse_terminates_witness :
  parse_loop 5 {| fs_actual := Some ∅; fs_args := ["--port"; "7000"]; fs_lastName := "" |} =
    Some (Parse FlagSet_zero ["--port"; "7000"]).
Proof. apply (Parse_terminates FlagSet_zero ["--port"; "7000"] 5). simpl. lia. Defined.

Lemma Parse_panics_on_dash_witness :
  (exists f err, Parse FlagSet_zero ["--port"; "7000"] = Done (f, err)) /\
  (exists msg, Parse FlagSet_zero ["-"] = Panic msg).
Proof.
  split.
  - apply (Parse_panics_on_dash ["--port"; "7000"]). apply (bool_decide_unpack _). vm_compute. exact I.
  - apply (proj2 (Parse_panics_on_dash ["-"]) [] []); [constructor|reflexivity].
Defined.

Lemma Parse_render_Visit_witness :
  exists f', Parse FlagSet_zero (render (Visit sample_set)) = Done (f', None) /\ Flags f' = Some sample_flags.
Proof.
  apply (Parse_render_Visit sample_set sample_flags); [reflexivity|].
  apply map_Forall_singleton. vm_compute. split_and?; try reflexivity; try (intros H; discriminate H).
Defined.

Lemma Parse_keys_plain_witness : plain_keys (entries (Flags parsed_sample)).
Proof. apply (Parse_keys_plain ["--port"; "7000"] parsed_sample None). vm_compute. reflexivity. Defined.


Lemma extendArgs_spec_witness :
  exists M,
    extendArgs ["--port"; "7000"] ["--port"; "1"; "--name"; "x"] = Done (inr (sorted_args M)) /\
    addMissingFlags (exist_key <$> ["--port"]) [("--name", "x"); ("--port", "1")] (Flags parsed_sample) = Done (Some M) /\
    forall k, M !! k = merged_flag (entries (Flags parsed_sample)) (<["--port" := "1"]> {["--name" := "x"]}) k.
Proof.
  apply (extendArgs_spec ["--port"; "7000"] ["--port"; "1"; "--name"; "x"] parsed_sample).
  - vm_compute. reflexivity.
  - vm_compute. reflexivity.
  - reflexivity.
  - apply (bool_decide_unpack _). vm_compute. exact I.
Defined.

Lemma extendPorts_spec_witness :
  let ext := [DefaultHServerPort] in
  [] `prefix_of` elems (extendPorts None ext) /\
  (forall n, n ∈ port_Name <$> elems (extendPorts None ext) <-> n ∈ port_Name <$> [] \/ n ∈ port_Name <$> ext) /\
  (NoDup (port_Name <$> []) -> NoDup (port_Name <$> elems (extendPorts None ext))) /\
  elems (extendPorts None ext) = mergePorts [] ext.
Proof. intros ext. apply (extendPorts_spec None ext). repeat constructor. intros H. discriminate H. Defined.

Lemma coverPortsFromArgs_spec_witness :
  Forall2 (fun p p' =>
    match mget (Some sample_flags) ("--" +:+ port_Name p) with
    | Some port => p' = port_set_ContainerPort (intstr_IntVal port) p
    | None => p' = p
    end) [DefaultHServerPort] [mkPort "port" 7000 ProtocolTCP] /\
  port_Name <$> [mkPort "port" 7000 ProtocolTCP] = port_Name <$> [DefaultHServerPort].
Proof.
  apply (coverPortsFromArgs_spec ["--port"; "7000"] [DefaultHServerPort] [mkPort "port" 7000 ProtocolTCP] (Some sample_flags)).
  - vm_compute. reflexivity.
  - vm_compute. reflexivity.
Defined.

Lemma mergeMap_order_witness :
  exists t' changed, mergeMap_over (Some sample_flags) [("a", "b")] = Done (Some t', changed) /\
    (forall k, t' !! k = merged_value sample_flags (entries (Some {["a" := "b"]})) k) /\
    (changed = true <-> t' <> sample_flags).
Proof.
  apply (mergeMap_order (Some sample_flags) (Some {["a" := "b"]}) [("a", "b")]).
  apply (bool_decide_unpack _). vm_compute. exact I.
Defined.

(** ** Conditions *)

Lemma SetCondition_unique_witness : NoDup (cond_Type <$> conds (SetCondition_at 5 up_hdb ready_false)).
Proof. apply SetCondition_unique. exact up_hdb_ok. Defined.

Lemma IsConditionTrue_SetCondition_witness :
  IsConditionTrue (SetCondition_at 5 up_hdb ready_false) HStoreReady =
    if decide (HStoreReady = Ready) then bool_decide (ConditionFalse = ConditionTrue)
    else IsConditionTrue up_hdb HStoreReady.
Proof. apply (IsConditionTrue_SetCondition 5 up_hdb ready_false HStoreReady). exact up_hdb_ok. Defined.

Lemma SetCondition_times_witness :
  Sorted (fun a b => (cond_LastTransitionTime b <= cond_LastTransitionTime a)%Z)
    (conds (SetCondition_at 5 up_hdb ready_false)) /\
  exists c', snd (GetCondition (SetCondition_at 5 up_hdb ready_false) Ready) = Some c' /\
    cond_LastTransitionTime c' = 5%Z.
Proof. apply (SetCondition_times 5 up_hdb ready_false). exact up_hdb_ok. Defined.

(** ** Naming, LogDevice and the admin client *)

Lemma GetPvc_defaults_witness :
  exists requests q,
    pvcs_Requests (pvc_Spec (GetPvc new_hdb None ComponentTypeHStore)) = Some requests /\
    requests !! ResourceStorage = Some q /\ q <> 0%Z /\
    (forall t r v, None = Some t -> pvcs_Requests (pvct_Spec t) = Some r ->
       r !! ResourceStorage = Some v -> v <> 0%Z -> q = v) /\
    (pvcs_AccessModes (pvc_Spec (GetPvc new_hdb None ComponentTypeHStore)) = Some [] <->
       exists t, None = Some t /\ pvcs_AccessModes (pvct_Spec t) = Some []) /\
    pvcs_AccessModes (pvc_Spec (GetPvc new_hdb None ComponentTypeHStore)) <> None.
Proof. apply (GetPvc_defaults new_hdb None ComponentTypeHStore). intros H. discriminate H. Defined.


Definition addr_hdb : HStreamDB := sample_hdb (Some ["--http-addr=" +:+ "0.0.0.0" +:+ ":" +:+ Itoa 4500]) [].

Lemma GetHMetaAddr_diverges_witness :
  getHMetaAddr addr_hdb = Done ("db-internal-hmeta.ns:4500", None) /\
  GetHMetaAddr addr_hdb = "db-internal-hmeta.ns:4001".
Proof. apply (GetHMetaAddr_diverges addr_hdb "0.0.0.0" 4500); reflexivity. Defined.

Lemma admin_call_contract_witness :
  let tr := hadmin_run new_hdb ["server"; "init"] [] "pod" (None, "ok", "") in
  (forall out, Done (@inr go_error string "ok") = Done (inr out) <->
     exists pods pod, tr = hadmin_run new_hdb ["server"; "init"] pods pod (None, out, "")) /\
  ((exists msg, Done (@inr go_error string "ok") = Panic msg) <->
     tr = [Ev (CListPods (hdb_Namespace new_hdb) {[ComponentKey := ct_string ComponentTypeAdminServer]}) (inr [])]).
Proof.
  intros tr. apply (admin_call_contract new_hdb ["server"; "init"] tr (Done (inr "ok"))).
  exact (run_self (environment new_hdb) (admin_call new_hdb ["server"; "init"]) tt).
Defined.

Definition one_node : admin.HMetaStatus :=
  {| admin.Nodes := Some {["1" := {| admin.Reachable := false; admin.Leader := true; admin.Error := "" |}]} |}.

Lemma IsAllReady_spec_witness :
  admin.IsAllReady one_node =
    bool_decide ([("1", {| admin.Reachable := false; admin.Leader := true; admin.Error := "" |})] <> []) &&
    forallb (fun entry => admin.Reachable (snd entry))
      [("1", {| admin.Reachable := false; admin.Leader := true; admin.Error := "" |})].
Proof. apply IsAllReady_spec. reflexivity. Defined.

(** ** Connectors *)

Definition sample_connector : Connector := {|
  con_Meta := sample_meta "es";
  con_Spec := {|
    con_Type := SinkElaticsearch; con_TemplateName := "t"; con_Streams := Some ["s1"; "s2"];
    con_Patches := Some "patches"; con_HServerEndpoint := "db:6570"; con_ImageRegistry := None;
    con_ContainerPorts := None; con_Container := ctr_zero; con_Containers := None |} |}.

Definition sample_template : gomap jval := Some {["index" := "all"]}.
Definition config1 : gmap string jval := <["index" := "patched"]> {["stream" := "s1"]}.
Definition config2 : gmap string jval := <["index" := "all"]> {["stream" := "s2"]}.

Lemma stream_configs_precedence_witness :
  Forall2 (fun stream (config : gmap string jval) =>
    exists patch : gmap string jval,
      (exists parsed, unmarshal_patches "patches" = inr parsed /\
         patch = entries (default None (mget parsed stream))) /\
      forall key, config !! key =
        match patch !! key with
        | Some v => Some v
        | None => if decide (key = "stream") then Some (jstring stream) else entries sample_template !! key
        end) ["s1"; "s2"] [config1; config2].
Proof.
  apply (stream_configs_precedence sample_template (Some "patches") ["s1"; "s2"] [config1; config2]).
  vm_compute. reflexivity.
Defined.

Definition two_streams : list (string * gmap string jval) := [("s1", ∅); ("s2", ∅)].

Lemma connector_loop_safe_witness :
  let tr := run_trace (environment new_hdb) (connector_loop sample_connector two_streams) tt in
  Forall (connector_writes sample_connector two_streams tr) tr.
Proof.
  intros tr. apply (connector_loop_safe sample_connector two_streams tr
    (run_result (environment new_hdb) (connector_loop sample_connector two_streams) tt)). apply run_self.
Defined.

Lemma connector_ports_accumulate_witness :
  exists cm1 d1 cm2 d2,
    writes (run_trace (environment new_hdb) (connector_loop sample_connector two_streams) tt) =
      [OConfigMap cm1; ODeployment d1; OConfigMap cm2; ODeployment d2] /\
    main_ports d1 = connector_ports sample_connector /\
    main_ports d2 = [mkPort "" 9200 ""] ++ main_ports d1 ++ [].
Proof.
  eexists _, _, _, _. split; [reflexivity|].
  eapply (connector_ports_accumulate sample_connector "s1" ∅ "s2" ∅
    (run_trace (environment new_hdb) (connector_loop sample_connector two_streams) tt)
    (run_result (environment new_hdb) (connector_loop sample_connector two_streams) tt)).
  - apply run_self.
  - reflexivity.
Defined.

Lemma connector_deployment_not_retried_witness :
  let name := GenConnectorConfigMapNameForStream (con_Name sample_connector) "s1" in
  let get := CGet KConfigMap {| nn_Namespace := con_Namespace sample_connector; nn_Name := name |} in
  (exists tr1 d m m', exec (connector_loop sample_connector [("s1", ∅)])
     (Ev get (inl missing_error) :: tr1) (Done (result (Some other_error))) /\
     tr1 = [Ev (CSetOwner (con_Meta sample_connector) m) (inr None);
            Ev (CCreate (OConfigMap {| cm_Meta := meta_set_OwnerReferences None m; cm_Data := Some
               {["config.json" := marshal_config ∅ ("hstream://" +:+ con_HServerEndpoint (con_Spec sample_connector))]} |})) None;
            Ev (CSetOwner (con_Meta sample_connector) m') (inr None);
            Ev (CCreate (ODeployment d)) (Some other_error)]) /\
  (exec (connector_loop sample_connector [("s1", ∅)]) [Ev get (inr nshards_map)] (Done (result None)) ->
   [] = @nil event /\ Done (result None) = Done (result None)).
Proof.
  intros name get.
  apply (connector_deployment_not_retried sample_connector "s1" ∅ other_error missing_error None None nshards_map []
           (Done (result None))).
  reflexivity.
Defined.
