(* ===== verification/Scenarios.v ===== *)
(** * Scenarios

    Runs of the whole operator on concrete stores: the sample cluster and the sample connector of
    the tests, on the ideal server and on a server that others change. They show that the
    hypotheses of the theorems about whole runs can be met together. *)
From S2P Require Import Prelude GoStrings KubeTypes ApiTypes Effects RelyGuarantee Conditions FlagSet Naming Constants Merge Requeue Workload LogDevice Services Admin HMeta AdminServer HStore HServer Gateway Console Totality DeepCopy Fixtures Bootstrap Server Status Controller Bounds Passes Footprint Wellformed Operator Ideal Desired Settle Convergence Connector Main Pipeline Witnesses.

(** ** The sample cluster *)

Definition cr_key : NamespacedName := ObjectKey (hdb_Meta CreateDefaultCR).

(** The user has created it in an empty cluster. *)
Definition cr_store : store := put_hdb CreateDefaultCR empty_store.

Definition calm : weather := {| wx_now := 5; wx_order := []; wx_nodes := "nodes" |}.

Lemma calm_ready : nodes_ready calm.
Proof. eexists. split; [reflexivity|]. vm_compute. reflexivity. Qed.

Lemma CreateDefaultCR_valid : valid_spec CreateDefaultCR.
Proof.
  split; [exact CreateDefaultCR_readable| |cbn; lia|cbn; lia|intros console flags p H; discriminate H].
  intros _. split; [eexists; reflexivity|cbn; lia].
Qed.

Lemma cr_store_user : env_step empty_store cr_store.
Proof.
  split; cbn.
  - intros nn h [[<- <-]|[_ H]]%lookup_insert_Some; [done|]. by rewrite lookup_empty in H.
  - intros nn x H. by rewrite lookup_empty in H.
  - intros nn x H. by rewrite lookup_empty in H.
  - intros nn x H. by rewrite lookup_empty in H.
  - intros nn x H. by rewrite lookup_empty in H.
  - intros ns name x H. by rewrite lookup_empty in H.
Qed.

Lemma cr_store_healthy : healthy CreateDefaultCR cr_store.
Proof.
  split.
  - apply lookup_insert_eq.
  - apply (bool_decide_unpack _). vm_compute. exact I.
  - intros [] nn o H; cbn in *; try by rewrite lookup_empty in H.
    apply lookup_insert_Some in H as [[<- <-]|[_ H]]; [done|]. by rewrite lookup_empty in H.
  - intros ct x H. cbn in H. by rewrite lookup_empty in H.
  - intros ct x H. cbn in H. by rewrite lookup_empty in H.
  - intros x H. cbn in H. by rewrite lookup_empty in H.
Qed.

(** The first [n] calls of a program. *)
Fixpoint advance {A W} (h : handler W) (n : nat) (p : prog A) (w : W) : prog A * W :=
  match n, p with
  | S n', Do c k => let '(r, w1) := h c w in advance h n' (k r) w1
  | _, _ => (p, w)
  end.

(** The object that a program is about to create or update. *)
Definition next_write {A} (p : prog A) : option kobj :=
  match p with Do (CCreate o) _ => Some o | Do (CUpdate o) _ => Some o | _ => None end.

Lemma next_write_pending o s (p : prog Result) :
  next_write p = Some o -> pending {| w_store := s; w_passes := [p] |} (CCreate o) \/ pending {| w_store := s; w_passes := [p] |} (CUpdate o).
Proof.
  destruct p as [a|msg|c k]; [done..|]. destruct c; intros [= <-]; [left|right]; eexists; apply list_elem_of_here.
Qed.

(** The calls of a pass that runs alone on the ideal server are steps of the operator. *)
Lemma advance_steps (P : event -> Prop) (I : store -> Prop) wx n (p : prog Result) s :
  (forall c s, I s -> P (Ev c (fst (ideal wx c s))) /\ I (snd (ideal wx c s))) -> I s ->
  rtc (step P) {| w_store := s; w_passes := [p] |}
    {| w_store := snd (advance (ideal wx) n p s); w_passes := [fst (advance (ideal wx) n p s)] |}.
Proof.
  intros HP. revert p s. induction n as [|n IH]; intros p s Hs; [by destruct p|].
  destruct p as [a|msg|c k]; [done..|]. pose proof (ideal_serves wx c s) as Hserve. destruct (HP c s Hs) as [HP1 Hs1].
  cbn [advance]. destruct (ideal wx c s) as [r s1]. eapply rtc_l; [|by apply IH].
  by apply (step_call P s s1 [] [] c k r).
Qed.

(** On the ideal server a config map that is there can be read, and stays. *)
Lemma ideal_has_cm wx nn c s :
  is_Some (st_cm s !! nn) ->
  (forall err, Ev c (fst (ideal wx c s)) <> Ev (CGet KConfigMap nn) (inl err)) /\
  is_Some (st_cm (snd (ideal wx c s)) !! nn).
Proof.
  intros Hs. split.
  - intros err Heq. destruct c as [k n| | | | | | | | | | | |];
      try (by apply (f_equal (fun e => match ev_call e with CGet _ _ => true | _ => false end)) in Heq).
    destruct k; try (by apply (f_equal (fun e => match ev_call e with CGet KConfigMap _ => true | _ => false end)) in Heq).
    apply Ev_get_inj in Heq as [-> Hr]. destruct Hs as [cm Hcm]. cbn in Hr. by rewrite Hcm in Hr.
  - assert (forall o, is_Some (st_cm (put o s) !! nn)) as Hput.
    { intros [x|x|x|x]; cbn; [done..|]. rewrite lookup_insert_is_Some. destruct (decide (ObjectKey (cm_Meta x) = nn)); auto. }
    destruct c as [k n|o|o|h| | | | | | | | |]; try done; cbn [ideal]; try case_decide; try apply Hput; try done.
    by destruct (st_hdb s !! _).
Qed.

Lemma reachable_steps w w' : reachable w -> rtc (step (fun _ => True)) w w' -> reachable w'.
Proof. intros Hr H. induction H; [done|]. by eapply IHrtc, reachable_step. Qed.

Definition first_pass : prog Result := Reconcile (P := adminClientProvider) cr_key.

(** The world after the first [n] calls of a pass that starts on [s]. *)
Definition pass_world (n : nat) (s : store) : world :=
  let r := advance (ideal calm) n first_pass s in
  {| w_store := snd r; w_passes := [fst r] |}.

Lemma pass_world_steps (P : event -> Prop) (I : store -> Prop) n s :
  (forall c s, I s -> P (Ev c (fst (ideal calm c s))) /\ I (snd (ideal calm c s))) -> I s ->
  rtc (step P) {| w_store := s; w_passes := [] |} (pass_world n s).
Proof. intros HP Hs. eapply rtc_l; [apply (step_start P s [] cr_key)|]. by apply (advance_steps P I). Qed.

Lemma pass_world_reachable n : reachable (pass_world n cr_store).
Proof.
  eapply reachable_steps; [apply reachable_init, cr_store_user|]. by apply (pass_world_steps _ (fun _ => True)).
Qed.

(** ** The operator and its environment *)

(** After thirty-five calls the first pass is about to create the stateful set of HStore. *)
Lemma pending_writes_wired_witness :
  exists o, next_write <$> head (w_passes (pass_world 35 cr_store)) = Some (Some o) /\
    meta_Name (kobj_meta o) = "hstreamdb-sample-hstore" /\
    wired (w_store (pass_world 35 cr_store)) o /\
    (pending (pass_world 35 cr_store) (CUpdate o) -> kobj_kind o <> KConfigMap).
Proof.
  assert ((fun o => meta_Name (kobj_meta o)) <$> next_write (fst (advance (ideal calm) 35 first_pass cr_store)) =
    Some "hstreamdb-sample-hstore") as Hn by (vm_compute; reflexivity).
  destruct (next_write (fst (advance (ideal calm) 35 first_pass cr_store))) as [o|] eqn:E; [|discriminate Hn].
  apply Some_inj in Hn. exists o. split; [exact (f_equal Some E)|]. split; [exact Hn|].
  apply (pending_writes_wired (pass_world 35 cr_store) o (pass_world_reachable 35)).
  apply (next_write_pending o _ _ E).
Defined.

(** The first pass is interrupted before that, and the user asks for four shards. *)
Definition resharded : HStreamDB := {|
  hdb_Meta := hdb_Meta CreateDefaultCR;
  hdb_Spec := {|
    spec_ExternalHMeta := None;
    spec_Config := {| cfg_MetadataReplicateAcross := Some 1%Z; cfg_NShards := 4; cfg_LogDeviceConfig := "{}" |};
    spec_Gateway := None; spec_Console := None;
    spec_AdminServer := spec_AdminServer (hdb_Spec CreateDefaultCR); spec_HServer := spec_HServer (hdb_Spec CreateDefaultCR);
    spec_HStore := spec_HStore (hdb_Spec CreateDefaultCR); spec_HMeta := spec_HMeta (hdb_Spec CreateDefaultCR) |};
  hdb_Status := hdb_Status CreateDefaultCR |}.

Definition resharded_store : store := put_hdb resharded (w_store (pass_world 35 cr_store)).

Lemma put_hdb_ok h s : store_ok s -> store_ok (put_hdb h s).
Proof.
  intros Hs. split; try apply Hs. cbn. intros nn h' [[<- <-]|[_ H]]%lookup_insert_Some; [done|by apply (ok_hdb _ Hs)].
Qed.

Lemma resharded_store_ok : store_ok resharded_store.
Proof. apply put_hdb_ok, (proj1 (reachable_ok _ (pass_world_reachable 35))). Qed.

Lemma resharded_one_shard : shards_stored resharded_store cr_key (Some 1%Z).
Proof. intros N [= <-]. eexists. split; vm_compute; reflexivity. Qed.

Lemma resharded_next :
  exists x, next_write (fst (advance (ideal calm) 19 first_pass resharded_store)) = Some (OStatefulSet x) /\
    ObjectKey (sts_Meta x) = {| nn_Namespace := "default"; nn_Name := "hstreamdb-sample-hstore" |}.
Proof.
  assert ((fun o => ObjectKey (kobj_meta o)) <$> next_write (fst (advance (ideal calm) 19 first_pass resharded_store)) =
    Some {| nn_Namespace := "default"; nn_Name := "hstreamdb-sample-hstore" |}) as Hk by (vm_compute; reflexivity).
  assert (kobj_kind <$> next_write (fst (advance (ideal calm) 19 first_pass resharded_store)) = Some KStatefulSet) as Hkind
    by (vm_compute; reflexivity).
  destruct (next_write (fst (advance (ideal calm) 19 first_pass resharded_store))) as [o|] eqn:E; [|discriminate Hk].
  apply Some_inj in Hk, Hkind. destruct o as [x|x|x|x]; [|discriminate Hkind..]. clear Hkind. cbn [kobj_meta] in Hk.
  exists x. split; [reflexivity|exact Hk].
Qed.

(** The next pass is about to create the stateful set of HStore with the one shard of the start. *)
Lemma shards_fixed_witness :
  let w := pass_world 19 resharded_store in
  shards_stored (w_store w) cr_key (Some 1%Z) /\
  exists x, next_write <$> head (w_passes w) = Some (Some (OStatefulSet x)) /\
    meta_Name (sts_Meta x) = "hstreamdb-sample-hstore" /\ mounts_shards cr_key 1 x.
Proof.
  intros w.
  assert (rtc (step (fun e => forall err, e <> Ev (CGet KConfigMap (nshards_key cr_key)) (inl err)))
    {| w_store := resharded_store; w_passes := [] |} w) as Hrtc.
  { apply (pass_world_steps _ (fun s => is_Some (st_cm s !! nshards_key cr_key))).
    - intros c s Hs. apply (ideal_has_cm calm _ c s Hs).
    - destruct (resharded_one_shard 1%Z eq_refl) as (cm & H & _). exists cm. exact H. }
  destruct (shards_fixed cr_key 1 resharded_store w ltac:(unfold int32_ok; lia) resharded_store_ok resharded_one_shard Hrtc)
    as [Hs Hx].
  split; [exact Hs|].
  destruct resharded_next as (x & E & Hk). exists x. split; [exact (f_equal Some E)|].
  split; [exact (f_equal nn_Name Hk)|]. apply Hx; [apply (next_write_pending _ _ _ E)|]. rewrite Hk. reflexivity.
Defined.

(** *** One pass on the ideal server *)

Lemma ideal_run_answered {A} req wx (p : prog A) s :
  guarantees (answered req None) (pass_call req None) p -> store_ok s ->
  Forall (answered req None) (run_trace (ideal wx) p s).
Proof.
  unfold run_trace. revert s. induction p as [a|msg|c k IH]; intros s; [constructor..|]. intros [Hc Hk] Hs.
  pose proof (ideal_serves wx c s) as Hserve. cbn [run]. destruct (ideal wx c s) as [r s1]. cbn [fst snd] in Hserve.
  assert (answered req None (Ev c r)) as Ha.
  { by apply (served_answered s s1 _ req None); [done..|right]. }
  specialize (IH r s1 (Hk r Ha) (served_ok _ _ _ _ _ _ Hs Hserve Hc)).
  destruct (run (ideal wx) (k r) s1) as [[o tr] s2]. by constructor.
Qed.

Lemma Reconcile_footprint_witness :
  (Forall (fun e => pass_call cr_key None (ev_call e)) (run_trace (ideal calm) first_pass cr_store) /\
   forall ns service path r, Ev (CServiceProxy ns service path) r ∈ run_trace (ideal calm) first_pass cr_store ->
     exists hdb, shown cr_key (run_trace (ideal calm) first_pass cr_store) hdb /\ proxied hdb ns service path) /\
  length (writes (run_trace (ideal calm) first_pass cr_store)) = 9.
Proof.
  split; [|vm_compute; reflexivity].
  apply (Reconcile_footprint cr_key _ (run_result (ideal calm) first_pass cr_store)); [apply run_self|].
  apply ideal_run_answered; [|exact (initial_ok _ cr_store_user)]. apply rg_Reconcile. intros N [=].
Defined.

Lemma Reconcile_bounds_witness :
  let tr := run_trace (ideal calm) first_pass cr_store in
  run_result (ideal calm) first_pass cr_store = Done {| res_RequeueAfter := Second; res_err := None |} /\
  length (writes tr) <= 12 /\ length (status_updates_of tr) <= 4 /\
  (0 <= Second <= 10 * Second)%Z.
Proof.
  intros tr.
  assert (run_result (ideal calm) first_pass cr_store = Done {| res_RequeueAfter := Second; res_err := None |}) as Hr
    by (vm_compute; reflexivity).
  pose proof (run_self (ideal calm) first_pass cr_store) as He. rewrite Hr in He.
  destruct (Reconcile_bounds cr_key tr _ He) as (H1 & H2 & H3).
  split; [exact Hr|]. split; [exact H1|]. split; [exact H2|]. exact (proj1 (H3 _ eq_refl)).
Defined.

(** *** Convergence, and what the builders need *)

Lemma passes_converge_witness :
  exists r1 tr1 tr2 tr3 s' hdb',
    passes [calm; calm; calm] cr_key cr_store = ([(Done r1, tr1); (Done complete, tr2); (Done complete, tr3)], s') /\
    writes tr3 = [] /\
    st_hdb s' !! cr_key = Some hdb' /\
    Forall (fun t => IsConditionTrue hdb' t = true) [HMetaReady; HStoreReady; HServerReady; Ready] /\
    forall t, t ∈ all_tags -> tag_asked CreateDefaultCR t -> current CreateDefaultCR cr_store s' t.
Proof.
  destruct (passes_converge CreateDefaultCR cr_store calm calm [calm] CreateDefaultCR_valid cr_store_healthy
    ltac:(repeat constructor; apply calm_ready)) as (r1 & tr1 & tr2 & rest & s' & hdb' & Hp & _ & Hrest & Hs & _ & _ & Hc & Ht).
  assert (length rest = 1) as Hlen.
  { apply (f_equal (fun x => length (fst x))) in Hp. cbn [fst length] in Hp.
    assert (length (fst (passes [calm; calm; calm] cr_key cr_store)) = 3) as H3 by (vm_compute; reflexivity).
    unfold cr_key in H3. lia. }
  destruct rest as [|[o3 tr3] [|]]; [discriminate Hlen| |discriminate Hlen].
  apply Forall_cons in Hrest as [[Ho Hw] _]. cbn [fst snd] in Ho, Hw. subst o3.
  exists r1, tr1, tr2, tr3, s', hdb'. exact (conj Hp (conj Hw (conj Hs (conj Hc Ht)))).
Defined.

Lemma builders_total_witness :
  readable_spec CreateDefaultCR /\
  (exists d, addHMeta.getSts CreateDefaultCR = Done d) /\ (exists d, addHStore.getSts CreateDefaultCR (-1) = Done d) /\
  exists s, addHMetaService CreateDefaultCR = createOrUpdate CreateDefaultCR s.
Proof.
  split; [exact CreateDefaultCR_readable|].
  destruct (builders_total CreateDefaultCR CreateDefaultCR_readable) as (H1 & _ & H3 & _ & _ & _ & _ & _ & _ & H9).
  split; [exact H1|]. split; [apply H3|]. destruct (H9 eq_refl) as [(f & s & _ & H)|(f & err & Hp & _)].
  - exists s. exact H.
  - exfalso. assert (match Parse FlagSet_zero (container_args (spec_HMeta (hdb_Spec CreateDefaultCR))) with
      | Done (_, None) => true | _ => false end = true) as Hok by (vm_compute; reflexivity).
    rewrite Hp in Hok. discriminate Hok.
Defined.

Lemma CreateDefaultCR_scoped : user_scoped (spec_HStore (hdb_Spec CreateDefaultCR)).
Proof. apply Forall_singleton. split; [constructor|]. repeat constructor; discriminate. Qed.

Lemma workloads_well_formed_witness :
  exists x, addHStore.getSts CreateDefaultCR 2 = Done x /\
    workload_ok CreateDefaultCR ComponentTypeHStore (OStatefulSet x) /\
    pod_scoped [] (tpl_Spec (sts_Template (sts_Spec x))).
Proof.
  destruct (addHStore.getSts CreateDefaultCR 2) as [x|msg] eqn:E; [|exfalso; vm_compute in E; discriminate E].
  exists x. split; [reflexivity|].
  assert (workload_ok CreateDefaultCR ComponentTypeHStore (OStatefulSet x)) as H.
  { eapply workloads_well_formed; [by eapply builds_hstore|exact CreateDefaultCR_scoped]. }
  split; [exact H|]. destruct H as (_ & _ & _ & H).
  destruct (getSts_parts _ _ _ E) as (_ & _ & _ & _ & Hc). rewrite Hc in H. exact H.
Defined.

(** ** Connectors *)

Definition con_key : NamespacedName := {| nn_Namespace := "default"; nn_Name := "test-connector" |}.
Definition ctpl_key : NamespacedName := {| nn_Namespace := "default"; nn_Name := "test-connector-template" |}.

Definition connector_store : store := {|
  st_hdb := ∅; st_con := {[con_key := CreateDefaultConnector "default"]};
  st_ctpl := {[ctpl_key := CreateDefaultConnectorTemplate]}; st_sts := ∅; st_dep := ∅; st_svc := ∅; st_cm := ∅ |}.

Lemma template_connector_pipeline_witness :
  exists tr1 s1 tr2 s2 config,
    run (ideal calm) (ConnectorTemplateReconciler_Reconcile ctpl_key) connector_store = (Done (result None), tr1, s1) /\
    run (ideal calm) (ConnectorReconciler_Reconcile con_key) s1 = (Done (result None), tr2, s2) /\
    deployed (CreateDefaultConnector "default") "stream01" config s2.
Proof.
  destruct (template_connector_pipeline calm ctpl_key con_key CreateDefaultConnectorTemplate (CreateDefaultConnector "default")
    (Some {["index" := ctpl_Config (ctpl_Spec CreateDefaultConnectorTemplate)]})
    [<["stream" := "stream01"]> {["index" := ctpl_Config (ctpl_Spec CreateDefaultConnectorTemplate)]}] connector_store)
    as (tr1 & s1 & tr2 & s2 & _ & _ & H1 & H2 & Hf & _).
  - apply lookup_singleton_eq.
  - reflexivity.
  - apply lookup_singleton_eq.
  - reflexivity.
  - reflexivity.
  - reflexivity.
  - apply lookup_empty.
  - reflexivity.
  - vm_compute. reflexivity.
  - apply NoDup_singleton.
  - intros stream ->%list_elem_of_singleton. split; [discriminate|]. intros _. apply lookup_empty.
  - apply Forall2_cons in Hf as [Hr _]. eexists tr1, s1, tr2, s2, _. split; [exact H1|]. split; [exact H2|].
    unfold rolled_out in Hr. cbn in Hr. exact Hr.
Defined.

(** ** The start of the process *)

(** The port of the metrics is taken. *)
Definition refused_start : list (boot_call * option go_error) :=
  ((fun c => (c, None)) <$> schemes ++ [BGetConfigOrDie]) ++ [(BNewManager (options default_flags), Some (new_error "bind: address already in use"))].

Lemma main_exit_witness :
  boots (init (main default_flags)) refused_start (Exited 1) /\
  refused_start.*1 `prefix_of` startup default_flags.
Proof.
  assert (boots (init (main default_flags)) refused_start (Exited 1)) as H.
  { repeat (eexists _, _; split; [reflexivity|]). split; reflexivity. }
  split; [exact H|]. exact (proj1 (main_exit default_flags _ _ H)).
Defined.

(** ** Deep copies *)

(** The types of the libraries, as if they held no references. *)
#[local] Instance plain_LibTypes : LibTypes := {|
  lib _ := plain; lib_DeepCopyInto _ := shallow; lib_DeepCopyInto_ok _ := copies_plain |}.

Definition config_fields : gmap string gval :=
  <["MetadataReplicateAcross" := Pointer (Some 2%positive)]> (<["NShards" := Plain "1"]> {["LogDeviceConfig" := Plain "{}"]}).
Definition config_tree : gmap string tree :=
  <["MetadataReplicateAcross" := TPointer (TPlain "3")]> (<["NShards" := TPlain "1"]> {["LogDeviceConfig" := TPlain "{}"]}).
Definition config_heap : gmap loc cell :=
  <[1%positive := Box (Struct config_fields)]> {[2%positive := Box (Plain "3")]}.

Lemma config_represents : pointer (struct Config_decl) true (Pointer (Some 1%positive)) (TPointer (TStruct config_tree)) config_heap.
Proof.
  right. eexists 1%positive, (Struct config_fields), (TStruct config_tree), _. split_and!; [done|done|reflexivity|reflexivity|].
  exists config_fields, config_tree. split; [reflexivity|]. split; [reflexivity|].
  split; [apply (bool_decide_unpack _); vm_compute; exact I|]. split; [apply (bool_decide_unpack _); vm_compute; exact I|].
  rewrite <-(right_id_L ∅ (∪) {[2%positive := Box (Plain "3")]}).
  econstructor; [reflexivity|reflexivity| | |apply map_disjoint_empty_r].
  - right. exists 2%positive, (Plain "3"), (TPlain "3"), ∅. split_and!; try done. by exists "3".
  - rewrite <-(left_id_L ∅ (∪) (∅ : gmap loc cell)). econstructor; [reflexivity|reflexivity|by eexists| |apply map_disjoint_empty_r].
    rewrite <-(left_id_L ∅ (∪) (∅ : gmap loc cell)). econstructor; [reflexivity|reflexivity|by eexists| |apply map_disjoint_empty_r].
    constructor.
Qed.

Lemma DeepCopy_separates_witness :
  exists v' h', Config_DeepCopy (Pointer (Some 1%positive)) config_heap = Some (v', h' ∪ config_heap) /\
    h' ##ₘ config_heap /\ pointer (struct Config_decl) true v' (TPointer (TStruct config_tree)) h'.
Proof.
  destruct (DeepCopy_separates Config_decl Config_DeepCopyInto Config_DeepCopy true (Pointer (Some 1%positive))
    (TPointer (TStruct config_tree)) config_heap config_heap) as (v' & h' & H1 & H2 & H3 & _).
  - apply list_elem_of_further, list_elem_of_here.
  - exact config_represents.
  - reflexivity.
  - exists v', h'. exact (conj H1 (conj H2 H3)).
Defined.
