(* ===== verification/Runs.v ===== *)
(** * More scenarios: faults, the work queue, and the three controllers together

    The sample cluster is brought up by a work queue until nothing is left to do, and again after a
    failed and a killed pass; a template and a connector are deployed beside it. *)
From S2P Require Import Prelude GoStrings KubeTypes ApiTypes Effects RelyGuarantee Conditions FlagSet Naming Constants Merge Requeue Workload LogDevice Services Admin HMeta AdminServer HStore HServer Gateway Console Totality Fixtures Bootstrap Server Status Controller Passes Footprint Operator Queue Ideal Desired Settle Convergence Faults Connector Main Fleet Claims Access Pipeline Schedule Rollout Witnesses Scenarios.

(** ** Faults *)

Lemma cr_store_sound : sound cr_store.
Proof.
  split; cbn.
  - intros [] nn o H; cbn in *; try by rewrite lookup_empty in H.
    apply lookup_insert_Some in H as [[<- <-]|[_ H]]; [done|]. by rewrite lookup_empty in H.
  - intros nn h [[<- <-]|[_ H]]%lookup_insert_Some; [|by rewrite lookup_empty in H].
    split; [apply (bool_decide_unpack _); vm_compute; exact I|]. split; [intros _|split]; vm_compute; discriminate.
  - intros nn x name ct H. by rewrite lookup_empty in H.
  - intros nn x H. by rewrite lookup_empty in H.
  - intros nn x name H. by rewrite lookup_empty in H.
Qed.

Lemma advance_faults wx n (p : prog Result) s :
  rtc fault_step {| w_store := s; w_passes := [p] |}
    {| w_store := snd (advance (ideal wx) n p s); w_passes := [fst (advance (ideal wx) n p s)] |}.
Proof.
  revert p s. induction n as [|n IH]; intros p s; [by destruct p|].
  destruct p as [a|msg|c k]; [done..|]. pose proof (ideal_serves wx c s) as Hserve. pose proof (ideal_keeps wx c s) as Hk.
  cbn [advance]. destruct (ideal wx c s) as [r s1]. eapply rtc_l; [|apply IH]. by apply (fault_call s s1 [] [] c k r).
Qed.

(** The read of the first pass fails; the second is killed after thirty-five calls, when it has
    written half of its objects. *)
Definition after_faults : world := {| w_store := w_store (pass_world 35 cr_store); w_passes := [] |}.

Lemma after_faults_steps : rtc fault_step {| w_store := cr_store; w_passes := [] |} after_faults.
Proof.
  eapply rtc_l; [apply (fault_start cr_store [] cr_key)|].
  eapply rtc_l; [apply (fault_call cr_store cr_store [] [] (CGet KHStreamDB cr_key) _ (inl (new_error "timeout"))); [by split|done]|].
  eapply rtc_l; [apply (fault_end cr_store [] [] _)|].
  eapply rtc_l; [apply (fault_start cr_store [] cr_key)|].
  eapply rtc_r; [apply (advance_faults calm 35)|]. apply (fault_end _ [] []).
Qed.

(** The status has changed since, the spec has not. *)
Lemma after_faults_hdb : exists h, st_hdb (w_store after_faults) !! cr_key = Some h /\ valid_spec h.
Proof.
  assert (hdb_Spec <$> st_hdb (w_store after_faults) !! cr_key = Some (hdb_Spec CreateDefaultCR)) as H by (vm_compute; reflexivity).
  destruct (st_hdb (w_store after_faults) !! cr_key) as [h|]; [|discriminate H]. exists h. split; [done|].
  destruct h as [m sp st]. apply Some_inj in H. cbn in H. subst sp.
  destruct CreateDefaultCR_valid as [[] ? ? ? ?]. by split.
Qed.

(** Then the user asks for a second replica of the admin server, whose deployment is there. *)
Definition two_replicas (c : Component) : Component := {|
  comp_Image := comp_Image c; comp_ImagePullPolicy := comp_ImagePullPolicy c; comp_Replicas := 2;
  comp_Volumes := comp_Volumes c; comp_InitContainers := comp_InitContainers c;
  comp_SidecarContainers := comp_SidecarContainers c; comp_Container := comp_Container c;
  comp_NodeSelector := comp_NodeSelector c; comp_NodeName := comp_NodeName c;
  comp_PodSecurityContext := comp_PodSecurityContext c; comp_Affinity := comp_Affinity c;
  comp_Tolerations := comp_Tolerations c; comp_VolumeClaimTemplate := comp_VolumeClaimTemplate c |}.

Definition edit (h : HStreamDB) : HStreamDB := {|
  hdb_Meta := hdb_Meta h;
  hdb_Spec := {|
    spec_ExternalHMeta := spec_ExternalHMeta (hdb_Spec h); spec_Config := spec_Config (hdb_Spec h);
    spec_Gateway := spec_Gateway (hdb_Spec h); spec_Console := spec_Console (hdb_Spec h);
    spec_AdminServer := two_replicas (spec_AdminServer (hdb_Spec h)); spec_HServer := spec_HServer (hdb_Spec h);
    spec_HStore := spec_HStore (hdb_Spec h); spec_HMeta := spec_HMeta (hdb_Spec h) |};
  hdb_Status := hdb_Status h |}.

Definition edit_all (s : store) : store := {|
  st_hdb := edit <$> st_hdb s; st_con := st_con s; st_ctpl := st_ctpl s;
  st_sts := st_sts s; st_dep := st_dep s; st_svc := st_svc s; st_cm := st_cm s |}.

Definition edited : world := {| w_store := edit_all (w_store after_faults); w_passes := [] |}.

Lemma sound_edit s : sound s -> sound (edit_all s).
Proof.
  intros [H1 H2 H3 H4 H5]. split; try done.
  - intros k nn o Ho. destruct k; try exact (H1 _ nn o Ho). cbn in Ho. rewrite lookup_fmap in Ho.
    apply fmap_Some in Ho as (h & Hh & ->). exact (H1 KHStreamDB nn h Hh).
  - intros nn h Hh. cbn in Hh. rewrite lookup_fmap in Hh. apply fmap_Some in Hh as (h0 & Hh0 & ->). exact (H2 nn h0 Hh0).
Qed.

Lemma edit_ok s : store_ok s -> store_ok (edit_all s).
Proof.
  intros [H1 H2 H3 H4 H5]. split; try done. intros nn h Hh. cbn in Hh. rewrite lookup_fmap in Hh.
  apply fmap_Some in Hh as (h0 & Hh0 & ->). exact (H1 nn h0 Hh0).
Qed.

Lemma edited_steps : rtc fault_step {| w_store := cr_store; w_passes := [] |} edited.
Proof.
  eapply rtc_r; [exact after_faults_steps|].
  apply fault_env, sound_edit, (fault_steps_sound _ _ cr_store_sound after_faults_steps).
Qed.

Lemma edited_hdb : exists h, st_hdb (w_store edited) !! cr_key = Some h /\ valid_spec h.
Proof.
  destruct after_faults_hdb as (h & Hh & [[V1 V2 V3 V4 V5 V6] H1 H2 H3 H4]). exists (edit h). split.
  - unfold edited. cbn [w_store edit_all st_hdb]. rewrite lookup_fmap, Hh. reflexivity.
  - split; [split; assumption|exact H1|exact H2|exact H3|exact H4].
Qed.

(** The replicas of the admin server, as stored. *)
Definition admin_replicas (s : store) : option (option Z) :=
  (fun d => dep_Replicas (dep_Spec d)) <$> st_dep s !! workload_key CreateDefaultCR ComponentTypeAdminServer.


(** *** Many clusters *)

(** Then a user creates a second cluster, with an argument on which every pass for it panics. *)
Definition broken : HStreamDB := {|
  hdb_Meta := cr_meta "broken" "default";
  hdb_Spec := {|
    spec_ExternalHMeta := None; spec_Config := spec_Config (hdb_Spec CreateDefaultCR);
    spec_Gateway := None; spec_Console := None;
    spec_AdminServer := spec_AdminServer (hdb_Spec CreateDefaultCR); spec_HServer := spec_HServer (hdb_Spec CreateDefaultCR);
    spec_HStore := spec_HStore (hdb_Spec CreateDefaultCR);
    spec_HMeta := {|
      comp_Image := "rqlite/rqlite:latest"; comp_ImagePullPolicy := "IfNotPresent"; comp_Replicas := 1;
      comp_Volumes := None; comp_InitContainers := None; comp_SidecarContainers := None;
      comp_Container := ctr_set_Args (Some ["-"]) ctr_zero; comp_NodeSelector := None; comp_NodeName := "";
      comp_PodSecurityContext := None; comp_Affinity := None; comp_Tolerations := None;
      comp_VolumeClaimTemplate := None |} |};
  hdb_Status := hdb_Status CreateDefaultCR |}.

Definition broken_key : NamespacedName := ObjectKey (hdb_Meta broken).

Definition two_clusters : world := {| w_store := put_hdb broken (w_store edited); w_passes := [] |}.

Lemma two_clusters_steps : rtc fault_step {| w_store := cr_store; w_passes := [] |} two_clusters.
Proof.
  eapply rtc_r; [exact edited_steps|]. apply fault_env, sound_put_hdb;
    [|exact (fault_steps_sound _ _ cr_store_sound edited_steps)].
  split; [apply (bool_decide_unpack _); vm_compute; exact I|]. split; [intros _|split]; vm_compute; discriminate.
Qed.

(** And a template with a connector. *)
Definition with_connector (s : store) : store := {|
  st_hdb := st_hdb s; st_con := st_con connector_store; st_ctpl := st_ctpl connector_store;
  st_sts := st_sts s; st_dep := st_dep s; st_svc := st_svc s; st_cm := st_cm s |}.

Definition installed : world := {| w_store := with_connector (w_store two_clusters); w_passes := [] |}.

Lemma connector_only nn con :
  st_con connector_store !! nn = Some con -> nn = con_key /\ con = CreateDefaultConnector "default".
Proof. intros H. change (({[con_key := CreateDefaultConnector "default"]} : gmap NamespacedName Connector) !! nn = Some con) in H. by apply lookup_singleton_Some in H as [<- <-]. Qed.

Lemma sound_with_connector s : sound s -> sound (with_connector s).
Proof.
  intros [H1 H2 H3 H4 H5]. split; try done. intros k nn o Ho. destruct k; try exact (H1 _ nn o Ho).
  - by apply connector_only in Ho as [-> ->].
  - change (({[ctpl_key := CreateDefaultConnectorTemplate]} : gmap NamespacedName ConnectorTemplate) !! nn = Some o) in Ho.
    by apply lookup_singleton_Some in Ho as [<- <-].
Qed.

Lemma with_connector_ok s : store_ok s -> store_ok (with_connector s).
Proof. intros [H1 H2 H3 H4 H5]. by split. Qed.

Lemma installed_steps : rtc fault_step {| w_store := cr_store; w_passes := [] |} installed.
Proof.
  eapply rtc_r; [exact two_clusters_steps|].
  apply fault_env, sound_with_connector, (fault_steps_sound _ _ cr_store_sound two_clusters_steps).
Qed.

Lemma installed_ok : store_ok (w_store installed).
Proof. apply with_connector_ok, put_hdb_ok, edit_ok, (proj1 (reachable_ok _ (pass_world_reachable 35))). Qed.

(** A name that ends like none of those that are taken. *)
Lemma stream01_harmless : harmless_stream "stream01".
Proof.
  intros ct u H. assert (Replace "stream01" underscore dash = "stream01") as Hs by (vm_compute; reflexivity).
  rewrite Hs in H. clear Hs. destruct ct; no_suffix u H.
Qed.

Lemma stream01_private : private_stream "stream01".
Proof.
  split; [exact stream01_harmless|]. intros sfx u Hsfx H.
  assert (Replace "stream01" underscore dash = "stream01") as Hs by (vm_compute; reflexivity). rewrite Hs in H. clear Hs.
  rewrite !elem_of_cons, elem_of_nil in Hsfx. destruct Hsfx as [->|[->|[->|[]]]]; no_suffix u H.
Qed.

Lemma installed_private : private_store (w_store installed).
Proof. intros nn con [-> ->]%connector_only. apply Forall_singleton, stream01_private. Qed.

(** The workers take the keys in turn. *)
Definition all_turns : list (weather * (controller * NamespacedName)) :=
  [(calm, (Clusters, broken_key)); (calm, (Connectors, con_key)); (calm, (Clusters, cr_key))] ++
  (calm, (Templates, ctpl_key)) :: [(calm, (Clusters, broken_key)); (calm, (Clusters, cr_key))] ++
  (calm, (Connectors, con_key)) :: [(calm, (Clusters, broken_key)); (calm, (Clusters, cr_key))].


Definition stream01_config : gmap string (jval (ConnectorJson := sample_ConnectorJson)) :=
  <["stream" := "stream01"]> {["index" := ctpl_Config (ctpl_Spec CreateDefaultConnectorTemplate)]}.

Lemma installed_paired :
  paired (st_con (w_store installed)) con_key ctpl_key (CreateDefaultConnector "default") CreateDefaultConnectorTemplate
    [stream01_config].
Proof.
  split; try reflexivity.
  - exists (Some {["index" := ctpl_Config (ctpl_Spec CreateDefaultConnectorTemplate)]}). split; [reflexivity|].
    vm_compute. reflexivity.
  - apply NoDup_singleton.
  - exact installed_private.
  - intros nn con stream' stream [-> _]%connector_only H. by destruct H.
Qed.


(** ** The work queue *)

(** A queue: the keys that are held, and those that are worked on. *)
#[local, refine] Instance sample_queue : WorkQueue (gset NamespacedName * gset NamespacedName) := {|
  wq_empty := (∅, ∅);
  held q nn := nn ∈ fst q;
  working q nn := nn ∈ snd q;
  Add k q := ({[k]} ∪ fst q, snd q);
  AddLater k q := ({[k]} ∪ fst q, snd q);
  Get k q q' := k ∈ fst q /\ (k ∉ snd q) /\ q' = (fst q ∖ {[k]}, {[k]} ∪ snd q);
  wq_Done k q := (fst q, snd q ∖ {[k]}) |}.
Proof.
  all: intros; cbn in *; try set_solver.
  - destruct H as (_ & _ & ->). cbn. destruct (decide (nn = k)); set_solver.
  - destruct H as (_ & _ & ->). cbn. set_solver.
Defined.

(** The queue after a worker has taken the key. *)
Definition handed_out (k : NamespacedName) (q : gset NamespacedName * gset NamespacedName) :
    gset NamespacedName * gset NamespacedName := (fst q ∖ {[k]}, {[k]} ∪ snd q).

Lemma handed_out_Get k q : k ∈ fst q -> k ∉ snd q -> Get k q (handed_out k q).
Proof. by intros. Qed.

(** The calls of a pass that runs on the ideal server, as steps of the system. *)
Lemma run_queue_steps wx req (p : prog Result) s r tr s' evs q tr0 seen :
  run (ideal wx) p s = (Done r, tr, s') ->
  rtc (queue_step (fun _ => True))
    (Build_system s evs q [{| job_req := req; job_trace := tr0; job_prog := p |}] seen)
    (Build_system s' evs q [{| job_req := req; job_trace := tr0 ++ tr; job_prog := Ret r |}] seen).
Proof.
  revert s tr tr0. induction p as [a|msg|c k IH]; intros s tr tr0; cbn [run].
  - intros [= -> <- ->]. by rewrite app_nil_r.
  - done.
  - pose proof (ideal_serves wx c s) as Hserve. destruct (ideal wx c s) as [rr s1].
    destruct (run (ideal wx) (k rr) s1) as [[o tr1] s2] eqn:E. intros [= -> <- ->].
    eapply rtc_l; [by apply (queue_call _ s s1 evs q [] req tr0 c k [] seen rr Hserve)|].
    replace (tr0 ++ Ev c rr :: tr1) with ((tr0 ++ [Ev c rr]) ++ tr1) by by rewrite <-app_assoc. by apply IH.
Qed.

(** A worker takes the key, and the pass runs to its end. *)
Lemma pass_queue_steps wx req s r tr s' q q' seen :
  run (ideal wx) (Reconcile (P := adminClientProvider) req) s = (Done r, tr, s') -> Get req q q' ->
  rtc (queue_step (fun _ => True)) (Build_system s [] q [] seen)
    (Build_system s' [] (finish req r q') []
      (note {| job_req := req; job_trace := tr; job_prog := Ret r |} seen)).
Proof.
  intros Hrun Hget. eapply rtc_l; [by apply (queue_start _ s [] req q q' [] seen)|].
  eapply rtc_r; [by apply (run_queue_steps wx req _ s r tr s' [] q' [] seen)|].
  apply (queue_finish _ s' [] q' [] req tr r [] seen).
Qed.

Lemma queue_reachable_steps sy sy' : queue_reachable sy -> rtc (queue_step (fun _ => True)) sy sy' -> queue_reachable sy'.
Proof. intros Hr H. induction H; [done|]. by eapply IHrtc, queue_next. Qed.

(** Started on the store of the user, the system comes to rest after two passes: no event, no key
    in the queue, no pass; and the stored status says that the cluster is ready. *)
Lemma no_lost_wakeup_witness :
  exists sy h, queue_reachable sy /\ st_hdb (sy_store sy) !! cr_key = Some h /\
    sy_events sy = [] /\ sy_jobs sy = [] /\ ~ held (sy_queue sy) cr_key /\ up_to_date sy cr_key h.
Proof.
  assert (run_result (ideal calm) first_pass cr_store = Done {| res_RequeueAfter := Second; res_err := None |}) as H1
    by (vm_compute; reflexivity).
  unfold run_result in H1. destruct (run (ideal calm) first_pass cr_store) as [[o1 tr1] s1] eqn:E1. cbn in H1. subst o1.
  assert (s1 = snd (run (ideal calm) first_pass cr_store)) as Hs1 by by rewrite E1.
  assert (run_result (ideal calm) first_pass (snd (run (ideal calm) first_pass cr_store)) = Done complete) as H2
    by (vm_compute; reflexivity).
  rewrite <-Hs1 in H2. unfold run_result in H2.
  destruct (run (ideal calm) first_pass s1) as [[o2 tr2] s2] eqn:E2. cbn in H2. subst o2.
  assert (is_Some (st_hdb s2 !! cr_key)) as [h Hh].
  { assert (s2 = snd (run (ideal calm) first_pass (snd (run (ideal calm) first_pass cr_store)))) as -> by by rewrite <-Hs1, E2.
    apply (bool_decide_unpack _). vm_compute. exact I. }
  clear Hs1. set (j r tr := {| job_req := cr_key; job_trace := tr; job_prog := Ret r |}).
  set (sy := Build_system (Q := gset NamespacedName * gset NamespacedName) s2 []
    (finish cr_key complete (handed_out cr_key (finish cr_key {| res_RequeueAfter := Second; res_err := None |}
      (handed_out cr_key (Add cr_key wq_empty))))) [] (note (j complete tr2) (note (j {| res_RequeueAfter := Second; res_err := None |} tr1) ∅))).
  assert (queue_reachable sy) as Hr.
  { apply (queue_reachable_steps (boot_system cr_store ∅)); [apply queue_init, cr_store_user|].
    eapply rtc_l.
    { assert (boot_system (Q := gset NamespacedName * gset NamespacedName) cr_store ∅ =
        Build_system cr_store ([] ++ cr_key :: []) wq_empty [] ∅) as -> by done. apply queue_deliver. }
    etrans; [eapply (pass_queue_steps calm cr_key cr_store _ tr1 s1); [exact E1|]|].
    { apply handed_out_Get; apply (bool_decide_unpack _); vm_compute; exact I. }
    eapply (pass_queue_steps calm cr_key s1 _ tr2 s2); [exact E2|].
    apply handed_out_Get; apply (bool_decide_unpack _); vm_compute; exact I. }
  assert (sy_events sy = []) as Hev by reflexivity. assert (sy_jobs sy = []) as Hjobs by reflexivity.
  assert (st_hdb (sy_store sy) !! cr_key = Some h) as Hstored by exact Hh.
  assert (~ held (sy_queue sy) cr_key) as Hq by (apply (bool_decide_unpack _); vm_compute; exact I).
  clearbody sy. exists sy, h. split; [exact Hr|]. split; [exact Hstored|]. split; [exact Hev|]. split; [exact Hjobs|].
  split; [exact Hq|]. destruct (no_lost_wakeup sy cr_key h Hr Hstored) as [[Hw|Hw]|[Hp|Hu]]; [| | |exact Hu]; exfalso.
  - rewrite Hev in Hw. exact (not_elem_of_nil _ Hw).
  - exact (Hq Hw).
  - unfold in_progress in Hp. rewrite Hjobs in Hp. exact (not_elem_of_nil _ Hp).
Defined.

(** ** The three controllers *)

(** The sample cluster, connector and template in one store. *)
Definition fleet_store : store := {|
  st_hdb := st_hdb cr_store; st_con := st_con connector_store; st_ctpl := st_ctpl connector_store;
  st_sts := ∅; st_dep := ∅; st_svc := ∅; st_cm := ∅ |}.

Lemma fleet_store_user : env_step empty_store fleet_store.
Proof. destruct cr_store_user. split; cbn; try done; intros nn x H; by rewrite lookup_empty in H. Qed.

Lemma fleet_store_harmless : harmless_store fleet_store.
Proof.
  intros nn con [-> ->]%connector_only. apply Forall_singleton, stream01_harmless.
Qed.

(** The first [n] calls of one pass, beside others, as steps of the fleet. *)
Lemma advance_fleet (P : event -> Prop) (I : store -> Prop) wx n (p : prog Result) ps s :
  (forall c s, I s -> P (Ev c (fst (ideal wx c s))) /\ I (snd (ideal wx c s))) -> I s ->
  rtc (fleet_step P) {| w_store := s; w_passes := p :: ps |}
    {| w_store := snd (advance (ideal wx) n p s); w_passes := fst (advance (ideal wx) n p s) :: ps |}.
Proof.
  intros HP. revert p s. induction n as [|n IH]; intros p s Hs; [by destruct p|].
  destruct p as [a|msg|c k]; [done..|]. pose proof (ideal_serves wx c s) as Hserve. destruct (HP c s Hs) as [HP1 Hs1].
  cbn [advance]. destruct (ideal wx c s) as [r s1]. eapply rtc_l; [|by apply IH].
  by apply (fleet_call P s s1 [] ps c k r).
Qed.

Lemma fleet_reachable_steps w w' : fleet_reachable w -> rtc (fleet_step (fun _ => True)) w w' -> fleet_reachable w'.
Proof. intros Hr H. induction H; [done|]. by eapply IHrtc, fleet_next. Qed.

(** The pass of a registered controller, [n] calls long, beside others. *)
Lemma fleet_pass (P : event -> Prop) (I : store -> Prop) r req n s ps :
  (forall c s, I s -> P (Ev c (fst (ideal calm c s))) /\ I (snd (ideal calm c s))) -> I s -> r ∈ controllers ->
  rtc (fleet_step P) {| w_store := s; w_passes := ps |}
    {| w_store := snd (advance (ideal calm) n (reg_Reconcile r req) s);
       w_passes := fst (advance (ideal calm) n (reg_Reconcile r req) s) :: ps |}.
Proof. intros HP Hs Hr. eapply rtc_l; [by apply (fleet_start P s ps r req)|]. by apply (advance_fleet P I). Qed.

(** The template is stored, then the connector's pass stops before its deployment is created. *)
Definition template_stored : store :=
  snd (advance (ideal calm) 4 (ConnectorTemplateReconciler_Reconcile ctpl_key) fleet_store).

Definition connector_pass : prog Result * store :=
  advance (ideal calm) 6 (ConnectorReconciler_Reconcile con_key) template_stored.

Definition template_pass : prog Result :=
  fst (advance (ideal calm) 4 (reg_Reconcile ConnectorTemplateReconciler_SetupWithManager ctpl_key) fleet_store).

Lemma connector_pass_reachable :
  fleet_reachable {| w_store := snd connector_pass; w_passes := [fst connector_pass; template_pass] |}.
Proof.
  eapply fleet_reachable_steps; [exact (fleet_init fleet_store fleet_store_user fleet_store_harmless)|].
  assert (forall n r req s ps, r ∈ controllers -> rtc (fleet_step (fun _ => True)) {| w_store := s; w_passes := ps |}
    {| w_store := snd (advance (ideal calm) n (reg_Reconcile r req) s);
       w_passes := fst (advance (ideal calm) n (reg_Reconcile r req) s) :: ps |}) as Hpass.
  { intros n r req s ps Hr. by apply (fleet_pass _ (fun _ => True)). }
  eapply rtc_trans; [|unfold connector_pass, template_stored, template_pass].
  - exact (Hpass 4 ConnectorTemplateReconciler_SetupWithManager ctpl_key fleet_store []
      (list_elem_of_further _ _ _ (list_elem_of_further _ _ _ (list_elem_of_here _ _)))).
  - exact (Hpass 6 ConnectorReconciler_SetupWithManager con_key _ _ (list_elem_of_further _ _ _ (list_elem_of_here _ _))).
Qed.

(** A pass of the cluster runs to its end. Then the user asks for two replicas of HMeta and for a
    volume claim, and the next pass is stopped before it updates the stateful set. *)
Definition claim_hmeta (h : HStreamDB) : HStreamDB := {|
  hdb_Meta := hdb_Meta h;
  hdb_Spec := {|
    spec_ExternalHMeta := spec_ExternalHMeta (hdb_Spec h); spec_Config := spec_Config (hdb_Spec h);
    spec_Gateway := spec_Gateway (hdb_Spec h); spec_Console := spec_Console (hdb_Spec h);
    spec_AdminServer := spec_AdminServer (hdb_Spec h); spec_HServer := spec_HServer (hdb_Spec h);
    spec_HStore := spec_HStore (hdb_Spec h);
    spec_HMeta :=
      let c := spec_HMeta (hdb_Spec h) in {|
        comp_Image := comp_Image c; comp_ImagePullPolicy := comp_ImagePullPolicy c; comp_Replicas := 2;
        comp_Volumes := comp_Volumes c; comp_InitContainers := comp_InitContainers c;
        comp_SidecarContainers := comp_SidecarContainers c; comp_Container := comp_Container c;
        comp_NodeSelector := comp_NodeSelector c; comp_NodeName := comp_NodeName c;
        comp_PodSecurityContext := comp_PodSecurityContext c; comp_Affinity := comp_Affinity c;
        comp_Tolerations := comp_Tolerations c;
        comp_VolumeClaimTemplate := Some {| pvct_Meta := meta_zero;
          pvct_Spec := {| pvcs_AccessModes := None; pvcs_Requests := None; pvcs_rest := None |} |} |} |};
  hdb_Status := hdb_Status h |}.

Definition deployed_store : store := snd (advance (ideal calm) 200 first_pass fleet_store).

Definition claim_all (s : store) : store := {|
  st_hdb := claim_hmeta <$> st_hdb s; st_con := st_con s; st_ctpl := st_ctpl s;
  st_sts := st_sts s; st_dep := st_dep s; st_svc := st_svc s; st_cm := st_cm s |}.

Definition claimed_store : store := claim_all deployed_store.

Definition hmeta_pass : prog Result * store := advance (ideal calm) 9 first_pass claimed_store.

Lemma claim_all_env s : store_ok s -> env_step s (claim_all s).
Proof.
  intros Hs. split; cbn.
  - intros nn h Hh. rewrite lookup_fmap in Hh. apply fmap_Some in Hh as (h0 & Hh0 & ->). exact (ok_hdb _ Hs nn h0 Hh0).
  - intros nn x Hx. split; [by apply (ok_sts _ Hs)|]. left. exists x. done.
  - intros nn x Hx. split; [by apply (ok_dep _ Hs)|]. left. exists x. done.
  - apply (ok_svc _ Hs).
  - apply (ok_cm _ Hs).
  - intros ns name x Hx. by exists x.
Qed.

Lemma claim_all_kept key s ps :
  store_ok s -> harmless_store s ->
  kept_step key {| w_store := s; w_passes := ps |} {| w_store := claim_all s; w_passes := ps |}.
Proof. intros Hs Hh. split; [|done]. apply fleet_env; [by apply claim_all_env|exact Hh]. Qed.

Lemma deployed_reachable : fleet_reachable {| w_store := deployed_store; w_passes := [] |}.
Proof.
  eapply fleet_reachable_steps; [exact (fleet_init fleet_store fleet_store_user fleet_store_harmless)|].
  eapply rtc_r; [apply (fleet_pass _ (fun _ => True) HStreamDBReconciler_SetupWithManager cr_key 200 fleet_store []);
    [done..|apply list_elem_of_here]|].
  apply (fleet_end _ _ [] []).
Qed.

Lemma ideal_keeps_sts wx key c s : is_Some (st_sts s !! key) -> is_Some (st_sts (snd (ideal wx c s)) !! key).
Proof.
  intros Hs. destruct c as [k nn|o|o|h| | | | | | | | |]; try exact Hs; cbn [ideal].
  - case_decide; [exact Hs|]. destruct o as [x|x|x|x]; try exact Hs. simpl. rewrite lookup_insert_is_Some'. by right.
  - case_decide; [|exact Hs]. destruct o as [x|x|x|x]; try exact Hs. simpl. rewrite lookup_insert_is_Some'. by right.
  - destruct (st_hdb s !! _); exact Hs.
Qed.

Lemma advance_kept key n (p : prog Result) s :
  rtc (kept_step key) {| w_store := s; w_passes := [p] |}
    {| w_store := snd (advance (ideal calm) n p s); w_passes := [fst (advance (ideal calm) n p s)] |}.
Proof.
  revert p s. induction n as [|n IH]; intros p s; [by destruct p|].
  destruct p as [a|msg|c k]; [done..|]. pose proof (ideal_serves calm c s) as Hserve.
  pose proof (ideal_keeps_sts calm key c s) as Hk. cbn [advance]. destruct (ideal calm c s) as [r s1].
  eapply rtc_l; [|apply IH]. split; [by apply (fleet_call _ s s1 [] [] c k r)|exact Hk].
Qed.

Lemma pass_kept key n s :
  rtc (kept_step key) {| w_store := s; w_passes := [] |}
    {| w_store := snd (advance (ideal calm) n first_pass s); w_passes := [fst (advance (ideal calm) n first_pass s)] |}.
Proof.
  eapply rtc_l; [|apply advance_kept]. split; [|done].
  apply (fleet_start _ s [] HStreamDBReconciler_SetupWithManager cr_key), list_elem_of_here.
Qed.

Lemma advance_con {A} n (p : prog A) s : st_con (snd (advance (ideal calm) n p s)) = st_con s.
Proof.
  revert p s. induction n as [|n IH]; intros p s; [by destruct p|]. destruct p as [a|msg|c k]; [done..|].
  pose proof (served_con _ _ _ _ (ideal_serves calm c s)) as Hs. cbn [advance].
  destruct (ideal calm c s) as [r s1]. by rewrite IH.
Qed.

Lemma hmeta_pass_kept key :
  rtc (kept_step key) {| w_store := deployed_store; w_passes := [] |}
    {| w_store := snd hmeta_pass; w_passes := [fst hmeta_pass] |}.
Proof.
  eapply rtc_l; [apply (claim_all_kept key deployed_store [])|exact (pass_kept key 9 claimed_store)].
  - exact (proj1 (fleet_reachable_ok _ deployed_reachable)).
  - intros nn con Hc. apply (fleet_store_harmless nn). rewrite <-(advance_con 200 first_pass fleet_store). exact Hc.
Qed.


Lemma fleet_shards_fixed_witness :
  let w := pass_world 19 resharded_store in
  shards_stored (w_store w) cr_key (Some 1%Z) /\
  exists x, next_write <$> head (w_passes w) = Some (Some (OStatefulSet x)) /\
    meta_Name (sts_Meta x) = "hstreamdb-sample-hstore" /\ mounts_shards cr_key 1 x.
Proof.
  intros w.
  assert (rtc (fleet_step (fun e => forall err, e <> Ev (CGet KConfigMap (nshards_key cr_key)) (inl err)))
    {| w_store := resharded_store; w_passes := [] |} w) as Hrtc.
  { refine (fleet_pass _ (fun s => is_Some (st_cm s !! nshards_key cr_key)) HStreamDBReconciler_SetupWithManager cr_key 19
      resharded_store [] _ _ _).
    - intros c s Hs. apply (ideal_has_cm calm _ c s Hs).
    - destruct (resharded_one_shard 1%Z eq_refl) as (cm & H & _). exists cm. exact H.
    - apply list_elem_of_here. }
  assert (harmless_store resharded_store) as Hharm.
  { intros nn con Hcon. exfalso. assert (st_con resharded_store = ∅) as He by (vm_compute; reflexivity).
    rewrite He, lookup_empty in Hcon. discriminate Hcon. }
  destruct (fleet_shards_fixed cr_key 1 resharded_store w ltac:(unfold int32_ok; lia) resharded_store_ok Hharm
    resharded_one_shard Hrtc) as [Hs Hx].
  split; [exact Hs|].
  destruct resharded_next as (x & E & Hk). exists x. split; [exact (f_equal Some E)|].
  split; [exact (f_equal nn_Name Hk)|]. apply Hx; [apply (next_write_pending _ _ _ E)|]. rewrite Hk. reflexivity.
Defined.

(** A cluster [x-hc] and a connector [x] with a stream [admin-server]. *)
Definition taken_hdb : HStreamDB := {|
  hdb_Meta := cr_meta "x-hc" "default"; hdb_Spec := hdb_Spec CreateDefaultCR; hdb_Status := hdb_Status CreateDefaultCR |}.
Definition taking_connector : Connector := {|
  con_Meta := cr_meta "x" "default"; con_Spec := con_Spec (CreateDefaultConnector "default") |}.

Lemma stream_takes_component_witness :
  exists d s, addAdminServer.getDeployment taken_hdb = Done d /\
    st_dep s !! workload_key taken_hdb ComponentTypeAdminServer =
      Some (connector_deployment taking_connector "admin_server" "x-hc-admin-server") /\
    ~ acceptable s (ODeployment (copy_dep_spec d (connector_deployment taking_connector "admin_server" "x-hc-admin-server"))).
Proof.
  destruct (addAdminServer.getDeployment taken_hdb) as [d|msg] eqn:E; [|exfalso; vm_compute in E; discriminate E].
  pose proof (addAdminServer_built _ _ E) as Hb. set (taken := connector_deployment _ _ _).
  exists d, (put (ODeployment taken) empty_store). split; [reflexivity|].
  assert (st_dep (put (ODeployment taken) empty_store) !! ObjectKey (dep_Meta taken) = Some taken) as Hs by apply lookup_insert_eq.
  destruct (stream_takes_component taken_hdb taking_connector "admin_server" ComponentTypeAdminServer "x-hc-admin-server" d
    eq_refl ltac:(vm_compute; reflexivity) ltac:(vm_compute; reflexivity) Hb) as [Hk Hno].
  split; [exact Hs|]. apply Hno. rewrite <-Hk. exact Hs.
Defined.

(** ** Access *)

Lemma controllers_authorised_witness :
  exec (ConnectorReconciler_Reconcile con_key) [Ev (CGet KConnector con_key) (inl not_found)] (Done (result None)) /\
  authorised (main_markers ++ connector_markers) (CGet KConnector con_key) /\
  authorised chart_role (CGet KConnector con_key) /\
  grants chart_role ("apps.hstream.io", "connectors/finalizers", "update") = false.
Proof.
  assert (exec (ConnectorReconciler_Reconcile con_key) [Ev (CGet KConnector con_key) (inl not_found)] (Done (result None))) as He.
  { exists (inl not_found), []. split; [reflexivity|]. split; reflexivity. }
  split; [exact He|].
  destruct (controllers_authorised ConnectorReconciler_SetupWithManager (main_markers ++ connector_markers) con_key
    [Ev (CGet KConnector con_key) (inl not_found)] (Done (result None))) as (Hcalls & _ & _ & _ & Hfin & _).
  { apply list_elem_of_further, list_elem_of_here. }
  specialize (Hcalls He). apply Forall_singleton in Hcalls as [H1 H2]. split; [exact H1|]. split; [exact H2|].
  apply not_true_iff_false. intros H. apply Hfin in H. discriminate H.
Defined.
